(** * NachOS (MP2 address spaces, MP3 scheduler, MP4 file system)

    A shallow embedding of the kernel routines of
    [userprog/addrspace.cc], [threads/scheduler.cc], [filesys/filehdr.cc],
    [filesys/directory.cc], [filesys/filesys.cc] and [userprog/ksyscall.h],
    with the properties the specification states about them and further
    properties that the code shows.

    Conventions.
    - C++ [int] and [unsigned int] values are integers of [Z]; where the
      code converts between the two, the conversion is written out
      ([to_int], [to_uint]).
    - A routine that can stop without returning (a failed [ASSERT], an
      exception handler that does not come back, an access outside an
      array) returns a value of [Run]: [Ok] for a normal return, [Stop]
      with the reason otherwise.
    - A pointer to an object that the code mutates in place is an index
      into an explicit store. *)

From Stdlib Require Import ZArith List Bool Lia Sorted Permutation.
From Stdlib Require String Ascii.
Import ListNotations.
Open Scope Z_scope.

(** ** Machine integers *)

Definition two32 : Z := 4294967296.
Definition two31 : Z := 2147483648.

(** Conversion of a value to [unsigned int]. *)
Definition to_uint (x : Z) : Z := x mod two32.

(** Conversion of a value to [int] (two's complement). *)
Definition to_int (x : Z) : Z := (x + two31) mod two32 - two31.

(** The values of an [int]. *)
Definition fits_int (x : Z) : Prop := - two31 <= x < two31.

(** Modelled from the spec: [divRoundUp] and [divRoundDown] of
    [lib/utility.h], which is not among the sources: the quotient rounded
    up and rounded down.  [/] and [%] of C++ round towards zero. *)
Definition divRoundDown (n s : Z) : Z := Z.quot n s.
Definition divRoundUp (n s : Z) : Z :=
  Z.quot n s + (if Z.rem n s >? 0 then 1 else 0).

(** ** Outcomes of a routine *)

Inductive StopReason : Type :=
| AssertionFailed      (* an ASSERT did not hold: the kernel aborts *)
| OutOfBounds          (* read or write outside an array *)
| NullPointer          (* a NULL string or object was dereferenced *)
| OutOfFuel.           (* the recursion bound of the model was reached *)

Inductive Run (A : Type) : Type :=
| Ok (a : A)
| Stop (why : StopReason).
Arguments Ok {A} a.
Arguments Stop {A} why.

Definition bind {A B} (m : Run A) (f : A -> Run B) : Run B :=
  match m with
  | Ok a => f a
  | Stop w => Stop w
  end.

Notation "'do' x <- m ; k" := (bind m (fun x => k))
  (at level 10, x pattern, m at level 100, k at level 200).

Definition assert (b : bool) : Run unit :=
  if b then Ok tt else Stop AssertionFailed.

(** In-place update of an array slot; [None] when the index is outside. *)
Fixpoint list_set {A} (l : list A) (n : nat) (x : A) : option (list A) :=
  match l, n with
  | [], _ => None
  | _ :: t, O => Some (x :: t)
  | h :: t, S n' =>
      match list_set t n' x with
      | Some t' => Some (h :: t')
      | None => None
      end
  end.

(** * Address spaces ([userprog/addrspace.cc]) *)

Module AddrSpace.

Inductive ExceptionType : Type :=
| NoException
| PageFaultException
| ReadOnlyException
| BusErrorException
| AddressErrorException
| MemoryLimitException.

(** [TranslationEntry] of [machine/translate.h]. *)
Record TranslationEntry : Type := mkEntry {
  virtualPage : Z;
  physicalPage : Z;
  valid : bool;
  use : bool;
  dirty : bool;
  readOnly : bool
}.

Definition set_use (e : TranslationEntry) (b : bool) : TranslationEntry :=
  mkEntry (virtualPage e) (physicalPage e) (valid e) b (dirty e) (readOnly e).
Definition set_dirty (e : TranslationEntry) (b : bool) : TranslationEntry :=
  mkEntry (virtualPage e) (physicalPage e) (valid e) (use e) b (readOnly e).
Definition set_readOnly (e : TranslationEntry) (b : bool) : TranslationEntry :=
  mkEntry (virtualPage e) (physicalPage e) (valid e) (use e) (dirty e) b.

(** The entry that a successful translation leaves in the page table:
    [use] is set, and [dirty] too when the access is a write. *)
Definition touched (pte : TranslationEntry) (isWrite : bool) : TranslationEntry :=
  mkEntry (virtualPage pte) (physicalPage pte) (valid pte)
    true (isWrite || dirty pte) (readOnly pte).

(** The two data members of [AddrSpace]. *)
Record AddrSpace : Type := mkSpace {
  pageTable : list TranslationEntry;
  numPages : Z
}.

(** One segment descriptor and the header of a NOFF file ([userprog/noff.h]).
    The header is taken in host byte order, so [SwapHeader] has nothing
    to do; the fields are C++ [int]s. *)
Record Segment : Type := mkSeg {
  virtualAddr : Z;
  inFileAddr : Z;
  size : Z
}.

Record NoffHeader : Type := mkNoff {
  noffMagic : Z;
  code : Segment;
  readonlyData : Segment;
  initData : Segment;
  uninitData : Segment
}.

(** The part of [Kernel] that [Load] touches: [FrameTable[i] = 1] marks
    frame [i] free, [0] marks it used; [FreeFrame] counts the free
    frames.  The bytes of [mainMemory] are not tracked: [bzero] and
    [ReadAt] only store bytes there, and no property below reads them. *)
Record Kernel : Type := mkKernel {
  FrameTable : list Z;
  FreeFrame : Z
}.

(** How a call of [Load] ends: it returns; or [ExceptionHandler] was
    entered with exception [e], in kernel state [k], and did not give
    control back; or the run stops for one of the reasons of [Run]. *)
Inductive LoadM (A : Type) : Type :=
| Returns (a : A)
| Raises (e : ExceptionType) (k : Kernel) (sp : AddrSpace)
| Aborts (why : StopReason).
Arguments Returns {A} a.
Arguments Raises {A} e k sp.
Arguments Aborts {A} why.

Definition lbind {A B} (m : LoadM A) (f : A -> LoadM B) : LoadM B :=
  match m with
  | Returns a => f a
  | Raises e k sp => Raises e k sp
  | Aborts w => Aborts w
  end.

Definition lift {A} (m : Run A) : LoadM A :=
  match m with
  | Ok a => Returns a
  | Stop w => Aborts w
  end.

Section Machine.

(** Constants of [machine/machine.h], which is not among the sources. *)
Variables PageSize NumPhysPages MemorySize : Z.

(** The type of [NumPhysPages], which the same header declares:
    [true] for an [int], [false] for an [unsigned int].  It decides how
    C++ compares [pfn >= NumPhysPages] in [Translate], where [pfn] is an
    [int]: as two [int]s in the first case; in the second [pfn] is
    converted to [unsigned int] first. *)
Variable NumPhysPages_is_int : bool.

Definition frame_too_big (pfn : Z) : bool :=
  if NumPhysPages_is_int then NumPhysPages <=? pfn
  else NumPhysPages <=? to_uint pfn.

(** [AddrSpace::Translate].  [vaddr] is an [unsigned int]; [paddr] is
    the value the caller's variable holds before the call, and the second
    component of the result is its value afterwards.  The frame number
    of the entry is copied into the local [int pfn], which the bound
    check and the address are computed from. *)
Definition Translate (sp : AddrSpace) (vaddr paddr : Z) (isReadWrite : bool)
  : Run (ExceptionType * Z * AddrSpace) :=
  let vpn := vaddr / PageSize in
  let offset := vaddr mod PageSize in
  if numPages sp <=? vpn then Ok (AddressErrorException, paddr, sp)
  else
    match nth_error (pageTable sp) (Z.to_nat vpn) with
    | None => Stop OutOfBounds
    | Some pte =>
        if isReadWrite && readOnly pte then Ok (ReadOnlyException, paddr, sp)
        else
          let pfn := to_int (physicalPage pte) in
          if frame_too_big pfn then Ok (BusErrorException, paddr, sp)
          else
            let pte1 := set_use pte true in
            let pte2 := if isReadWrite then set_dirty pte1 true else pte1 in
            match list_set (pageTable sp) (Z.to_nat vpn) pte2 with
            | None => Stop OutOfBounds
            | Some pt' =>
                let p := to_uint (pfn * PageSize + offset) in
                do _ <- assert (p <? MemorySize);
                Ok (NoException, p, mkSpace pt' (numPages sp))
            end
    end.


(** *** Loading an executable *)

Variables NOFFMAGIC UserStackSize : Z.

(** [ExceptionHandler] of [userprog/exception.cc], which is not among the
    sources: [None] when the handler does not return to its caller (it
    halts or aborts the kernel), [Some k'] when it returns, leaving the
    kernel in state [k']. *)
Variable ExceptionHandler : ExceptionType -> Kernel -> option Kernel.

Definition raise (e : ExceptionType) (k : Kernel) (sp : AddrSpace) : LoadM Kernel :=
  match ExceptionHandler e k with
  | Some k' => Returns k'
  | None => Raises e k sp
  end.

(** The frame-claiming loop [for (int i = 0; i < NumPhysPages; i++)];
    [n] counts the iterations left. *)
Fixpoint claim_frames (n : nat) (i idx : Z) (np : Z) (k : Kernel)
    (pt : list TranslationEntry) : Run (Kernel * list TranslationEntry) :=
  match n with
  | O => Ok (k, pt)
  | S n' =>
      if idx =? np then Ok (k, pt)
      else
        match nth_error (FrameTable k) (Z.to_nat i) with
        | None => Stop OutOfBounds
        | Some f =>
            if f =? 1 then
              match list_set pt (Z.to_nat idx) (mkEntry idx i true false false false),
                    list_set (FrameTable k) (Z.to_nat i) 0 with
              | Some pt', Some ft' =>
                  claim_frames n' (i + 1) (idx + 1) np
                    (mkKernel ft' (FreeFrame k - 1)) pt'
              | _, _ => Stop OutOfBounds
              end
            else claim_frames n' (i + 1) idx np k pt
        end
  end.

(** One [Translate] of [Load], with the check that follows the [ReadAt]:
    [exception != NoException] calls [ExceptionHandler]. *)
Definition translate_checked (k : Kernel) (sp : AddrSpace) (vaddr paddr : Z)
  : LoadM (Kernel * AddrSpace * Z) :=
  lbind (lift (Translate sp (to_uint vaddr) paddr false)) (fun r =>
    let '(exception, paddr', sp') := r in
    match exception with
    | NoException => Returns (k, sp', paddr')
    | _ => lbind (raise exception k sp') (fun k' => Returns (k', sp', paddr'))
    end).

(** The loop [while (remainSize > 0)] that copies one segment page by
    page and sets [readOnly] of each page it touches to [ro]. *)
Fixpoint copy_segment (fuel : nat) (ro : bool)
    (remainSize insertBase inFilePos : Z)
    (k : Kernel) (sp : AddrSpace) (paddr : Z)
  : LoadM (Kernel * AddrSpace * Z) :=
  if remainSize >? 0 then
    match fuel with
    | O => Aborts OutOfFuel
    | S fuel' =>
        let insertSize := Z.min remainSize PageSize in
        lbind (translate_checked k sp insertBase paddr) (fun r =>
          let '(k1, sp1, paddr1) := r in
          let vpn := to_uint (Z.quot insertBase PageSize) in
          match nth_error (pageTable sp1) (Z.to_nat vpn) with
          | None => Aborts OutOfBounds
          | Some pte =>
              match list_set (pageTable sp1) (Z.to_nat vpn) (set_readOnly pte ro) with
              | None => Aborts OutOfBounds
              | Some pt' =>
                  copy_segment fuel' ro (remainSize - insertSize)
                    (insertBase + insertSize) (inFilePos + insertSize)
                    k1 (mkSpace pt' (numPages sp1)) paddr1
              end
          end)
    end
  else Returns (k, sp, paddr).

(** [AddrSpace::Load], compiled with [RDATA].  [executable] is the
    header read from the opened file ([None] when the file cannot be
    opened); [junk] is what the fresh [new TranslationEntry[numPages]]
    holds and [paddr] what the local [paddr] holds before their first
    assignment. *)
Definition Load (k : Kernel) (sp : AddrSpace) (executable : option NoffHeader)
    (junk : TranslationEntry) (paddr : Z) : LoadM (bool * Kernel * AddrSpace) :=
  match executable with
  | None => Returns (false, k, sp)
  | Some noffH =>
      lbind (lift (assert (noffMagic noffH =? NOFFMAGIC))) (fun _ =>
      let size0 := to_uint (size (code noffH) + size (readonlyData noffH)
                            + size (initData noffH) + size (uninitData noffH)
                            + UserStackSize) in
      let np := divRoundUp size0 PageSize in
      let sp0 := mkSpace (pageTable sp) np in
      lbind (if np >? to_uint (FreeFrame k)
             then raise MemoryLimitException k sp0 else Returns k) (fun k0 =>
      let fresh := repeat junk (Z.to_nat np) in
      lbind (lift (claim_frames (Z.to_nat NumPhysPages) 0 0 np k0 fresh)) (fun r =>
      let '(k1, pt1) := r in
      let sp1 := mkSpace pt1 np in
      lbind (let s := code noffH in
             copy_segment (Z.to_nat (size s)) true (size s) (virtualAddr s)
               (inFileAddr s) k1 sp1 paddr) (fun r =>
      let '(k2, sp2, paddr2) := r in
      lbind (let s := initData noffH in
             if size s >? 0 then
               lbind (translate_checked k2 sp2 (virtualAddr s) paddr2) (fun r =>
               let '(k', sp', paddr') := r in
               copy_segment (Z.to_nat (size s)) false (size s) (virtualAddr s)
                 (inFileAddr s) k' sp' paddr')
             else Returns (k2, sp2, paddr2)) (fun r =>
      let '(k3, sp3, paddr3) := r in
      lbind (let s := readonlyData noffH in
             copy_segment (Z.to_nat (size s)) true (size s) (virtualAddr s)
               (inFileAddr s) k3 sp3 paddr3) (fun r =>
      let '(k4, sp4, _) := r in
      Returns (true, k4, sp4)))))))
  end.

(** The number of pages [Load] computes for a header. *)
Definition pages_needed (noffH : NoffHeader) : Z :=
  divRoundUp (to_uint (size (code noffH) + size (readonlyData noffH)
                       + size (initData noffH) + size (uninitData noffH)
                       + UserStackSize)) PageSize.

(** An entry that names a frame of the machine, and a page table in
    which every entry does. *)
Definition names_frame (e : TranslationEntry) : Prop :=
  0 <= physicalPage e < NumPhysPages.

Definition loaded (sp : AddrSpace) : Prop :=
  Forall names_frame (pageTable sp)
  /\ Z.of_nat (length (pageTable sp)) = numPages sp
  /\ numPages sp <= NumPhysPages.

(** A segment that is empty or lies inside an address space of [np]
    pages. *)
Definition segment_inside (np : Z) (s : Segment) : Prop :=
  size s <= 0 \/ (0 <= virtualAddr s /\ virtualAddr s + size s <= np * PageSize).

End Machine.

(** The number of frames that [FrameTable] marks free. *)
Fixpoint count_free (frames : list Z) : Z :=
  match frames with
  | [] => 0
  | f :: rest => (if f =? 1 then 1 else 0) + count_free rest
  end.

(** *** Giving the frames back *)

(** [AddrSpace::~AddrSpace]: the loop
    [for (int i = 0; i < numPages; i++)], which marks the frame of every
    page free and counts it; [n] counts the iterations left.
    [physicalPage] indexes [FrameTable] as an [unsigned int]. *)
Fixpoint release_frames (n : nat) (i : Z) (sp : AddrSpace) (k : Kernel) : Run Kernel :=
  match n with
  | O => Ok k
  | S n' =>
      match nth_error (pageTable sp) (Z.to_nat i) with
      | None => Stop OutOfBounds
      | Some pte =>
          if physicalPage pte <? 0 then Stop OutOfBounds
          else
            match list_set (FrameTable k) (Z.to_nat (physicalPage pte)) 1 with
            | None => Stop OutOfBounds
            | Some ft' =>
                release_frames n' (i + 1) sp (mkKernel ft' (FreeFrame k + 1))
            end
      end
  end.

(** [AddrSpace::~AddrSpace].  The page table itself, which the
    destructor deletes, is not part of the kernel state. *)
Definition destructor (sp : AddrSpace) (k : Kernel) : Run Kernel :=
  release_frames (Z.to_nat (numPages sp)) 0 sp k.

(** *** The frames a load takes *)

(** The three functions below are not code of [addrspace.cc]: they say
    which frames the frame-claiming loop of [Load] takes, what it leaves
    of the frame table and what it writes into the page table. *)

(** The numbers of the free frames of a frame table whose first entry
    is frame [i], in increasing order. *)
Fixpoint free_frames (i : Z) (frames : list Z) : list Z :=
  match frames with
  | [] => []
  | f :: rest =>
      if f =? 1 then i :: free_frames (i + 1) rest
      else free_frames (i + 1) rest
  end.

(** A frame table with its first [m] free frames marked used. *)
Fixpoint take_frames (m : nat) (frames : list Z) : list Z :=
  match m, frames with
  | O, _ => frames
  | _, [] => []
  | S m', f :: rest =>
      if f =? 1 then 0 :: take_frames m' rest
      else f :: take_frames m rest
  end.

(** The page table entries for the virtual pages [idx], [idx + 1], ...
    in the frames [frames]: valid, not used, not dirty, writable. *)
Fixpoint fresh_entries (idx : Z) (frames : list Z) : list TranslationEntry :=
  match frames with
  | [] => []
  | f :: rest => mkEntry idx f true false false false :: fresh_entries (idx + 1) rest
  end.

(** *** Concrete machines *)

(** A machine of four frames of 128 bytes. *)
Definition small_table : list TranslationEntry :=
  [mkEntry 0 3 true false false false; mkEntry 1 1 true false false true].

Definition small_space : AddrSpace := mkSpace small_table 2.

(** A NOFF header: 100 bytes of code at address 0, 20 bytes of
    initialized data at address 128. *)
Definition magic : Z := 12246957.

Definition small_noff : NoffHeader :=
  mkNoff magic (mkSeg 0 40 100) (mkSeg 0 0 0) (mkSeg 128 140 20) (mkSeg 0 0 0).

Definition blank_entry : TranslationEntry := mkEntry 0 0 false false false false.

(** A handler that never returns, and one that returns at once. *)
Definition halting_handler (e : ExceptionType) (k : Kernel) : option Kernel := None.
Definition resuming_handler (e : ExceptionType) (k : Kernel) : option Kernel := Some k.

(** A machine of eight frames of which six are free. *)
Definition eight_frames : Kernel := mkKernel [1; 0; 1; 1; 1; 1; 0; 1] 6.

End AddrSpace.

(** * The multi-level feedback scheduler ([threads/scheduler.cc]) *)

Module Sched.

Inductive ThreadStatus : Type :=
| JUST_CREATED | RUNNING | READY | BLOCKED | ZOMBIE.

(** The scheduling data of a [Thread] ([threads/thread.h] is not among the
    sources; the fields are those the scheduler reads and writes, taken
    as integers). *)
Record Thread : Type := mkThread {
  ID : Z;
  status : ThreadStatus;
  priority : Z;
  remain_burst : Z;
  approx_burst : Z;
  true_burst : Z;
  insert_ready_time : Z;
  total_ready_time : Z
}.

Definition set_status (t : Thread) (s : ThreadStatus) : Thread :=
  mkThread (ID t) s (priority t) (remain_burst t) (approx_burst t)
    (true_burst t) (insert_ready_time t) (total_ready_time t).
Definition set_priority (t : Thread) (p : Z) : Thread :=
  mkThread (ID t) (status t) p (remain_burst t) (approx_burst t)
    (true_burst t) (insert_ready_time t) (total_ready_time t).
Definition set_remain_burst (t : Thread) (b : Z) : Thread :=
  mkThread (ID t) (status t) (priority t) b (approx_burst t)
    (true_burst t) (insert_ready_time t) (total_ready_time t).
Definition set_true_burst (t : Thread) (b : Z) : Thread :=
  mkThread (ID t) (status t) (priority t) (remain_burst t) (approx_burst t)
    b (insert_ready_time t) (total_ready_time t).
Definition set_insert_ready_time (t : Thread) (x : Z) : Thread :=
  mkThread (ID t) (status t) (priority t) (remain_burst t) (approx_burst t)
    (true_burst t) x (total_ready_time t).
Definition set_total_ready_time (t : Thread) (x : Z) : Thread :=
  mkThread (ID t) (status t) (priority t) (remain_burst t) (approx_burst t)
    (true_burst t) (insert_ready_time t) x.

(** A [Thread *] is an address; the heap maps addresses to thread
    objects, and the queues hold addresses. *)
Definition ptr : Type := nat.
Definition Heap : Type := ptr -> Thread.

Definition store (h : Heap) (p : ptr) (t : Thread) : Heap :=
  fun q => if Nat.eqb q p then t else h q.

(** The kernel state the scheduler works on: the thread objects, the
    three ready queues of [Scheduler], [kernel->currentThread],
    [kernel->stats->totalTicks] and whether interrupts are off. *)
Record Kernel : Type := mkKernel {
  threads : Heap;
  L1 : list ptr;
  L2 : list ptr;
  L3 : list ptr;
  currentThread : ptr;
  totalTicks : Z;
  intOff : bool
}.

Definition comp_L1 (h : Heap) (x y : ptr) : Z :=
  if (remain_burst (h x) =? 0) && (remain_burst (h y) =? 0) then
    if priority (h x) >? priority (h y) then -1
    else if priority (h x) =? priority (h y) then 0
    else 1
  else
    if remain_burst (h x) >? remain_burst (h y) then 1
    else if remain_burst (h x) =? remain_burst (h y) then 0
    else -1.

Definition comp_L2 (h : Heap) (x y : ptr) : Z :=
  if priority (h x) >? priority (h y) then -1
  else if priority (h x) =? priority (h y) then 0
  else 1.

(** Modelled from the spec: [SortedList::Insert] of [lib/list.h], which is
    not among the sources.  The comparator defines the order and ties are
    broken by insertion order: the item goes in front of the first
    element it compares smaller than. *)
Fixpoint Insert (compare : ptr -> ptr -> Z) (item : ptr) (l : list ptr) : list ptr :=
  match l with
  | [] => [item]
  | y :: r =>
      if compare item y <? 0 then item :: y :: r
      else y :: Insert compare item r
  end.

(** Modelled from the spec: [List::Append] and [List::Remove] of
    [lib/list.h]: FIFO insertion at the back; removal of the first
    occurrence of the item. *)
Definition Append (item : ptr) (l : list ptr) : list ptr := l ++ [item].

Fixpoint Remove (item : ptr) (l : list ptr) : list ptr :=
  match l with
  | [] => []
  | y :: r => if Nat.eqb y item then r else y :: Remove item r
  end.

(** Modelled from the spec: [Thread::WhichQueue] of [threads/thread.cc],
    which is not among the sources: priority 100 and above is band 1,
    50 to 99 band 2, below 50 band 3. *)
Definition WhichQueue (t : Thread) : Z :=
  if priority t >=? 100 then 1
  else if priority t >=? 50 then 2
  else 3.

(** Modelled from the spec: [Thread::StartReady] records
    [insert_ready_time = now]. *)
Definition StartReady (now : Z) (t : Thread) : Thread :=
  set_insert_ready_time t now.

(** [Scheduler::PutToReady]. *)
Definition PutToReady (k : Kernel) (thread : ptr) : Run Kernel :=
  do _ <- assert (intOff k);
  let t0 := threads k thread in
  let t1 := match status t0 with
            | BLOCKED => set_true_burst (set_remain_burst t0 (approx_burst t0)) 0
            | _ => t0
            end in
  let t2 := StartReady (totalTicks k) (set_status t1 READY) in
  let h := store (threads k) thread t2 in
  let queue := WhichQueue t2 in
  let l1 := if queue =? 1 then Insert (comp_L1 h) thread (L1 k) else L1 k in
  let l2 := if queue =? 2 then Insert (comp_L2 h) thread (L2 k) else L2 k in
  let l3 := if queue =? 3 then Append thread (L3 k) else L3 k in
  Ok (mkKernel h l1 l2 l3 (currentThread k) (totalTicks k) (intOff k)).

(** [Scheduler::ScheduleNext]: the thread removed from the front of the
    first non-empty queue, [None] for [NULL]. *)
Definition ScheduleNext (k : Kernel) : Run (option ptr * Kernel) :=
  do _ <- assert (intOff k);
  match L1 k with
  | nextThread :: rest =>
      Ok (Some nextThread,
          mkKernel (threads k) rest (L2 k) (L3 k)
            (currentThread k) (totalTicks k) (intOff k))
  | [] =>
      match L2 k with
      | nextThread :: rest =>
          Ok (Some nextThread,
              mkKernel (threads k) (L1 k) rest (L3 k)
                (currentThread k) (totalTicks k) (intOff k))
      | [] =>
          match L3 k with
          | nextThread :: rest =>
              Ok (Some nextThread,
                  mkKernel (threads k) (L1 k) (L2 k) rest
                    (currentThread k) (totalTicks k) (intOff k))
          | [] => Ok (None, k)
          end
      end
  end.

(** [Scheduler::CheckPreempt].  [Some b] is the value of the [return]
    statement that ends the call; [None] means that control reaches the
    closing brace of the function without passing a [return], so that the
    caller reads a value the function never set. *)
Definition CheckPreempt (k : Kernel) : option bool :=
  let thread := threads k (currentThread k) in
  if WhichQueue thread =? 1 then
    match L1 k with
    | front :: _ =>
        if remain_burst (threads k front) <? remain_burst thread
        then Some true else Some false
    | [] => None
    end
  else if WhichQueue thread =? 2 then
    match L1 k with
    | _ :: _ => Some true
    | [] => Some false
    end
  else if WhichQueue thread =? 3 then
    match L3 k with
    | [] => Some false
    | _ :: _ => Some true
    end
  else None.

(** *** Aging

    Each of the three loops of [Scheduler::Aging] walks one queue with a
    [ListIterator].  Where a loop unlinks the current thread it has
    stepped the iterator first, so the walk visits the elements the queue
    had when the loop began, in order: the loops recurse on that list. *)

(** The fields are [int]s and so is [totalTicks]: every sum and
    difference the loops compute is taken in 32 bits, two's complement,
    as the machine does. *)

(** The ticks a thread has waited at tick [now]: the value every loop
    stores in [total_ready_time] first. *)
Definition waited (now : Z) (t : Thread) : Z :=
  to_int (now - insert_ready_time t).

(** The body of the [if (t->total_ready_time >= 1500)] of the L1 loop. *)
Definition age_L1 (t : Thread) : Thread :=
  let p := if to_int (priority t + 10) >? 149 then 149
           else to_int (priority t + 10) in
  set_insert_ready_time
    (set_total_ready_time (set_priority t p) (to_int (total_ready_time t - 1500)))
    (to_int (insert_ready_time t + 1500)).

(** The same for the L2 and L3 loops. *)
Definition age_L23 (t : Thread) : Thread :=
  set_insert_ready_time
    (set_total_ready_time (set_priority t (to_int (priority t + 10)))
       (to_int (total_ready_time t - 1500)))
    (to_int (insert_ready_time t + 1500)).

(** The body of the [while] loop over L1, at the thread [p]. *)
Definition aging_L1 (p : ptr) (k : Kernel) : Kernel :=
  let t := set_total_ready_time (threads k p)
             (waited (totalTicks k) (threads k p)) in
  let t' := if total_ready_time t >=? 1500 then age_L1 t else t in
  mkKernel (store (threads k) p t') (L1 k) (L2 k) (L3 k)
    (currentThread k) (totalTicks k) (intOff k).

(** The body of the loop over L2: a thread whose priority reaches 100
    goes into L1 and leaves L2. *)
Definition aging_L2 (p : ptr) (k : Kernel) : Kernel :=
  let t := set_total_ready_time (threads k p)
             (waited (totalTicks k) (threads k p)) in
  if total_ready_time t >=? 1500 then
    let t' := age_L23 t in
    let h := store (threads k) p t' in
    if priority t' >=? 100 then
      mkKernel h (Insert (comp_L1 h) p (L1 k)) (Remove p (L2 k)) (L3 k)
        (currentThread k) (totalTicks k) (intOff k)
    else
      mkKernel h (L1 k) (L2 k) (L3 k)
        (currentThread k) (totalTicks k) (intOff k)
  else
    mkKernel (store (threads k) p t) (L1 k) (L2 k) (L3 k)
      (currentThread k) (totalTicks k) (intOff k).

(** The body of the loop over L3: a thread whose priority reaches 50
    goes into L2 and leaves L3. *)
Definition aging_L3 (p : ptr) (k : Kernel) : Kernel :=
  let t := set_total_ready_time (threads k p)
             (waited (totalTicks k) (threads k p)) in
  if total_ready_time t >=? 1500 then
    let t' := age_L23 t in
    let h := store (threads k) p t' in
    if priority t' >=? 50 then
      mkKernel h (L1 k) (Insert (comp_L2 h) p (L2 k)) (Remove p (L3 k))
        (currentThread k) (totalTicks k) (intOff k)
    else
      mkKernel h (L1 k) (L2 k) (L3 k)
        (currentThread k) (totalTicks k) (intOff k)
  else
    mkKernel (store (threads k) p t) (L1 k) (L2 k) (L3 k)
      (currentThread k) (totalTicks k) (intOff k).

(** A walk of the iterator over the elements [its], running [body] at
    each. *)
Fixpoint walk (body : ptr -> Kernel -> Kernel) (its : list ptr) (k : Kernel)
  : Kernel :=
  match its with
  | [] => k
  | p :: rest => walk body rest (body p k)
  end.

(** [Scheduler::Aging]: the L1 loop, then the L2 loop, then the L3 loop. *)
Definition Aging (k : Kernel) : Kernel :=
  let k1 := walk aging_L1 (L1 k) k in
  let k2 := walk aging_L2 (L2 k1) k1 in
  walk aging_L3 (L3 k2) k2.

(** What one call of [Aging] makes of the fields of a thread found in
    L1, and of one found in L2 or L3, at tick [now]. *)
Definition aged_L1 (now : Z) (t : Thread) : Thread :=
  let t0 := set_total_ready_time t (waited now t) in
  if total_ready_time t0 >=? 1500 then age_L1 t0 else t0.

Definition aged_L23 (now : Z) (t : Thread) : Thread :=
  let t0 := set_total_ready_time t (waited now t) in
  if total_ready_time t0 >=? 1500 then age_L23 t0 else t0.

(** The thread has waited 1500 ticks and its raised priority reaches
    [bound]. *)
Definition promoted (bound now : Z) (t : Thread) : bool :=
  (waited now t >=? 1500) && (to_int (priority t + 10) >=? bound).

(** *** Concrete kernels *)

Definition thread_of (id prio burst ready_at : Z) : Thread :=
  mkThread id JUST_CREATED prio burst 0 0 ready_at 0.

(** Three threads of priorities 120, 70 and 20 at the addresses 0, 1
    and 2; a fourth, at address 3, is running. *)
Definition three_threads : Heap :=
  fun p =>
    match p with
    | 0%nat => thread_of 0 120 30 0
    | 1%nat => thread_of 1 70 30 0
    | 2%nat => thread_of 2 20 30 0
    | _ => thread_of 3 120 40 0
    end.

Definition boot : Kernel := mkKernel three_threads [] [] [] 3%nat 0 true.

(** [PutToReady] on each thread of [order] in turn. *)
Fixpoint ready_all (order : list ptr) (k : Kernel) : Run Kernel :=
  match order with
  | [] => Ok k
  | p :: rest => do k' <- PutToReady k p; ready_all rest k'
  end.

(** The results of [n] calls of [ScheduleNext] in a row. *)
Fixpoint drain (n : nat) (k : Kernel) : Run (list (option ptr)) :=
  match n with
  | O => Ok []
  | S n' =>
      do r <- ScheduleNext k;
      do l <- drain n' (snd r);
      Ok (fst r :: l)
  end.

Definition orders : list (list ptr) :=
  [[0; 1; 2]; [0; 2; 1]; [1; 0; 2]; [1; 2; 0]; [2; 0; 1]; [2; 1; 0]]%nat.

(** A thread of priority 10 that entered L3 at tick 0; the clock shows
    3000. *)
Definition long_wait : Kernel :=
  mkKernel (fun _ => thread_of 7 10 30 0) [] [] [0%nat] 1%nat 3000 true.

(** A thread of the largest priorities an [int] holds, in L2 since
    tick 0; the clock shows 1500. *)
Definition top_priority : Kernel :=
  mkKernel (fun _ => thread_of 7 2147483640 30 0) [] [0%nat] [] 1%nat 1500 true.

(** *** The state of the ready queues *)

(** The threads that wait in the three queues. *)
Definition ready (k : Kernel) : list ptr := L1 k ++ L2 k ++ L3 k.

(** No thread waits twice, and each waits in the queue of its priority
    band. *)
Definition queues_ok (k : Kernel) : Prop :=
  NoDup (ready k)
  /\ (forall p, In p (L1 k) -> WhichQueue (threads k p) = 1)
  /\ (forall p, In p (L2 k) -> WhichQueue (threads k p) = 2)
  /\ (forall p, In p (L3 k) -> WhichQueue (threads k p) = 3).

(** The priority of every waiting thread is an [int], and so is that
    priority plus 10: no increment that [Aging] makes overflows. *)
Definition priorities_fit (k : Kernel) : Prop :=
  forall p, In p (ready k) ->
    fits_int (priority (threads k p)) /\ fits_int (priority (threads k p) + 10).

(** A queue in the order of [remain_burst], the shortest in front; a
    queue in the order of [priority], the highest in front. *)
Definition shortest_first (h : Heap) (l : list ptr) : Prop :=
  StronglySorted (fun p q => remain_burst (h p) <= remain_burst (h q)) l.

Definition highest_first (h : Heap) (l : list ptr) : Prop :=
  StronglySorted (fun p q => priority (h q) <= priority (h p)) l.

(** Two threads of band 1 wait in L1, the shorter in front; one thread
    waits in L2 and one in L3; the running thread, at address 4, is of
    band 1 and has 40 ticks of burst left. *)
Definition busy : Kernel :=
  mkKernel three_threads [0%nat; 3%nat] [1%nat] [2%nat] 4%nat 0 true.

(** Three threads that have waited since tick 0, of priorities 145, 95
    and 45 and with 30, 20 and 30 ticks of burst left, one in each
    queue; the clock shows 1500. *)
Definition old_threads : Heap :=
  fun p =>
    match p with
    | 0%nat => thread_of 0 145 30 0
    | 1%nat => thread_of 1 95 20 0
    | 2%nat => thread_of 2 45 30 0
    | _ => thread_of 3 120 40 0
    end.

Definition waiting : Kernel :=
  mkKernel old_threads [0%nat] [1%nat] [2%nat] 3%nat 1500 true.

End Sched.

(** * The file system ([filesys/filehdr.cc], [directory.cc], [filesys.cc]) *)

Module FileSys.

Abbreviation string := String.string.

(** [FileHeader]: the image of one disk sector. *)
Record FileHeader : Type := mkHdr {
  numBytes : Z;
  numSectors : Z;
  dataSectors : list Z
}.

(** A bitmap: [true] for a bit that is set (a sector in use). *)
Definition Bitmap : Type := list bool.

Record DirectoryEntry : Type := mkDirEnt {
  inUse : bool;
  isdir : bool;
  name : string;
  sector : Z
}.

(** A [Directory] is its [table]; [tableSize] is the length. *)
Definition Directory : Type := list DirectoryEntry.

(** Modelled from the spec: the disk ([machine/disk.h],
    [filesys/synchdisk.cc]) and [OpenFile::ReadAt] and [WriteAt]
    ([filesys/openfile.cc]) are not among the sources.  The disk is its
    sectors [0 .. NumSectors - 1]; a directory or a bitmap written back
    to a file is what a later fetch from that file returns.
    - [sectors]: every sector, read as the [FileHeader] image that
      [FetchFrom] casts it to.
    - [dirData s]: the data of the file whose header is in sector [s],
      read as a directory table.
    - [freeMapData]: the data of the free-map file, read as a bitmap. *)
Record FileSystem : Type := mkFS {
  sectors : list FileHeader;
  dirData : Z -> Directory;
  freeMapData : Bitmap
}.

Definition FreeMapSector : Z := 0.
Definition DirectorySector : Z := 1.
Definition NumDirEntries : nat := 64.

(** Indexing an array with a C++ [int]. *)
Definition index {A} (l : list A) (i : Z) : Run A :=
  if i <? 0 then Stop OutOfBounds
  else match nth_error l (Z.to_nat i) with
       | Some a => Ok a
       | None => Stop OutOfBounds
       end.

Definition index_set {A} (l : list A) (i : Z) (a : A) : Run (list A) :=
  if i <? 0 then Stop OutOfBounds
  else match list_set l (Z.to_nat i) a with
       | Some l' => Ok l'
       | None => Stop OutOfBounds
       end.

(** ** The bitmap *)

(** Modelled from the spec: [Bitmap::Test], [Mark] and [Clear] of
    [lib/bitmap.cc], which is not among the sources.  Each addresses one
    bit; a bit number outside the map stops the run. *)
Definition Test (m : Bitmap) (which : Z) : Run bool := index m which.
Definition Mark (m : Bitmap) (which : Z) : Run Bitmap := index_set m which true.
Definition Clear (m : Bitmap) (which : Z) : Run Bitmap := index_set m which false.

(** Modelled from the spec: [Bitmap::NumClear] counts the clear bits. *)
Fixpoint NumClear (m : Bitmap) : Z :=
  match m with
  | [] => 0
  | b :: r => (if b then 0 else 1) + NumClear r
  end.

(** Modelled from the spec: [Bitmap::FindAndSet] returns the number of
    a clear bit, which it sets, or [-1] when no bit is clear.  The bit is
    the first clear one. *)
Fixpoint find_clear (m : Bitmap) (i : Z) : Z * Bitmap :=
  match m with
  | [] => (-1, [])
  | b :: r =>
      if b then let '(j, r') := find_clear r (i + 1) in (j, b :: r')
      else (i, true :: r)
  end.

Definition FindAndSet (m : Bitmap) : Z * Bitmap := find_clear m 0.

(** ** File headers *)

Section Disk.

(** [SectorSize] ([machine/disk.h]) and [NumDirect] ([filesys/filehdr.h]),
    which are not among the sources. *)
Variables SectorSize NumDirect : Z.

(** Modelled from the spec: the capacities [bytes_in_level1],
    [bytes_in_level2] and [bytes_in_level3] of [filesys/filehdr.h]. *)
Definition bytes_in_level1 : Z := NumDirect * SectorSize.
Definition bytes_in_level2 : Z := NumDirect * bytes_in_level1.
Definition bytes_in_level3 : Z := NumDirect * bytes_in_level2.

(** What a header holds after [new FileHeader]. *)
Variable blank : FileHeader.

Definition set_size (h : FileHeader) (nb ns : Z) : FileHeader :=
  mkHdr nb ns (dataSectors h).
Definition set_dataSectors (h : FileHeader) (d : list Z) : FileHeader :=
  mkHdr (numBytes h) (numSectors h) d.

(** [FileHeader::FetchFrom] and [FileHeader::WriteBack]: one sector of the
    disk, which has the sectors [0 .. NumSectors - 1]. *)
Definition FetchFrom (disk : list FileHeader) (sector : Z) : Run FileHeader :=
  index disk sector.
Definition WriteBack (disk : list FileHeader) (sector : Z) (h : FileHeader)
  : Run (list FileHeader) :=
  index_set disk sector h.

(** The loops [while (fileSize > 0)] of the three indirect branches of
    [Allocate]; [level] is the capacity of one child, [allocate] the
    recursive call, [slots] the entries of [dataSectors] from [idx] on. *)
Fixpoint allocate_children
    (allocate : FileHeader -> Bitmap -> list FileHeader -> Z ->
                Run (bool * FileHeader * Bitmap * list FileHeader))
    (level : Z) (slots : nat) (idx : Z) (fileSize : Z)
    (h : FileHeader) (freeMap : Bitmap) (disk : list FileHeader)
  : Run (FileHeader * Bitmap * list FileHeader) :=
  if fileSize >? 0 then
    match slots with
    | O => Stop OutOfBounds
    | S slots' =>
        let '(s, freeMap1) := FindAndSet freeMap in
        do d <- index_set (dataSectors h) idx s;
        do _ <- assert (s >=? 0);
        do r <- allocate blank freeMap1 disk
                  (if fileSize >=? level then level else fileSize);
        let '(_, next_level, freeMap2, disk2) := r in
        do disk3 <- WriteBack disk2 s next_level;
        allocate_children allocate level slots' (idx + 1) (fileSize - level)
          (set_dataSectors h d) freeMap2 disk3
    end
  else Ok (h, freeMap, disk).

(** The loop [for (int i = 0; i < numSectors; i++)] of the leaf branch. *)
Fixpoint allocate_leaf (n : nat) (i : Z) (h : FileHeader) (freeMap : Bitmap)
  : Run (FileHeader * Bitmap) :=
  match n with
  | O => Ok (h, freeMap)
  | S n' =>
      let '(s, freeMap1) := FindAndSet freeMap in
      do d <- index_set (dataSectors h) i s;
      do _ <- assert (s >=? 0);
      allocate_leaf n' (i + 1) (set_dataSectors h d) freeMap1
  end.

(** [FileHeader::Allocate]; [depth] bounds the nesting of the recursive
    calls. *)
Fixpoint Allocate_rec (depth : nat) (h : FileHeader) (freeMap : Bitmap)
    (disk : list FileHeader) (fileSize : Z)
  : Run (bool * FileHeader * Bitmap * list FileHeader) :=
  match depth with
  | O => Stop OutOfFuel
  | S depth' =>
      let ns := divRoundUp fileSize SectorSize in
      let h0 := set_size h fileSize ns in
      if NumClear freeMap <? ns then Ok (false, h0, freeMap, disk)
      else
        let children level :=
          do r <- allocate_children (Allocate_rec depth') level
                    (length (dataSectors h0)) 0 fileSize h0 freeMap disk;
          let '(h1, freeMap1, disk1) := r in
          Ok (true, h1, freeMap1, disk1) in
        if fileSize >? bytes_in_level3 then children bytes_in_level3
        else if fileSize >? bytes_in_level2 then children bytes_in_level2
        else if fileSize >? bytes_in_level1 then children bytes_in_level1
        else
          do r <- allocate_leaf (Z.to_nat ns) 0 h0 freeMap;
          let '(h1, freeMap1) := r in
          Ok (true, h1, freeMap1, disk)
  end.

(** A header above the third level has children of at most
    [bytes_in_level3] bytes, and so on down: four nested calls reach the
    leaves. *)
Definition Allocate := Allocate_rec 4.

(** The loops of the indirect branches of [Deallocate]. *)
Fixpoint deallocate_children
    (deallocate : FileHeader -> Bitmap -> Run Bitmap)
    (level : Z) (slots : nat) (idx : Z) (remainBytes : Z)
    (h : FileHeader) (freeMap : Bitmap) (disk : list FileHeader)
  : Run Bitmap :=
  if remainBytes >? 0 then
    match slots with
    | O => Stop OutOfBounds
    | S slots' =>
        do s <- index (dataSectors h) idx;
        do next_level <- FetchFrom disk s;
        do freeMap1 <- deallocate next_level freeMap;
        deallocate_children deallocate level slots' (idx + 1)
          (remainBytes - level) h freeMap1 disk
    end
  else Ok freeMap.

(** The loop of the leaf branch of [Deallocate]. *)
Fixpoint deallocate_leaf (slots : nat) (idx : Z) (remainBytes : Z)
    (h : FileHeader) (freeMap : Bitmap) : Run Bitmap :=
  if remainBytes >? 0 then
    match slots with
    | O => Stop OutOfBounds
    | S slots' =>
        do s <- index (dataSectors h) idx;
        do marked <- Test freeMap s;
        do _ <- assert marked;
        do freeMap1 <- Clear freeMap s;
        deallocate_leaf slots' (idx + 1) (remainBytes - SectorSize) h freeMap1
    end
  else Ok freeMap.

(** [FileHeader::Deallocate].  The child headers come from the disk, so
    the nesting of the calls is bounded by [fuel]. *)
Fixpoint Deallocate (fuel : nat) (disk : list FileHeader) (h : FileHeader)
    (freeMap : Bitmap) : Run Bitmap :=
  match fuel with
  | O => Stop OutOfFuel
  | S fuel' =>
      let remainBytes := numBytes h in
      let children level :=
        deallocate_children (Deallocate fuel' disk) level
          (length (dataSectors h)) 0 remainBytes h freeMap disk in
      if remainBytes >? bytes_in_level3 then children bytes_in_level3
      else if remainBytes >? bytes_in_level2 then children bytes_in_level2
      else if remainBytes >? bytes_in_level1 then children bytes_in_level1
      else deallocate_leaf (length (dataSectors h)) 0 remainBytes h freeMap
  end.

(** [FileHeader::ByteToSector].  [Ok (Some s)]: the call ends in
    [return s].  [Ok None]: control reaches the closing brace of the
    function without passing a [return]; this is the case in the three
    indirect branches, which call [next_level->ByteToSector] as a
    statement and drop its value. *)
Fixpoint ByteToSector (fuel : nat) (disk : list FileHeader) (h : FileHeader)
    (offset : Z) : Run (option Z) :=
  match fuel with
  | O => Stop OutOfFuel
  | S fuel' =>
      let descend level :=
        let idx := divRoundDown offset level in
        do s <- index (dataSectors h) idx;
        do next_level <- FetchFrom disk s;
        do _ <- ByteToSector fuel' disk next_level (offset - level * idx);
        Ok None in
      if numBytes h >? bytes_in_level3 then descend bytes_in_level3
      else if numBytes h >? bytes_in_level2 then descend bytes_in_level2
      else if numBytes h >? bytes_in_level1 then descend bytes_in_level1
      else
        do s <- index (dataSectors h) (Z.quot offset SectorSize);
        Ok (Some s)
  end.

Definition FileLength (h : FileHeader) : Z := numBytes h.

(** The loops of [CountHeader]: [count] accumulates the children's
    results. *)
Fixpoint count_children (countHeader : FileHeader -> Run Z)
    (level : Z) (slots : nat) (idx : Z) (remainBytes : Z) (count : Z)
    (h : FileHeader) (disk : list FileHeader) : Run Z :=
  if remainBytes >? 0 then
    match slots with
    | O => Stop OutOfBounds
    | S slots' =>
        do s <- index (dataSectors h) idx;
        do next_level <- FetchFrom disk s;
        do c <- countHeader next_level;
        count_children countHeader level slots' (idx + 1)
          (remainBytes - level) (count + c) h disk
    end
  else Ok count.

(** [FileHeader::CountHeader]. *)
Fixpoint CountHeader (fuel : nat) (disk : list FileHeader) (h : FileHeader)
  : Run Z :=
  match fuel with
  | O => Stop OutOfFuel
  | S fuel' =>
      let remainBytes := numBytes h in
      let children level :=
        count_children (CountHeader fuel' disk) level
          (length (dataSectors h)) 0 remainBytes 0 h disk in
      if remainBytes >? bytes_in_level3 then children bytes_in_level3
      else if remainBytes >? bytes_in_level2 then children bytes_in_level2
      else if remainBytes >? bytes_in_level1 then children bytes_in_level1
      else Ok 1
  end.

(** ** Directories ([filesys/directory.cc]) *)

(** [FileNameMaxLen] of [filesys/directory.h]. *)
Variable FileNameMaxLen : nat.

(** [!strncmp(a, b, FileNameMaxLen)]: the names agree on their first
    [FileNameMaxLen] characters. *)
Definition same_name (a b : string) : bool :=
  String.eqb (String.substring 0 FileNameMaxLen a)
             (String.substring 0 FileNameMaxLen b).

(** The loops of [FindIndex] ([dirs_only = false]) and [FindDirIndex]
    ([dirs_only = true]).  [name] is [None] for a [NULL] pointer, which
    [strncmp] dereferences at the first entry that passes the tests in
    front of it. *)
Fixpoint find_from (dirs_only : bool) (table : Directory) (i : Z)
    (name : option string) : Run Z :=
  match table with
  | [] => Ok (-1)
  | e :: rest =>
      if inUse e && (negb dirs_only || isdir e) then
        match name with
        | None => Stop NullPointer
        | Some n =>
            if same_name (FileSys.name e) n then Ok i
            else find_from dirs_only rest (i + 1) name
        end
      else find_from dirs_only rest (i + 1) name
  end.

Definition FindIndex (table : Directory) (name : option string) : Run Z :=
  find_from false table 0 name.
Definition FindDirIndex (table : Directory) (name : option string) : Run Z :=
  find_from true table 0 name.

Definition Find (table : Directory) (name : option string) : Run Z :=
  do i <- FindIndex table name;
  if negb (i =? -1) then do e <- index table i; Ok (sector e) else Ok (-1).

Definition FindDir (table : Directory) (name : option string) : Run Z :=
  do i <- FindDirIndex table name;
  if negb (i =? -1) then do e <- index table i; Ok (sector e) else Ok (-1).

(** The loop of [Add] and [AddDir] over the table: the first entry not
    in use takes the name; [None] when every entry is in use. *)
Fixpoint add_first_free (dir : bool) (table : Directory) (name : option string)
    (newSector : Z) : Run (option Directory) :=
  match table with
  | [] => Ok None
  | e :: rest =>
      if negb (inUse e) then
        match name with
        | None => Stop NullPointer
        | Some n =>
            Ok (Some (mkDirEnt true dir (String.substring 0 FileNameMaxLen n)
                        newSector :: rest))
        end
      else
        do r <- add_first_free dir rest name newSector;
        Ok (match r with
            | Some rest' => Some (e :: rest')
            | None => None
            end)
  end.

Definition add_entry (dir : bool) (table : Directory) (name : option string)
    (newSector : Z) : Run (bool * Directory) :=
  do i <- FindIndex table name;
  if negb (i =? -1) then Ok (false, table)
  else
    do r <- add_first_free dir table name newSector;
    Ok (match r with
        | Some table' => (true, table')
        | None => (false, table)
        end).

Definition Add := add_entry false.
Definition AddDir := add_entry true.

(** [Directory::Remove]. *)
Definition Remove_entry (table : Directory) (name : option string)
  : Run (bool * Directory) :=
  do i <- FindIndex table name;
  if i =? -1 then Ok (false, table)
  else
    do e <- index table i;
    do table' <- index_set table i (mkDirEnt false false (FileSys.name e) (sector e));
    Ok (true, table').

(** [Directory::Directory(size)]: no entry in use. *)
Definition empty_directory (size : nat) : Directory :=
  repeat (mkDirEnt false false String.EmptyString 0) size.

(** ** The file system ([filesys/filesys.cc]) *)

(** [NumSectors] of [machine/disk.h] and [DirectoryFileSize], which is
    [sizeof(DirectoryEntry) * NumDirEntries] ([filesys/directory.h]). *)
Variables NumSectors DirectoryFileSize : Z.

Definition BitsInByte : Z := 8.
Definition FreeMapFileSize : Z := Z.quot NumSectors BitsInByte.

(** The delimiter of path names, the character [/]. *)
Definition slash : Ascii.ascii := Ascii.ascii_of_nat 47.

(** [strtok] does two things to the buffer [name] that the caller hands
    to [Create], [CreateSubDir], [Open], [Remove] or [RemoveDir]: it
    returns the tokens, and it writes a NUL over the delimiter that ends a
    token.  Each of these functions calls [strtok(name, "/")] first,
    whatever the file system holds, so the first token is always cut
    off; the calls [strtok(NULL, "/")] that follow write behind that NUL
    only.  The two effects are modelled apart: [strtok name] gives the
    tokens for a buffer that reads [name] on entry, and
    [strtok_buffer name] is what the same buffer reads once the function
    has returned.  A second call on the same [char *] is therefore a call
    on [strtok_buffer name], not on [name]. *)

(** The tokens that the calls [strtok(name, "/")], [strtok(NULL, "/")],
    ... return in turn: the non-empty pieces between slashes. *)
Fixpoint strtok_from (s : string) (piece : string) : list string :=
  match s with
  | String.EmptyString =>
      match piece with
      | String.EmptyString => []
      | _ => [piece]
      end
  | String.String c rest =>
      if Ascii.eqb c slash then
        match piece with
        | String.EmptyString => strtok_from rest String.EmptyString
        | _ => piece :: strtok_from rest String.EmptyString
        end
      else strtok_from rest (String.append piece (String.String c String.EmptyString))
  end.

Definition strtok (name : string) : list string :=
  strtok_from name String.EmptyString.

(** The buffer after [strtok(name, "/")]: the leading slashes and the
    first token, the string ending where the NUL went in.  A buffer
    without a token, or with nothing behind its only token, is left as
    it was.  [in_token] tells that a character of the token has been
    passed. *)
Fixpoint strtok_cut (s : string) (in_token : bool) : string :=
  match s with
  | String.EmptyString => String.EmptyString
  | String.String c rest =>
      if Ascii.eqb c slash then
        if in_token then String.EmptyString
        else String.String c (strtok_cut rest false)
      else String.String c (strtok_cut rest true)
  end.

Definition strtok_buffer (name : string) : string := strtok_cut name false.

(** Modelled from the spec: [OpenFile::OpenFile(sector)] of
    [filesys/openfile.cc], which is not among the sources, fetches the
    header of the file from [sector]; the open file is known by that
    sector. *)
Definition OpenFile (fs : FileSystem) (sector : Z) : Run Z :=
  do _ <- FetchFrom (sectors fs) sector;
  Ok sector.

Definition write_dir (data : Z -> Directory) (file : Z) (table : Directory)
  : Z -> Directory :=
  fun f => if f =? file then table else data f.

(** The path loop of [Create], [CreateSubDir] and [Remove]:
    [toks] are the tokens from the current one on ([[]] once [token] is
    [NULL]).  The result is the directory reached, the open file it was
    fetched from and the tokens left. *)
Fixpoint resolve (fs : FileSystem) (toks : list string) (directory : Directory)
    (prevDirOpenFile : Z) : Run (Directory * Z * list string) :=
  match toks with
  | [] => Ok (directory, prevDirOpenFile, [])
  | token :: rest =>
      do sector <- FindDir directory (Some token);
      if sector <? 0 then Ok (directory, prevDirOpenFile, toks)
      else
        do temp <- OpenFile fs sector;
        resolve fs rest (dirData fs temp) temp
  end.

(** [FileSystem::Create]. *)
Definition Create (fs : FileSystem) (name : string) (initialSize : Z)
  : Run (bool * FileSystem) :=
  do r <- resolve fs (strtok name) (dirData fs DirectorySector) DirectorySector;
  let '(directory, prevDirOpenFile, toks) := r in
  let token := hd_error toks in
  do sector <- Find directory token;
  if sector >=? 0 then Ok (false, fs)
  else
    let '(new_sector, freeMap) := FindAndSet (freeMapData fs) in
    if new_sector =? -1 then Ok (false, fs)
    else
      do a <- Add directory token new_sector;
      let '(added, directory1) := a in
      if negb added then Ok (false, fs)
      else
        do r <- Allocate blank freeMap (sectors fs) initialSize;
        let '(allocated, hdr, freeMap1, disk1) := r in
        if negb allocated then Ok (false, mkFS disk1 (dirData fs) (freeMapData fs))
        else
          do disk2 <- WriteBack disk1 new_sector hdr;
          Ok (true, mkFS disk2
                      (write_dir (dirData fs) prevDirOpenFile directory1)
                      freeMap1).

(** [FileSystem::CreateSubDir]. *)
Definition CreateSubDir (fs : FileSystem) (name : string)
  : Run (bool * FileSystem) :=
  do r <- resolve fs (strtok name) (dirData fs DirectorySector) DirectorySector;
  let '(directory, prevDirOpenFile, toks) := r in
  match hd_error toks with
  | None => Ok (false, fs)
  | Some token =>
      let '(new_sector, freeMap) := FindAndSet (freeMapData fs) in
      if new_sector =? -1 then Ok (false, fs)
      else
        do a <- AddDir directory (Some token) new_sector;
        let '(added, directory1) := a in
        if negb added then Ok (false, fs)
        else
          do r <- Allocate blank freeMap (sectors fs) DirectoryFileSize;
          let '(allocated, dirhdr, freeMap1, disk1) := r in
          if negb allocated then Ok (false, mkFS disk1 (dirData fs) (freeMapData fs))
          else
            do disk2 <- WriteBack disk1 new_sector dirhdr;
            do NewDirFile <- OpenFile (mkFS disk2 (dirData fs) (freeMapData fs)) new_sector;
            let data1 := write_dir (dirData fs) NewDirFile (empty_directory NumDirEntries) in
            Ok (true, mkFS disk2 (write_dir data1 prevDirOpenFile directory1) freeMap1)
  end.

(** [FileSystem::Remove]; [fuel] bounds the recursion of [Deallocate]. *)
Definition Remove (fuel : nat) (fs : FileSystem) (name : string)
  : Run (bool * FileSystem) :=
  do r <- resolve fs (strtok name) (dirData fs DirectorySector) DirectorySector;
  let '(directory, prevDirOpenFile, toks) := r in
  let token := hd_error toks in
  do sector <- Find directory token;
  if sector =? -1 then Ok (false, fs)
  else
    do fileHdr <- FetchFrom (sectors fs) sector;
    do freeMap1 <- Deallocate fuel (sectors fs) fileHdr (freeMapData fs);
    do freeMap2 <- Clear freeMap1 sector;
    do d <- Remove_entry directory token;
    Ok (true, mkFS (sectors fs)
                (write_dir (dirData fs) prevDirOpenFile (snd d))
                freeMap2).

(** The path loop of [RemoveDir].  [temp] is [None] while the pointer is
    [NULL]; [sector] and [pre_token] carry the value the variable holds
    on entry to the iteration. *)
Fixpoint resolve_dir (fs : FileSystem) (toks : list string) (directory : Directory)
    (temp : option Z) (prevDirOpenFile sector : Z) (pre_token : option string)
  : Run (Z * Z * option string) :=
  match toks with
  | [] => Ok (prevDirOpenFile, sector, pre_token)
  | token :: rest =>
      let prev := match temp with
                  | None => DirectorySector
                  | Some f => f
                  end in
      do s <- FindDir directory (Some token);
      if s <? 0 then Ok (prev, s, pre_token)
      else
        do f <- OpenFile fs s;
        resolve_dir fs rest (dirData fs f) (Some f) prev s (Some token)
  end.

(** [FileSystem::RemoveDir].  [sector] and [pre_token] are what the two
    locals of these names hold before the loop assigns them. *)
Definition RemoveDir (fuel : nat) (fs : FileSystem) (name : string)
    (sector : Z) (pre_token : option string) : Run (bool * FileSystem) :=
  do r <- resolve_dir fs (strtok name) (dirData fs DirectorySector) None
            DirectorySector sector pre_token;
  let '(prevDirOpenFile, sector1, pre_token1) := r in
  do fileHdr <- FetchFrom (sectors fs) sector1;
  do freeMap1 <- Deallocate fuel (sectors fs) fileHdr (freeMapData fs);
  do freeMap2 <- Clear freeMap1 sector1;
  let directory := dirData fs prevDirOpenFile in
  do d <- Remove_entry directory pre_token1;
  Ok (true, mkFS (sectors fs)
              (write_dir (dirData fs) prevDirOpenFile (snd d))
              freeMap2).

(** [FileSystem::FileSystem(format = TRUE)] on a disk that holds [disk]
    and [data]. *)
Definition Format (disk : list FileHeader) (data : Z -> Directory)
  : Run FileSystem :=
  let freeMap := repeat false (Z.to_nat NumSectors) in
  let directory := empty_directory NumDirEntries in
  do freeMap1 <- Mark freeMap FreeMapSector;
  do freeMap2 <- Mark freeMap1 DirectorySector;
  do r <- Allocate blank freeMap2 disk FreeMapFileSize;
  let '(ok1, mapHdr, freeMap3, disk1) := r in
  do _ <- assert ok1;
  do r <- Allocate blank freeMap3 disk1 DirectoryFileSize;
  let '(ok2, dirHdr, freeMap4, disk2) := r in
  do _ <- assert ok2;
  do disk3 <- WriteBack disk2 FreeMapSector mapHdr;
  do disk4 <- WriteBack disk3 DirectorySector dirHdr;
  Ok (mkFS disk4 (write_dir data DirectorySector directory) freeMap4).

End Disk.

(** *** Following the spec's words *)

Section Counting.
Variables SectorSize NumDirect : Z.

(** The size-selected capacity of one child of a header of [fileSize]
    bytes; [None] for a leaf header. *)
Definition child_capacity (fileSize : Z) : option Z :=
  if fileSize >? bytes_in_level3 SectorSize NumDirect
  then Some (bytes_in_level3 SectorSize NumDirect)
  else if fileSize >? bytes_in_level2 SectorSize NumDirect
  then Some (bytes_in_level2 SectorSize NumDirect)
  else if fileSize >? bytes_in_level1 SectorSize NumDirect
  then Some (bytes_in_level1 SectorSize NumDirect)
  else None.

(** The number of indirection levels above the leaves for a file of
    [fileSize] bytes. *)
Definition levels (fileSize : Z) : nat :=
  if fileSize >? bytes_in_level3 SectorSize NumDirect then 3
  else if fileSize >? bytes_in_level2 SectorSize NumDirect then 2
  else if fileSize >? bytes_in_level1 SectorSize NumDirect then 1
  else 0.

(** The sectors a file of [fileSize] bytes needs below its own header:
    all leaf data sectors plus the indirect header sectors of the
    size-selected level. *)
Fixpoint sectors_needed (depth : nat) (fileSize : Z) : Z :=
  match depth with
  | O => 0
  | S depth' =>
      match child_capacity fileSize with
      | None => divRoundUp fileSize SectorSize
      | Some level =>
          Z.quot fileSize level * (1 + sectors_needed depth' level)
          + (if Z.rem fileSize level >? 0
             then 1 + sectors_needed depth' (Z.rem fileSize level)
             else 0)
      end
  end.

(** The header sectors of a file, counted from the header [h]: [h]
    itself and, when [h] is indirect, every header reachable through its
    children. *)
Fixpoint headers_below
    (count : FileHeader -> Run Z) (slots : list Z) (level remainBytes : Z)
    (disk : list FileHeader) : Run Z :=
  if remainBytes >? 0 then
    match slots with
    | [] => Stop OutOfBounds
    | s :: rest =>
        do child <- FetchFrom disk s;
        do c <- count child;
        do r <- headers_below count rest level (remainBytes - level) disk;
        Ok (c + r)
    end
  else Ok 0.

Fixpoint header_sectors (fuel : nat) (disk : list FileHeader) (h : FileHeader)
  : Run Z :=
  match fuel with
  | O => Stop OutOfFuel
  | S fuel' =>
      match child_capacity (numBytes h) with
      | None => Ok 1
      | Some level =>
          do below <- headers_below (header_sectors fuel' disk) (dataSectors h)
                        level (numBytes h) disk;
          Ok (1 + below)
      end
  end.

End Counting.

(** *** Looking names up *)

Section Names.

Variable FileNameMaxLen : nat.

(** The test of the loops of [FindIndex] ([dirs_only = false]) and
    [FindDirIndex] ([dirs_only = true]) at one entry:
    [table[i].inUse && (table[i].isdir &&) !strncmp(table[i].name, name,
    FileNameMaxLen)]. *)
Definition entry_matches (dirs_only : bool) (n : string) (e : DirectoryEntry) : bool :=
  inUse e && (negb dirs_only || isdir e) && same_name FileNameMaxLen (name e) n.

(** No two entries in use carry the same name, as far as [strncmp] with
    [FileNameMaxLen] tells names apart. *)
Definition names_unique (table : Directory) : Prop :=
  forall i j e1 e2,
    nth_error table i = Some e1 -> nth_error table j = Some e2 ->
    inUse e1 = true -> inUse e2 = true ->
    same_name FileNameMaxLen (name e1) (name e2) = true -> i = j.

End Names.

(** *** Opening a file *)

Section Opening.

Variable FileNameMaxLen : nat.

(** [FileSystem::Open]: [Some sector] for the [OpenFile] on the header
    in [sector], whose [id] the call sets to [sector]; [None] for [NULL].
    The path loop is that of [Create] without [prevDirOpenFile].  The
    member [openFile], which only [Read], [Write] and [Close] use, is not
    part of the state. *)
Definition Open (fs : FileSystem) (name : string) : Run (option Z) :=
  do r <- resolve FileNameMaxLen fs (strtok name)
            (dirData fs DirectorySector) DirectorySector;
  let '(directory, _, toks) := r in
  do sector <- Find FileNameMaxLen directory (hd_error toks);
  if sector >=? 0 then
    do openFile <- OpenFile fs sector;
    Ok (Some openFile)
  else Ok None.

(** [SysOpen] of [userprog/ksyscall.h]: it reads [openFile->id] without
    testing the pointer that [Open] returns. *)
Definition SysOpen (fs : FileSystem) (name : string) : Run Z :=
  do openFile <- Open fs name;
  match openFile with
  | None => Stop NullPointer
  | Some id => if id >? 0 then Ok id else Ok 0
  end.

(** The path loop over [name] goes into a subdirectory of the root: the
    first token names one.  It tells what a second call on the same
    buffer meets: when the loop has gone into a directory, the buffer
    holds the name of that directory and nothing else. *)
Definition opens_directory (fs : FileSystem) (name : string) : bool :=
  match strtok name with
  | [] => false
  | token :: _ =>
      match FindDir FileNameMaxLen (dirData fs DirectorySector) (Some token) with
      | Ok sector => 0 <=? sector
      | Stop _ => false
      end
  end.

End Opening.

(** *** Subdirectories *)

(** The sector of the root directory is marked in the free map, and so
    is the sector that an entry in use names as the header of a
    subdirectory, in whatever directory the entry stands. *)
Definition dirs_marked (fs : FileSystem) : Prop :=
  Test (freeMapData fs) DirectorySector = Ok true
  /\ forall f e, In e (dirData fs f) -> inUse e = true -> isdir e = true ->
       Test (freeMapData fs) (sector e) = Ok true.

(** *** A concrete disk *)

(** The disk of the simulator: 1024 sectors of 128 bytes, headers of 30
    entries, names of 9 characters, directory files of 1280 bytes. *)
Definition blank_header : FileHeader := mkHdr (-1) (-1) (repeat (-1) 30).

Definition raw_disk : list FileHeader := repeat blank_header 1024.

Definition no_directories : Z -> Directory := fun _ => empty_directory NumDirEntries.

Definition or_empty (r : Run FileSystem) : FileSystem :=
  match r with
  | Ok fs => fs
  | Stop _ => mkFS [] no_directories []
  end.

Definition after (r : Run (bool * FileSystem)) : FileSystem :=
  match r with
  | Ok (_, fs) => fs
  | Stop _ => mkFS [] no_directories []
  end.

Definition formatted : FileSystem :=
  or_empty (Format 128 30 blank_header 1024 1280 raw_disk no_directories).

Module Paths.
Import String.
Definition big : string := "/big"%string.
Definition dir : string := "/d"%string.
Definition nosuch : string := "/nosuch"%string.
End Paths.

(** A file of [bytes_in_level1 + 1 = 3841] bytes, and a directory. *)
Definition with_big : FileSystem :=
  after (Create 128 30 blank_header 9 formatted Paths.big 3841).

Definition with_dir : FileSystem :=
  after (CreateSubDir 128 30 blank_header 9 1280 formatted Paths.dir).

(** The integers [a], [a + 1], ..., [a + n - 1]. *)
Fixpoint seq_Z (a : Z) (n : nat) : list Z :=
  match n with
  | O => []
  | S n' => a :: seq_Z (a + 1) n'
  end.

(** A bitmap with the [n] bits from [a] on cleared. *)
Fixpoint clear_range (m : Bitmap) (a : Z) (n : nat) : Bitmap :=
  match n with
  | O => m
  | S n' =>
      match Clear m a with
      | Ok m' => clear_range m' (a + 1) n'
      | Stop _ => m
      end
  end.

(** A free map of 132 sectors of which the last 32 are free. *)
Definition tight_map : Bitmap := repeat true 100 ++ repeat false 32.

(** A free map of 16 bits of which bits 0, 1 and 4 are set. *)
Definition map16 : Bitmap :=
  [true; true; false; false; true; false; false; false;
   false; false; false; false; false; false; false; false].

(** A file of [bytes_in_level1 = 3840] bytes, the largest that fits a
    leaf header. *)
Definition with_small : FileSystem :=
  after (Create 128 30 blank_header 9 formatted Paths.big 3840).

Module Entries.
Import String.
Definition notes : string := "notes"%string.
Definition notes_2024 : string := "notes_2024"%string.
Definition notes_2025 : string := "notes_2025"%string.
Definition todo : string := "todo"%string.
Definition d : string := "d"%string.
Definition missing : string := "nosuch"%string.
Definition deep : string := "/nosuch/deep/file"%string.
Definition deep_1 : string := "deep"%string.
Definition deep_2 : string := "file"%string.
Definition sub : string := "sub"%string.
Definition d_todo : string := "/d/todo"%string.
Definition d_sub : string := "/d/sub"%string.
Definition d_nosuch : string := "/d/nosuch"%string.
Definition d_nosuch_deep : string := "/d/nosuch/deep"%string.
End Entries.

(** On the disk that holds the directory [/d]: the file [/d/todo] of
    100 bytes; the directory [/d/sub]; and what [Create] of
    [/d/nosuch/deep] leaves. *)
Definition with_todo : FileSystem :=
  after (Create 128 30 blank_header 9 with_dir Entries.d_todo 100).

Definition with_sub : FileSystem :=
  after (CreateSubDir 128 30 blank_header 9 1280 with_dir Entries.d_sub).

Definition with_deep : FileSystem :=
  after (Create 128 30 blank_header 9 with_dir Entries.d_nosuch_deep 100).

(** A directory of four entries that holds the file [notes] in sector
    7. *)
Definition small_directory : Directory :=
  [mkDirEnt true false Entries.notes 7;
   mkDirEnt false false String.EmptyString 0;
   mkDirEnt false false String.EmptyString 0;
   mkDirEnt false false String.EmptyString 0].

End FileSys.

(** * Properties *)

(** ** Machine integers and arrays *)

Lemma to_int_small x : - two31 <= x < two31 -> to_int x = x.
Proof.
  intros H. unfold to_int, two31, two32 in *.
  rewrite Z.mod_small; lia.
Qed.

Lemma to_uint_small x : 0 <= x < two32 -> to_uint x = x.
Proof. intros H. unfold to_uint. now apply Z.mod_small. Qed.

Lemma list_set_length {A} (l : list A) n x l' :
  list_set l n x = Some l' -> length l' = length l.
Proof.
  revert n l'. induction l as [|h t IH]; intros [|n] l' H; simpl in H; try discriminate.
  - now inversion H.
  - destruct (list_set t n x) eqn:E; [|discriminate].
    inversion H; subst. simpl. f_equal. eauto.
Qed.

Lemma list_set_some {A} (l : list A) n x :
  (n < length l)%nat -> exists l', list_set l n x = Some l'.
Proof.
  revert n. induction l as [|h t IH]; intros [|n] H; simpl in *; try lia.
  - eauto.
  - destruct (IH n) as [t' E]; [lia|]. rewrite E. eauto.
Qed.

Lemma list_set_nth_eq {A} (l : list A) n x l' :
  list_set l n x = Some l' -> nth_error l' n = Some x.
Proof.
  revert n l'. induction l as [|h t IH]; intros [|n] l' H; simpl in H; try discriminate.
  - now inversion H.
  - destruct (list_set t n x) eqn:E; [|discriminate].
    inversion H; subst. simpl. eauto.
Qed.

Lemma list_set_nth_ne {A} (l : list A) n m x l' :
  list_set l n x = Some l' -> n <> m -> nth_error l' m = nth_error l m.
Proof.
  revert n m l'. induction l as [|h t IH]; intros [|n] [|m] l' H Hne;
    simpl in H; try discriminate; try congruence.
  - now inversion H.
  - destruct (list_set t n x) eqn:E; [|discriminate]. now inversion H.
  - destruct (list_set t n x) eqn:E; [|discriminate].
    inversion H; subst. simpl. eapply IH; eauto.
Qed.

Lemma nth_error_some_lt {A} (l : list A) n :
  (n < length l)%nat -> exists a, nth_error l n = Some a.
Proof.
  intros H. destruct (nth_error l n) eqn:E; eauto.
  apply nth_error_None in E. lia.
Qed.

Lemma list_set_app_mid {A} (pre post : list A) (a b : A) :
  list_set (pre ++ a :: post) (length pre) b = Some (pre ++ b :: post).
Proof.
  induction pre as [|h t IH]; simpl; [reflexivity|]. now rewrite IH.
Qed.

Lemma nth_error_app_mid {A} (pre post : list A) (a : A) :
  nth_error (pre ++ a :: post) (length pre) = Some a.
Proof. induction pre; simpl; auto. Qed.

Lemma list_set_Forall {A} (P : A -> Prop) l n x l' :
  list_set l n x = Some l' -> Forall P l -> P x -> Forall P l'.
Proof.
  revert n l'. induction l as [|h t IH]; intros [|n] l' H HF Hx; simpl in H; try discriminate.
  - inversion H; subst. inversion HF; subst. now constructor.
  - destruct (list_set t n x) eqn:E; [|discriminate].
    inversion H; subst. inversion HF; subst. constructor; eauto.
Qed.

(** ** Address translation and loading *)

Module AddrSpaceFacts.
Import AddrSpace.

Lemma count_free_app l1 l2 : count_free (l1 ++ l2) = count_free l1 + count_free l2.
Proof. induction l1 as [|f r IH]; simpl; [reflexivity|]. rewrite IH. lia. Qed.

Lemma count_free_bounds l : 0 <= count_free l <= Z.of_nat (length l).
Proof.
  induction l as [|f r IH]; simpl length; simpl count_free; [lia|].
  destruct (f =? 1); lia.
Qed.

Section Machine.

Variables PageSize NumPhysPages MemorySize : Z.
Variable NumPhysPages_is_int : bool.
Hypothesis PageSize_pos : 0 < PageSize.
Hypothesis MemorySize_eq : MemorySize = NumPhysPages * PageSize.
Hypothesis MemorySize_int : MemorySize < two31.

Local Abbreviation Translate :=
  (Translate PageSize NumPhysPages MemorySize NumPhysPages_is_int).
Local Abbreviation frame_too_big := (frame_too_big NumPhysPages NumPhysPages_is_int).

Lemma touched_eq (pte : TranslationEntry) (isWrite : bool) :
  (if isWrite then set_dirty (set_use pte true) true else set_use pte true)
  = touched pte isWrite.
Proof. destruct isWrite; reflexivity. Qed.

Lemma NumPhysPages_bound : 0 <= NumPhysPages -> NumPhysPages < two31.
Proof. intros H. subst MemorySize. nia. Qed.

(** An [unsigned int] that is copied into the [int pfn] and converted
    back for an unsigned comparison is itself again. *)
Lemma to_uint_to_int x : 0 <= x < two32 -> to_uint (to_int x) = x.
Proof.
  intros H. unfold to_uint, to_int, two31, two32 in *.
  destruct (Z_lt_le_dec x 2147483648).
  - rewrite (Z.mod_small (x + 2147483648)) by lia. rewrite Z.mod_small; lia.
  - replace (x + 2147483648) with (x - 2147483648 + 1 * 4294967296) by lia.
    rewrite Z.mod_add by lia. rewrite (Z.mod_small (x - 2147483648)) by lia.
    replace (x - 2147483648 - 2147483648) with (x + (-1) * 4294967296) by lia.
    rewrite Z.mod_add by lia. apply Z.mod_small. lia.
Qed.

(** The bound check of [Translate] on a frame number below [2^31], where
    the two readings of the comparison agree, and on any frame number
    under the unsigned reading. *)
Lemma frame_too_big_spec pp :
  0 <= pp < two32 ->
  NumPhysPages_is_int = false \/ pp < two31 ->
  frame_too_big (to_int pp) = (NumPhysPages <=? pp).
Proof.
  intros Hr Hc. unfold AddrSpace.frame_too_big.
  destruct NumPhysPages_is_int.
  - destruct Hc as [Hc|Hc]; [discriminate|].
    rewrite to_int_small by (unfold two31 in *; lia). reflexivity.
  - now rewrite to_uint_to_int.
Qed.

Lemma frame_address_bound pfn offset :
  0 <= pfn < NumPhysPages -> 0 <= offset < PageSize ->
  0 <= pfn * PageSize + offset < MemorySize.
Proof.
  intros Hp Ho. subst MemorySize. split; [nia|].
  assert ((pfn + 1) * PageSize <= NumPhysPages * PageSize) by nia. lia.
Qed.

(** [Translate] where the two readings of [pfn >= NumPhysPages] agree,
    and under the unsigned reading.  For a page table of [numPages]
    entries and a virtual address [vaddr], [Translate] checks in this
    order: a page number [vaddr / PageSize >= numPages] gives
    [AddressErrorException]; else a write to a [readOnly] entry gives
    [ReadOnlyException]; else, for an entry whose [physicalPage] is below
    [2^31], or for any entry when [NumPhysPages] is unsigned,
    [physicalPage >= NumPhysPages] gives [BusErrorException] and
    otherwise the call sets [use] (and [dirty] on a write), returns
    [physicalPage * PageSize + vaddr mod PageSize], and this address is
    below [MemorySize].  Every failure leaves the caller's [paddr] and the
    page table as they were; in particular a refused write sets no
    [dirty] flag. *)
Theorem Translate_checks_in_order (sp : AddrSpace) (vaddr paddr : Z) (isWrite : bool) :
  0 <= vaddr < two32 ->
  Z.of_nat (length (pageTable sp)) = numPages sp ->
  let vpn := vaddr / PageSize in
  (numPages sp <= vpn ->
     Translate sp vaddr paddr isWrite = Ok (AddressErrorException, paddr, sp))
  /\
  (vpn < numPages sp ->
     exists pte, nth_error (pageTable sp) (Z.to_nat vpn) = Some pte /\
     (isWrite = true -> readOnly pte = true ->
        Translate sp vaddr paddr isWrite = Ok (ReadOnlyException, paddr, sp))
     /\
     (isWrite && readOnly pte = false ->
      0 <= physicalPage pte < two32 ->
      NumPhysPages_is_int = false \/ physicalPage pte < two31 ->
        (NumPhysPages <= physicalPage pte ->
           Translate sp vaddr paddr isWrite = Ok (BusErrorException, paddr, sp))
        /\
        (physicalPage pte < NumPhysPages ->
           exists pt',
             Translate sp vaddr paddr isWrite
             = Ok (NoException,
                   physicalPage pte * PageSize + vaddr mod PageSize,
                   mkSpace pt' (numPages sp))
             /\ physicalPage pte * PageSize + vaddr mod PageSize < MemorySize
             /\ nth_error pt' (Z.to_nat vpn) = Some (touched pte isWrite)
             /\ length pt' = length (pageTable sp)
             /\ forall j, j <> Z.to_nat vpn ->
                          nth_error pt' j = nth_error (pageTable sp) j))).
Proof.
  intros Hv Hlen vpn.
  assert (Hvpn : 0 <= vpn) by (apply Z.div_pos; lia).
  split.
  - intros Hge. unfold AddrSpace.Translate. fold vpn.
    destruct (Z.leb_spec (numPages sp) vpn); [reflexivity | lia].
  - intros Hlt.
    destruct (nth_error_some_lt (pageTable sp) (Z.to_nat vpn)) as [pte Hpte]; [lia|].
    exists pte. split; [exact Hpte|].
    assert (Hhead : forall r,
      (AddrSpace.Translate PageSize NumPhysPages MemorySize NumPhysPages_is_int
         sp vaddr paddr isWrite = r) <->
      (if isWrite && readOnly pte then Ok (ReadOnlyException, paddr, sp)
       else if frame_too_big (to_int (physicalPage pte))
            then Ok (BusErrorException, paddr, sp)
            else match list_set (pageTable sp) (Z.to_nat vpn) (touched pte isWrite) with
                 | None => Stop OutOfBounds
                 | Some pt' =>
                     do _ <- assert (to_uint (to_int (physicalPage pte) * PageSize
                                              + vaddr mod PageSize) <? MemorySize);
                     Ok (NoException,
                         to_uint (to_int (physicalPage pte) * PageSize + vaddr mod PageSize),
                         mkSpace pt' (numPages sp))
                 end) = r).
    { intros r. unfold AddrSpace.Translate. fold vpn.
      destruct (Z.leb_spec (numPages sp) vpn); [lia|].
      rewrite Hpte, touched_eq. reflexivity. }
    split.
    + intros Hw Hro. apply Hhead. now rewrite Hw, Hro.
    + intros Hnro Hpp Hread.
      pose proof (frame_too_big_spec (physicalPage pte) Hpp Hread) as Hcheck.
      split.
      * intros Hbig. apply Hhead. rewrite Hnro, Hcheck.
        destruct (Z.leb_spec NumPhysPages (physicalPage pte)); [reflexivity | lia].
      * intros Hsmall.
        pose proof (NumPhysPages_bound ltac:(lia)) as Hnb.
        assert (Hti : to_int (physicalPage pte) = physicalPage pte)
          by (apply to_int_small; unfold two31 in *; lia).
        destruct (list_set_some (pageTable sp) (Z.to_nat vpn) (touched pte isWrite))
          as [pt' Hset]; [lia|].
        exists pt'.
        assert (Hoff : 0 <= vaddr mod PageSize < PageSize) by (apply Z.mod_pos_bound; lia).
        pose proof (frame_address_bound (physicalPage pte) (vaddr mod PageSize)
                      ltac:(lia) Hoff) as Hb.
        repeat split.
        -- apply Hhead. rewrite Hnro, Hcheck, Hti.
           destruct (Z.leb_spec NumPhysPages (physicalPage pte)); [lia|].
           rewrite Hset.
           rewrite to_uint_small by (unfold two31, two32 in *; lia).
           destruct (Z.ltb_spec (physicalPage pte * PageSize + vaddr mod PageSize) MemorySize);
             [reflexivity | lia].
        -- lia.
        -- eapply list_set_nth_eq; eauto.
        -- eapply list_set_length; eauto.
        -- intros j Hj. eapply list_set_nth_ne; eauto.
Qed.

(** Under the signed reading an entry whose [physicalPage] is [2^31] or
    more is never answered with [BusErrorException]: the copy into
    [int pfn] is negative and passes the bound check. *)
Lemma Translate_negative_pfn (sp : AddrSpace) (vaddr paddr : Z) (isWrite : bool)
    (pte : TranslationEntry) :
  NumPhysPages_is_int = true ->
  0 <= NumPhysPages ->
  nth_error (pageTable sp) (Z.to_nat (vaddr / PageSize)) = Some pte ->
  two31 <= physicalPage pte < two32 ->
  forall p' sp', Translate sp vaddr paddr isWrite <> Ok (BusErrorException, p', sp').
Proof.
  intros Hint Hn Hpte Hpp p' sp' H. unfold AddrSpace.Translate in H.
  destruct (numPages sp <=? vaddr / PageSize); [discriminate|].
  rewrite Hpte in H.
  destruct (isWrite && readOnly pte); [discriminate|].
  assert (Hneg : to_int (physicalPage pte) < 0).
  { unfold to_int, two31, two32 in *.
    replace (physicalPage pte + 2147483648)
      with (physicalPage pte - 2147483648 + 1 * 4294967296) by lia.
    rewrite Z.mod_add by lia. rewrite Z.mod_small; lia. }
  unfold AddrSpace.frame_too_big in H. rewrite Hint in H.
  destruct (Z.leb_spec NumPhysPages (to_int (physicalPage pte))); [lia|].
  destruct (list_set _ _ _); [|discriminate].
  destruct (assert _); simpl in H; discriminate.
Qed.



Variables NOFFMAGIC UserStackSize : Z.
Variable ExceptionHandler : ExceptionType -> Kernel -> option Kernel.

Local Abbreviation is_loaded := (loaded NumPhysPages).

Lemma claim_frames_all n : forall pre post idx np k pt,
  FrameTable k = pre ++ post ->
  length post = n ->
  0 <= idx <= np ->
  Z.of_nat (length pre + n) = NumPhysPages ->
  Z.of_nat (length pt) = np ->
  np - idx <= count_free post ->
  (forall j e, (j < Z.to_nat idx)%nat -> nth_error pt j = Some e -> (names_frame NumPhysPages) e) ->
  exists post' pt',
    claim_frames n (Z.of_nat (length pre)) idx np k pt
    = Ok (mkKernel (pre ++ post') (FreeFrame k - (np - idx)), pt')
    /\ length post' = n
    /\ count_free post' = count_free post - (np - idx)
    /\ length pt' = length pt
    /\ Forall (names_frame NumPhysPages) pt'.
Proof.
  induction n as [|n IH]; intros pre post idx np k pt Hft Hlen Hidx Htot Hpt Hfree Hgood.
  - destruct post; [|discriminate]. simpl in Hfree.
    assert (idx = np) by lia. subst idx.
    exists [], pt. simpl. replace (FreeFrame k - (np - np)) with (FreeFrame k) by lia.
    rewrite <- Hft. destruct k; simpl. repeat split; try lia.
    apply Forall_forall. intros e He. apply In_nth_error in He. destruct He as [j Hj].
    apply (Hgood j); [|exact Hj].
    assert (j < length pt)%nat by (apply nth_error_Some; congruence). lia.
  - destruct post as [|f post]; [discriminate|]. simpl in Hlen. injection Hlen as Hlen.
    simpl claim_frames.
    destruct (Z.eqb_spec idx np) as [He|Hne].
    + subst idx. exists (f :: post), pt.
      replace (FreeFrame k - (np - np)) with (FreeFrame k) by lia.
      rewrite <- Hft. destruct k; simpl. repeat split; try lia.
      apply Forall_forall. intros e He. apply In_nth_error in He. destruct He as [j Hj].
      apply (Hgood j); [|exact Hj].
      assert (j < length pt)%nat by (apply nth_error_Some; congruence). lia.
    + rewrite Nat2Z.id, Hft, nth_error_app_mid.
      simpl count_free in Hfree.
      assert (Hpre : Z.of_nat (length (pre ++ [f])) = Z.of_nat (length pre) + 1)
        by (rewrite length_app; simpl; lia).
      destruct (f =? 1) eqn:Ef; try rewrite Ef in Hfree.
      * destruct (list_set_some pt (Z.to_nat idx)
                    (mkEntry idx (Z.of_nat (length pre)) true false false false))
          as [pt1 Hpt1]; [lia|].
        rewrite Hpt1, list_set_app_mid.
        destruct (IH (pre ++ [0]) post (idx + 1) np
                    (mkKernel (pre ++ 0 :: post) (FreeFrame k - 1)) pt1)
          as (post' & pt' & Hrun & Hl' & Hc' & Hlp & Hall).
        { simpl. now rewrite <- app_assoc. }
        { exact Hlen. }
        { lia. }
        { rewrite length_app. simpl. lia. }
        { erewrite list_set_length; eauto. }
        { lia. }
        { intros j e Hj Hnth.
          destruct (Nat.eq_dec j (Z.to_nat idx)) as [->|Hjne].
          - erewrite list_set_nth_eq in Hnth by eauto. inversion Hnth; subst.
            unfold names_frame. simpl. lia.
          - erewrite list_set_nth_ne in Hnth by eauto.
            apply (Hgood j); [lia | exact Hnth]. }
        exists (0 :: post'), pt'.
        replace (Z.of_nat (length pre) + 1) with (Z.of_nat (length (pre ++ [0])))
          by (rewrite length_app; simpl; lia).
        rewrite Hrun. simpl FreeFrame. rewrite <- app_assoc. simpl app.
        split; [do 3 f_equal; lia|].
        split; [simpl; lia|].
        split; [simpl; rewrite Ef; lia|].
        split; [|exact Hall].
        etransitivity; [exact Hlp | eapply list_set_length; eauto].
      * destruct (IH (pre ++ [f]) post idx np k pt)
          as (post' & pt' & Hrun & Hl' & Hc' & Hlp & Hall).
        { rewrite Hft. now rewrite <- app_assoc. }
        { exact Hlen. }
        { lia. }
        { rewrite length_app. simpl. lia. }
        { exact Hpt. }
        { lia. }
        { exact Hgood. }
        exists (f :: post'), pt'.
        replace (Z.of_nat (length pre) + 1) with (Z.of_nat (length (pre ++ [f])))
          by (rewrite length_app; simpl; lia).
        rewrite Hrun. rewrite <- app_assoc. simpl app.
        split; [reflexivity|].
        split; [simpl; lia|].
        split; [simpl; rewrite Ef; lia|].
        split; [exact Hlp | exact Hall].
Qed.


Local Abbreviation translate_checked :=
  (translate_checked PageSize NumPhysPages MemorySize NumPhysPages_is_int ExceptionHandler).
Local Abbreviation copy_segment :=
  (copy_segment PageSize NumPhysPages MemorySize NumPhysPages_is_int ExceptionHandler).
Local Abbreviation Load :=
  (Load PageSize NumPhysPages MemorySize NumPhysPages_is_int NOFFMAGIC UserStackSize
     ExceptionHandler).
Local Abbreviation pages_needed := (pages_needed PageSize UserStackSize).

Lemma Translate_read_ok sp vaddr paddr :
  is_loaded sp -> 0 <= vaddr < numPages sp * PageSize ->
  exists pt' p',
    Translate sp vaddr paddr false = Ok (NoException, p', mkSpace pt' (numPages sp))
    /\ is_loaded (mkSpace pt' (numPages sp))
    /\ nth_error pt' (Z.to_nat (vaddr / PageSize)) <> None.
Proof.
  intros (Hall & Hlen & Hnp) Hv.
  assert (Hvpn : 0 <= vaddr / PageSize < numPages sp).
  { split; [apply Z.div_pos; lia | apply Z.div_lt_upper_bound; lia]. }
  unfold AddrSpace.Translate.
  destruct (Z.leb_spec (numPages sp) (vaddr / PageSize)); [lia|].
  destruct (nth_error_some_lt (pageTable sp) (Z.to_nat (vaddr / PageSize)))
    as [pte Hpte]; [lia|].
  rewrite Hpte. simpl andb. cbv iota.
  assert (Hg : (names_frame NumPhysPages) pte).
  { rewrite Forall_forall in Hall. apply Hall. eapply nth_error_In; eauto. }
  unfold names_frame in Hg.
  pose proof (NumPhysPages_bound ltac:(lia)) as Hb.
  rewrite (frame_too_big_spec (physicalPage pte))
    by (unfold two31, two32 in *; lia).
  rewrite to_int_small by (unfold two31 in *; lia).
  destruct (Z.leb_spec NumPhysPages (physicalPage pte)); [lia|].
  destruct (list_set_some (pageTable sp) (Z.to_nat (vaddr / PageSize)) (set_use pte true))
    as [pt' Hset]; [lia|].
  rewrite Hset.
  assert (Hoff : 0 <= vaddr mod PageSize < PageSize) by (apply Z.mod_pos_bound; lia).
  pose proof (frame_address_bound (physicalPage pte) (vaddr mod PageSize) Hg Hoff) as Ha.
  rewrite to_uint_small by (unfold two31, two32 in *; lia).
  destruct (Z.ltb_spec (physicalPage pte * PageSize + vaddr mod PageSize) MemorySize); [|lia].
  simpl. exists pt', (physicalPage pte * PageSize + vaddr mod PageSize).
  split; [reflexivity|]. split.
  - split; [|split]; simpl.
    + eapply list_set_Forall; eauto.
    + erewrite list_set_length; eauto.
    + exact Hnp.
  - erewrite list_set_nth_eq by eauto. discriminate.
Qed.

Lemma translate_checked_ok k sp vaddr paddr :
  is_loaded sp -> 0 <= vaddr < numPages sp * PageSize ->
  exists pt' p',
    translate_checked k sp vaddr paddr = Returns (k, mkSpace pt' (numPages sp), p')
    /\ is_loaded (mkSpace pt' (numPages sp))
    /\ nth_error pt' (Z.to_nat (vaddr / PageSize)) <> None.
Proof.
  intros Hl Hv.
  destruct (Translate_read_ok sp vaddr paddr Hl Hv) as (pt' & p' & Ht & Hl' & Hn).
  exists pt', p'. unfold AddrSpace.translate_checked.
  destruct Hl as (_ & _ & Hnp).
  assert (numPages sp * PageSize <= MemorySize) by (subst MemorySize; nia).
  rewrite to_uint_small by (unfold two31, two32 in *; lia).
  rewrite Ht. simpl. auto.
Qed.

Lemma copy_segment_ok fuel : forall ro remain base pos k sp paddr,
  is_loaded sp ->
  remain <= Z.of_nat fuel ->
  (0 < remain -> 0 <= base /\ base + remain <= numPages sp * PageSize) ->
  exists pt' p',
    copy_segment fuel ro remain base pos k sp paddr
    = Returns (k, mkSpace pt' (numPages sp), p')
    /\ is_loaded (mkSpace pt' (numPages sp)).
Proof.
  induction fuel as [|fuel IH]; intros ro remain base pos k sp paddr Hl Hfuel Hin.
  - simpl. destruct (Z.gtb_spec remain 0); [lia|].
    exists (pageTable sp), paddr. destruct sp; simpl. auto.
  - simpl. destruct (Z.gtb_spec remain 0) as [Hpos|Hnpos].
    + destruct (Hin Hpos) as [Hb0 Hb1].
      destruct (translate_checked_ok k sp base paddr Hl ltac:(lia))
        as (pt1 & p1 & Ht & Hl1 & Hn1).
      rewrite Ht. simpl lbind. cbv iota beta.
      assert (Hq : to_uint (Z.quot base PageSize) = base / PageSize).
      { rewrite Z.quot_div_nonneg by lia.
        destruct Hl as (_ & _ & Hnp).
        assert (numPages sp * PageSize <= MemorySize) by (subst MemorySize; nia).
        assert (0 <= base / PageSize <= base).
        { split; [apply Z.div_pos; lia|]. apply Z.div_le_upper_bound; nia. }
        apply to_uint_small. unfold two31, two32 in *. lia. }
      rewrite Hq. simpl pageTable.
      destruct (nth_error pt1 (Z.to_nat (base / PageSize))) as [pte|] eqn:Hpte; [|congruence].
      destruct (list_set_some pt1 (Z.to_nat (base / PageSize)) (set_readOnly pte ro))
        as [pt2 Hset].
      { apply nth_error_Some. congruence. }
      rewrite Hset. simpl numPages.
      assert (Hl2 : is_loaded (mkSpace pt2 (numPages sp))).
      { destruct Hl1 as (Ha & Hb & Hc). simpl in *. split; [|split]; simpl.
        - eapply list_set_Forall; eauto.
          rewrite Forall_forall in Ha. apply nth_error_In in Hpte. apply Ha in Hpte.
          exact Hpte.
        - erewrite list_set_length; eauto.
        - exact Hc. }
      destruct (IH ro (remain - Z.min remain PageSize) (base + Z.min remain PageSize)
                  (pos + Z.min remain PageSize) k (mkSpace pt2 (numPages sp)) p1 Hl2)
        as (pt' & p' & Hrun & Hl').
      { lia. }
      { simpl. lia. }
      simpl in Hrun, Hl'. eauto.
    + exists (pageTable sp), paddr. destruct sp; simpl. auto.
Qed.

Lemma Load_raises_before_claiming (k : Kernel) (sp : AddrSpace) (noffH : NoffHeader)
    (junk : TranslationEntry) (paddr : Z) :
  noffMagic noffH = NOFFMAGIC ->
  pages_needed noffH > to_uint (FreeFrame k) ->
  ExceptionHandler MemoryLimitException k = None ->
  Load k sp (Some noffH) junk paddr
  = Raises MemoryLimitException k (mkSpace (pageTable sp) (pages_needed noffH)).
Proof.
  intros Hm Hnp Hh. unfold AddrSpace.Load.
  rewrite Hm, Z.eqb_refl. simpl lbind.
  fold (pages_needed noffH).
  destruct (Z.gtb_spec (pages_needed noffH) (to_uint (FreeFrame k))); [|lia].
  unfold raise. rewrite Hh. reflexivity.
Qed.

Lemma Load_exact_fit (k : Kernel) (sp : AddrSpace) (noffH : NoffHeader)
    (junk : TranslationEntry) (paddr : Z) :
  noffMagic noffH = NOFFMAGIC ->
  Z.of_nat (length (FrameTable k)) = NumPhysPages ->
  FreeFrame k = count_free (FrameTable k) ->
  pages_needed noffH = FreeFrame k ->
  segment_inside PageSize (pages_needed noffH) (code noffH) ->
  segment_inside PageSize (pages_needed noffH) (initData noffH) ->
  segment_inside PageSize (pages_needed noffH) (readonlyData noffH) ->
  exists frames' pt',
    Load k sp (Some noffH) junk paddr
    = Returns (true, mkKernel frames' 0, mkSpace pt' (pages_needed noffH))
    /\ count_free frames' = 0
    /\ length frames' = length (FrameTable k)
    /\ Z.of_nat (length pt') = pages_needed noffH
    /\ Forall (names_frame NumPhysPages) pt'.
Proof.
  intros Hm Hlen Hcnt Hnp Hc Hi Hr.
  pose proof (count_free_bounds (FrameTable k)) as Hcb.
  pose proof (NumPhysPages_bound ltac:(lia)) as Hb.
  unfold AddrSpace.Load. rewrite Hm, Z.eqb_refl. simpl lbind.
  fold (pages_needed noffH). set (np := pages_needed noffH) in *.
  rewrite to_uint_small by (unfold two31, two32 in *; lia).
  destruct (Z.gtb_spec np (FreeFrame k)); [lia|].
  destruct (claim_frames_all (Z.to_nat NumPhysPages) [] (FrameTable k) 0 np k
              (repeat junk (Z.to_nat np)))
    as (post' & pt1 & Hrun & Hl1 & Hc1 & Hlp1 & Hall1).
  { reflexivity. } { lia. } { lia. } { simpl. lia. }
  { rewrite repeat_length. lia. } { lia. }
  { intros j e Hj. simpl in Hj. lia. }
  simpl in Hrun. cbn [lbind]. rewrite Hrun. cbn [lbind lift]. cbv iota beta.
  rewrite repeat_length in Hlp1.
  assert (Hl : is_loaded (mkSpace pt1 np)).
  { split; [|split]; simpl; [exact Hall1 | lia | lia]. }
  set (k1 := mkKernel post' (FreeFrame k - (np - 0))).
  destruct (copy_segment_ok (Z.to_nat (size (code noffH))) true (size (code noffH))
              (virtualAddr (code noffH)) (inFileAddr (code noffH)) k1 (mkSpace pt1 np) paddr Hl)
    as (pt2 & p2 & Hrun2 & Hl2).
  { lia. } { intros Hp. destruct Hc as [Hc|Hc]; simpl; lia. }
  rewrite Hrun2. simpl lbind. cbv iota beta. simpl numPages in *.
  assert (Hinit : exists pt3 p3,
    (if size (initData noffH) >? 0
     then lbind (translate_checked k1 (mkSpace pt2 np) (virtualAddr (initData noffH)) p2)
            (fun r => let '(k', sp', paddr') := r in
               copy_segment (Z.to_nat (size (initData noffH))) false
                 (size (initData noffH)) (virtualAddr (initData noffH))
                 (inFileAddr (initData noffH)) k' sp' paddr')
     else Returns (k1, mkSpace pt2 np, p2))
    = Returns (k1, mkSpace pt3 np, p3) /\ is_loaded (mkSpace pt3 np)).
  { destruct (Z.gtb_spec (size (initData noffH)) 0) as [Hp|Hp]; [|eauto].
    destruct Hi as [Hi|Hi]; [lia|].
    destruct (translate_checked_ok k1 (mkSpace pt2 np) (virtualAddr (initData noffH)) p2 Hl2)
      as (pta & pa & Hta & Hla & _).
    { simpl. lia. }
    rewrite Hta. simpl lbind. cbv iota beta. simpl numPages in *.
    destruct (copy_segment_ok (Z.to_nat (size (initData noffH))) false (size (initData noffH))
                (virtualAddr (initData noffH)) (inFileAddr (initData noffH)) k1
                (mkSpace pta np) pa Hla)
      as (pt3 & p3 & Hrun3 & Hl3).
    { lia. } { intros _. simpl. lia. }
    simpl numPages in *. eauto. }
  destruct Hinit as (pt3 & p3 & Hrun3 & Hl3).
  rewrite Hrun3. simpl lbind. cbv iota beta.
  destruct (copy_segment_ok (Z.to_nat (size (readonlyData noffH))) true
              (size (readonlyData noffH)) (virtualAddr (readonlyData noffH))
              (inFileAddr (readonlyData noffH)) k1 (mkSpace pt3 np) p3 Hl3)
    as (pt4 & p4 & Hrun4 & Hl4).
  { lia. } { intros Hp. destruct Hr as [Hr|Hr]; simpl; lia. }
  rewrite Hrun4. simpl lbind. cbv iota beta. simpl numPages in *.
  exists post', pt4. unfold k1.
  replace (FreeFrame k - (np - 0)) with 0 by lia.
  split; [reflexivity|].
  destruct Hl4 as (Ha & Hb4 & _). simpl in *.
  repeat split; try assumption; lia.
Qed.

(** C2 (amended).  When the page count computed for an executable
    exceeds the free-frame count, [Load] enters
    [ExceptionHandler(MemoryLimitException)] before it claims any frame:
    if the handler ends the run there, the kernel state of the raise is
    the one [Load] was called in, frame table and [FreeFrame] counter
    untouched.  When the page count equals the free-frame count (the
    counter agreeing with the frame table, the segments lying inside the
    address space) the load succeeds: it returns [TRUE] with every free
    frame claimed, [FreeFrame = 0], and a page table of that many entries
    that each name a frame of the machine. *)
Theorem Load_memory_limit (sp : AddrSpace) (noffH : NoffHeader)
    (junk : TranslationEntry) (paddr : Z) :
  noffMagic noffH = NOFFMAGIC ->
  (forall k,
     pages_needed noffH > to_uint (FreeFrame k) ->
     ExceptionHandler MemoryLimitException k = None ->
     Load k sp (Some noffH) junk paddr
     = Raises MemoryLimitException k (mkSpace (pageTable sp) (pages_needed noffH)))
  /\
  (forall k,
     Z.of_nat (length (FrameTable k)) = NumPhysPages ->
     FreeFrame k = count_free (FrameTable k) ->
     pages_needed noffH = FreeFrame k ->
     segment_inside PageSize (pages_needed noffH) (code noffH) ->
     segment_inside PageSize (pages_needed noffH) (initData noffH) ->
     segment_inside PageSize (pages_needed noffH) (readonlyData noffH) ->
     exists frames' pt',
       Load k sp (Some noffH) junk paddr
       = Returns (true, mkKernel frames' 0, mkSpace pt' (pages_needed noffH))
       /\ count_free frames' = 0
       /\ length frames' = length (FrameTable k)
       /\ Z.of_nat (length pt') = pages_needed noffH
       /\ Forall (names_frame NumPhysPages) pt').
Proof.
  intros Hm. split.
  - intros k Hover Hhalt. now apply Load_raises_before_claiming.
  - intros k Hlen Hcnt Hfit Hc Hi Hr. now apply Load_exact_fit.
Qed.

End Machine.

(** *** Concrete machines *)

(** The theorem at a page table of two entries, on a machine of four
    frames, under either reading of the bound check: a write to the
    read-only page 1, an address beyond the table, and a read of page 0,
    which maps to frame 3. *)
Lemma Translate_checks_in_order_witness :
  (0 < 128 /\ 512 = 4 * 128 /\ 512 < two31 /\ 0 <= 130 < two32
   /\ Z.of_nat (length (pageTable small_space)) = numPages small_space)
  /\ forall signed : bool,
     Translate 128 4 512 signed small_space 130 0 true
     = Ok (ReadOnlyException, 0, small_space)
     /\ Translate 128 4 512 signed small_space 300 0 true
        = Ok (AddressErrorException, 0, small_space)
     /\ exists pt',
          Translate 128 4 512 signed small_space 5 0 false
          = Ok (NoException, 389, mkSpace pt' 2)
          /\ nth_error pt' 0 = Some (mkEntry 0 3 true true false false).
Proof.
  assert (H0 : 0 < 128) by lia.
  assert (H1 : 512 = 4 * 128) by reflexivity.
  assert (H2 : 512 < two31) by reflexivity.
  assert (H3 : 0 <= 130 < two32) by (unfold two32; lia).
  assert (H3' : 0 <= 300 < two32) by (unfold two32; lia).
  assert (H3'' : 0 <= 5 < two32) by (unfold two32; lia).
  assert (H4 : Z.of_nat (length (pageTable small_space)) = numPages small_space)
    by reflexivity.
  split; [tauto|]. intros signed. split; [|split].
  - destruct (Translate_checks_in_order 128 4 512 signed H0 H1 H2 small_space 130 0 true
                H3 H4) as [_ Hin].
    destruct (Hin ltac:(reflexivity)) as (pte & Hpte & Hro & _).
    apply Hro; [reflexivity|].
    vm_compute in Hpte. injection Hpte as <-. reflexivity.
  - destruct (Translate_checks_in_order 128 4 512 signed H0 H1 H2 small_space 300 0 true
                H3' H4) as [Hout _].
    apply Hout. vm_compute. discriminate.
  - destruct (Translate_checks_in_order 128 4 512 signed H0 H1 H2 small_space 5 0 false
                H3'' H4) as [_ Hin].
    destruct (Hin ltac:(reflexivity)) as (pte & Hpte & _ & Hok).
    vm_compute in Hpte. injection Hpte as <-.
    destruct (Hok eq_refl ltac:(simpl; unfold two32; lia)
                ltac:(right; simpl; unfold two31; lia)) as [_ Hsucc].
    destruct (Hsucc ltac:(simpl; lia)) as (pt' & Hrun & _ & Hnth & _).
    exists pt'. split; [exact Hrun | exact Hnth].
Defined.


(** The theorem on a machine of four frames, for a program of three
    pages: with two frames free the handler is entered, with three free
    the load succeeds. *)
Lemma Load_memory_limit_witness :
  noffMagic small_noff = magic
  /\ forall signed : bool,
     Load 128 4 512 signed magic 256 halting_handler (mkKernel [1; 0; 0; 1] 2)
       (mkSpace [] 0) (Some small_noff) blank_entry 0
     = Raises MemoryLimitException (mkKernel [1; 0; 0; 1] 2) (mkSpace [] 3)
     /\ exists frames' pt',
          Load 128 4 512 signed magic 256 halting_handler (mkKernel [1; 0; 1; 1] 3)
            (mkSpace [] 0) (Some small_noff) blank_entry 0
          = Returns (true, mkKernel frames' 0, mkSpace pt' 3)
          /\ count_free frames' = 0.
Proof.
  assert (H0 : 0 < 128) by lia.
  assert (H1 : 512 = 4 * 128) by reflexivity.
  assert (H2 : 512 < two31) by reflexivity.
  assert (Hm : noffMagic small_noff = magic) by reflexivity.
  split; [exact Hm|]. intros signed.
  destruct (Load_memory_limit 128 4 512 signed H0 H1 H2 magic 256 halting_handler
              (mkSpace [] 0) small_noff blank_entry 0 Hm) as [Hover Hfit].
  split.
  - apply (Hover (mkKernel [1; 0; 0; 1] 2)); reflexivity.
  - destruct (Hfit (mkKernel [1; 0; 1; 1] 3)) as (frames' & pt' & Hrun & Hc & _).
    + reflexivity.
    + reflexivity.
    + reflexivity.
    + right. vm_compute. split; discriminate.
    + right. vm_compute. split; discriminate.
    + left. vm_compute. discriminate.
    + exists frames', pt'. split; [exact Hrun | exact Hc].
Defined.

(** C2, counterexample.  With three pages needed and two frames free,
    [Load] does not return [FALSE], in whatever kernel state.  Under a
    handler that does not return, the call ends inside the handler; under
    one that returns, [Load] goes on, claims both free frames and returns
    [TRUE]. *)
Lemma Load_over_limit_returns_no_false :
  let k := mkKernel [1; 0; 0; 1] 2 in
  pages_needed 128 256 small_noff > FreeFrame k
  /\ (forall signed k' sp',
        Load 128 4 512 signed magic 256 halting_handler k
          (mkSpace [] 0) (Some small_noff) blank_entry 0
        <> Returns (false, k', sp'))
  /\ (forall signed k' sp',
        Load 128 4 512 signed magic 256 resuming_handler k
          (mkSpace [] 0) (Some small_noff) blank_entry 0
        <> Returns (false, k', sp'))
  /\ forall signed,
     exists sp', Load 128 4 512 signed magic 256 resuming_handler k
                   (mkSpace [] 0) (Some small_noff) blank_entry 0
                 = Returns (true, mkKernel [0; 0; 0; 0] 0, sp').
Proof.
  split; [reflexivity|].
  split; [intros [|] k' sp'; vm_compute; discriminate|].
  split; [intros [|] k' sp'; vm_compute; discriminate|].
  intros [|]; eexists; vm_compute; reflexivity.
Qed.

(** *** The frames of a load *)

Lemma list_set_firstn {A} (l : list A) : forall n x l',
  list_set l n x = Some l' -> firstn (S n) l' = firstn n l ++ [x].
Proof.
  induction l as [|h t IH]; intros [|n] x l' H; simpl in H; try discriminate.
  - now inversion H.
  - destruct (list_set t n x) as [t'|] eqn:E; [|discriminate].
    inversion H; subst. cbn [firstn app]. f_equal. now apply IH.
Qed.

Lemma list_set_map {A B} (f : A -> B) (l : list A) : forall n x y l',
  list_set l n x = Some l' -> nth_error l n = Some y -> f x = f y ->
  map f l' = map f l.
Proof.
  induction l as [|h t IH]; intros [|n] x y l' H Hn Hf; simpl in *; try discriminate.
  - inversion H; inversion Hn; subst. simpl. now rewrite Hf.
  - destruct (list_set t n x) as [t'|] eqn:E; [|discriminate].
    inversion H; subst. simpl. f_equal. eapply IH; eauto.
Qed.

Lemma free_frames_bounds frames : forall i f,
  In f (free_frames i frames) -> i <= f < i + Z.of_nat (length frames).
Proof.
  induction frames as [|x rest IH]; intros i f H; simpl in H; [contradiction|].
  simpl length.
  destruct (x =? 1).
  - destruct H as [<-|H]; [lia|]. apply IH in H. lia.
  - apply IH in H. lia.
Qed.

Lemma free_frames_free frames : forall i f,
  In f (free_frames i frames) -> nth_error frames (Z.to_nat (f - i)) = Some 1.
Proof.
  induction frames as [|x rest IH]; intros i f H; simpl in H; [contradiction|].
  assert (Hrest : In f (free_frames (i + 1) rest) ->
                  nth_error (x :: rest) (Z.to_nat (f - i)) = Some 1).
  { intros Hr. pose proof (free_frames_bounds _ _ _ Hr).
    replace (Z.to_nat (f - i)) with (S (Z.to_nat (f - (i + 1)))) by lia.
    simpl. now apply IH. }
  destruct (Z.eqb_spec x 1) as [->|_]; [|auto].
  destruct H as [<-|H]; [|auto].
  now rewrite Z.sub_diag.
Qed.

Lemma free_frames_NoDup frames : forall i, NoDup (free_frames i frames).
Proof.
  induction frames as [|x rest IH]; intros i; simpl; [constructor|].
  destruct (x =? 1); [|apply IH].
  constructor; [|apply IH].
  intros H. apply free_frames_bounds in H. lia.
Qed.

Lemma free_frames_length frames : forall i,
  Z.of_nat (length (free_frames i frames)) = count_free frames.
Proof.
  induction frames as [|x rest IH]; intros i; simpl; [reflexivity|].
  destruct (x =? 1); simpl length; rewrite <- (IH (i + 1)); lia.
Qed.

Lemma free_frames_take frames : forall m i,
  free_frames i (take_frames m frames) = skipn m (free_frames i frames).
Proof.
  induction frames as [|x rest IH]; intros [|m] i; simpl; try reflexivity.
  destruct (Z.eqb_spec x 1) as [->|Hx]; simpl.
  - apply IH.
  - destruct (Z.eqb_spec x 1); [contradiction|]. apply (IH (S m)).
Qed.

Lemma take_frames_length frames : forall m,
  length (take_frames m frames) = length frames.
Proof.
  induction frames as [|x rest IH]; intros [|m]; simpl; try reflexivity.
  destruct (x =? 1); simpl; now rewrite IH.
Qed.

Lemma count_free_take frames : forall m,
  Z.of_nat m <= count_free frames ->
  count_free (take_frames m frames) = count_free frames - Z.of_nat m.
Proof.
  induction frames as [|x rest IH]; intros m H.
  - destruct m; simpl in *; lia.
  - destruct m as [|m]; [simpl; lia|].
    cbn [take_frames count_free] in *.
    destruct (Z.eqb_spec x 1) as [->|Hx]; cbn [count_free].
    + rewrite IH by lia. simpl (1 =? 1). simpl (0 =? 1). lia.
    + destruct (Z.eqb_spec x 1); [contradiction|]. rewrite (IH (S m)) by lia. lia.
Qed.

Lemma fresh_entries_length frames : forall idx,
  length (fresh_entries idx frames) = length frames.
Proof. induction frames as [|f r IH]; intros idx; simpl; auto. Qed.

Lemma fresh_entries_frames frames : forall idx,
  map physicalPage (fresh_entries idx frames) = frames.
Proof. induction frames as [|f r IH]; intros idx; simpl; [reflexivity|]. now rewrite IH. Qed.

Lemma fresh_entries_nth frames : forall idx j e,
  nth_error (fresh_entries idx frames) j = Some e ->
  exists f, nth_error frames j = Some f
            /\ e = mkEntry (idx + Z.of_nat j) f true false false false.
Proof.
  induction frames as [|f r IH]; intros idx [|j] e H; simpl in H; try discriminate.
  - inversion H; subst. exists f. rewrite Z.add_0_r. auto.
  - destruct (IH _ _ _ H) as (f' & Hf & ->). exists f'. split; [exact Hf|].
    f_equal. lia.
Qed.

(** The frame-claiming loop takes the first free frames, in order. *)
Lemma claim_frames_first_fit post : forall pre idx np k pt,
  FrameTable k = pre ++ post ->
  0 <= idx <= np ->
  Z.of_nat (length pt) = np ->
  np - idx <= count_free post ->
  claim_frames (length post) (Z.of_nat (length pre)) idx np k pt
  = Ok (mkKernel (pre ++ take_frames (Z.to_nat (np - idx)) post)
          (FreeFrame k - (np - idx)),
        firstn (Z.to_nat idx) pt
        ++ fresh_entries idx
             (firstn (Z.to_nat (np - idx))
                (free_frames (Z.of_nat (length pre)) post))).
Proof.
  induction post as [|f post IH]; intros pre idx np k pt Hft Hidx Hpt Hfree.
  - simpl in Hfree. assert (idx = np) by lia. subst idx.
    rewrite Z.sub_diag. simpl. rewrite <- Hft, app_nil_r.
    rewrite firstn_all2 by lia. rewrite Z.sub_0_r. now destruct k.
  - simpl length. simpl claim_frames.
    destruct (Z.eqb_spec idx np) as [->|Hne].
    + rewrite Z.sub_diag. simpl take_frames. simpl firstn at 2. simpl fresh_entries.
      rewrite <- Hft, app_nil_r. rewrite firstn_all2 by lia.
      rewrite Z.sub_0_r. now destruct k.
    + rewrite Nat2Z.id, Hft, nth_error_app_mid.
      simpl count_free in Hfree.
      assert (Hm : Z.to_nat (np - idx) = S (Z.to_nat (np - (idx + 1)))) by lia.
      assert (Hpre : forall x, Z.of_nat (length (pre ++ [x])) = Z.of_nat (length pre) + 1)
        by (intros x; rewrite length_app; simpl; lia).
      assert (Htake : take_frames (Z.to_nat (np - idx)) (f :: post)
                      = if f =? 1 then 0 :: take_frames (Z.to_nat (np - (idx + 1))) post
                        else f :: take_frames (Z.to_nat (np - idx)) post).
      { rewrite Hm at 1. simpl. now rewrite <- Hm. }
      rewrite Htake. cbn [free_frames].
      destruct (Z.eqb_spec f 1) as [->|Hf].
      * rewrite Hm. cbn [firstn fresh_entries].
        destruct (list_set_some pt (Z.to_nat idx)
                    (mkEntry idx (Z.of_nat (length pre)) true false false false))
          as [pt1 Hpt1]; [lia|].
        rewrite Hpt1, list_set_app_mid.
        rewrite <- (Hpre 0).
        rewrite (IH (pre ++ [0]) (idx + 1) np
                   (mkKernel (pre ++ 0 :: post) (FreeFrame k - 1)) pt1).
        -- simpl FreeFrame. rewrite <- !app_assoc. simpl app.
           f_equal. f_equal; [f_equal; lia|].
           replace (Z.to_nat (idx + 1)) with (S (Z.to_nat idx)) by lia.
           rewrite (list_set_firstn _ _ _ _ Hpt1), <- app_assoc. simpl.
           rewrite (Hpre 0). reflexivity.
        -- simpl. now rewrite <- app_assoc.
        -- lia.
        -- erewrite list_set_length by eauto. exact Hpt.
        -- lia.
      * rewrite <- (Hpre f).
        rewrite (IH (pre ++ [f]) idx np k pt).
        -- rewrite <- !app_assoc. simpl app. rewrite (Hpre f). reflexivity.
        -- rewrite Hft. now rewrite <- app_assoc.
        -- lia.
        -- exact Hpt.
        -- lia.
Qed.

(** Giving back the frames taken restores the frame table. *)
Lemma release_after_take post : forall pre m n i sp k,
  FrameTable k = pre ++ take_frames m post ->
  0 <= i ->
  Z.of_nat n = Z.min (Z.of_nat m) (count_free post) ->
  map physicalPage (firstn n (skipn (Z.to_nat i) (pageTable sp)))
  = firstn m (free_frames (Z.of_nat (length pre)) post) ->
  release_frames n i sp k = Ok (mkKernel (pre ++ post) (FreeFrame k + Z.of_nat n)).
Proof.
  induction post as [|f post IH]; intros pre m n i sp k Hft Hi Hn Hmap.
  - simpl in Hn. assert (n = 0%nat) by lia. subst n. simpl.
    rewrite Z.add_0_r. destruct m; simpl in Hft; rewrite <- Hft; now destruct k.
  - destruct m as [|m].
    { assert (n = 0%nat) by lia. subst n. simpl in *.
      rewrite Z.add_0_r, <- Hft. now destruct k. }
    assert (Hpre : forall x, Z.of_nat (length (pre ++ [x])) = Z.of_nat (length pre) + 1)
      by (intros x; rewrite length_app; simpl; lia).
    simpl take_frames in Hft. simpl free_frames in Hmap. simpl count_free in Hn.
    destruct (Z.eqb_spec f 1) as [->|Hf].
    + pose proof (count_free_bounds post) as Hcb.
      destruct n as [|n]; [lia|].
      simpl firstn in Hmap.
      destruct (skipn (Z.to_nat i) (pageTable sp)) as [|e rest] eqn:Esk;
        [discriminate|].
      simpl in Hmap. injection Hmap as He Hrest.
      assert (Hnth : nth_error (pageTable sp) (Z.to_nat i) = Some e).
      { rewrite <- (firstn_skipn (Z.to_nat i) (pageTable sp)), Esk.
        assert (Hl : length (firstn (Z.to_nat i) (pageTable sp)) = Z.to_nat i).
        { rewrite length_firstn. apply Nat.min_l.
          destruct (Nat.le_gt_cases (Z.to_nat i) (length (pageTable sp))); [assumption|].
          rewrite skipn_all2 in Esk by lia. discriminate. }
        rewrite <- Hl at 2. apply nth_error_app_mid. }
      simpl release_frames. rewrite Hnth, He.
      destruct (Z.ltb_spec (Z.of_nat (length pre)) 0); [lia|].
      rewrite Nat2Z.id, Hft, list_set_app_mid.
      rewrite (IH (pre ++ [1]) m n (i + 1) sp).
      * simpl FreeFrame. rewrite <- app_assoc. simpl app. f_equal. f_equal. lia.
      * simpl. now rewrite <- app_assoc.
      * lia.
      * lia.
      * replace (Z.to_nat (i + 1)) with (S (Z.to_nat i)) by lia.
        rewrite (Hpre 1).
        assert (Hsk : skipn (S (Z.to_nat i)) (pageTable sp) = rest).
        { change (S (Z.to_nat i)) with (1 + Z.to_nat i)%nat.
          rewrite <- skipn_skipn, Esk. reflexivity. }
        rewrite Hsk. exact Hrest.
    + rewrite (IH (pre ++ [f]) (S m) n i sp k).
      * rewrite <- app_assoc. reflexivity.
      * rewrite Hft. now rewrite <- app_assoc.
      * exact Hi.
      * exact Hn.
      * rewrite (Hpre f). exact Hmap.
Qed.

(** The frames taken are marked used. *)
Lemma take_frames_used frames : forall m i f,
  In f (firstn m (free_frames i frames)) ->
  nth_error (take_frames m frames) (Z.to_nat (f - i)) = Some 0.
Proof.
  induction frames as [|x rest IH]; intros m i f Hin.
  - simpl in Hin. rewrite firstn_nil in Hin. contradiction.
  - destruct m as [|m]; [contradiction|].
    assert (Hnext : forall m', In f (firstn m' (free_frames (i + 1) rest)) ->
              nth_error (take_frames m' rest) (Z.to_nat (f - (i + 1))) = Some 0
              /\ Z.to_nat (f - i) = S (Z.to_nat (f - (i + 1)))).
    { intros m' H. split; [now apply IH|].
      assert (Hb : In f (free_frames (i + 1) rest)).
      { rewrite <- (firstn_skipn m' (free_frames (i + 1) rest)).
        apply in_or_app. now left. }
      apply free_frames_bounds in Hb. lia. }
    cbn [free_frames take_frames] in *.
    destruct (x =? 1).
    + cbn [firstn] in Hin. destruct Hin as [<-|Hin].
      * now rewrite Z.sub_diag.
      * destruct (Hnext m Hin) as [H ->]. exact H.
    + destruct (Hnext (S m) Hin) as [H ->]. exact H.
Qed.

Lemma firstn_In {A} (l : list A) n x : In x (firstn n l) -> In x l.
Proof.
  intros H. rewrite <- (firstn_skipn n l). apply in_or_app. now left.
Qed.

Lemma skipn_In {A} (l : list A) n x : In x (skipn n l) -> In x l.
Proof.
  intros H. rewrite <- (firstn_skipn n l). apply in_or_app. now right.
Qed.

Section Frames.

Variables PageSize NumPhysPages MemorySize : Z.
Variable NumPhysPages_is_int : bool.
Hypothesis PageSize_pos : 0 < PageSize.
Hypothesis MemorySize_eq : MemorySize = NumPhysPages * PageSize.
Hypothesis MemorySize_int : MemorySize < two31.

Variables NOFFMAGIC UserStackSize : Z.
Variable ExceptionHandler : ExceptionType -> Kernel -> option Kernel.

Local Abbreviation Translate := (Translate PageSize NumPhysPages MemorySize NumPhysPages_is_int).
Local Abbreviation translate_checked :=
  (translate_checked PageSize NumPhysPages MemorySize NumPhysPages_is_int ExceptionHandler).
Local Abbreviation copy_segment :=
  (copy_segment PageSize NumPhysPages MemorySize NumPhysPages_is_int ExceptionHandler).
Local Abbreviation Load :=
  (Load PageSize NumPhysPages MemorySize NumPhysPages_is_int NOFFMAGIC UserStackSize
     ExceptionHandler).
Local Abbreviation pages_needed := (pages_needed PageSize UserStackSize).
Local Abbreviation is_loaded := (loaded NumPhysPages).

(** What [Translate] and the copying loops leave of an entry: all but
    the flags [use], [dirty] and [readOnly]. *)
Section Kept.

Context {B : Type} (f : TranslationEntry -> B).
Hypothesis f_use : forall e b, f (set_use e b) = f e.
Hypothesis f_dirty : forall e b, f (set_dirty e b) = f e.
Hypothesis f_readOnly : forall e b, f (set_readOnly e b) = f e.

Lemma Translate_keeps sp vaddr paddr rw e p' sp' :
  Translate sp vaddr paddr rw = Ok (e, p', sp') ->
  numPages sp' = numPages sp
  /\ map f (pageTable sp') = map f (pageTable sp).
Proof.
  unfold AddrSpace.Translate. intros H.
  destruct (numPages sp <=? vaddr / PageSize); [inversion H; subst; auto|].
  destruct (nth_error (pageTable sp) (Z.to_nat (vaddr / PageSize))) as [pte|] eqn:Epte;
    [|discriminate].
  destruct (rw && readOnly pte); [inversion H; subst; auto|].
  destruct (AddrSpace.frame_too_big _ _ (to_int (physicalPage pte))); [inversion H; subst; auto|].
  destruct (list_set (pageTable sp) _ _) as [pt'|] eqn:Eset; [|discriminate].
  destruct (assert _); simpl in H; [|discriminate].
  inversion H; subst. simpl. split; [reflexivity|].
  eapply list_set_map; [exact Eset | exact Epte |].
  destruct rw; [rewrite f_dirty|]; apply f_use.
Qed.

Lemma translate_checked_keeps k sp vaddr paddr k' sp' p' :
  translate_checked k sp vaddr paddr = Returns (k', sp', p') ->
  numPages sp' = numPages sp
  /\ map f (pageTable sp') = map f (pageTable sp).
Proof.
  unfold AddrSpace.translate_checked. intros H.
  destruct (AddrSpace.Translate _ _ _ _ _ _ _ _) as [[[e p1] sp1]|] eqn:Et;
    simpl in H; [|discriminate].
  apply Translate_keeps in Et.
  assert (Hraise : forall x,
    lbind (raise ExceptionHandler x k sp1) (fun k'0 => Returns (k'0, sp1, p1))
    = Returns (k', sp', p') -> sp' = sp1).
  { intros x. unfold raise. destruct (ExceptionHandler x k); simpl; intros Hr;
      now inversion Hr. }
  destruct e; try (apply Hraise in H; now subst).
  now inversion H; subst.
Qed.

Lemma copy_segment_keeps fuel : forall ro remain base pos k sp paddr k' sp' p',
  copy_segment fuel ro remain base pos k sp paddr = Returns (k', sp', p') ->
  numPages sp' = numPages sp
  /\ map f (pageTable sp') = map f (pageTable sp).
Proof.
  induction fuel as [|fuel IH]; intros ro remain base pos k sp paddr k' sp' p' H;
    simpl in H.
  - destruct (remain >? 0); [discriminate|]. inversion H; subst. auto.
  - destruct (remain >? 0); [|inversion H; subst; auto].
    destruct (AddrSpace.translate_checked _ _ _ _ _ _ _ _) as [[[k1 sp1] p1]| |] eqn:Et;
      simpl in H; try discriminate.
    apply translate_checked_keeps in Et. destruct Et as [Hn1 Hm1].
    destruct (nth_error (pageTable sp1) _) as [pte|] eqn:Epte; [|discriminate].
    destruct (list_set (pageTable sp1) _ _) as [pt'|] eqn:Eset; [|discriminate].
    apply IH in H. simpl in H. destruct H as [Hn Hm].
    split; [congruence|]. rewrite Hm, <- Hm1.
    eapply list_set_map; [exact Eset | exact Epte | apply f_readOnly].
Qed.

End Kept.

Lemma pages_needed_nonneg noffH : 0 <= pages_needed noffH.
Proof.
  unfold AddrSpace.pages_needed, divRoundUp, to_uint.
  set (s := _ mod two32).
  assert (0 <= s) by (apply Z.mod_pos_bound; reflexivity).
  rewrite Z.quot_div_nonneg by lia.
  pose proof (Z.div_pos s PageSize ltac:(lia) PageSize_pos).
  destruct (_ >? 0); lia.
Qed.

Lemma firstn_free_length frames i n :
  Z.of_nat n <= count_free frames ->
  length (firstn n (free_frames i frames)) = n.
Proof.
  intros H. rewrite length_firstn. apply Nat.min_l.
  pose proof (free_frames_length frames i). lia.
Qed.

(** A load for which the free frames suffice. *)
Lemma Load_run (k : Kernel) (sp : AddrSpace) (noffH : NoffHeader)
    (junk : TranslationEntry) (paddr : Z) :
  noffMagic noffH = NOFFMAGIC ->
  Z.of_nat (length (FrameTable k)) = NumPhysPages ->
  FreeFrame k = count_free (FrameTable k) ->
  pages_needed noffH <= FreeFrame k ->
  segment_inside PageSize (pages_needed noffH) (code noffH) ->
  segment_inside PageSize (pages_needed noffH) (initData noffH) ->
  segment_inside PageSize (pages_needed noffH) (readonlyData noffH) ->
  exists pt',
    Load k sp (Some noffH) junk paddr
    = Returns (true,
               mkKernel (take_frames (Z.to_nat (pages_needed noffH)) (FrameTable k))
                 (FreeFrame k - pages_needed noffH),
               mkSpace pt' (pages_needed noffH))
    /\ map physicalPage pt'
       = firstn (Z.to_nat (pages_needed noffH)) (free_frames 0 (FrameTable k))
    /\ map (fun e => (virtualPage e, valid e)) pt'
       = map (fun e => (virtualPage e, valid e))
           (fresh_entries 0
              (firstn (Z.to_nat (pages_needed noffH)) (free_frames 0 (FrameTable k))))
    /\ is_loaded (mkSpace pt' (pages_needed noffH)).
Proof.
  intros Hm Hlen Hcnt Hnp Hc Hi Hr.
  pose proof (count_free_bounds (FrameTable k)) as Hcb.
  pose proof (NumPhysPages_bound PageSize NumPhysPages MemorySize PageSize_pos
                MemorySize_eq MemorySize_int ltac:(lia)) as Hb.
  pose proof (pages_needed_nonneg noffH) as Hnn.
  unfold AddrSpace.Load. rewrite Hm, Z.eqb_refl. simpl lbind.
  fold (pages_needed noffH). set (np := pages_needed noffH) in *.
  rewrite to_uint_small by (unfold two31, two32 in *; lia).
  destruct (Z.gtb_spec np (FreeFrame k)); [lia|].
  set (fs := firstn (Z.to_nat np) (free_frames 0 (FrameTable k))).
  assert (Hfsl : length fs = Z.to_nat np) by (apply firstn_free_length; lia).
  pose proof (claim_frames_first_fit (FrameTable k) [] 0 np k (repeat junk (Z.to_nat np)))
    as Hrun.
  simpl app in Hrun. simpl length in Hrun at 2. simpl Z.of_nat in Hrun.
  rewrite Z.sub_0_r in Hrun. simpl firstn in Hrun at 1. simpl app in Hrun.
  fold fs in Hrun.
  replace (length (FrameTable k)) with (Z.to_nat NumPhysPages) in Hrun by lia.
  cbn [lbind]. rewrite Hrun; [|reflexivity | lia | rewrite repeat_length; lia | lia].
  cbn [lbind lift]. cbv iota beta.
  set (pt1 := fresh_entries 0 fs).
  assert (Hl : is_loaded (mkSpace pt1 np)).
  { split; [|split]; simpl.
    - apply Forall_forall. intros e He. apply In_nth_error in He. destruct He as [j Hj].
      apply fresh_entries_nth in Hj. destruct Hj as (f & Hf & ->).
      unfold names_frame. simpl.
      apply nth_error_In in Hf. unfold fs in Hf. apply firstn_In in Hf.
      apply free_frames_bounds in Hf. lia.
    - unfold pt1. rewrite fresh_entries_length. lia.
    - lia. }
  set (k1 := mkKernel (take_frames (Z.to_nat np) (FrameTable k)) (FreeFrame k - np)).
  destruct (copy_segment_ok PageSize NumPhysPages MemorySize NumPhysPages_is_int PageSize_pos MemorySize_eq
              MemorySize_int ExceptionHandler
              (Z.to_nat (size (code noffH))) true (size (code noffH))
              (virtualAddr (code noffH)) (inFileAddr (code noffH)) k1 (mkSpace pt1 np) paddr Hl)
    as (pt2 & p2 & Hrun2 & Hl2).
  { lia. } { intros Hp. destruct Hc as [Hc|Hc]; simpl; lia. }
  rewrite Hrun2. simpl lbind. cbv iota beta. simpl numPages in *.
  assert (Hinit : exists pt3 p3,
    (if size (initData noffH) >? 0
     then lbind (translate_checked k1 (mkSpace pt2 np) (virtualAddr (initData noffH)) p2)
            (fun r => let '(k', sp', paddr') := r in
               copy_segment (Z.to_nat (size (initData noffH))) false
                 (size (initData noffH)) (virtualAddr (initData noffH))
                 (inFileAddr (initData noffH)) k' sp' paddr')
     else Returns (k1, mkSpace pt2 np, p2))
    = Returns (k1, mkSpace pt3 np, p3) /\ is_loaded (mkSpace pt3 np)
    /\ forall (B : Type) (f : TranslationEntry -> B),
         (forall e b, f (set_use e b) = f e) ->
         (forall e b, f (set_dirty e b) = f e) ->
         (forall e b, f (set_readOnly e b) = f e) ->
         map f pt3 = map f pt2).
  { destruct (Z.gtb_spec (size (initData noffH)) 0) as [Hp|Hp]; [|eauto 6].
    destruct Hi as [Hi|Hi]; [lia|].
    destruct (translate_checked_ok PageSize NumPhysPages MemorySize NumPhysPages_is_int PageSize_pos
                MemorySize_eq MemorySize_int ExceptionHandler
                k1 (mkSpace pt2 np) (virtualAddr (initData noffH)) p2 Hl2)
      as (pta & pa & Hta & Hla & _).
    { simpl. lia. }
    rewrite Hta. simpl lbind. cbv iota beta. simpl numPages in *.
    destruct (copy_segment_ok PageSize NumPhysPages MemorySize NumPhysPages_is_int PageSize_pos MemorySize_eq
                MemorySize_int ExceptionHandler
                (Z.to_nat (size (initData noffH))) false (size (initData noffH))
                (virtualAddr (initData noffH)) (inFileAddr (initData noffH)) k1
                (mkSpace pta np) pa Hla)
      as (pt3 & p3 & Hrun3 & Hl3).
    { lia. } { intros _. simpl. lia. }
    simpl numPages in *. exists pt3, p3. split; [exact Hrun3|]. split; [exact Hl3|].
    intros B f F1 F2 F3.
    destruct (copy_segment_keeps f F1 F2 F3 _ _ _ _ _ _ _ _ _ _ _ Hrun3) as [_ E3].
    destruct (translate_checked_keeps f F1 F2 _ _ _ _ _ _ _ Hta) as [_ Ea].
    simpl in E3, Ea. congruence. }
  destruct Hinit as (pt3 & p3 & Hrun3 & Hl3 & Hk3).
  rewrite Hrun3. simpl lbind. cbv iota beta.
  destruct (copy_segment_ok PageSize NumPhysPages MemorySize NumPhysPages_is_int PageSize_pos MemorySize_eq
              MemorySize_int ExceptionHandler
              (Z.to_nat (size (readonlyData noffH))) true
              (size (readonlyData noffH)) (virtualAddr (readonlyData noffH))
              (inFileAddr (readonlyData noffH)) k1 (mkSpace pt3 np) p3 Hl3)
    as (pt4 & p4 & Hrun4 & Hl4).
  { lia. } { intros Hp. destruct Hr as [Hr|Hr]; simpl; lia. }
  rewrite Hrun4. simpl lbind. cbv iota beta. simpl numPages in *.
  exists pt4. split; [reflexivity|].
  assert (Hkeep : forall (B : Type) (f : TranslationEntry -> B),
            (forall e b, f (set_use e b) = f e) ->
            (forall e b, f (set_dirty e b) = f e) ->
            (forall e b, f (set_readOnly e b) = f e) ->
            map f pt4 = map f pt1).
  { intros B f F1 F2 F3.
    destruct (copy_segment_keeps f F1 F2 F3 _ _ _ _ _ _ _ _ _ _ _ Hrun4) as [_ E4].
    destruct (copy_segment_keeps f F1 F2 F3 _ _ _ _ _ _ _ _ _ _ _ Hrun2) as [_ E2].
    simpl in E4, E2. rewrite E4, (Hk3 B f F1 F2 F3). exact E2. }
  split; [|split; [|exact Hl4]].
  - rewrite (Hkeep _ physicalPage) by reflexivity. apply fresh_entries_frames.
  - apply (Hkeep _ (fun e => (virtualPage e, valid e))); reflexivity.
Qed.

Lemma fresh_entries_pages fs : forall idx j e,
  nth_error (map (fun e => (virtualPage e, valid e)) (fresh_entries idx fs)) j = Some e ->
  e = (idx + Z.of_nat j, true).
Proof.
  intros idx j e H. rewrite nth_error_map in H.
  destruct (nth_error (fresh_entries idx fs) j) as [x|] eqn:E; [|discriminate].
  apply fresh_entries_nth in E. destruct E as (f & _ & ->).
  simpl in H. now inversion H.
Qed.

(** Load, general case: when the free frames suffice, the program gets
    the lowest-numbered free frames, in increasing order; those frames
    and no others become used; the counter goes down by the number of
    pages and still counts the free frames. *)
Theorem Load_takes_lowest_free_frames (k : Kernel) (sp : AddrSpace) (noffH : NoffHeader)
    (junk : TranslationEntry) (paddr : Z) :
  noffMagic noffH = NOFFMAGIC ->
  Z.of_nat (length (FrameTable k)) = NumPhysPages ->
  FreeFrame k = count_free (FrameTable k) ->
  pages_needed noffH <= FreeFrame k ->
  segment_inside PageSize (pages_needed noffH) (code noffH) ->
  segment_inside PageSize (pages_needed noffH) (initData noffH) ->
  segment_inside PageSize (pages_needed noffH) (readonlyData noffH) ->
  exists k' sp',
    Load k sp (Some noffH) junk paddr = Returns (true, k', sp')
    /\ numPages sp' = pages_needed noffH
    /\ map physicalPage (pageTable sp')
       = firstn (Z.to_nat (pages_needed noffH)) (free_frames 0 (FrameTable k))
    /\ (forall j e, nth_error (pageTable sp') j = Some e ->
          virtualPage e = Z.of_nat j /\ valid e = true)
    /\ FrameTable k' = take_frames (Z.to_nat (pages_needed noffH)) (FrameTable k)
    /\ FreeFrame k' = FreeFrame k - pages_needed noffH
    /\ FreeFrame k' = count_free (FrameTable k').
Proof.
  intros Hm Hlen Hcnt Hnp Hc Hi Hr.
  destruct (Load_run k sp noffH junk paddr Hm Hlen Hcnt Hnp Hc Hi Hr)
    as (pt' & Hrun & Hfr & Hvp & _).
  pose proof (pages_needed_nonneg noffH) as Hnn.
  eexists _, _. split; [exact Hrun|]. simpl.
  split; [reflexivity|]. split; [exact Hfr|]. split; [|split; [reflexivity|split; [reflexivity|]]].
  - intros j e Hj.
    assert (H : nth_error (map (fun e => (virtualPage e, valid e)) pt') j
                = Some (virtualPage e, valid e))
      by (rewrite nth_error_map, Hj; reflexivity).
    rewrite Hvp in H. apply fresh_entries_pages in H. inversion H. split; [lia | reflexivity].
  - rewrite count_free_take by lia. lia.
Qed.

(** Destructor of an address space, after its load: every frame the load
    claimed is free again, and the kernel is as it was before the load. *)
Theorem destructor_after_Load (k : Kernel) (sp : AddrSpace) (noffH : NoffHeader)
    (junk : TranslationEntry) (paddr : Z) (k' : Kernel) (sp' : AddrSpace) :
  noffMagic noffH = NOFFMAGIC ->
  Z.of_nat (length (FrameTable k)) = NumPhysPages ->
  FreeFrame k = count_free (FrameTable k) ->
  pages_needed noffH <= FreeFrame k ->
  segment_inside PageSize (pages_needed noffH) (code noffH) ->
  segment_inside PageSize (pages_needed noffH) (initData noffH) ->
  segment_inside PageSize (pages_needed noffH) (readonlyData noffH) ->
  Load k sp (Some noffH) junk paddr = Returns (true, k', sp') ->
  destructor sp' k' = Ok k.
Proof.
  intros Hm Hlen Hcnt Hnp Hc Hi Hr Hload.
  destruct (Load_run k sp noffH junk paddr Hm Hlen Hcnt Hnp Hc Hi Hr)
    as (pt' & Hrun & Hfr & _ & Hl).
  rewrite Hrun in Hload. inversion Hload; subst k' sp'. clear Hload.
  pose proof (pages_needed_nonneg noffH) as Hnn.
  set (np := AddrSpace.pages_needed PageSize UserStackSize noffH) in *.
  unfold destructor. simpl numPages.
  destruct Hl as (_ & Hlen' & _). simpl in Hlen'.
  rewrite (release_after_take (FrameTable k) [] (Z.to_nat np) (Z.to_nat np) 0
             (mkSpace pt' np) _).
  - simpl. destruct k as [ft ff]. simpl. f_equal. f_equal. lia.
  - reflexivity.
  - lia.
  - lia.
  - simpl. rewrite firstn_all2 by lia. exact Hfr.
Qed.

(** Two programs loaded one after the other share no frame. *)
Theorem two_loads_share_no_frame (k : Kernel) (sp1 sp2 : AddrSpace)
    (noff1 noff2 : NoffHeader) (junk1 junk2 : TranslationEntry) (paddr1 paddr2 : Z) :
  noffMagic noff1 = NOFFMAGIC -> noffMagic noff2 = NOFFMAGIC ->
  Z.of_nat (length (FrameTable k)) = NumPhysPages ->
  FreeFrame k = count_free (FrameTable k) ->
  pages_needed noff1 + pages_needed noff2 <= FreeFrame k ->
  segment_inside PageSize (pages_needed noff1) (code noff1) ->
  segment_inside PageSize (pages_needed noff1) (initData noff1) ->
  segment_inside PageSize (pages_needed noff1) (readonlyData noff1) ->
  segment_inside PageSize (pages_needed noff2) (code noff2) ->
  segment_inside PageSize (pages_needed noff2) (initData noff2) ->
  segment_inside PageSize (pages_needed noff2) (readonlyData noff2) ->
  exists k1 sp1' k2 sp2',
    Load k sp1 (Some noff1) junk1 paddr1 = Returns (true, k1, sp1')
    /\ Load k1 sp2 (Some noff2) junk2 paddr2 = Returns (true, k2, sp2')
    /\ NoDup (map physicalPage (pageTable sp1') ++ map physicalPage (pageTable sp2'))
    /\ FreeFrame k2 = FreeFrame k - pages_needed noff1 - pages_needed noff2.
Proof.
  intros Hm1 Hm2 Hlen Hcnt Hnp Hc1 Hi1 Hr1 Hc2 Hi2 Hr2.
  pose proof (pages_needed_nonneg noff1) as Hnn1.
  pose proof (pages_needed_nonneg noff2) as Hnn2.
  destruct (Load_run k sp1 noff1 junk1 paddr1 Hm1 Hlen Hcnt ltac:(lia) Hc1 Hi1 Hr1)
    as (pt1 & Hrun1 & Hfr1 & _ & _).
  set (np1 := AddrSpace.pages_needed PageSize UserStackSize noff1) in *.
  set (np2 := AddrSpace.pages_needed PageSize UserStackSize noff2) in *.
  set (k1 := mkKernel (take_frames (Z.to_nat np1) (FrameTable k)) (FreeFrame k - np1)) in *.
  assert (Hlen1 : Z.of_nat (length (FrameTable k1)) = NumPhysPages)
    by (simpl; rewrite take_frames_length; exact Hlen).
  assert (Hcnt1 : FreeFrame k1 = count_free (FrameTable k1))
    by (simpl; rewrite count_free_take by lia; lia).
  destruct (Load_run k1 sp2 noff2 junk2 paddr2 Hm2 Hlen1 Hcnt1 ltac:(simpl; lia) Hc2 Hi2 Hr2)
    as (pt2 & Hrun2 & Hfr2 & _ & _).
  eexists _, _, _, _. split; [exact Hrun1|]. split; [exact Hrun2|].
  simpl. split; [|fold np2; lia].
  rewrite Hfr1, Hfr2. fold np2. simpl FrameTable. rewrite free_frames_take.
  pose proof (free_frames_NoDup (FrameTable k) 0) as Hnd.
  rewrite <- (firstn_skipn (Z.to_nat np1) (free_frames 0 (FrameTable k))) in Hnd.
  apply NoDup_app.
  - exact (NoDup_app_remove_r _ _ Hnd).
  - apply NoDup_app_remove_l in Hnd.
    rewrite <- (firstn_skipn (Z.to_nat np2) (skipn _ _)) in Hnd.
    exact (NoDup_app_remove_r _ _ Hnd).
  - intros a Ha Hb. apply firstn_In in Hb.
    revert Hnd Ha Hb.
    generalize (firstn (Z.to_nat np1) (free_frames 0 (FrameTable k))).
    generalize (skipn (Z.to_nat np1) (free_frames 0 (FrameTable k))).
    intros l2 l1. induction l1 as [|x l1 IH]; simpl; intros Hnd Ha Hb; [contradiction|].
    inversion Hnd; subst. destruct Ha as [->|Ha]; [|now apply IH].
    apply H1. apply in_or_app. now right.
Qed.

Lemma Translate_success sp vaddr paddr rw p sp' :
  Translate sp vaddr paddr rw = Ok (NoException, p, sp') ->
  exists pte,
    vaddr / PageSize < numPages sp
    /\ nth_error (pageTable sp) (Z.to_nat (vaddr / PageSize)) = Some pte
    /\ p = to_uint (to_int (physicalPage pte) * PageSize + vaddr mod PageSize).
Proof.
  unfold AddrSpace.Translate. intros H.
  destruct (Z.leb_spec (numPages sp) (vaddr / PageSize)); [discriminate|].
  destruct (nth_error (pageTable sp) _) as [pte|]; [|discriminate].
  destruct (rw && readOnly pte); [discriminate|].
  destruct (AddrSpace.frame_too_big _ _ (to_int (physicalPage pte))); [discriminate|].
  destruct (list_set (pageTable sp) _ _); [|discriminate].
  destruct (assert _); simpl in H; [|discriminate].
  injection H as Hp _. exists pte.
  split; [assumption|]. split; [reflexivity|]. now rewrite <- Hp.
Qed.

(** Translate never maps two virtual addresses of one address space to
    the same physical address, when no two pages of the space share a
    frame. *)
Theorem Translate_one_to_one (sp : AddrSpace) (v1 v2 paddr1 paddr2 p1 p2 : Z)
    (rw1 rw2 : bool) (sp1 sp2 : AddrSpace) :
  is_loaded sp ->
  NoDup (map physicalPage (pageTable sp)) ->
  0 <= v1 -> 0 <= v2 -> v1 <> v2 ->
  Translate sp v1 paddr1 rw1 = Ok (NoException, p1, sp1) ->
  Translate sp v2 paddr2 rw2 = Ok (NoException, p2, sp2) ->
  p1 <> p2.
Proof.
  intros (Hfr & Hlen & Hnp) Hnd Hv1 Hv2 Hne H1 H2 Heq.
  apply Translate_success in H1. apply Translate_success in H2.
  destruct H1 as (e1 & Hb1 & He1 & Hp1). destruct H2 as (e2 & Hb2 & He2 & Hp2).
  assert (Hn1 : names_frame NumPhysPages e1)
    by (rewrite Forall_forall in Hfr; apply Hfr; eapply nth_error_In; exact He1).
  assert (Hn2 : names_frame NumPhysPages e2)
    by (rewrite Forall_forall in Hfr; apply Hfr; eapply nth_error_In; exact He2).
  unfold names_frame in Hn1, Hn2.
  pose proof (NumPhysPages_bound PageSize NumPhysPages MemorySize PageSize_pos
                MemorySize_eq MemorySize_int ltac:(lia)) as Hb.
  pose proof (Z.mod_pos_bound v1 PageSize PageSize_pos) as Ho1.
  pose proof (Z.mod_pos_bound v2 PageSize PageSize_pos) as Ho2.
  rewrite to_int_small in Hp1, Hp2 by (unfold two31 in *; lia).
  assert (Hin : forall f o, 0 <= f < NumPhysPages -> 0 <= o < PageSize ->
                  0 <= f * PageSize + o < two32).
  { intros f o Hf Ho. unfold two31, two32 in *. split; [nia|].
    assert (f * PageSize + o < NumPhysPages * PageSize) by nia. lia. }
  rewrite to_uint_small in Hp1, Hp2 by (apply Hin; lia).
  assert (Hpp : physicalPage e1 = physicalPage e2 /\ v1 mod PageSize = v2 mod PageSize).
  { assert (E : physicalPage e1 * PageSize + v1 mod PageSize
                = physicalPage e2 * PageSize + v2 mod PageSize) by lia.
    assert (physicalPage e1 = physicalPage e2) by nia. split; [assumption | nia]. }
  destruct Hpp as [Hpp Hoff].
  assert (Hidx : Z.to_nat (v1 / PageSize) = Z.to_nat (v2 / PageSize)).
  { rewrite NoDup_nth_error in Hnd. apply Hnd.
    - rewrite length_map. apply nth_error_Some. congruence.
    - rewrite !nth_error_map, He1, He2. simpl. now rewrite Hpp. }
  pose proof (Z.div_pos v1 PageSize Hv1 PageSize_pos).
  pose proof (Z.div_pos v2 PageSize Hv2 PageSize_pos).
  apply Hne.
  rewrite (Z.div_mod v1 PageSize), (Z.div_mod v2 PageSize) by lia.
  rewrite Hoff. f_equal. f_equal. lia.
Qed.

End Frames.

(** The theorem on a machine of eight frames of which frames 1 and 6
    are used, for a program of three pages: the program gets the frames
    0, 2 and 3. *)
Lemma Load_takes_lowest_free_frames_witness :
  (0 < 128 /\ 1024 = 8 * 128 /\ 1024 < two31
   /\ noffMagic small_noff = magic
   /\ pages_needed 128 256 small_noff <= FreeFrame eight_frames)
  /\ forall signed : bool,
     exists k' sp',
       Load 128 8 1024 signed magic 256 halting_handler eight_frames
         (mkSpace [] 0) (Some small_noff) blank_entry 0
       = Returns (true, k', sp')
       /\ map physicalPage (pageTable sp') = [0; 2; 3]
       /\ FrameTable k' = [0; 0; 0; 0; 1; 1; 0; 1]
       /\ FreeFrame k' = 3.
Proof.
  assert (H0 : 0 < 128) by lia.
  assert (H1 : 1024 = 8 * 128) by reflexivity.
  assert (H2 : 1024 < two31) by reflexivity.
  assert (Hm : noffMagic small_noff = magic) by reflexivity.
  assert (Hnp : pages_needed 128 256 small_noff <= FreeFrame eight_frames)
    by (vm_compute; discriminate).
  split; [tauto|]. intros signed.
  destruct (Load_takes_lowest_free_frames 128 8 1024 signed H0 H1 H2 magic 256
              halting_handler eight_frames (mkSpace [] 0) small_noff blank_entry 0 Hm)
    as (k' & sp' & Hrun & _ & Hfr & _ & Hft & Hff & _).
  - reflexivity.
  - reflexivity.
  - exact Hnp.
  - right. vm_compute. split; discriminate.
  - right. vm_compute. split; discriminate.
  - left. vm_compute. discriminate.
  - exists k', sp'. split; [exact Hrun|]. split; [exact Hfr|]. split; [exact Hft | exact Hff].
Defined.

(** The theorem on the same machine: the destructor of the loaded
    program gives the kernel back as it was. *)
Lemma destructor_after_Load_witness :
  (0 < 128 /\ 1024 = 8 * 128 /\ 1024 < two31
   /\ noffMagic small_noff = magic
   /\ pages_needed 128 256 small_noff <= FreeFrame eight_frames)
  /\ forall signed : bool,
     exists k' sp',
       Load 128 8 1024 signed magic 256 halting_handler eight_frames
         (mkSpace [] 0) (Some small_noff) blank_entry 0
       = Returns (true, k', sp')
       /\ FrameTable k' = [0; 0; 0; 0; 1; 1; 0; 1]
       /\ destructor sp' k' = Ok eight_frames.
Proof.
  assert (H0 : 0 < 128) by lia.
  assert (H1 : 1024 = 8 * 128) by reflexivity.
  assert (H2 : 1024 < two31) by reflexivity.
  assert (Hm : noffMagic small_noff = magic) by reflexivity.
  assert (Hnp : pages_needed 128 256 small_noff <= FreeFrame eight_frames)
    by (vm_compute; discriminate).
  assert (Hloads : forall signed, exists k' sp',
            Load 128 8 1024 signed magic 256 halting_handler eight_frames
              (mkSpace [] 0) (Some small_noff) blank_entry 0
            = Returns (true, k', sp')
            /\ FrameTable k' = [0; 0; 0; 0; 1; 1; 0; 1])
    by (intros [|]; eexists _, _; split; vm_compute; reflexivity).
  split; [tauto|]. intros signed.
  destruct (Hloads signed) as (k' & sp' & Hrun & Hft).
  exists k', sp'. split; [exact Hrun|]. split; [exact Hft|].
  apply (destructor_after_Load 128 8 1024 signed H0 H1 H2 magic 256 halting_handler
           eight_frames (mkSpace [] 0) small_noff blank_entry 0 k' sp' Hm).
  - reflexivity.
  - reflexivity.
  - exact Hnp.
  - right. vm_compute. split; discriminate.
  - right. vm_compute. split; discriminate.
  - left. vm_compute. discriminate.
  - exact Hrun.
Defined.

(** The theorem on the same machine: two programs of three pages take
    the six free frames, none of them twice. *)
Lemma two_loads_share_no_frame_witness :
  (0 < 128 /\ 1024 = 8 * 128 /\ 1024 < two31
   /\ noffMagic small_noff = magic
   /\ pages_needed 128 256 small_noff + pages_needed 128 256 small_noff
      <= FreeFrame eight_frames)
  /\ forall signed : bool,
     exists k1 sp1 k2 sp2,
       Load 128 8 1024 signed magic 256 halting_handler eight_frames
         (mkSpace [] 0) (Some small_noff) blank_entry 0
       = Returns (true, k1, sp1)
       /\ Load 128 8 1024 signed magic 256 halting_handler k1
            (mkSpace [] 0) (Some small_noff) blank_entry 0
          = Returns (true, k2, sp2)
       /\ NoDup (map physicalPage (pageTable sp1) ++ map physicalPage (pageTable sp2))
       /\ FreeFrame k2 = 0.
Proof.
  assert (H0 : 0 < 128) by lia.
  assert (H1 : 1024 = 8 * 128) by reflexivity.
  assert (H2 : 1024 < two31) by reflexivity.
  assert (Hm : noffMagic small_noff = magic) by reflexivity.
  assert (Hnp : pages_needed 128 256 small_noff + pages_needed 128 256 small_noff
                <= FreeFrame eight_frames)
    by (vm_compute; discriminate).
  assert (Hc : segment_inside 128 (pages_needed 128 256 small_noff) (code small_noff))
    by (right; vm_compute; split; discriminate).
  assert (Hi : segment_inside 128 (pages_needed 128 256 small_noff) (initData small_noff))
    by (right; vm_compute; split; discriminate).
  assert (Hr : segment_inside 128 (pages_needed 128 256 small_noff) (readonlyData small_noff))
    by (left; vm_compute; discriminate).
  split; [tauto|]. intros signed.
  destruct (two_loads_share_no_frame 128 8 1024 signed H0 H1 H2 magic 256 halting_handler
              eight_frames (mkSpace [] 0) (mkSpace [] 0) small_noff small_noff
              blank_entry blank_entry 0 0 Hm Hm eq_refl eq_refl Hnp Hc Hi Hr Hc Hi Hr)
    as (k1 & sp1 & k2 & sp2 & Hrun1 & Hrun2 & Hnd & Hff).
  exists k1, sp1, k2, sp2.
  split; [exact Hrun1|]. split; [exact Hrun2|]. split; [exact Hnd | exact Hff].
Defined.

(** The theorem at the page table of two entries, which maps page 0 to
    frame 3 and page 1 to frame 1: the addresses 5 and 133 go to 389 and
    133. *)
Lemma Translate_one_to_one_witness :
  (0 < 128 /\ 512 = 4 * 128 /\ 512 < two31
   /\ loaded 4 small_space
   /\ NoDup (map physicalPage (pageTable small_space)))
  /\ forall signed : bool,
     exists sp1 sp2,
       Translate 128 4 512 signed small_space 5 0 false = Ok (NoException, 389, sp1)
       /\ Translate 128 4 512 signed small_space 133 0 false = Ok (NoException, 133, sp2)
       /\ 389 <> 133.
Proof.
  assert (H0 : 0 < 128) by lia.
  assert (H1 : 512 = 4 * 128) by reflexivity.
  assert (H2 : 512 < two31) by reflexivity.
  assert (Hl : loaded 4 small_space).
  { split; [|split; [reflexivity | simpl; lia]].
    repeat constructor; simpl; lia. }
  assert (Hnd : NoDup (map physicalPage (pageTable small_space))).
  { simpl. constructor; [simpl; intros [H|[]]; discriminate|].
    constructor; [intros []|constructor]. }
  assert (Hruns : forall signed, exists sp1 sp2,
            Translate 128 4 512 signed small_space 5 0 false = Ok (NoException, 389, sp1)
            /\ Translate 128 4 512 signed small_space 133 0 false
               = Ok (NoException, 133, sp2))
    by (intros [|]; eexists _, _; split; reflexivity).
  split; [tauto|]. intros signed.
  destruct (Hruns signed) as (sp1 & sp2 & E1 & E2).
  exists sp1, sp2. split; [exact E1|]. split; [exact E2|].
  eapply (Translate_one_to_one 128 4 512 signed H0 H1 H2 small_space 5 133 0 0 389 133
            false false);
    [exact Hl | exact Hnd | lia | lia | lia | exact E1 | exact E2].
Defined.

Section LoadedProgram.

Variables PageSize NumPhysPages MemorySize : Z.
Variable NumPhysPages_is_int : bool.
Hypothesis PageSize_pos : 0 < PageSize.
Hypothesis MemorySize_eq : MemorySize = NumPhysPages * PageSize.
Hypothesis MemorySize_int : MemorySize < two31.

Variables NOFFMAGIC UserStackSize : Z.
Variable ExceptionHandler : ExceptionType -> Kernel -> option Kernel.

Local Abbreviation Translate := (Translate PageSize NumPhysPages MemorySize NumPhysPages_is_int).
Local Abbreviation Load :=
  (Load PageSize NumPhysPages MemorySize NumPhysPages_is_int NOFFMAGIC UserStackSize
     ExceptionHandler).
Local Abbreviation pages_needed := (pages_needed PageSize UserStackSize).

(** Every address of a loaded program is mapped.  After a [Load] that
    the free frames suffice for, [Translate] of any virtual address
    below [numPages * PageSize], for reading, returns [NoException]
    and the address [frame * PageSize + vaddr % PageSize], where [frame]
    is the frame of the page [vaddr / PageSize]: the lowest-numbered
    frame that was free before the load for page 0, the next for page 1,
    and so on. *)
Theorem Load_then_Translate (k : Kernel) (sp : AddrSpace) (noffH : NoffHeader)
    (junk : TranslationEntry) (paddr : Z) (k' : Kernel) (sp' : AddrSpace)
    (vaddr paddr0 : Z) :
  noffMagic noffH = NOFFMAGIC ->
  Z.of_nat (length (FrameTable k)) = NumPhysPages ->
  FreeFrame k = count_free (FrameTable k) ->
  pages_needed noffH <= FreeFrame k ->
  segment_inside PageSize (pages_needed noffH) (code noffH) ->
  segment_inside PageSize (pages_needed noffH) (initData noffH) ->
  segment_inside PageSize (pages_needed noffH) (readonlyData noffH) ->
  Load k sp (Some noffH) junk paddr = Returns (true, k', sp') ->
  0 <= vaddr < pages_needed noffH * PageSize ->
  exists frame sp'',
    nth_error (free_frames 0 (FrameTable k)) (Z.to_nat (vaddr / PageSize)) = Some frame
    /\ nth_error (FrameTable k) (Z.to_nat frame) = Some 1
    /\ nth_error (FrameTable k') (Z.to_nat frame) = Some 0
    /\ Translate sp' vaddr paddr0 false
       = Ok (NoException, frame * PageSize + vaddr mod PageSize, sp'').
Proof.
  intros Hm Hlen Hcnt Hnp Hc Hi Hr Hload Hv.
  destruct (Load_run PageSize NumPhysPages MemorySize NumPhysPages_is_int PageSize_pos MemorySize_eq
              MemorySize_int NOFFMAGIC UserStackSize ExceptionHandler
              k sp noffH junk paddr Hm Hlen Hcnt Hnp Hc Hi Hr)
    as (pt' & Hrun & Hfr & _ & Hl).
  rewrite Hrun in Hload. inversion Hload; subst k' sp'. clear Hload.
  set (np := AddrSpace.pages_needed PageSize UserStackSize noffH) in *.
  destruct (Translate_read_ok PageSize NumPhysPages MemorySize NumPhysPages_is_int PageSize_pos MemorySize_eq
              MemorySize_int (mkSpace pt' np) vaddr paddr0 Hl Hv)
    as (pt'' & p' & Htr & _ & _).
  destruct (Translate_success PageSize NumPhysPages MemorySize NumPhysPages_is_int _ _ _ _ _ _ Htr)
    as (pte & Hvpn & Hpte & Hp).
  simpl in Hvpn, Hpte.
  assert (Hframe : nth_error (firstn (Z.to_nat np) (free_frames 0 (FrameTable k)))
                     (Z.to_nat (vaddr / PageSize)) = Some (physicalPage pte)).
  { rewrite <- Hfr, nth_error_map, Hpte. reflexivity. }
  assert (Hin : In (physicalPage pte) (free_frames 0 (FrameTable k))).
  { apply nth_error_In in Hframe. now apply firstn_In in Hframe. }
  pose proof (free_frames_bounds _ _ _ Hin) as Hb.
  pose proof (free_frames_free _ _ _ Hin) as Hfree.
  rewrite Z.sub_0_r in Hfree.
  pose proof (NumPhysPages_bound PageSize NumPhysPages MemorySize PageSize_pos
                MemorySize_eq MemorySize_int ltac:(lia)) as Hnb.
  pose proof (Z.mod_pos_bound vaddr PageSize PageSize_pos) as Ho.
  exists (physicalPage pte), (mkSpace pt'' np).
  split.
  { rewrite nth_error_firstn in Hframe.
    destruct (Nat.ltb _ _) in Hframe; [exact Hframe | discriminate]. }
  split; [exact Hfree|].
  split.
  - simpl. rewrite <- (Z.sub_0_r (physicalPage pte)).
    apply take_frames_used. eapply nth_error_In. exact Hframe.
  - rewrite Htr, Hp. simpl numPages. f_equal. f_equal. f_equal.
    rewrite to_int_small by (unfold two31 in *; lia).
    apply to_uint_small. unfold two31, two32 in *. split; [nia|].
    assert (physicalPage pte * PageSize + vaddr mod PageSize < NumPhysPages * PageSize)
      by nia.
    lia.
Qed.

End LoadedProgram.

(** The theorem on the machine of eight frames, for the program of
    three pages: page 1 is in frame 2, the second free frame, and the
    address 130 is mapped to 2 * 128 + 2. *)
Lemma Load_then_Translate_witness :
  (0 < 128 /\ 1024 = 8 * 128 /\ 1024 < two31
   /\ noffMagic small_noff = magic
   /\ pages_needed 128 256 small_noff <= FreeFrame eight_frames
   /\ 0 <= 130 < pages_needed 128 256 small_noff * 128)
  /\ forall signed : bool,
     exists k' sp' sp'',
       Load 128 8 1024 signed magic 256 halting_handler eight_frames
         (mkSpace [] 0) (Some small_noff) blank_entry 0
       = Returns (true, k', sp')
       /\ Translate 128 8 1024 signed sp' 130 0 false = Ok (NoException, 258, sp'').
Proof.
  assert (H0 : 0 < 128) by lia.
  assert (H1 : 1024 = 8 * 128) by reflexivity.
  assert (H2 : 1024 < two31) by reflexivity.
  assert (Hm : noffMagic small_noff = magic) by reflexivity.
  assert (Hnp : pages_needed 128 256 small_noff <= FreeFrame eight_frames)
    by (vm_compute; discriminate).
  assert (Hv : 0 <= 130 < pages_needed 128 256 small_noff * 128)
    by (split; vm_compute; [discriminate | reflexivity]).
  assert (Hloads : forall signed, exists k' sp',
            Load 128 8 1024 signed magic 256 halting_handler eight_frames
              (mkSpace [] 0) (Some small_noff) blank_entry 0
            = Returns (true, k', sp'))
    by (intros [|]; eexists _, _; vm_compute; reflexivity).
  split; [tauto|]. intros signed.
  destruct (Hloads signed) as (k' & sp' & Hrun).
  destruct (Load_then_Translate 128 8 1024 signed H0 H1 H2 magic 256 halting_handler
              eight_frames (mkSpace [] 0) small_noff blank_entry 0 k' sp' 130 0 Hm)
    as (frame & sp'' & Hf & _ & _ & Htr).
  - reflexivity.
  - reflexivity.
  - exact Hnp.
  - right. vm_compute. split; discriminate.
  - right. vm_compute. split; discriminate.
  - left. vm_compute. discriminate.
  - exact Hrun.
  - exact Hv.
  - exists k', sp', sp''. split; [exact Hrun|].
    vm_compute in Hf. injection Hf as <-. exact Htr.
Defined.

End AddrSpaceFacts.

(** ** The scheduler *)

Module SchedFacts.
Import Sched.

Lemma store_same h p t : store h p t p = t.
Proof. unfold store. now rewrite Nat.eqb_refl. Qed.

Lemma store_other h p t q : q <> p -> store h p t q = h q.
Proof. intros H. unfold store. apply Nat.eqb_neq in H. now rewrite H. Qed.

Lemma In_Insert cmp p l q : In q (Insert cmp p l) <-> q = p \/ In q l.
Proof.
  induction l as [|y r IH]; simpl.
  - intuition.
  - destruct (cmp p y <? 0); simpl; [intuition|]. rewrite IH. intuition.
Qed.

Lemma In_Remove_other p l q : q <> p -> (In q (Remove p l) <-> In q l).
Proof.
  intros Hq. induction l as [|y r IH]; simpl; [tauto|].
  destruct (Nat.eqb_spec y p) as [->|Hy]; simpl.
  - intuition congruence.
  - rewrite IH. tauto.
Qed.

Lemma In_Remove_incl p l q : In q (Remove p l) -> In q l.
Proof.
  induction l as [|y r IH]; simpl; [tauto|].
  destruct (Nat.eqb_spec y p); simpl; intuition.
Qed.

Lemma NoDup_Remove p l : NoDup l -> NoDup (Remove p l) /\ ~ In p (Remove p l).
Proof.
  induction l as [|y r IH]; simpl; intros H; [split; [constructor | tauto]|].
  inversion H as [|? ? Hy Hr]; subst.
  destruct (Nat.eqb_spec y p) as [->|Hne].
  - auto.
  - destruct (IH Hr) as [Hn Hp]. split.
    + constructor; [|exact Hn]. intros Hi. apply Hy. eapply In_Remove_incl; eauto.
    + simpl. intros [?|?]; [congruence | tauto].
Qed.

Lemma NoDup_app_disjoint {A} (l l' : list A) :
  NoDup (l ++ l') -> forall a, In a l -> ~ In a l'.
Proof.
  induction l as [|x r IH]; simpl; intros H a Ha; [contradiction|].
  inversion H as [|? ? Hx Hr]; subst. destruct Ha as [<-|Ha].
  - intros Hi. apply Hx. apply in_or_app. now right.
  - now apply IH.
Qed.

(** *** The three loops *)

Lemma walk_app body l1 l2 k : walk body (l1 ++ l2) k = walk body l2 (walk body l1 k).
Proof. revert k. induction l1; simpl; auto. Qed.

Lemma aging_L1_fields p k :
  L1 (aging_L1 p k) = L1 k /\ L2 (aging_L1 p k) = L2 k
  /\ L3 (aging_L1 p k) = L3 k /\ totalTicks (aging_L1 p k) = totalTicks k
  /\ threads (aging_L1 p k) p = aged_L1 (totalTicks k) (threads k p)
  /\ (forall q, q <> p -> threads (aging_L1 p k) q = threads k q).
Proof.
  unfold aging_L1, aged_L1. simpl. repeat split.
  - apply store_same.
  - intros q Hq. now apply store_other.
Qed.

Lemma walk_L1_spec its : forall k,
  NoDup its ->
  L1 (walk aging_L1 its k) = L1 k /\ L2 (walk aging_L1 its k) = L2 k
  /\ L3 (walk aging_L1 its k) = L3 k
  /\ totalTicks (walk aging_L1 its k) = totalTicks k
  /\ (forall q, In q its ->
        threads (walk aging_L1 its k) q = aged_L1 (totalTicks k) (threads k q))
  /\ (forall q, ~ In q its -> threads (walk aging_L1 its k) q = threads k q).
Proof.
  induction its as [|p rest IH]; intros k Hnd; simpl.
  - repeat split; auto. intros q [].
  - inversion Hnd as [|? ? Hp Hrest]; subst.
    destruct (aging_L1_fields p k) as (B1 & B2 & B3 & Bt & Bs & Bo).
    destruct (IH (aging_L1 p k) Hrest) as (H1 & H2 & H3 & Ht & Hin & Hout).
    repeat split; try congruence.
    + intros q [<-|Hq].
      * rewrite Hout by exact Hp. exact Bs.
      * rewrite Hin by exact Hq. rewrite Bt, Bo; [reflexivity|].
        intros ->. contradiction.
    + intros q Hq. rewrite Hout by tauto. apply Bo. intros ->. apply Hq. now left.
Qed.

Section Pass.

(** One promoting loop: [body] moves a thread from the queue [src] to
    the queue [dst] when its raised priority reaches [bound], and leaves
    the queue [other] alone. *)
Variable body : ptr -> Kernel -> Kernel.
Variables src dst other : Kernel -> list ptr.
Variable bound : Z.

Hypothesis body_ticks : forall p k, totalTicks (body p k) = totalTicks k.
Hypothesis body_other : forall p k, other (body p k) = other k.
Hypothesis body_same : forall p k,
  threads (body p k) p = aged_L23 (totalTicks k) (threads k p).
Hypothesis body_rest : forall p k q, q <> p -> threads (body p k) q = threads k q.
Hypothesis body_dst : forall p k q,
  In q (dst (body p k)) <->
  In q (dst k) \/ (q = p /\ promoted bound (totalTicks k) (threads k p) = true).
Hypothesis body_src_incl : forall p k q, In q (src (body p k)) -> In q (src k).
Hypothesis body_src_keep : forall p k q,
  In q (src k) -> ~ (q = p /\ promoted bound (totalTicks k) (threads k p) = true) ->
  In q (src (body p k)).
Hypothesis body_src_nodup : forall p k,
  NoDup (src k) ->
  NoDup (src (body p k))
  /\ (promoted bound (totalTicks k) (threads k p) = true -> ~ In p (src (body p k))).

Lemma walk_pass_spec its : forall k,
  NoDup its ->
  totalTicks (walk body its k) = totalTicks k
  /\ other (walk body its k) = other k
  /\ (forall q, In q its ->
        threads (walk body its k) q = aged_L23 (totalTicks k) (threads k q))
  /\ (forall q, ~ In q its -> threads (walk body its k) q = threads k q)
  /\ (forall q, In q (dst (walk body its k)) <->
        In q (dst k)
        \/ (In q its /\ promoted bound (totalTicks k) (threads k q) = true))
  /\ (forall q, In q (src (walk body its k)) -> In q (src k))
  /\ (forall q, In q (src k) ->
        ~ (In q its /\ promoted bound (totalTicks k) (threads k q) = true) ->
        In q (src (walk body its k)))
  /\ (NoDup (src k) ->
        forall q, In q its ->
          promoted bound (totalTicks k) (threads k q) = true ->
          ~ In q (src (walk body its k))).
Proof.
  induction its as [|p rest IH]; intros k Hnd; simpl.
  - repeat split; auto; tauto.
  - inversion Hnd as [|? ? Hp Hrest]; subst.
    destruct (IH (body p k) Hrest) as (Ht & Ho & Hin & Hout & Hd & Hsi & Hsk & Hsn).
    assert (Heq : forall q, In q rest -> threads (body p k) q = threads k q).
    { intros q Hq. apply body_rest. intros ->. contradiction. }
    split; [now rewrite Ht|]. split; [now rewrite Ho|].
    split; [|split; [|split; [|split; [|split]]]].
    + intros q [<-|Hq].
      * rewrite Hout by exact Hp. apply body_same.
      * rewrite Hin by exact Hq. now rewrite body_ticks, Heq.
    + intros q Hq. rewrite Hout by tauto. apply body_rest. intros ->. apply Hq. now left.
    + intros q. rewrite Hd, body_dst, body_ticks. split.
      * intros [[H|[-> H]]|[Hq H]]; [tauto | right; split; [now left | exact H] |].
        right. split; [now right|]. now rewrite <- Heq.
      * intros [H|[[<-|Hq] H]]; [tauto | tauto |].
        right. split; [exact Hq|]. now rewrite Heq.
    + intros q Hq. apply (body_src_incl p). now apply Hsi.
    + intros q Hq Hn. apply Hsk.
      * apply body_src_keep; [exact Hq|]. intros [-> H]. apply Hn. split; [now left | exact H].
      * intros [Hr H]. apply Hn. split; [now right|].
        rewrite body_ticks, Heq in H by exact Hr. exact H.
    + intros Hs q [<-|Hq] Hpr.
      * destruct (body_src_nodup p k Hs) as [_ Hgone].
        intros Hi. apply (Hgone Hpr). now apply Hsi.
      * destruct (body_src_nodup p k Hs) as [Hs' _].
        apply (Hsn Hs' q Hq). now rewrite body_ticks, Heq.
Qed.

End Pass.

Lemma promoted_priority bound now t :
  promoted bound now t = true <->
  (total_ready_time (set_total_ready_time t (waited now t)) >=? 1500) = true
  /\ (priority (age_L23 (set_total_ready_time t (waited now t))) >=? bound) = true.
Proof. unfold promoted. simpl. now rewrite andb_true_iff. Qed.

Lemma walk_L2_spec its k :
  NoDup its ->
  totalTicks (walk aging_L2 its k) = totalTicks k
  /\ L3 (walk aging_L2 its k) = L3 k
  /\ (forall q, In q its ->
        threads (walk aging_L2 its k) q = aged_L23 (totalTicks k) (threads k q))
  /\ (forall q, ~ In q its -> threads (walk aging_L2 its k) q = threads k q)
  /\ (forall q, In q (L1 (walk aging_L2 its k)) <->
        In q (L1 k)
        \/ (In q its /\ promoted 100 (totalTicks k) (threads k q) = true))
  /\ (forall q, In q (L2 (walk aging_L2 its k)) -> In q (L2 k))
  /\ (forall q, In q (L2 k) ->
        ~ (In q its /\ promoted 100 (totalTicks k) (threads k q) = true) ->
        In q (L2 (walk aging_L2 its k)))
  /\ (NoDup (L2 k) ->
        forall q, In q its ->
          promoted 100 (totalTicks k) (threads k q) = true ->
          ~ In q (L2 (walk aging_L2 its k))).
Proof.
  apply (walk_pass_spec aging_L2 L2 L1 L3 100).
  - intros p k0. unfold aging_L2. repeat destruct (_ >=? _); reflexivity.
  - intros p k0. unfold aging_L2. repeat destruct (_ >=? _); reflexivity.
  - intros p k0. unfold aging_L2, aged_L23.
    repeat destruct (_ >=? _); simpl; apply store_same.
  - intros p k0 q Hq. unfold aging_L2.
    repeat destruct (_ >=? _); simpl; now apply store_other.
  - intros p k0 q. rewrite promoted_priority. unfold aging_L2.
    destruct (_ >=? 1500); [destruct (_ >=? 100)|]; simpl threads; simpl L1.
    + rewrite In_Insert. intuition.
    + intuition congruence.
    + intuition congruence.
  - intros p k0 q. unfold aging_L2.
    destruct (_ >=? 1500); [destruct (_ >=? 100)|]; simpl L2; auto.
    apply In_Remove_incl.
  - intros p k0 q Hq. rewrite promoted_priority. unfold aging_L2.
    destruct (_ >=? 1500); [destruct (_ >=? 100)|]; simpl L2; auto.
    intros Hn. apply In_Remove_other; [|exact Hq]. intros ->. apply Hn. auto.
  - intros p k0 Hs. rewrite promoted_priority. unfold aging_L2.
    destruct (_ >=? 1500); [destruct (_ >=? 100)|]; simpl L2.
    + destruct (NoDup_Remove p (L2 k0) Hs). auto.
    + split; [exact Hs | intros [_ H]; discriminate].
    + split; [exact Hs | intros [H _]; discriminate].
Qed.

Lemma walk_L3_spec its k :
  NoDup its ->
  totalTicks (walk aging_L3 its k) = totalTicks k
  /\ L1 (walk aging_L3 its k) = L1 k
  /\ (forall q, In q its ->
        threads (walk aging_L3 its k) q = aged_L23 (totalTicks k) (threads k q))
  /\ (forall q, ~ In q its -> threads (walk aging_L3 its k) q = threads k q)
  /\ (forall q, In q (L2 (walk aging_L3 its k)) <->
        In q (L2 k)
        \/ (In q its /\ promoted 50 (totalTicks k) (threads k q) = true))
  /\ (forall q, In q (L3 (walk aging_L3 its k)) -> In q (L3 k))
  /\ (forall q, In q (L3 k) ->
        ~ (In q its /\ promoted 50 (totalTicks k) (threads k q) = true) ->
        In q (L3 (walk aging_L3 its k)))
  /\ (NoDup (L3 k) ->
        forall q, In q its ->
          promoted 50 (totalTicks k) (threads k q) = true ->
          ~ In q (L3 (walk aging_L3 its k))).
Proof.
  apply (walk_pass_spec aging_L3 L3 L2 L1 50).
  - intros p k0. unfold aging_L3. repeat destruct (_ >=? _); reflexivity.
  - intros p k0. unfold aging_L3. repeat destruct (_ >=? _); reflexivity.
  - intros p k0. unfold aging_L3, aged_L23.
    repeat destruct (_ >=? _); simpl; apply store_same.
  - intros p k0 q Hq. unfold aging_L3.
    repeat destruct (_ >=? _); simpl; now apply store_other.
  - intros p k0 q. rewrite promoted_priority. unfold aging_L3.
    destruct (_ >=? 1500); [destruct (_ >=? 50)|]; simpl threads; simpl L2.
    + rewrite In_Insert. intuition.
    + intuition congruence.
    + intuition congruence.
  - intros p k0 q. unfold aging_L3.
    destruct (_ >=? 1500); [destruct (_ >=? 50)|]; simpl L3; auto.
    apply In_Remove_incl.
  - intros p k0 q Hq. rewrite promoted_priority. unfold aging_L3.
    destruct (_ >=? 1500); [destruct (_ >=? 50)|]; simpl L3; auto.
    intros Hn. apply In_Remove_other; [|exact Hq]. intros ->. apply Hn. auto.
  - intros p k0 Hs. rewrite promoted_priority. unfold aging_L3.
    destruct (_ >=? 1500); [destruct (_ >=? 50)|]; simpl L3.
    + destruct (NoDup_Remove p (L3 k0) Hs). auto.
    + split; [exact Hs | intros [_ H]; discriminate].
    + split; [exact Hs | intros [H _]; discriminate].
Qed.


Lemma aged_L1_fields now t :
  (waited now t < 1500 ->
     priority (aged_L1 now t) = priority t
     /\ insert_ready_time (aged_L1 now t) = insert_ready_time t)
  /\ (1500 <= waited now t ->
     priority (aged_L1 now t) = Z.min 149 (to_int (priority t + 10))
     /\ insert_ready_time (aged_L1 now t) = to_int (insert_ready_time t + 1500)).
Proof.
  unfold aged_L1. simpl. split; intros H.
  - destruct (Z.geb_spec (waited now t) 1500); [lia|]. simpl. auto.
  - destruct (Z.geb_spec (waited now t) 1500); [|lia]. simpl.
    destruct (Z.gtb_spec (to_int (priority t + 10)) 149); split; lia.
Qed.

Lemma aged_L23_fields now t :
  (waited now t < 1500 ->
     priority (aged_L23 now t) = priority t
     /\ insert_ready_time (aged_L23 now t) = insert_ready_time t)
  /\ (1500 <= waited now t ->
     priority (aged_L23 now t) = to_int (priority t + 10)
     /\ insert_ready_time (aged_L23 now t) = to_int (insert_ready_time t + 1500)).
Proof.
  unfold aged_L23. simpl. split; intros H.
  - destruct (Z.geb_spec (waited now t) 1500); [lia|]. simpl. auto.
  - destruct (Z.geb_spec (waited now t) 1500); [|lia]. simpl. auto.
Qed.

Lemma promoted_true bound now t :
  promoted bound now t = true
  <-> 1500 <= waited now t /\ bound <= to_int (priority t + 10).
Proof.
  unfold promoted. rewrite andb_true_iff.
  destruct (Z.geb_spec (waited now t) 1500),
           (Z.geb_spec (to_int (priority t + 10)) bound);
    intuition (try discriminate; try lia).
Qed.

(** What [Aging] does to a thread of each queue. *)
Lemma Aging_L1_resident k p :
  NoDup (L1 k ++ L2 k ++ L3 k) -> In p (L1 k) ->
  threads (Aging k) p = aged_L1 (totalTicks k) (threads k p)
  /\ In p (L1 (Aging k)).
Proof.
  intros Hnd Hp. unfold Aging.
  pose proof (NoDup_app_remove_r _ _ Hnd) as Hn1.
  pose proof (NoDup_app_remove_l _ _ Hnd) as Hn23.
  pose proof (NoDup_app_remove_r _ _ Hn23) as Hn2.
  pose proof (NoDup_app_remove_l _ _ Hn23) as Hn3.
  assert (Hp2 : ~ In p (L2 k)).
  { intros H. apply (NoDup_app_disjoint _ _ Hnd p Hp).
    apply in_or_app. now left. }
  assert (Hp3 : ~ In p (L3 k)).
  { intros H. apply (NoDup_app_disjoint _ _ Hnd p Hp).
    apply in_or_app. now right. }
  destruct (walk_L1_spec (L1 k) k Hn1) as (A1 & A2 & A3 & At & Ain & Aout).
  set (k1 := walk aging_L1 (L1 k) k) in *.
  rewrite A2.
  destruct (walk_L2_spec (L2 k) k1 Hn2) as (Bt & B3 & Bin & Bout & Bd & Bsi & Bsk & Bsn).
  set (k2 := walk aging_L2 (L2 k) k1) in *.
  rewrite B3, A3.
  destruct (walk_L3_spec (L3 k) k2 Hn3) as (Ct & C1 & Cin & Cout & Cd & Csi & Csk & Csn).
  split.
  - rewrite Cout, Bout by assumption. now apply Ain.
  - rewrite C1. apply Bd. left. now rewrite A1.
Qed.

Lemma Aging_L2_resident k p :
  NoDup (L1 k ++ L2 k ++ L3 k) -> In p (L2 k) ->
  threads (Aging k) p = aged_L23 (totalTicks k) (threads k p)
  /\ (promoted 100 (totalTicks k) (threads k p) = true ->
        In p (L1 (Aging k)) /\ ~ In p (L2 (Aging k)))
  /\ (promoted 100 (totalTicks k) (threads k p) = false -> In p (L2 (Aging k))).
Proof.
  intros Hnd Hp. unfold Aging.
  pose proof (NoDup_app_remove_r _ _ Hnd) as Hn1.
  pose proof (NoDup_app_remove_l _ _ Hnd) as Hn23.
  pose proof (NoDup_app_remove_r _ _ Hn23) as Hn2.
  pose proof (NoDup_app_remove_l _ _ Hn23) as Hn3.
  assert (Hp1 : ~ In p (L1 k)).
  { intros H. apply (NoDup_app_disjoint _ _ Hnd p H).
    apply in_or_app. now left. }
  assert (Hp3 : ~ In p (L3 k)).
  { intros H. apply (NoDup_app_disjoint _ _ Hn23 p Hp H). }
  destruct (walk_L1_spec (L1 k) k Hn1) as (A1 & A2 & A3 & At & Ain & Aout).
  set (k1 := walk aging_L1 (L1 k) k) in *.
  rewrite A2.
  destruct (walk_L2_spec (L2 k) k1 Hn2) as (Bt & B3 & Bin & Bout & Bd & Bsi & Bsk & Bsn).
  set (k2 := walk aging_L2 (L2 k) k1) in *.
  rewrite B3, A3.
  destruct (walk_L3_spec (L3 k) k2 Hn3) as (Ct & C1 & Cin & Cout & Cd & Csi & Csk & Csn).
  pose proof (Bin p Hp) as Hthr. rewrite At, (Aout p Hp1) in Hthr.
  pose proof (Bd p) as HBd. rewrite At, (Aout p Hp1) in HBd.
  pose proof (Bsk p) as HBsk. rewrite A2, At, (Aout p Hp1) in HBsk.
  assert (Hn2' : NoDup (L2 k1)) by (now rewrite A2).
  pose proof (Bsn Hn2' p Hp) as HBsn. rewrite At, (Aout p Hp1) in HBsn.
  split; [rewrite Cout by assumption; exact Hthr|].
  split.
  - intros Hpr. split.
    + rewrite C1. apply HBd. right. auto.
    + rewrite Cd. intros [H|[H _]]; [exact (HBsn Hpr H) | contradiction].
  - intros Hpr. apply Cd. left. apply HBsk; [exact Hp|].
    intros [_ H]. congruence.
Qed.

Lemma Aging_L3_resident k p :
  NoDup (L1 k ++ L2 k ++ L3 k) -> In p (L3 k) ->
  threads (Aging k) p = aged_L23 (totalTicks k) (threads k p)
  /\ (promoted 50 (totalTicks k) (threads k p) = true ->
        In p (L2 (Aging k)) /\ ~ In p (L3 (Aging k)))
  /\ (promoted 50 (totalTicks k) (threads k p) = false -> In p (L3 (Aging k))).
Proof.
  intros Hnd Hp. unfold Aging.
  pose proof (NoDup_app_remove_r _ _ Hnd) as Hn1.
  pose proof (NoDup_app_remove_l _ _ Hnd) as Hn23.
  pose proof (NoDup_app_remove_r _ _ Hn23) as Hn2.
  pose proof (NoDup_app_remove_l _ _ Hn23) as Hn3.
  assert (Hp1 : ~ In p (L1 k)).
  { intros H. apply (NoDup_app_disjoint _ _ Hnd p H).
    apply in_or_app. now right. }
  assert (Hp2 : ~ In p (L2 k)).
  { intros H. apply (NoDup_app_disjoint _ _ Hn23 p H Hp). }
  destruct (walk_L1_spec (L1 k) k Hn1) as (A1 & A2 & A3 & At & Ain & Aout).
  set (k1 := walk aging_L1 (L1 k) k) in *.
  rewrite A2.
  destruct (walk_L2_spec (L2 k) k1 Hn2) as (Bt & B3 & Bin & Bout & Bd & Bsi & Bsk & Bsn).
  set (k2 := walk aging_L2 (L2 k) k1) in *.
  rewrite B3, A3.
  destruct (walk_L3_spec (L3 k) k2 Hn3) as (Ct & C1 & Cin & Cout & Cd & Csi & Csk & Csn).
  assert (Hth : threads k2 p = threads k p).
  { rewrite Bout by assumption. now apply Aout. }
  assert (Htk : totalTicks k2 = totalTicks k) by congruence.
  assert (Hn3' : NoDup (L3 k2)) by (now rewrite B3, A3).
  pose proof (Cin p Hp) as Hthr. rewrite Htk, Hth in Hthr.
  pose proof (Cd p) as HCd. rewrite Htk, Hth in HCd.
  pose proof (Csk p) as HCsk. rewrite B3, A3, Htk, Hth in HCsk.
  pose proof (Csn Hn3' p Hp) as HCsn. rewrite Htk, Hth in HCsn.
  split; [exact Hthr|]. split.
  - intros Hpr. split; [apply HCd; right; auto | exact (HCsn Hpr)].
  - intros Hpr. apply HCsk; [exact Hp|]. intros [_ H]. congruence.
Qed.


(** C4 (amended).  One call of [Aging], on queues that hold each thread
    at most once, treats a waiting thread as follows, [w] being the
    current tick minus its [insert_ready_time], as long as the tick and
    the thread's [insert_ready_time] are [int]s and neither [w] nor the
    priority plus 10 leaves the range of an [int].  If
    [w < 1500] the thread keeps its priority, its [insert_ready_time] and
    its queue.  If [w >= 1500] the call makes one increment, however many
    periods of 1500 ticks [w] holds: the priority goes up by 10 (in L1:
    to at most 149), [insert_ready_time] goes up by 1500, and an L2
    thread whose new priority is 100 or more leaves L2 for L1, an L3
    thread whose new priority is 50 or more leaves L3 for L2; otherwise
    the thread stays in its queue. *)
Theorem Aging_one_increment (k : Kernel) (p : ptr) :
  NoDup (L1 k ++ L2 k ++ L3 k) ->
  let t := threads k p in
  let t' := threads (Aging k) p in
  let w := totalTicks k - insert_ready_time t in
  fits_int (totalTicks k) -> fits_int (insert_ready_time t) ->
  fits_int w -> fits_int (priority t + 10) ->
  (In p (L1 k) ->
     In p (L1 (Aging k))
     /\ (w < 1500 ->
           priority t' = priority t /\ insert_ready_time t' = insert_ready_time t)
     /\ (1500 <= w ->
           priority t' = Z.min 149 (priority t + 10)
           /\ insert_ready_time t' = insert_ready_time t + 1500))
  /\
  (In p (L2 k) ->
     (w < 1500 ->
        priority t' = priority t /\ insert_ready_time t' = insert_ready_time t
        /\ In p (L2 (Aging k)))
     /\ (1500 <= w ->
           priority t' = priority t + 10
           /\ insert_ready_time t' = insert_ready_time t + 1500
           /\ (100 <= priority t + 10 ->
                 In p (L1 (Aging k)) /\ ~ In p (L2 (Aging k)))
           /\ (priority t + 10 < 100 -> In p (L2 (Aging k)))))
  /\
  (In p (L3 k) ->
     (w < 1500 ->
        priority t' = priority t /\ insert_ready_time t' = insert_ready_time t
        /\ In p (L3 (Aging k)))
     /\ (1500 <= w ->
           priority t' = priority t + 10
           /\ insert_ready_time t' = insert_ready_time t + 1500
           /\ (50 <= priority t + 10 ->
                 In p (L2 (Aging k)) /\ ~ In p (L3 (Aging k)))
           /\ (priority t + 10 < 50 -> In p (L3 (Aging k))))).
Proof.
  intros Hnd t t' w Hnow Hins Hw Hp10. subst t t' w.
  assert (Hwait : waited (totalTicks k) (threads k p)
                  = totalTicks k - insert_ready_time (threads k p))
    by (apply to_int_small; exact Hw).
  assert (Hpr : to_int (priority (threads k p) + 10) = priority (threads k p) + 10)
    by (apply to_int_small; exact Hp10).
  assert (Hin : 1500 <= totalTicks k - insert_ready_time (threads k p) ->
                to_int (insert_ready_time (threads k p) + 1500)
                = insert_ready_time (threads k p) + 1500).
  { intros H. apply to_int_small. unfold fits_int in *. lia. }
  rewrite <- Hwait.
  split; [|split]; intros Hp.
  - destruct (Aging_L1_resident k p Hnd Hp) as [-> Hl1].
    destruct (aged_L1_fields (totalTicks k) (threads k p)) as [Hlt Hge].
    split; [exact Hl1|]. split; [exact Hlt|].
    intros H. destruct (Hge H) as [-> ->]. rewrite Hpr, Hin by lia. auto.
  - destruct (Aging_L2_resident k p Hnd Hp) as (-> & Hup & Hstay).
    destruct (aged_L23_fields (totalTicks k) (threads k p)) as [Hlt Hge].
    split.
    + intros H. destruct (Hlt H) as [-> ->]. repeat split.
      apply Hstay. apply not_true_is_false. rewrite promoted_true. lia.
    + intros H. destruct (Hge H) as [-> ->]. rewrite Hpr, Hin by lia.
      repeat split.
      * apply Hup. apply promoted_true. lia.
      * apply Hup. apply promoted_true. lia.
      * intros Hb. apply Hstay. apply not_true_is_false. rewrite promoted_true. lia.
  - destruct (Aging_L3_resident k p Hnd Hp) as (-> & Hup & Hstay).
    destruct (aged_L23_fields (totalTicks k) (threads k p)) as [Hlt Hge].
    split.
    + intros H. destruct (Hlt H) as [-> ->]. repeat split.
      apply Hstay. apply not_true_is_false. rewrite promoted_true. lia.
    + intros H. destruct (Hge H) as [-> ->]. rewrite Hpr, Hin by lia.
      repeat split.
      * apply Hup. apply promoted_true. lia.
      * apply Hup. apply promoted_true. lia.
      * intros Hb. apply Hstay. apply not_true_is_false. rewrite promoted_true. lia.
Qed.

(** The theorem at a thread of priority 10 that has waited 3000 ticks in
    L3. *)
Lemma Aging_one_increment_witness :
  (NoDup (L1 long_wait ++ L2 long_wait ++ L3 long_wait)
   /\ fits_int (totalTicks long_wait)
   /\ fits_int (insert_ready_time (threads long_wait 0%nat))
   /\ fits_int (totalTicks long_wait - insert_ready_time (threads long_wait 0%nat))
   /\ fits_int (priority (threads long_wait 0%nat) + 10))
  /\ priority (threads (Aging long_wait) 0%nat) = 20
  /\ insert_ready_time (threads (Aging long_wait) 0%nat) = 1500
  /\ In 0%nat (L3 (Aging long_wait)).
Proof.
  assert (Hnd : NoDup (L1 long_wait ++ L2 long_wait ++ L3 long_wait)).
  { simpl. constructor; [intros [] | constructor]. }
  assert (H1 : fits_int (totalTicks long_wait)) by (unfold fits_int, two31; simpl; lia).
  assert (H2 : fits_int (insert_ready_time (threads long_wait 0%nat)))
    by (unfold fits_int, two31; simpl; lia).
  assert (H4 : fits_int (totalTicks long_wait
                         - insert_ready_time (threads long_wait 0%nat)))
    by (unfold fits_int, two31; simpl; lia).
  assert (H5 : fits_int (priority (threads long_wait 0%nat) + 10))
    by (unfold fits_int, two31; simpl; lia).
  split; [tauto|].
  destruct (Aging_one_increment long_wait 0%nat Hnd H1 H2 H4 H5) as (_ & _ & HL3).
  destruct (HL3 ltac:(simpl; auto)) as [_ Hge].
  destruct (Hge ltac:(simpl; lia)) as (Hp & Hi & _ & Hstay).
  split; [exact Hp|]. split; [exact Hi|].
  apply Hstay. simpl. lia.
Defined.

(** C4, counterexample.  A thread of priority 10 has waited 3000 ticks,
    two full periods of 1500, in L3.  One call of [Aging] raises its
    priority by 10, not by 20, and moves [insert_ready_time] on by 1500,
    not by 3000. *)
Lemma Aging_two_periods_one_increment :
  let t := threads long_wait 0%nat in
  let t' := threads (Aging long_wait) 0%nat in
  In 0%nat (L3 long_wait)
  /\ (totalTicks long_wait - insert_ready_time t) / 1500 = 2
  /\ priority t' = priority t + 10
  /\ priority t' <> priority t
        + 10 * ((totalTicks long_wait - insert_ready_time t) / 1500)
  /\ insert_ready_time t' <> insert_ready_time t
        + 1500 * ((totalTicks long_wait - insert_ready_time t) / 1500).
Proof.
  vm_compute. repeat split; auto; discriminate.
Qed.

(** Where the priority plus 10 leaves the range of an [int] the sum
    wraps: the thread of priority 2147483640 comes out of [Aging] with
    priority -2147483646 and stays in L2. *)
Lemma Aging_priority_wraps :
  priority (threads (Aging top_priority) 0%nat) = -2147483646
  /\ L1 (Aging top_priority) = []
  /\ L2 (Aging top_priority) = [0%nat].
Proof. vm_compute. repeat split. Qed.

(** *** Preemption *)

(** The three cases of [CheckPreempt], by the band of the running
    thread. *)
Lemma CheckPreempt_cases (k : Kernel) :
  let thread := threads k (currentThread k) in
  (100 <= priority thread ->
     CheckPreempt k
     = match L1 k with
       | front :: _ =>
           Some (remain_burst (threads k front) <? remain_burst thread)
       | [] => None
       end)
  /\ (50 <= priority thread < 100 ->
        CheckPreempt k = Some (match L1 k with [] => false | _ :: _ => true end))
  /\ (priority thread < 50 ->
        CheckPreempt k = Some (match L3 k with [] => false | _ :: _ => true end)).
Proof.
  intros thread. unfold CheckPreempt, WhichQueue. fold thread.
  split; [|split]; intros H.
  - destruct (Z.geb_spec (priority thread) 100); [|lia]. simpl.
    destruct (L1 k); [reflexivity|]. now destruct (_ <? _).
  - destruct (Z.geb_spec (priority thread) 100); [lia|].
    destruct (Z.geb_spec (priority thread) 50); [|lia]. simpl.
    now destruct (L1 k).
  - destruct (Z.geb_spec (priority thread) 100); [lia|].
    destruct (Z.geb_spec (priority thread) 50); [lia|]. simpl.
    now destruct (L3 k).
Qed.

(** C3, at the failing input.  The running thread has priority 120, so
    its band is L1, and L1 is empty: [CheckPreempt] leaves the function
    without executing a [return], where the claim has it return [false]. *)
Theorem CheckPreempt_L1_empty_no_return :
  WhichQueue (threads boot (currentThread boot)) = 1
  /\ L1 boot = []
  /\ CheckPreempt boot = None.
Proof. repeat split. Qed.

(** *** Dispatch *)

(** C5.  With interrupts off, [ScheduleNext] removes and returns the
    front of L1 when L1 is not empty; else the front of L2 when L2 is not
    empty; else the front of L3 when L3 is not empty; else it returns
    [NULL] and changes nothing.  Three threads of priorities 120, 70 and
    20 made ready in any order are returned in the order 120, 70, 20,
    and a fourth call returns [NULL]. *)
Theorem ScheduleNext_strict_levels (k : Kernel) :
  intOff k = true ->
  (forall t r, L1 k = t :: r ->
     ScheduleNext k
     = Ok (Some t, mkKernel (threads k) r (L2 k) (L3 k)
                     (currentThread k) (totalTicks k) (intOff k)))
  /\ (forall t r, L1 k = [] -> L2 k = t :: r ->
     ScheduleNext k
     = Ok (Some t, mkKernel (threads k) [] r (L3 k)
                     (currentThread k) (totalTicks k) (intOff k)))
  /\ (forall t r, L1 k = [] -> L2 k = [] -> L3 k = t :: r ->
     ScheduleNext k
     = Ok (Some t, mkKernel (threads k) [] [] r
                     (currentThread k) (totalTicks k) (intOff k)))
  /\ (L1 k = [] -> L2 k = [] -> L3 k = [] -> ScheduleNext k = Ok (None, k))
  /\ (forall order, In order orders ->
        (do k' <- ready_all order boot; drain 4 k')
        = Ok [Some 0%nat; Some 1%nat; Some 2%nat; None]).
Proof.
  intros Hoff. unfold ScheduleNext. rewrite Hoff. simpl bind.
  split; [|split; [|split; [|split]]].
  - intros t r ->. reflexivity.
  - intros t r -> ->. reflexivity.
  - intros t r -> -> ->. reflexivity.
  - intros -> -> ->. reflexivity.
  - intros order Hin. unfold orders in Hin. simpl in Hin.
    repeat (destruct Hin as [<-|Hin]; [vm_compute; reflexivity|]).
    contradiction.
Qed.

(** The theorem at a kernel whose L1 is empty while L2 and L3 hold one
    thread each. *)
Lemma ScheduleNext_strict_levels_witness :
  intOff (mkKernel three_threads [] [1%nat] [2%nat] 3%nat 0 true) = true
  /\ ScheduleNext (mkKernel three_threads [] [1%nat] [2%nat] 3%nat 0 true)
     = Ok (Some 1%nat, mkKernel three_threads [] [] [2%nat] 3%nat 0 true).
Proof.
  split; [reflexivity|].
  destruct (ScheduleNext_strict_levels
              (mkKernel three_threads [] [1%nat] [2%nat] 3%nat 0 true) eq_refl)
    as (_ & H2 & _).
  apply (H2 1%nat []); reflexivity.
Defined.

(** *** The ready queues as a whole *)

Lemma Insert_perm cmp p l : Permutation (Insert cmp p l) (p :: l).
Proof.
  induction l as [|y r IH]; simpl; [reflexivity|].
  destruct (cmp p y <? 0); [reflexivity|].
  rewrite IH. apply perm_swap.
Qed.

Lemma Remove_perm p l : In p l -> Permutation (p :: Remove p l) l.
Proof.
  induction l as [|y r IH]; simpl; [contradiction|].
  intros Hin. destruct (Nat.eqb_spec y p) as [->|Hne]; [reflexivity|].
  destruct Hin as [Heq|Hin]; [congruence|].
  rewrite perm_swap. now rewrite IH.
Qed.

Lemma WhichQueue_band t :
  (WhichQueue t = 1 <-> 100 <= priority t)
  /\ (WhichQueue t = 2 <-> 50 <= priority t < 100)
  /\ (WhichQueue t = 3 <-> priority t < 50).
Proof.
  unfold WhichQueue.
  destruct (Z.geb_spec (priority t) 100), (Z.geb_spec (priority t) 50);
    repeat split; intros; try lia; try discriminate.
Qed.

Lemma comp_L1_neg h x y :
  (comp_L1 h x y <? 0) = true -> remain_burst (h x) <= remain_burst (h y).
Proof.
  unfold comp_L1.
  destruct (Z.eqb_spec (remain_burst (h x)) 0), (Z.eqb_spec (remain_burst (h y)) 0);
    simpl; try lia;
    destruct (Z.gtb_spec (remain_burst (h x)) (remain_burst (h y)));
    try discriminate;
    destruct (Z.eqb_spec (remain_burst (h x)) (remain_burst (h y)));
    try discriminate; lia.
Qed.

Lemma comp_L1_nonneg h x y :
  (comp_L1 h x y <? 0) = false -> remain_burst (h y) <= remain_burst (h x).
Proof.
  unfold comp_L1.
  destruct (Z.eqb_spec (remain_burst (h x)) 0), (Z.eqb_spec (remain_burst (h y)) 0);
    simpl; try lia;
    destruct (Z.gtb_spec (remain_burst (h x)) (remain_burst (h y)));
    try lia;
    destruct (Z.eqb_spec (remain_burst (h x)) (remain_burst (h y)));
    try discriminate; lia.
Qed.

Lemma comp_L2_neg h x y :
  (comp_L2 h x y <? 0) = true <-> priority (h y) < priority (h x).
Proof.
  unfold comp_L2.
  destruct (Z.gtb_spec (priority (h x)) (priority (h y))); simpl; [split; [lia | reflexivity]|].
  destruct (Z.eqb_spec (priority (h x)) (priority (h y))); simpl; split;
    try discriminate; lia.
Qed.

Lemma Insert_shortest_first h p l :
  shortest_first h l -> shortest_first h (Insert (comp_L1 h) p l).
Proof.
  unfold shortest_first. induction l as [|y r IH]; intros Hs; simpl.
  - constructor; constructor.
  - inversion Hs as [|? ? Hr Hy]; subst.
    destruct (comp_L1 h p y <? 0) eqn:E.
    + apply comp_L1_neg in E. constructor; [exact Hs|].
      constructor; [exact E|].
      rewrite Forall_forall in *. intros q Hq. specialize (Hy q Hq). lia.
    + apply comp_L1_nonneg in E. constructor; [now apply IH|].
      rewrite Forall_forall in *. intros q Hq. apply In_Insert in Hq.
      destruct Hq as [->|Hq]; [exact E | now apply Hy].
Qed.

Lemma Insert_highest_first h p l :
  highest_first h l -> highest_first h (Insert (comp_L2 h) p l).
Proof.
  unfold highest_first. induction l as [|y r IH]; intros Hs; simpl.
  - constructor; constructor.
  - inversion Hs as [|? ? Hr Hy]; subst.
    destruct (comp_L2 h p y <? 0) eqn:E.
    + apply comp_L2_neg in E. constructor; [exact Hs|].
      constructor; [lia|].
      rewrite Forall_forall in *. intros q Hq. specialize (Hy q Hq). lia.
    + assert (priority (h p) <= priority (h y)).
      { destruct (Z.lt_ge_cases (priority (h y)) (priority (h p))) as [Hlt|]; [|lia].
        apply comp_L2_neg in Hlt. congruence. }
      constructor; [now apply IH|].
      rewrite Forall_forall in *. intros q Hq. apply In_Insert in Hq.
      destruct Hq as [->|Hq]; [assumption | now apply Hy].
Qed.

Lemma sorted_ext {A} (R R' : A -> A -> Prop) l :
  (forall p q, In p l -> In q l -> R p q -> R' p q) ->
  StronglySorted R l -> StronglySorted R' l.
Proof.
  induction l as [|x r IH]; intros Hext Hs; [constructor|].
  inversion Hs as [|? ? Hr Hx]; subst. constructor.
  - apply IH; [|exact Hr]. intros p q Hp Hq. apply Hext; now right.
  - rewrite Forall_forall in *. intros q Hq.
    apply Hext; [now left | now right | now apply Hx].
Qed.

Lemma shortest_first_ext h h' l :
  (forall p, In p l -> remain_burst (h' p) = remain_burst (h p)) ->
  shortest_first h l -> shortest_first h' l.
Proof.
  intros H. apply sorted_ext. intros p q Hp Hq. now rewrite !H.
Qed.

Lemma highest_first_ext h h' l :
  (forall p, In p l -> priority (h' p) = priority (h p)) ->
  highest_first h l -> highest_first h' l.
Proof.
  intros H. apply sorted_ext. intros p q Hp Hq. now rewrite !H.
Qed.

Lemma sorted_tail {A} (R : A -> A -> Prop) x l :
  StronglySorted R (x :: l) -> StronglySorted R l /\ Forall (R x) l.
Proof. intros H. now inversion H. Qed.

(** **** The bodies of the three loops of [Aging] *)

Lemma age_L1_keeps t :
  fits_int (priority t + 10) ->
  remain_burst (age_L1 t) = remain_burst t
  /\ (100 <= priority t -> 100 <= priority (age_L1 t))
  /\ priority (age_L1 t) = Z.min 149 (priority t + 10).
Proof.
  intros Hfit. unfold age_L1. simpl. rewrite (to_int_small _ Hfit).
  split; [reflexivity|].
  destruct (Z.gtb_spec (priority t + 10) 149); lia.
Qed.

Lemma age_L23_priority t :
  fits_int (priority t + 10) -> priority (age_L23 t) = priority t + 10.
Proof. intros Hfit. simpl. exact (to_int_small _ Hfit). Qed.

(** A thread that is not the one a loop body works on keeps its
    fields. *)
Lemma fit_elsewhere (k k' : Kernel) (p : ptr) :
  priorities_fit k ->
  Permutation (ready k') (ready k) ->
  (forall q, q <> p -> threads k' q = threads k q) ->
  (fits_int (priority (threads k' p)) /\ fits_int (priority (threads k' p) + 10)) ->
  priorities_fit k'.
Proof.
  intros Hfit Hperm Hother Hp q Hq.
  destruct (Nat.eq_dec q p) as [->|Hne]; [exact Hp|].
  rewrite (Hother q Hne). apply Hfit. eapply Permutation_in; eauto.
Qed.

Lemma aging_L1_step p k :
  queues_ok k -> priorities_fit k -> In p (L1 k) ->
  queues_ok (aging_L1 p k)
  /\ priorities_fit (aging_L1 p k)
  /\ ready (aging_L1 p k) = ready k
  /\ L1 (aging_L1 p k) = L1 k
  /\ (forall q, remain_burst (threads (aging_L1 p k) q) = remain_burst (threads k q)).
Proof.
  intros (Hnd & B1 & B2 & B3) Hfit Hp.
  destruct (Hfit p ltac:(unfold ready; apply in_or_app; now left)) as [Hfp Hfp10].
  assert (Hburst : forall q, remain_burst (threads (aging_L1 p k) q)
                             = remain_burst (threads k q)).
  { intros q. unfold aging_L1. simpl. unfold store.
    destruct (Nat.eqb_spec q p) as [->|_]; [|reflexivity].
    destruct (_ >=? 1500); reflexivity. }
  assert (Hother : forall q, q <> p -> threads (aging_L1 p k) q = threads k q).
  { intros q Hq. unfold aging_L1. simpl. now apply store_other. }
  assert (Hnot : forall q, In q (L2 k) \/ In q (L3 k) -> q <> p).
  { intros q Hq ->. unfold ready in Hnd.
    apply (NoDup_app_disjoint _ _ Hnd p Hp). apply in_or_app. exact Hq. }
  split; [|split; [|split; [reflexivity | split; [reflexivity | exact Hburst]]]].
  2:{ apply (fit_elsewhere k (aging_L1 p k) p Hfit (Permutation_refl (ready k)) Hother).
      unfold aging_L1. simpl. rewrite store_same.
      destruct (_ >=? 1500); [|split; assumption].
      destruct (age_L1_keeps (set_total_ready_time (threads k p)
                                (waited (totalTicks k) (threads k p))) Hfp10)
        as (_ & _ & ->).
      simpl. unfold fits_int, two31 in *. lia. }
  split; [exact Hnd|]. split; [|split].
  - intros q Hq. change (L1 (aging_L1 p k)) with (L1 k) in Hq.
    destruct (Nat.eq_dec q p) as [->|Hne]; [|rewrite Hother by exact Hne; now apply B1].
    apply WhichQueue_band. specialize (B1 p Hp). apply WhichQueue_band in B1.
    unfold aging_L1. simpl. rewrite store_same.
    destruct (_ >=? 1500); [|exact B1].
    now apply (age_L1_keeps (set_total_ready_time (threads k p)
                               (waited (totalTicks k) (threads k p))) Hfp10).
  - intros q Hq. change (L2 (aging_L1 p k)) with (L2 k) in Hq.
    rewrite Hother by (apply Hnot; auto). now apply B2.
  - intros q Hq. change (L3 (aging_L1 p k)) with (L3 k) in Hq.
    rewrite Hother by (apply Hnot; auto). now apply B3.
Qed.

Lemma ready_move_up (l1 l2 l3 : list ptr) cmp p :
  In p l2 ->
  Permutation (Insert cmp p l1 ++ Remove p l2 ++ l3) (l1 ++ l2 ++ l3).
Proof.
  intros Hp. rewrite Insert_perm. simpl.
  rewrite <- (Remove_perm p l2 Hp) at 2. simpl.
  now rewrite <- Permutation_middle.
Qed.

Lemma ready_move_mid (l1 l2 l3 : list ptr) cmp p :
  In p l3 ->
  Permutation (l1 ++ Insert cmp p l2 ++ Remove p l3) (l1 ++ l2 ++ l3).
Proof.
  intros Hp. apply Permutation_app_head.
  rewrite Insert_perm. simpl.
  rewrite <- (Remove_perm p l3 Hp) at 2.
  now rewrite <- Permutation_middle.
Qed.

Lemma aging_L2_step p k :
  queues_ok k -> priorities_fit k -> In p (L2 k) ->
  queues_ok (aging_L2 p k)
  /\ Permutation (ready (aging_L2 p k)) (ready k)
  /\ (forall q, remain_burst (threads (aging_L2 p k) q) = remain_burst (threads k q))
  /\ (forall q, q <> p -> In q (L2 k) -> In q (L2 (aging_L2 p k))).
Proof.
  intros (Hnd & B1 & B2 & B3) Hfit Hp.
  destruct (Hfit p ltac:(unfold ready; apply in_or_app; right; apply in_or_app; now left))
    as [Hfp Hfp10].
  pose proof (NoDup_app_remove_r _ _ Hnd) as Hn1.
  pose proof (NoDup_app_remove_l _ _ Hnd) as Hn23.
  pose proof (NoDup_app_remove_r _ _ Hn23) as Hn2.
  assert (Hp1 : ~ In p (L1 k)).
  { intros H. apply (NoDup_app_disjoint _ _ Hnd p H). apply in_or_app. now left. }
  assert (Hp3 : ~ In p (L3 k)).
  { intros H. apply (NoDup_app_disjoint _ _ Hn23 p Hp H). }
  pose proof (B2 p Hp) as Hband. apply WhichQueue_band in Hband.
  unfold aging_L2.
  set (t := set_total_ready_time (threads k p) (waited (totalTicks k) (threads k p))).
  assert (Ht : priority t = priority (threads k p) /\ remain_burst t = remain_burst (threads k p))
    by (split; reflexivity).
  destruct Ht as [Htp Htb].
  destruct (total_ready_time t >=? 1500).
  - assert (Hap : priority (age_L23 t) = priority (threads k p) + 10)
      by (apply (age_L23_priority t); exact Hfp10).
    assert (Hab : remain_burst (age_L23 t) = remain_burst (threads k p)) by reflexivity.
    set (h := store (threads k) p (age_L23 t)).
    assert (Hother : forall q, q <> p -> h q = threads k q)
      by (intros q Hq; now apply store_other).
    assert (Hsame : h p = age_L23 t) by apply store_same.
    assert (Hburst : forall q, remain_burst (h q) = remain_burst (threads k q)).
    { intros q. unfold h, store. destruct (Nat.eqb_spec q p) as [->|_]; auto. }
    destruct (Z.geb_spec (priority (age_L23 t)) 100) as [Hup|Hstay].
    + split; [|split; [|split]].
      * split; [|split; [|split]]; simpl.
        -- unfold ready. simpl.
           apply (Permutation_NoDup (l := ready k)); [|exact Hnd].
           symmetry. now apply ready_move_up.
        -- intros q Hq. apply In_Insert in Hq. destruct Hq as [->|Hq].
           ++ rewrite Hsame. apply WhichQueue_band. lia.
           ++ rewrite Hother by (intros ->; contradiction). now apply B1.
        -- intros q Hq.
           destruct (NoDup_Remove p (L2 k) Hn2) as [_ Hgone].
           rewrite Hother by (intros ->; contradiction).
           apply B2. eapply In_Remove_incl; eauto.
        -- intros q Hq. rewrite Hother by (intros ->; contradiction). now apply B3.
      * unfold ready. simpl. now apply ready_move_up.
      * exact Hburst.
      * intros q Hq Hin. simpl. now apply In_Remove_other.
    + split; [|split; [|split]].
      * split; [exact Hnd|]. split; [|split]; simpl; intros q Hq.
        -- rewrite Hother by (intros ->; contradiction). now apply B1.
        -- destruct (Nat.eq_dec q p) as [->|Hne]; [|rewrite Hother by exact Hne; now apply B2].
           rewrite Hsame. apply WhichQueue_band. lia.
        -- rewrite Hother by (intros ->; contradiction). now apply B3.
      * unfold ready; simpl; apply Permutation_refl.
      * exact Hburst.
      * intros q _ Hin. exact Hin.
  - set (h := store (threads k) p t).
    assert (Hother : forall q, q <> p -> h q = threads k q)
      by (intros q Hq; now apply store_other).
    assert (Hsame : h p = t) by apply store_same.
    split; [|split; [|split]].
    + split; [exact Hnd|]. split; [|split]; simpl; intros q Hq.
      * rewrite Hother by (intros ->; contradiction). now apply B1.
      * destruct (Nat.eq_dec q p) as [->|Hne]; [|rewrite Hother by exact Hne; now apply B2].
        rewrite Hsame. apply WhichQueue_band. lia.
      * rewrite Hother by (intros ->; contradiction). now apply B3.
    + unfold ready; simpl; apply Permutation_refl.
    + intros q. simpl. destruct (Nat.eq_dec q p) as [->|Hne];
        [rewrite Hsame; exact Htb | now rewrite Hother].
    + intros q _ Hin. exact Hin.
Qed.

Lemma aging_L3_step p k :
  queues_ok k -> priorities_fit k -> In p (L3 k) ->
  queues_ok (aging_L3 p k)
  /\ Permutation (ready (aging_L3 p k)) (ready k)
  /\ (forall q, remain_burst (threads (aging_L3 p k) q) = remain_burst (threads k q))
  /\ (forall q, q <> p -> In q (L3 k) -> In q (L3 (aging_L3 p k))).
Proof.
  intros (Hnd & B1 & B2 & B3) Hfit Hp.
  destruct (Hfit p ltac:(unfold ready; apply in_or_app; right; apply in_or_app; now right))
    as [Hfp Hfp10].
  pose proof (NoDup_app_remove_r _ _ Hnd) as Hn1.
  pose proof (NoDup_app_remove_l _ _ Hnd) as Hn23.
  pose proof (NoDup_app_remove_l _ _ Hn23) as Hn3.
  assert (Hp1 : ~ In p (L1 k)).
  { intros H. apply (NoDup_app_disjoint _ _ Hnd p H). apply in_or_app. now right. }
  assert (Hp2 : ~ In p (L2 k)).
  { intros H. apply (NoDup_app_disjoint _ _ Hn23 p H Hp). }
  pose proof (B3 p Hp) as Hband. apply WhichQueue_band in Hband.
  unfold aging_L3.
  set (t := set_total_ready_time (threads k p) (waited (totalTicks k) (threads k p))).
  assert (Ht : priority t = priority (threads k p) /\ remain_burst t = remain_burst (threads k p))
    by (split; reflexivity).
  destruct Ht as [Htp Htb].
  destruct (total_ready_time t >=? 1500).
  - assert (Hap : priority (age_L23 t) = priority (threads k p) + 10)
      by (apply (age_L23_priority t); exact Hfp10).
    assert (Hab : remain_burst (age_L23 t) = remain_burst (threads k p)) by reflexivity.
    set (h := store (threads k) p (age_L23 t)).
    assert (Hother : forall q, q <> p -> h q = threads k q)
      by (intros q Hq; now apply store_other).
    assert (Hsame : h p = age_L23 t) by apply store_same.
    assert (Hburst : forall q, remain_burst (h q) = remain_burst (threads k q)).
    { intros q. unfold h, store. destruct (Nat.eqb_spec q p) as [->|_]; auto. }
    destruct (Z.geb_spec (priority (age_L23 t)) 50) as [Hup|Hstay].
    + split; [|split; [|split]].
      * split; [|split; [|split]]; simpl.
        -- unfold ready. simpl.
           apply (Permutation_NoDup (l := ready k)); [|exact Hnd].
           symmetry. now apply ready_move_mid.
        -- intros q Hq. rewrite Hother by (intros ->; contradiction). now apply B1.
        -- intros q Hq. apply In_Insert in Hq. destruct Hq as [->|Hq].
           ++ rewrite Hsame. apply WhichQueue_band. lia.
           ++ rewrite Hother by (intros ->; contradiction). now apply B2.
        -- intros q Hq.
           destruct (NoDup_Remove p (L3 k) Hn3) as [_ Hgone].
           rewrite Hother by (intros ->; contradiction).
           apply B3. eapply In_Remove_incl; eauto.
      * unfold ready. simpl. now apply ready_move_mid.
      * exact Hburst.
      * intros q Hq Hin. simpl. now apply In_Remove_other.
    + split; [|split; [|split]].
      * split; [exact Hnd|]. split; [|split]; simpl; intros q Hq.
        -- rewrite Hother by (intros ->; contradiction). now apply B1.
        -- rewrite Hother by (intros ->; contradiction). now apply B2.
        -- destruct (Nat.eq_dec q p) as [->|Hne]; [|rewrite Hother by exact Hne; now apply B3].
           rewrite Hsame. apply WhichQueue_band. lia.
      * unfold ready; simpl; apply Permutation_refl.
      * exact Hburst.
      * intros q _ Hin. exact Hin.
  - set (h := store (threads k) p t).
    assert (Hother : forall q, q <> p -> h q = threads k q)
      by (intros q Hq; now apply store_other).
    assert (Hsame : h p = t) by apply store_same.
    split; [|split; [|split]].
    + split; [exact Hnd|]. split; [|split]; simpl; intros q Hq.
      * rewrite Hother by (intros ->; contradiction). now apply B1.
      * rewrite Hother by (intros ->; contradiction). now apply B2.
      * destruct (Nat.eq_dec q p) as [->|Hne]; [|rewrite Hother by exact Hne; now apply B3].
        rewrite Hsame. apply WhichQueue_band. lia.
    + unfold ready; simpl; apply Permutation_refl.
    + intros q. simpl. destruct (Nat.eq_dec q p) as [->|Hne];
        [rewrite Hsame; exact Htb | now rewrite Hother].
    + intros q _ Hin. exact Hin.
Qed.

(** The threads after the body of the L2 loop and of the L3 loop. *)
Lemma aging_L2_thread p k q :
  threads (aging_L2 p k) q
  = if Nat.eqb q p then aged_L23 (totalTicks k) (threads k p) else threads k q.
Proof.
  unfold aging_L2, aged_L23.
  destruct (_ >=? 1500); [destruct (_ >=? 100)|]; reflexivity.
Qed.

Lemma aging_L3_thread p k q :
  threads (aging_L3 p k) q
  = if Nat.eqb q p then aged_L23 (totalTicks k) (threads k p) else threads k q.
Proof.
  unfold aging_L3, aged_L23.
  destruct (_ >=? 1500); [destruct (_ >=? 50)|]; reflexivity.
Qed.

Lemma aged_L23_fits now t :
  fits_int (priority t) -> fits_int (priority t + 10) -> priority t < 100 ->
  fits_int (priority (aged_L23 now t)) /\ fits_int (priority (aged_L23 now t) + 10).
Proof.
  intros H H10 Hband. unfold aged_L23.
  destruct (_ >=? 1500); [|split; assumption].
  rewrite age_L23_priority by exact H10. simpl.
  unfold fits_int, two31 in *. lia.
Qed.

Lemma aging_L2_fit p k :
  queues_ok k -> priorities_fit k -> In p (L2 k) -> priorities_fit (aging_L2 p k).
Proof.
  intros Hok Hfit Hp.
  destruct (aging_L2_step p k Hok Hfit Hp) as (_ & Hperm & _).
  apply (fit_elsewhere k (aging_L2 p k) p Hfit Hperm).
  - intros q Hq. rewrite aging_L2_thread. apply Nat.eqb_neq in Hq. now rewrite Hq.
  - rewrite aging_L2_thread, Nat.eqb_refl.
    destruct (Hfit p ltac:(unfold ready; apply in_or_app; right; apply in_or_app; now left))
      as [Hf Hf10].
    apply aged_L23_fits; [exact Hf | exact Hf10 |].
    destruct Hok as (_ & _ & B2 & _). specialize (B2 p Hp).
    apply WhichQueue_band in B2. lia.
Qed.

Lemma aging_L3_fit p k :
  queues_ok k -> priorities_fit k -> In p (L3 k) -> priorities_fit (aging_L3 p k).
Proof.
  intros Hok Hfit Hp.
  destruct (aging_L3_step p k Hok Hfit Hp) as (_ & Hperm & _).
  apply (fit_elsewhere k (aging_L3 p k) p Hfit Hperm).
  - intros q Hq. rewrite aging_L3_thread. apply Nat.eqb_neq in Hq. now rewrite Hq.
  - rewrite aging_L3_thread, Nat.eqb_refl.
    destruct (Hfit p ltac:(unfold ready; apply in_or_app; right; apply in_or_app; now right))
      as [Hf Hf10].
    apply aged_L23_fits; [exact Hf | exact Hf10 |].
    destruct Hok as (_ & _ & _ & B3). specialize (B3 p Hp).
    apply WhichQueue_band in B3. lia.
Qed.

Section Walk.

(** A loop of [Aging] over the queue [src]: each body keeps what holds
    of the queues, [state], and every other thread of [src] in [src]. *)
Variable body : ptr -> Kernel -> Kernel.
Variable src : Kernel -> list ptr.
Variable state : Kernel -> Prop.

Hypothesis step : forall p k,
  state k -> In p (src k) ->
  state (body p k)
  /\ Permutation (ready (body p k)) (ready k)
  /\ (forall q, remain_burst (threads (body p k) q) = remain_burst (threads k q))
  /\ (forall q, q <> p -> In q (src k) -> In q (src (body p k))).

Lemma walk_keeps its : forall k,
  NoDup its -> (forall p, In p its -> In p (src k)) -> state k ->
  state (walk body its k)
  /\ Permutation (ready (walk body its k)) (ready k)
  /\ (forall q, remain_burst (threads (walk body its k) q) = remain_burst (threads k q)).
Proof.
  induction its as [|p rest IH]; intros k Hnd Hin Hok; simpl.
  - auto.
  - inversion Hnd as [|? ? Hp Hrest]; subst.
    destruct (step p k Hok (Hin p (or_introl eq_refl))) as (Hok' & Hperm & Hb & Hkeep).
    destruct (IH (body p k) Hrest) as (Hok2 & Hperm2 & Hb2); [|exact Hok'|].
    + intros q Hq. apply Hkeep; [intros ->; contradiction | apply Hin; now right].
    + split; [exact Hok2|]. split; [now rewrite Hperm2|].
      intros q. now rewrite Hb2.
Qed.

End Walk.

(** The order of L1 through the loops, whatever the state of the
    queues. *)
Lemma aging_bodies_sorted p k :
  shortest_first (threads k) (L1 k) ->
  shortest_first (threads (aging_L1 p k)) (L1 (aging_L1 p k))
  /\ shortest_first (threads (aging_L2 p k)) (L1 (aging_L2 p k))
  /\ shortest_first (threads (aging_L3 p k)) (L1 (aging_L3 p k)).
Proof.
  intros Hs.
  assert (Hst : forall t', remain_burst t' = remain_burst (threads k p) ->
            forall q, remain_burst (store (threads k) p t' q) = remain_burst (threads k q)).
  { intros t' Ht q. unfold store. destruct (Nat.eqb_spec q p) as [->|_]; auto. }
  split; [|split].
  - unfold aging_L1. simpl.
    apply (shortest_first_ext (threads k)); [|exact Hs].
    intros q _. apply Hst. destruct (_ >=? 1500); reflexivity.
  - unfold aging_L2.
    destruct (_ >=? 1500); [destruct (_ >=? 100)|]; simpl.
    + apply Insert_shortest_first.
      apply (shortest_first_ext (threads k)); [|exact Hs]. intros q _. now apply Hst.
    + apply (shortest_first_ext (threads k)); [|exact Hs]. intros q _. now apply Hst.
    + apply (shortest_first_ext (threads k)); [|exact Hs]. intros q _. now apply Hst.
  - unfold aging_L3.
    destruct (_ >=? 1500); [destruct (_ >=? 50)|]; simpl;
      (apply (shortest_first_ext (threads k)); [|exact Hs]; intros q _; now apply Hst).
Qed.

Lemma walk_sorted (body : ptr -> Kernel -> Kernel) its :
  (forall p k, shortest_first (threads k) (L1 k) ->
               shortest_first (threads (body p k)) (L1 (body p k))) ->
  forall k, shortest_first (threads k) (L1 k) ->
            shortest_first (threads (walk body its k)) (L1 (walk body its k)).
Proof.
  intros Hbody. induction its as [|p rest IH]; intros k Hs; simpl; auto.
Qed.

Lemma walk_fixed (body : ptr -> Kernel -> Kernel) its :
  (forall p k, totalTicks (body p k) = totalTicks k
               /\ currentThread (body p k) = currentThread k
               /\ intOff (body p k) = intOff k) ->
  forall k, totalTicks (walk body its k) = totalTicks k
            /\ currentThread (walk body its k) = currentThread k
            /\ intOff (walk body its k) = intOff k.
Proof.
  intros Hbody. induction its as [|p rest IH]; intros k; simpl; [auto|].
  destruct (IH (body p k)) as (-> & -> & ->). apply Hbody.
Qed.

(** [Aging] keeps the ready queues in order.  On queues that hold no
    thread twice and each thread in the queue of its priority band,
    where the priority of every waiting thread and that priority plus
    10 are within the range of an [int], one call of [Aging] loses no
    thread and adds none, leaves no thread twice in the queues, and
    leaves each thread in the queue of the band of its new priority; it
    changes no [remain_burst]; an L1 that is in the order of
    [remain_burst] stays so, the threads promoted from L2 included; and
    the priorities are within that range still. *)
Theorem Aging_keeps_ready_queues (k : Kernel) :
  queues_ok k ->
  priorities_fit k ->
  queues_ok (Aging k)
  /\ Permutation (ready (Aging k)) (ready k)
  /\ (forall p, remain_burst (threads (Aging k) p) = remain_burst (threads k p))
  /\ (shortest_first (threads k) (L1 k) ->
      shortest_first (threads (Aging k)) (L1 (Aging k)))
  /\ totalTicks (Aging k) = totalTicks k
  /\ currentThread (Aging k) = currentThread k
  /\ priorities_fit (Aging k).
Proof.
  intros Hok Hfit. unfold Aging.
  set (state := fun k0 => queues_ok k0 /\ priorities_fit k0).
  assert (Hnd : NoDup (ready k)) by apply Hok.
  pose proof (NoDup_app_remove_r _ _ Hnd) as Hn1.
  destruct (walk_keeps aging_L1 L1 state) with (its := L1 k) (k := k)
    as ([Hok1 Hfit1] & Hp1 & Hb1); [| exact Hn1 | auto | split; assumption |].
  { intros p k0 [H0 F0] Hp. destruct (aging_L1_step p k0 H0 F0 Hp) as (A & F & B & C & D).
    split; [split; assumption|]. split; [now rewrite B|]. split; [exact D|].
    intros q _ Hq. now rewrite C. }
  set (k1 := walk aging_L1 (L1 k) k) in *.
  assert (Hnd1 : NoDup (ready k1)) by apply Hok1.
  pose proof (NoDup_app_remove_r _ _ (NoDup_app_remove_l _ _ Hnd1)) as Hn2.
  destruct (walk_keeps aging_L2 L2 state) with (its := L2 k1) (k := k1)
    as ([Hok2 Hfit2] & Hp2 & Hb2); [| exact Hn2 | auto | split; assumption |].
  { intros p k0 [H0 F0] Hp. destruct (aging_L2_step p k0 H0 F0 Hp) as (A & B & C & D).
    split; [split; [exact A | now apply aging_L2_fit]|].
    split; [exact B|]. split; [exact C | exact D]. }
  set (k2 := walk aging_L2 (L2 k1) k1) in *.
  assert (Hnd2 : NoDup (ready k2)) by apply Hok2.
  pose proof (NoDup_app_remove_l _ _ (NoDup_app_remove_l _ _ Hnd2)) as Hn3.
  destruct (walk_keeps aging_L3 L3 state) with (its := L3 k2) (k := k2)
    as ([Hok3 Hfit3] & Hp3 & Hb3); [| exact Hn3 | auto | split; assumption |].
  { intros p k0 [H0 F0] Hp. destruct (aging_L3_step p k0 H0 F0 Hp) as (A & B & C & D).
    split; [split; [exact A | now apply aging_L3_fit]|].
    split; [exact B|]. split; [exact C | exact D]. }
  split; [exact Hok3|].
  split; [now rewrite Hp3, Hp2|].
  split; [intros p; now rewrite Hb3, Hb2|].
  split.
  - intros Hs.
    apply walk_sorted; [intros p k0 H0; now apply aging_bodies_sorted|].
    apply walk_sorted; [intros p k0 H0; now apply aging_bodies_sorted|].
    apply walk_sorted; [intros p k0 H0; now apply aging_bodies_sorted | exact Hs].
  - assert (F1 : forall p k0, totalTicks (aging_L1 p k0) = totalTicks k0
               /\ currentThread (aging_L1 p k0) = currentThread k0
               /\ intOff (aging_L1 p k0) = intOff k0) by (intros; repeat split).
    assert (F2 : forall p k0, totalTicks (aging_L2 p k0) = totalTicks k0
               /\ currentThread (aging_L2 p k0) = currentThread k0
               /\ intOff (aging_L2 p k0) = intOff k0).
    { intros p k0. unfold aging_L2. repeat destruct (_ >=? _); repeat split. }
    assert (F3 : forall p k0, totalTicks (aging_L3 p k0) = totalTicks k0
               /\ currentThread (aging_L3 p k0) = currentThread k0
               /\ intOff (aging_L3 p k0) = intOff k0).
    { intros p k0. unfold aging_L3. repeat destruct (_ >=? _); repeat split. }
    destruct (walk_fixed aging_L3 (L3 k2) F3 k2) as (E3 & E3' & _).
    destruct (walk_fixed aging_L2 (L2 k1) F2 k1) as (E2 & E2' & _).
    destruct (walk_fixed aging_L1 (L1 k) F1 k) as (E1 & E1' & _).
    fold k1 in E1, E1'. fold k2 in E2, E2'.
    split; [congruence|]. split; [congruence | exact Hfit3].
Qed.

(** What one call of [PutToReady] does to the queues. *)
Lemma PutToReady_run (k : Kernel) (thread : ptr) :
  intOff k = true ->
  ~ In thread (ready k) ->
  queues_ok k ->
  exists k',
    PutToReady k thread = Ok k'
    /\ queues_ok k'
    /\ Permutation (ready k') (thread :: ready k)
    /\ status (threads k' thread) = READY
    /\ insert_ready_time (threads k' thread) = totalTicks k
    /\ priority (threads k' thread) = priority (threads k thread)
    /\ remain_burst (threads k' thread)
       = match status (threads k thread) with
         | BLOCKED => approx_burst (threads k thread)
         | _ => remain_burst (threads k thread)
         end
    /\ (forall q, q <> thread -> threads k' q = threads k q)
    /\ (shortest_first (threads k) (L1 k) -> shortest_first (threads k') (L1 k'))
    /\ (highest_first (threads k) (L2 k) -> highest_first (threads k') (L2 k'))
    /\ (WhichQueue (threads k thread) = 3 -> L3 k' = L3 k ++ [thread]).
Proof.
  intros Hoff Hnew (Hnd & B1 & B2 & B3).
  unfold PutToReady. rewrite Hoff. cbn [assert bind].
  set (t0 := threads k thread).
  set (t1 := match status t0 with
             | BLOCKED => set_true_burst (set_remain_burst t0 (approx_burst t0)) 0
             | _ => t0
             end).
  set (t2 := StartReady (totalTicks k) (set_status t1 READY)).
  set (h := store (threads k) thread t2).
  assert (Hp1 : priority t1 = priority t0) by (unfold t1; destruct (status t0); reflexivity).
  assert (Hp2 : priority t2 = priority t0) by (unfold t2; simpl; exact Hp1).
  assert (Hq2 : WhichQueue t2 = WhichQueue t0) by (unfold WhichQueue; now rewrite Hp2).
  assert (Hsame : h thread = t2) by apply store_same.
  assert (Hother : forall q, q <> thread -> h q = threads k q)
    by (intros q Hq; now apply store_other).
  assert (Hin : forall q, In q (ready k) -> q <> thread) by (intros q Hq ->; contradiction).
  assert (Hin1 : forall q, In q (L1 k) -> q <> thread).
  { intros q Hq. apply Hin. unfold ready. apply in_or_app. now left. }
  assert (Hin2 : forall q, In q (L2 k) -> q <> thread).
  { intros q Hq. apply Hin. unfold ready. apply in_or_app. right.
    apply in_or_app. now left. }
  assert (Hin3 : forall q, In q (L3 k) -> q <> thread).
  { intros q Hq. apply Hin. unfold ready. apply in_or_app. right.
    apply in_or_app. now right. }
  assert (Hs1 : shortest_first (threads k) (L1 k) -> shortest_first h (L1 k)).
  { apply shortest_first_ext. intros q Hq. now rewrite Hother by auto. }
  assert (Hs2 : highest_first (threads k) (L2 k) -> highest_first h (L2 k)).
  { apply highest_first_ext. intros q Hq. now rewrite Hother by auto. }
  assert (Hb1 : forall q, In q (L1 k) -> WhichQueue (h q) = 1)
    by (intros q Hq; rewrite Hother by auto; now apply B1).
  assert (Hb2 : forall q, In q (L2 k) -> WhichQueue (h q) = 2)
    by (intros q Hq; rewrite Hother by auto; now apply B2).
  assert (Hb3 : forall q, In q (L3 k) -> WhichQueue (h q) = 3)
    by (intros q Hq; rewrite Hother by auto; now apply B3).
  assert (Hfields : status t2 = READY /\ insert_ready_time t2 = totalTicks k
                    /\ remain_burst t2 = match status t0 with
                                         | BLOCKED => approx_burst t0
                                         | _ => remain_burst t0
                                         end).
  { unfold t2, t1. simpl. destruct (status t0); repeat split. }
  destruct Hfields as (Hst & Hirt & Hrb).
  eexists. split; [reflexivity|]. cbn [threads L1 L2 L3].
  rewrite Hsame.
  assert (Hcases : WhichQueue t2 = 1 \/ WhichQueue t2 = 2 \/ WhichQueue t2 = 3).
  { unfold WhichQueue. repeat destruct (_ >=? _); auto. }
  assert (Hmain :
    queues_ok (mkKernel h
      (if WhichQueue t2 =? 1 then Insert (comp_L1 h) thread (L1 k) else L1 k)
      (if WhichQueue t2 =? 2 then Insert (comp_L2 h) thread (L2 k) else L2 k)
      (if WhichQueue t2 =? 3 then Append thread (L3 k) else L3 k)
      (currentThread k) (totalTicks k) (intOff k))
    /\ Permutation
         (ready (mkKernel h
            (if WhichQueue t2 =? 1 then Insert (comp_L1 h) thread (L1 k) else L1 k)
            (if WhichQueue t2 =? 2 then Insert (comp_L2 h) thread (L2 k) else L2 k)
            (if WhichQueue t2 =? 3 then Append thread (L3 k) else L3 k)
            (currentThread k) (totalTicks k) (intOff k)))
         (thread :: ready k)).
  { assert (Hperm : Permutation
         (ready (mkKernel h
            (if WhichQueue t2 =? 1 then Insert (comp_L1 h) thread (L1 k) else L1 k)
            (if WhichQueue t2 =? 2 then Insert (comp_L2 h) thread (L2 k) else L2 k)
            (if WhichQueue t2 =? 3 then Append thread (L3 k) else L3 k)
            (currentThread k) (totalTicks k) (intOff k)))
         (thread :: ready k)).
    { unfold ready. cbn [L1 L2 L3].
      destruct Hcases as [E|[E|E]]; rewrite E; simpl Z.eqb; cbv iota.
      - rewrite Insert_perm. reflexivity.
      - rewrite Insert_perm. simpl. symmetry. apply Permutation_middle.
      - unfold Append. rewrite !app_assoc. rewrite <- Permutation_cons_append. reflexivity. }
    split; [|exact Hperm].
    split; [|split; [|split]]; cbn [threads L1 L2 L3].
    - apply (Permutation_NoDup (l := thread :: ready k)); [now symmetry|].
      constructor; assumption.
    - intros q Hq. destruct (WhichQueue t2 =? 1) eqn:E; [|now apply Hb1].
      apply In_Insert in Hq. destruct Hq as [->|Hq]; [|now apply Hb1].
      rewrite Hsame. now apply Z.eqb_eq.
    - intros q Hq. destruct (WhichQueue t2 =? 2) eqn:E; [|now apply Hb2].
      apply In_Insert in Hq. destruct Hq as [->|Hq]; [|now apply Hb2].
      rewrite Hsame. now apply Z.eqb_eq.
    - intros q Hq. destruct (WhichQueue t2 =? 3) eqn:E; [|now apply Hb3].
      unfold Append in Hq. apply in_app_or in Hq. destruct Hq as [Hq|[<-|[]]];
        [now apply Hb3|].
      rewrite Hsame. now apply Z.eqb_eq. }
  destruct Hmain as [Hok' Hperm'].
  split; [exact Hok'|]. split; [exact Hperm'|].
  split; [exact Hst|]. split; [exact Hirt|]. split; [exact Hp2|]. split; [exact Hrb|].
  split; [exact Hother|]. split; [|split].
  - intros Hs. destruct (WhichQueue t2 =? 1); [|now apply Hs1].
    apply Insert_shortest_first. now apply Hs1.
  - intros Hs. destruct (WhichQueue t2 =? 2); [|now apply Hs2].
    apply Insert_highest_first. now apply Hs2.
  - intros E. rewrite Hq2. fold t0 in E. rewrite E. reflexivity.
Qed.

(** [PutToReady] keeps the ready queues in order.  With interrupts off,
    for a thread that waits in no queue, on queues that hold no thread
    twice and each thread in the queue of its band: the call returns;
    the thread is now [READY], its [insert_ready_time] is the current
    tick, its priority is unchanged, and a thread that was [BLOCKED]
    starts with [remain_burst = approx_burst]; no other thread is
    touched; the queues hold the threads of before and this one, none
    twice, each in the queue of its band; an L1 in the order of
    [remain_burst] and an L2 in the order of [priority] stay so; and a
    thread of band 3 goes to the back of L3. *)
Theorem PutToReady_keeps_ready_queues (k : Kernel) (thread : ptr) :
  intOff k = true ->
  ~ In thread (ready k) ->
  queues_ok k ->
  exists k',
    PutToReady k thread = Ok k'
    /\ queues_ok k'
    /\ Permutation (ready k') (thread :: ready k)
    /\ status (threads k' thread) = READY
    /\ insert_ready_time (threads k' thread) = totalTicks k
    /\ priority (threads k' thread) = priority (threads k thread)
    /\ remain_burst (threads k' thread)
       = match status (threads k thread) with
         | BLOCKED => approx_burst (threads k thread)
         | _ => remain_burst (threads k thread)
         end
    /\ (forall q, q <> thread -> threads k' q = threads k q)
    /\ (shortest_first (threads k) (L1 k) -> shortest_first (threads k') (L1 k'))
    /\ (highest_first (threads k) (L2 k) -> highest_first (threads k') (L2 k'))
    /\ (WhichQueue (threads k thread) = 3 -> L3 k' = L3 k ++ [thread]).
Proof.
  intros Hoff Hnew Hok. exact (PutToReady_run k thread Hoff Hnew Hok).
Qed.

(** [ScheduleNext] runs the shortest job first.  With interrupts off, on
    queues that hold no thread twice and each thread in the queue of its
    band, with L1 in the order of [remain_burst]: the call returns and
    keeps all this; it touches no thread; a thread it returns has left
    the queues and no other has; when L1 is not empty the thread returned
    is one of L1 with the least [remain_burst] of L1; when L1 is empty and
    L2 is not, and L2 is in the order of [priority], the thread returned
    is one of L2 with the highest priority of L2; and it returns [NULL]
    only when no thread waits. *)
Theorem ScheduleNext_shortest_first (k : Kernel) :
  intOff k = true ->
  queues_ok k ->
  shortest_first (threads k) (L1 k) ->
  exists r k',
    ScheduleNext k = Ok (r, k')
    /\ queues_ok k'
    /\ shortest_first (threads k') (L1 k')
    /\ threads k' = threads k
    /\ match r with
       | Some t =>
           Permutation (ready k) (t :: ready k')
           /\ (L1 k <> [] ->
               In t (L1 k)
               /\ forall q, In q (L1 k) ->
                    remain_burst (threads k t) <= remain_burst (threads k q))
           /\ (L1 k = [] -> L2 k <> [] -> highest_first (threads k) (L2 k) ->
               In t (L2 k)
               /\ forall q, In q (L2 k) ->
                    priority (threads k q) <= priority (threads k t))
       | None => ready k = [] /\ k' = k
       end.
Proof.
  intros Hoff (Hnd & B1 & B2 & B3) Hs.
  unfold ScheduleNext. rewrite Hoff. cbn [assert bind].
  unfold ready in *.
  destruct (L1 k) as [|t r] eqn:E1.
  - destruct (L2 k) as [|t r] eqn:E2.
    + destruct (L3 k) as [|t r] eqn:E3.
      * exists None, k. split; [reflexivity|].
        split; [unfold queues_ok, ready; rewrite ?E1, ?E2, ?E3; auto|].
        split; [rewrite ?E1; constructor|]. split; [reflexivity|]. simpl. auto.
      * eexists (Some t), _. split; [reflexivity|]. cbn [threads L1 L2 L3].
        split.
        { split; [|split; [|split]]; cbn [threads L1 L2 L3 ready]; simpl in *.
          - now inversion Hnd.
          - intros q [].
          - intros q [].
          - intros q Hq. apply B3. now right. }
        split; [constructor|]. split; [reflexivity|].
        split; [simpl; reflexivity|].
        split; [congruence|]. intros _ Hne. congruence.
    + eexists (Some t), _. split; [reflexivity|]. cbn [threads L1 L2 L3].
      split.
      { split; [|split; [|split]]; cbn [threads L1 L2 L3 ready]; simpl in *.
        - now inversion Hnd.
        - intros q [].
        - intros q Hq. apply B2. now right.
        - exact B3. }
      split; [constructor|]. split; [reflexivity|].
      split; [simpl; reflexivity|].
      split; [congruence|]. intros _ _ Hh. split; [now left|].
      apply sorted_tail in Hh. destruct Hh as [_ Hall].
      rewrite Forall_forall in Hall.
      intros q [<-|Hq]; [lia | now apply Hall].
  - eexists (Some t), _. split; [reflexivity|]. cbn [threads L1 L2 L3].
    apply sorted_tail in Hs. destruct Hs as [Hs' Hall].
    split.
    { split; [|split; [|split]]; cbn [threads L1 L2 L3 ready]; simpl in *.
      - now inversion Hnd.
      - intros q Hq. apply B1. now right.
      - exact B2.
      - exact B3. }
    split; [exact Hs'|]. split; [reflexivity|].
    split; [simpl; reflexivity|].
    split; [|intros H; discriminate].
    intros _. split; [now left|].
    rewrite Forall_forall in Hall.
    intros q [<-|Hq]; [lia | now apply Hall].
Qed.

(** [CheckPreempt] asks for a shorter job.  For a running thread of
    band 1, with L1 not empty and in the order of [remain_burst],
    [CheckPreempt] returns [true] exactly when some thread of L1 has a
    [remain_burst] strictly less than the running thread's. *)
Theorem CheckPreempt_shorter_job (k : Kernel) :
  WhichQueue (threads k (currentThread k)) = 1 ->
  L1 k <> [] ->
  shortest_first (threads k) (L1 k) ->
  exists b,
    CheckPreempt k = Some b
    /\ (b = true <->
        exists q, In q (L1 k)
                  /\ remain_burst (threads k q)
                     < remain_burst (threads k (currentThread k))).
Proof.
  intros Hband Hne Hs. unfold CheckPreempt. rewrite Hband. simpl Z.eqb. cbv iota.
  destruct (L1 k) as [|front rest]; [contradiction|].
  apply sorted_tail in Hs. destruct Hs as [_ Hall]. rewrite Forall_forall in Hall.
  destruct (Z.ltb_spec (remain_burst (threads k front))
              (remain_burst (threads k (currentThread k)))) as [Hlt|Hge].
  - exists true. split; [reflexivity|]. split; [|reflexivity].
    intros _. exists front. split; [now left | exact Hlt].
  - exists false. split; [reflexivity|]. split; [discriminate|].
    intros (q & [<-|Hq] & Hq'); [lia|].
    specialize (Hall q Hq). lia.
Qed.

(** *** Concrete kernels *)

Lemma busy_ok : queues_ok busy /\ shortest_first (threads busy) (L1 busy).
Proof.
  split.
  - split; [|split; [|split]].
    + unfold ready. simpl.
      repeat (constructor; [simpl; intuition discriminate|]). constructor.
    + intros p [<-|[<-|[]]]; reflexivity.
    + intros p [<-|[]]; reflexivity.
    + intros p [<-|[]]; reflexivity.
  - unfold shortest_first. simpl.
    repeat constructor; simpl; lia.
Qed.

Lemma waiting_ok :
  queues_ok waiting /\ priorities_fit waiting
  /\ shortest_first (threads waiting) (L1 waiting).
Proof.
  split; [|split].
  - split; [|split; [|split]].
    + unfold ready. simpl.
      repeat (constructor; [simpl; intuition discriminate|]). constructor.
    + intros p [<-|[]]; reflexivity.
    + intros p [<-|[]]; reflexivity.
    + intros p [<-|[]]; reflexivity.
  - intros p [<-|[<-|[<-|[]]]]; unfold fits_int, two31; simpl; lia.
  - unfold shortest_first. simpl. repeat constructor.
Qed.

(** The theorem at three threads that have each waited 1500 ticks: the
    thread of priority 145 stays in L1 with priority 149, the thread of
    priority 95 goes from L2 into L1, in front of the other because its
    burst is shorter, and the thread of priority 45 goes from L3 into
    L2. *)
Lemma Aging_keeps_ready_queues_witness :
  (queues_ok waiting /\ priorities_fit waiting
   /\ shortest_first (threads waiting) (L1 waiting))
  /\ queues_ok (Aging waiting)
  /\ Permutation (ready (Aging waiting)) (ready waiting)
  /\ shortest_first (threads (Aging waiting)) (L1 (Aging waiting))
  /\ L1 (Aging waiting) = [1%nat; 0%nat]
  /\ L2 (Aging waiting) = [2%nat]
  /\ L3 (Aging waiting) = []
  /\ map (fun p => priority (threads (Aging waiting) p)) [0%nat; 1%nat; 2%nat]
     = [149; 105; 55].
Proof.
  destruct waiting_ok as (Hok & Hfit & Hs). split; [tauto|].
  destruct (Aging_keeps_ready_queues waiting Hok Hfit) as (H1 & H2 & _ & H3 & _).
  split; [exact H1|]. split; [exact H2|]. split; [exact (H3 Hs)|].
  repeat split; vm_compute; reflexivity.
Defined.

Lemma PutToReady_keeps_ready_queues_witness :
  (intOff busy = true /\ ~ In 5%nat (ready busy) /\ queues_ok busy)
  /\ exists k',
       PutToReady busy 5%nat = Ok k'
       /\ queues_ok k'
       /\ Permutation (ready k') (5%nat :: ready busy).
Proof.
  destruct busy_ok as [Hok _].
  assert (Hnew : ~ In 5%nat (ready busy)) by (simpl; intuition discriminate).
  split; [split; [reflexivity | split; [exact Hnew | exact Hok]]|].
  destruct (PutToReady_keeps_ready_queues busy 5%nat eq_refl Hnew Hok)
    as (k' & Hrun & Hok' & Hperm & _).
  exists k'. split; [exact Hrun|]. split; [exact Hok' | exact Hperm].
Defined.

Lemma ScheduleNext_shortest_first_witness :
  (intOff busy = true /\ queues_ok busy /\ shortest_first (threads busy) (L1 busy))
  /\ exists r k',
       ScheduleNext busy = Ok (r, k')
       /\ queues_ok k'
       /\ shortest_first (threads k') (L1 k').
Proof.
  destruct busy_ok as [Hok Hs].
  split; [split; [reflexivity | split; [exact Hok | exact Hs]]|].
  destruct (ScheduleNext_shortest_first busy eq_refl Hok Hs)
    as (r & k' & Hrun & Hok' & Hs' & _).
  exists r, k'. split; [exact Hrun|]. split; [exact Hok' | exact Hs'].
Defined.

Lemma CheckPreempt_shorter_job_witness :
  (WhichQueue (threads busy (currentThread busy)) = 1
   /\ L1 busy <> [] /\ shortest_first (threads busy) (L1 busy))
  /\ exists b,
       CheckPreempt busy = Some b
       /\ (b = true <->
           exists q, In q (L1 busy)
                     /\ remain_burst (threads busy q)
                        < remain_burst (threads busy (currentThread busy))).
Proof.
  destruct busy_ok as [_ Hs].
  assert (Hne : L1 busy <> []) by discriminate.
  split; [split; [reflexivity | split; [exact Hne | exact Hs]]|].
  exact (CheckPreempt_shorter_job busy eq_refl Hne Hs).
Defined.

(** What [PutToReady] leaves alone. *)
Lemma PutToReady_fields k thread k' :
  PutToReady k thread = Ok k' ->
  intOff k' = intOff k
  /\ L3 k' = (if WhichQueue (threads k thread) =? 3 then L3 k ++ [thread] else L3 k)
  /\ forall p, priority (threads k' p) = priority (threads k p).
Proof.
  unfold PutToReady. destruct (intOff k) eqn:Hoff; simpl; [|discriminate].
  intros H. inversion H; subst k'. clear H. cbn [intOff L3 threads].
  set (t0 := threads k thread).
  assert (Hp : forall t1, priority (StartReady (totalTicks k) (set_status t1 READY))
                          = priority t1) by reflexivity.
  assert (Hp1 : priority (match status t0 with
                          | BLOCKED => set_true_burst (set_remain_burst t0 (approx_burst t0)) 0
                          | _ => t0
                          end) = priority t0)
    by (destruct (status t0); reflexivity).
  split; [reflexivity|]. split.
  - unfold WhichQueue. rewrite Hp, Hp1. reflexivity.
  - intros p. destruct (Nat.eq_dec p thread) as [->|Hne].
    + rewrite store_same, Hp, Hp1. reflexivity.
    + now rewrite store_other.
Qed.

(** [PutToReady] on each thread of a list in turn. *)
Lemma ready_all_run order : forall k,
  intOff k = true ->
  queues_ok k ->
  shortest_first (threads k) (L1 k) ->
  highest_first (threads k) (L2 k) ->
  NoDup order ->
  (forall p, In p order -> ~ In p (ready k)) ->
  exists k',
    ready_all order k = Ok k'
    /\ intOff k' = true
    /\ queues_ok k'
    /\ shortest_first (threads k') (L1 k')
    /\ highest_first (threads k') (L2 k')
    /\ Permutation (ready k') (order ++ ready k)
    /\ L3 k' = L3 k ++ filter (fun p => WhichQueue (threads k p) =? 3) order
    /\ (forall p, priority (threads k' p) = priority (threads k p)).
Proof.
  induction order as [|p rest IH]; intros k Hoff Hok Hs1 Hs2 Hnd Hnew.
  - exists k. simpl. rewrite app_nil_r. repeat split; auto; apply Hok.
  - inversion Hnd as [|? ? Hp Hnd']; subst.
    destruct (PutToReady_run k p Hoff (Hnew p (or_introl eq_refl)) Hok)
      as (k1 & Hrun & Hok1 & Hperm & _ & _ & _ & _ & _ & Hk1 & Hk2 & _).
    destruct (PutToReady_fields k p k1 Hrun) as (Hoff1 & HL3 & Hprio).
    destruct (IH k1) as (k' & Hrun' & Hoff' & Hok' & Hs1' & Hs2' & Hperm' & HL3' & Hprio').
    + congruence.
    + exact Hok1.
    + exact (Hk1 Hs1).
    + exact (Hk2 Hs2).
    + exact Hnd'.
    + intros q Hq Hin. apply (Permutation_in _ Hperm) in Hin.
      destruct Hin as [->|Hin]; [contradiction|].
      exact (Hnew q (or_intror Hq) Hin).
    + exists k'. simpl. rewrite Hrun. simpl.
      split; [exact Hrun'|]. split; [exact Hoff'|]. split; [exact Hok'|].
      split; [exact Hs1'|]. split; [exact Hs2'|]. split; [|split].
      * eapply Permutation_trans; [exact Hperm'|].
        eapply Permutation_trans; [apply Permutation_app_head; exact Hperm|].
        apply Permutation_sym. apply Permutation_middle.
      * rewrite HL3', HL3.
        assert (Hf : filter (fun q => WhichQueue (threads k1 q) =? 3) rest
                     = filter (fun q => WhichQueue (threads k q) =? 3) rest).
        { apply filter_ext. intros q. unfold WhichQueue. now rewrite Hprio. }
        rewrite Hf. destruct (WhichQueue (threads k p) =? 3).
        -- rewrite <- app_assoc. reflexivity.
        -- reflexivity.
      * intros q. now rewrite Hprio', Hprio.
Qed.

(** [ScheduleNext] called until the queues are empty. *)
Lemma drain_ready n : forall k,
  intOff k = true ->
  length (ready k) = n ->
  drain n k = Ok (map Some (ready k))
  /\ drain (S n) k = Ok (map Some (ready k) ++ [None]).
Proof.
  induction n as [|n IH]; intros k Hoff Hlen.
  - destruct k as [h l1 l2 l3 c t o]. unfold ready in *. simpl in *. subst o.
    destruct l1; [|discriminate]. destruct l2; [|discriminate].
    destruct l3; [|discriminate]. split; reflexivity.
  - destruct k as [h l1 l2 l3 c t o]. unfold ready in Hlen. simpl in *. subst o.
    assert (Hstep : exists x k2,
              ScheduleNext (mkKernel h l1 l2 l3 c t true) = Ok (Some x, k2)
              /\ intOff k2 = true
              /\ ready (mkKernel h l1 l2 l3 c t true) = x :: ready k2).
    { unfold ScheduleNext, ready. simpl.
      destruct l1 as [|x r1]; [|eexists _, _; repeat split].
      destruct l2 as [|x r2]; [|eexists _, _; repeat split].
      destruct l3 as [|x r3]; [discriminate|eexists _, _; repeat split]. }
    destruct Hstep as (x & k2 & Hrun & Hoff2 & Hready).
    assert (Hlen2 : length (ready k2) = n).
    { unfold ready in Hready. simpl in Hready. rewrite Hready in Hlen.
      simpl in Hlen. now inversion Hlen. }
    destruct (IH k2 Hoff2 Hlen2) as [Hd1 Hd2].
    rewrite Hready.
    split.
    + change (drain (S n) ?k) with
        (do r <- ScheduleNext k; do l <- drain n (snd r); Ok (fst r :: l)).
      rewrite Hrun. cbn [bind snd fst]. rewrite Hd1. reflexivity.
    + change (drain (S (S n)) ?k) with
        (do r <- ScheduleNext k; do l <- drain (S n) (snd r); Ok (fst r :: l)).
      rewrite Hrun. cbn [bind snd fst]. rewrite Hd2. reflexivity.
Qed.

(** The order in which threads made ready are run.  With interrupts
    off, on queues that hold no thread twice, each thread in the queue of
    its band, L1 in the order of [remain_burst] and L2 in the order of
    [priority]: when the distinct threads of [order], none of which
    waits, are made ready by [PutToReady] in turn, repeated calls of
    [ScheduleNext] return first the threads of band 1, the shortest
    [remain_burst] first, then the threads of band 2, the highest
    priority first, then the threads of band 3, those of [order] in the
    order in which they were made ready, behind the threads that waited
    in L3 before; each thread that was made ready or waited is returned
    once, and the next call returns [NULL]. *)
Theorem ready_threads_run_in_order (k : Kernel) (order : list ptr) :
  intOff k = true ->
  queues_ok k ->
  shortest_first (threads k) (L1 k) ->
  highest_first (threads k) (L2 k) ->
  NoDup order ->
  (forall p, In p order -> ~ In p (ready k)) ->
  exists k',
    ready_all order k = Ok k'
    /\ drain (S (length (ready k'))) k'
       = Ok (map Some (L1 k' ++ L2 k' ++ L3 k') ++ [None])
    /\ Permutation (L1 k' ++ L2 k' ++ L3 k') (order ++ ready k)
    /\ (forall p, In p (L1 k') -> 100 <= priority (threads k' p))
    /\ (forall p, In p (L2 k') -> 50 <= priority (threads k' p) < 100)
    /\ (forall p, In p (L3 k') -> priority (threads k' p) < 50)
    /\ shortest_first (threads k') (L1 k')
    /\ highest_first (threads k') (L2 k')
    /\ L3 k' = L3 k ++ filter (fun p => priority (threads k p) <? 50) order.
Proof.
  intros Hoff Hok Hs1 Hs2 Hnd Hnew.
  destruct (ready_all_run order k Hoff Hok Hs1 Hs2 Hnd Hnew)
    as (k' & Hrun & Hoff' & Hok' & Hs1' & Hs2' & Hperm & HL3 & Hprio).
  exists k'. split; [exact Hrun|].
  destruct (drain_ready (length (ready k')) k' Hoff' eq_refl) as [_ Hd].
  split; [exact Hd|]. split; [exact Hperm|].
  destruct Hok' as (_ & B1 & B2 & B3).
  split; [intros p Hp; exact (proj1 (proj1 (WhichQueue_band _)) (B1 p Hp))|].
  split; [intros p Hp; exact (proj1 (proj1 (proj2 (WhichQueue_band _))) (B2 p Hp))|].
  split; [intros p Hp; exact (proj1 (proj2 (proj2 (WhichQueue_band _))) (B3 p Hp))|].
  split; [exact Hs1'|]. split; [exact Hs2'|].
  rewrite HL3. f_equal. apply filter_ext. intros p.
  unfold WhichQueue.
  destruct (priority (threads k p) >=? 100) eqn:E1;
    destruct (priority (threads k p) >=? 50) eqn:E2;
    destruct (Z.ltb_spec (priority (threads k p)) 50); try reflexivity; lia.
Qed.

(** The theorem at the kernel [busy], for the two threads at the
    addresses 5 and 4, of band 1 with 40 ticks of burst left: they run
    behind the two threads of L1, in the order in which they were made
    ready, and before the threads of L2 and L3. *)
Lemma ready_threads_run_in_order_witness :
  (intOff busy = true
   /\ queues_ok busy
   /\ shortest_first (threads busy) (L1 busy)
   /\ highest_first (threads busy) (L2 busy)
   /\ NoDup [5%nat; 4%nat]
   /\ (forall p, In p [5%nat; 4%nat] -> ~ In p (ready busy)))
  /\ exists k',
       ready_all [5%nat; 4%nat] busy = Ok k'
       /\ drain 7 k'
          = Ok [Some 0%nat; Some 3%nat; Some 5%nat; Some 4%nat;
                Some 1%nat; Some 2%nat; None].
Proof.
  destruct busy_ok as [Hok Hs1].
  assert (Hs2 : highest_first (threads busy) (L2 busy))
    by (repeat constructor).
  assert (Hnd : NoDup [5%nat; 4%nat]).
  { constructor; [simpl; intros [H|[]]; discriminate|].
    constructor; [intros []|constructor]. }
  assert (Hnew : forall p, In p [5%nat; 4%nat] -> ~ In p (ready busy)).
  { intros p [<-|[<-|[]]] Hin; simpl in Hin;
      repeat (destruct Hin as [Hin|Hin]; [discriminate|]); exact Hin. }
  split.
  { split; [reflexivity|]. split; [exact Hok|]. split; [exact Hs1|].
    split; [exact Hs2|]. split; [exact Hnd | exact Hnew]. }
  destruct (ready_threads_run_in_order busy [5%nat; 4%nat] eq_refl Hok Hs1 Hs2 Hnd Hnew)
    as (k' & Hrun & Hd & _).
  exists k'. split; [exact Hrun|].
  vm_compute in Hrun. inversion Hrun; subst k'. exact Hd.
Defined.

End SchedFacts.

(** ** The file system *)

Module FSFacts.
Import FileSys.

Lemma formatted_ok :
  Format 128 30 blank_header 1024 1280 raw_disk no_directories = Ok formatted
  /\ NumClear (freeMapData formatted) = 1011.
Proof. split; vm_compute; reflexivity. Qed.

Lemma with_big_ok :
  Create 128 30 blank_header 9 formatted Paths.big 3841 = Ok (true, with_big).
Proof. vm_compute. reflexivity. Qed.

Lemma with_dir_ok :
  CreateSubDir 128 30 blank_header 9 1280 formatted Paths.dir = Ok (true, with_dir).
Proof. vm_compute. reflexivity. Qed.

(** *** Allocation *)

Section Depth.

Variables SectorSize NumDirect : Z.
Variable blank : FileHeader.
Hypothesis SectorSize_pos : 0 < SectorSize.
Hypothesis NumDirect_pos : 1 <= NumDirect.

Local Abbreviation L1 := (bytes_in_level1 SectorSize NumDirect).
Local Abbreviation L2 := (bytes_in_level2 SectorSize NumDirect).
Local Abbreviation L3 := (bytes_in_level3 SectorSize NumDirect).

Lemma levels_ordered : 0 < L1 /\ L1 <= L2 /\ L2 <= L3.
Proof. unfold bytes_in_level3, bytes_in_level2, bytes_in_level1. nia. Qed.

Lemma allocate_children_ext f g level slots : forall idx fileSize h freeMap disk,
  (forall h' freeMap' disk' size, size <= level ->
     f h' freeMap' disk' size = g h' freeMap' disk' size) ->
  allocate_children blank f level slots idx fileSize h freeMap disk
  = allocate_children blank g level slots idx fileSize h freeMap disk.
Proof.
  induction slots as [|slots IH]; intros idx fileSize h freeMap disk Hfg; simpl.
  - reflexivity.
  - destruct (fileSize >? 0); [|reflexivity].
    destruct (FindAndSet freeMap) as [s freeMap1].
    destruct (index_set (dataSectors h) idx s); simpl; [|reflexivity].
    destruct (assert (s >=? 0)); simpl; [|reflexivity].
    rewrite Hfg by (destruct (Z.geb_spec fileSize level); lia).
    destruct (g blank freeMap1 disk _) as [[[[b next_level] freeMap2] disk2]|];
      simpl; [|reflexivity].
    destruct (WriteBack disk2 s next_level); simpl; [|reflexivity].
    now apply IH.
Qed.

(** The nesting of [Allocate] is bounded by the levels of the size: any
    two bounds above it give the same run. *)
Lemma Allocate_rec_enough d1 : forall d2 h freeMap disk fileSize,
  (levels SectorSize NumDirect fileSize < d1)%nat ->
  (levels SectorSize NumDirect fileSize < d2)%nat ->
  Allocate_rec SectorSize NumDirect blank d1 h freeMap disk fileSize
  = Allocate_rec SectorSize NumDirect blank d2 h freeMap disk fileSize.
Proof.
  pose proof levels_ordered as (H1 & H12 & H23).
  induction d1 as [|d1 IH]; intros d2 h freeMap disk fileSize Hd1 Hd2; [lia|].
  destruct d2 as [|d2]; [lia|]. simpl.
  destruct (NumClear freeMap <? divRoundUp fileSize SectorSize); [reflexivity|].
  unfold levels in Hd1, Hd2.
  assert (Hext : forall level n, (n < d1)%nat -> (n < d2)%nat ->
    (forall size, size <= level -> (levels SectorSize NumDirect size <= n)%nat) ->
    forall h' fm' disk' size, size <= level ->
      Allocate_rec SectorSize NumDirect blank d1 h' fm' disk' size
      = Allocate_rec SectorSize NumDirect blank d2 h' fm' disk' size).
  { intros level n Hn1 Hn2 Hlv h' fm' disk' size Hsize.
    specialize (Hlv size Hsize). apply IH; lia. }
  destruct (Z.gtb_spec fileSize L3).
  - rewrite (allocate_children_ext (Allocate_rec SectorSize NumDirect blank d1)
               (Allocate_rec SectorSize NumDirect blank d2)); [reflexivity|].
    apply (Hext L3 2%nat); [lia | lia |].
    intros size Hs. unfold levels.
    destruct (Z.gtb_spec size L3); [lia|].
    destruct (size >? L2); [lia|]. destruct (size >? L1); lia.
  - destruct (Z.gtb_spec fileSize L2).
    + rewrite (allocate_children_ext (Allocate_rec SectorSize NumDirect blank d1)
                 (Allocate_rec SectorSize NumDirect blank d2)); [reflexivity|].
      apply (Hext L2 1%nat); [lia | lia |].
      intros size Hs. unfold levels.
      destruct (Z.gtb_spec size L3); [lia|].
      destruct (Z.gtb_spec size L2); [lia|]. destruct (size >? L1); lia.
    + destruct (Z.gtb_spec fileSize L1); [|reflexivity].
      rewrite (allocate_children_ext (Allocate_rec SectorSize NumDirect blank d1)
                 (Allocate_rec SectorSize NumDirect blank d2)); [reflexivity|].
      apply (Hext L1 0%nat); [lia | lia |].
      intros size Hs. unfold levels.
      destruct (Z.gtb_spec size L3); [lia|].
      destruct (Z.gtb_spec size L2); [lia|].
      destruct (Z.gtb_spec size L1); lia.
Qed.

(** Four nested calls are enough, whatever the size. *)
Lemma Allocate_depth d h freeMap disk fileSize :
  (4 <= d)%nat ->
  Allocate_rec SectorSize NumDirect blank d h freeMap disk fileSize
  = Allocate SectorSize NumDirect blank h freeMap disk fileSize.
Proof.
  intros Hd.
  assert (Hl : (levels SectorSize NumDirect fileSize < 4)%nat).
  { unfold levels. repeat destruct (_ >? _); lia. }
  unfold Allocate. apply Allocate_rec_enough; lia.
Qed.


Lemma index_set_stop {A} (l : list A) i a w :
  index_set l i a = Stop w -> w = OutOfBounds.
Proof.
  unfold index_set. destruct (i <? 0); [congruence|].
  destruct (list_set l (Z.to_nat i) a); congruence.
Qed.

Lemma allocate_children_fuel f level slots : forall idx fileSize h freeMap disk,
  (forall h' freeMap' disk' size, size <= level ->
     f h' freeMap' disk' size <> Stop OutOfFuel) ->
  allocate_children blank f level slots idx fileSize h freeMap disk <> Stop OutOfFuel.
Proof.
  induction slots as [|slots IH]; intros idx fileSize h freeMap disk Hf; simpl.
  - destruct (fileSize >? 0); discriminate.
  - destruct (fileSize >? 0); [|discriminate].
    destruct (FindAndSet freeMap) as [s freeMap1].
    destruct (index_set (dataSectors h) idx s) eqn:E; simpl.
    2:{ apply index_set_stop in E. subst. discriminate. }
    destruct (s >=? 0); simpl; [|discriminate].
    assert (Hsz : (if fileSize >=? level then level else fileSize) <= level)
      by (destruct (Z.geb_spec fileSize level); lia).
    pose proof (Hf blank freeMap1 disk _ Hsz) as Hchild.
    destruct (f blank freeMap1 disk _) as [[[[b next_level] freeMap2] disk2]|w];
      simpl; [|intros Hw; apply Hchild; congruence].
    unfold WriteBack.
    destruct (index_set disk2 s next_level) eqn:E2; simpl.
    2:{ apply index_set_stop in E2. subst. discriminate. }
    now apply IH.
Qed.

Lemma allocate_leaf_fuel n : forall i h freeMap,
  allocate_leaf n i h freeMap <> Stop OutOfFuel.
Proof.
  induction n as [|n IH]; intros i h freeMap; simpl; [discriminate|].
  destruct (FindAndSet freeMap) as [s freeMap1].
  destruct (index_set (dataSectors h) i s) eqn:E; simpl.
  2:{ apply index_set_stop in E. subst. discriminate. }
  destruct (s >=? 0); simpl; [apply IH | discriminate].
Qed.

(** With a bound above the levels of the size, the bound is never
    reached. *)
Lemma Allocate_rec_fuel d : forall h freeMap disk fileSize,
  (levels SectorSize NumDirect fileSize < d)%nat ->
  Allocate_rec SectorSize NumDirect blank d h freeMap disk fileSize <> Stop OutOfFuel.
Proof.
  pose proof levels_ordered as (H1 & H12 & H23).
  induction d as [|d IH]; intros h freeMap disk fileSize Hd; [lia|].
  simpl.
  destruct (NumClear freeMap <? divRoundUp fileSize SectorSize); [discriminate|].
  unfold levels in Hd.
  assert (Hch : forall level slots idx h0,
    (forall size, size <= level -> (levels SectorSize NumDirect size < d)%nat) ->
    (do r <- allocate_children blank (Allocate_rec SectorSize NumDirect blank d)
               level slots idx fileSize h0 freeMap disk;
     (let '(h1, freeMap1, disk1) := r in Ok (true, h1, freeMap1, disk1)))
    <> Stop OutOfFuel).
  { intros level slots idx h0 Hlv.
    pose proof (allocate_children_fuel (Allocate_rec SectorSize NumDirect blank d)
                  level slots idx fileSize h0 freeMap disk) as Hc.
    destruct (allocate_children _ _ _ _ _ _ _ _ _) as [[[h1 fm1] disk1]|w]; simpl.
    - discriminate.
    - intros Hw. apply Hc; [|congruence].
      intros h' fm' disk' size Hs. apply IH. now apply Hlv. }
  destruct (Z.gtb_spec fileSize L3).
  - apply Hch. intros size Hs. unfold levels.
    destruct (Z.gtb_spec size L3); [lia|].
    destruct (size >? L2); [lia|]. destruct (size >? L1); lia.
  - destruct (Z.gtb_spec fileSize L2).
    + apply Hch. intros size Hs. unfold levels.
      destruct (Z.gtb_spec size L3); [lia|].
      destruct (Z.gtb_spec size L2); [lia|]. destruct (size >? L1); lia.
    + destruct (Z.gtb_spec fileSize L1).
      * apply Hch. intros size Hs. unfold levels.
        destruct (Z.gtb_spec size L3); [lia|].
        destruct (Z.gtb_spec size L2); [lia|].
        destruct (Z.gtb_spec size L1); lia.
      * pose proof (allocate_leaf_fuel (Z.to_nat (divRoundUp fileSize SectorSize)) 0
                      (set_size h fileSize (divRoundUp fileSize SectorSize)) freeMap) as Hl.
        destruct (allocate_leaf _ _ _ _) as [[h1 fm1]|w]; simpl;
          [discriminate | intros Hw; apply Hl; congruence].
Qed.

(** [Allocate] terminates within its four levels: the run never ends
    for want of nesting depth. *)
Lemma Allocate_total h freeMap disk fileSize :
  Allocate SectorSize NumDirect blank h freeMap disk fileSize <> Stop OutOfFuel.
Proof.
  unfold Allocate. apply Allocate_rec_fuel.
  unfold levels. repeat destruct (_ >? _); lia.
Qed.

(** At a leaf header [ByteToSector] returns the entry of [dataSectors]
    for the sector the byte lies in. *)
Lemma ByteToSector_leaf fuel disk h offset s :
  numBytes h <= L1 ->
  0 <= offset ->
  nth_error (dataSectors h) (Z.to_nat (offset / SectorSize)) = Some s ->
  ByteToSector SectorSize NumDirect (S fuel) disk h offset = Ok (Some s).
Proof.
  pose proof levels_ordered as (H1 & H12 & H23).
  intros Hleaf Ho Hn. simpl.
  destruct (Z.gtb_spec (numBytes h) L3); [lia|].
  destruct (Z.gtb_spec (numBytes h) L2); [lia|].
  destruct (Z.gtb_spec (numBytes h) L1); [lia|].
  rewrite Z.quot_div_nonneg by lia. unfold index.
  destruct (Z.ltb_spec (offset / SectorSize) 0) as [Hneg|_].
  - pose proof (Z.div_pos offset SectorSize Ho SectorSize_pos). lia.
  - rewrite Hn. reflexivity.
Qed.

End Depth.

(** C6, at the failing input.  A file of 3841 bytes needs 31 data sectors
    and 2 indirect header sectors, 33 in all; the map has 32 free.  The
    pre-check compares [NumClear] with the 31 data sectors only, so
    [Allocate] goes on, sets every free bit and returns [TRUE]. *)
Theorem Allocate_accepts_without_room :
  sectors_needed 128 30 4 3841 = 33
  /\ NumClear tight_map = 32
  /\ exists h disk',
       Allocate 128 30 blank_header blank_header tight_map
         (repeat blank_header 132) 3841
       = Ok (true, h, repeat true 132, disk').
Proof.
  split; [reflexivity|]. split; [reflexivity|].
  do 2 eexists. vm_compute. reflexivity.
Qed.


(** What the pre-check does reject: fewer free sectors than data
    sectors.  Nothing is allocated then. *)
Lemma Allocate_precheck SectorSize NumDirect blank h freeMap disk fileSize :
  NumClear freeMap < divRoundUp fileSize SectorSize ->
  Allocate SectorSize NumDirect blank h freeMap disk fileSize
  = Ok (false, set_size h fileSize (divRoundUp fileSize SectorSize), freeMap, disk).
Proof.
  intros H. unfold Allocate. simpl.
  destruct (Z.ltb_spec (NumClear freeMap) (divRoundUp fileSize SectorSize));
    [reflexivity | lia].
Qed.

(** *** Byte to sector *)

Lemma ByteToSector_indirect SectorSize NumDirect fuel disk h offset s :
  bytes_in_level1 SectorSize NumDirect < numBytes h ->
  ByteToSector SectorSize NumDirect fuel disk h offset <> Ok (Some s).
Proof.
  intros H. destruct fuel as [|fuel]; simpl; [discriminate|].
  assert (Hd : forall level,
    (do s0 <- index (dataSectors h) (divRoundDown offset level);
     do next_level <- FetchFrom disk s0;
     do _ <- ByteToSector SectorSize NumDirect fuel disk next_level
               (offset - level * divRoundDown offset level);
     Ok None) <> Ok (Some s)).
  { intros level.
    destruct (index (dataSectors h) (divRoundDown offset level)); simpl; [|discriminate].
    destruct (FetchFrom disk a); simpl; [|discriminate].
    destruct (ByteToSector SectorSize NumDirect fuel disk a0 _); simpl; discriminate. }
  destruct (_ >? bytes_in_level3 _ _); [apply Hd|].
  destruct (_ >? bytes_in_level2 _ _); [apply Hd|].
  destruct (Z.gtb_spec (numBytes h) (bytes_in_level1 SectorSize NumDirect)); [apply Hd | lia].
Qed.

(** C7, at the failing input.  The header of the 3841-byte file is in
    sector 13 and is indirect; its first child, in sector 14, is a leaf
    whose first data sector is 15, so byte 0 of the file is in sector 15.
    [ByteToSector] on the leaf returns 15; on the file header it makes
    the recursive call and then leaves the function without a [return]. *)
Theorem ByteToSector_indirect_no_return :
  exists h child,
    FetchFrom (sectors with_big) 13 = Ok h
    /\ numBytes h = 3841
    /\ index (dataSectors h) 0 = Ok 14
    /\ FetchFrom (sectors with_big) 14 = Ok child
    /\ ByteToSector 128 30 4 (sectors with_big) child 0 = Ok (Some 15)
    /\ ByteToSector 128 30 4 (sectors with_big) h 0 = Ok None.
Proof.
  do 2 eexists.
  split; [vm_compute; reflexivity|].
  split; [reflexivity|].
  split; [reflexivity|].
  split; [vm_compute; reflexivity|].
  split; vm_compute; reflexivity.
Qed.

(** [ByteToSector_leaf] at a header of 300 bytes in three sectors. *)
Lemma ByteToSector_leaf_witness :
  (0 < 128 /\ 1 <= 30)
  /\ ByteToSector 128 30 1 [] (mkHdr 300 3 [21; 22; 23]) 299 = Ok (Some 23).
Proof.
  split; [lia|].
  apply (ByteToSector_leaf 128 30 ltac:(lia) ltac:(lia) 0 [] (mkHdr 300 3 [21; 22; 23]) 299 23).
  - vm_compute. discriminate.
  - lia.
  - reflexivity.
Defined.

(** [Allocate_precheck] at a map of 32 free sectors and a file of 33
    sectors. *)
Lemma Allocate_precheck_witness :
  NumClear tight_map < divRoundUp 4224 128
  /\ Allocate 128 30 blank_header blank_header tight_map [] 4224
     = Ok (false, mkHdr 4224 33 (repeat (-1) 30), tight_map, []).
Proof.
  assert (H : NumClear tight_map < divRoundUp 4224 128) by (vm_compute; reflexivity).
  split; [exact H|].
  apply (Allocate_precheck 128 30 blank_header blank_header tight_map [] 4224 H).
Defined.

(** *** Create and Remove *)

(** C8, at the failing input.  On the formatted disk, 1011 sectors are
    free.  [Create] of a 3841-byte file claims 34 of them: the file
    header, two indirect headers and 31 data sectors.  [Remove] frees 32:
    the two indirect header sectors, 14 and 45, stay marked. *)
Theorem Create_Remove_leaks_indirect_headers :
  exists fs1 fs2,
    Create 128 30 blank_header 9 formatted Paths.big 3841 = Ok (true, fs1)
    /\ Remove 128 30 9 4 fs1 Paths.big = Ok (true, fs2)
    /\ NumClear (freeMapData formatted) = 1011
    /\ NumClear (freeMapData fs1) = 977
    /\ NumClear (freeMapData fs2) = 1009
    /\ Test (freeMapData fs2) 14 = Ok true
    /\ Test (freeMapData fs2) 45 = Ok true.
Proof.
  do 2 eexists.
  split; [vm_compute; reflexivity|].
  split; [vm_compute; reflexivity|].
  repeat split; vm_compute; reflexivity.
Qed.

(** A file that fits a leaf header gives back all it took. *)
Lemma Create_Remove_small_file :
  exists fs1 fs2,
    Create 128 30 blank_header 9 formatted Paths.big 3840 = Ok (true, fs1)
    /\ Remove 128 30 9 4 fs1 Paths.big = Ok (true, fs2)
    /\ NumClear (freeMapData fs1) = 980
    /\ NumClear (freeMapData fs2) = NumClear (freeMapData formatted).
Proof.
  do 2 eexists.
  split; [vm_compute; reflexivity|].
  split; [vm_compute; reflexivity|].
  split; vm_compute; reflexivity.
Qed.

(** *** Counting headers *)

(** C9, at the failing input.  The 3841-byte file has three header
    sectors: its own and two children.  [CountHeader] starts its count
    at 0 in an indirect header and adds the children's counts only: it
    returns 2. *)
Theorem CountHeader_omits_indirect_headers :
  exists h,
    FetchFrom (sectors with_big) 13 = Ok h
    /\ header_sectors 128 30 4 (sectors with_big) h = Ok 3
    /\ CountHeader 128 30 4 (sectors with_big) h = Ok 2.
Proof.
  eexists. split; [vm_compute; reflexivity|].
  split; vm_compute; reflexivity.
Qed.

(** *** Removing a directory *)

Lemma find_from_range FileNameMaxLen dirs_only table : forall i n j,
  find_from FileNameMaxLen dirs_only table i (Some n) = Ok j ->
  j = -1 \/ i <= j < i + Z.of_nat (length table).
Proof.
  induction table as [|e rest IH]; intros i n j H; simpl in H.
  - inversion H. now left.
  - assert (Hrest : find_from FileNameMaxLen dirs_only rest (i + 1) (Some n) = Ok j ->
                    j = -1 \/ i <= j < i + Z.of_nat (length (e :: rest))).
    { intros Hr. apply IH in Hr. simpl length. lia. }
    destruct (inUse e && (negb dirs_only || isdir e)); [|auto].
    destruct (same_name FileNameMaxLen (name e) n); [|auto].
    inversion H; subst. right. simpl length. lia.
Qed.

Lemma find_from_total FileNameMaxLen dirs_only table : forall i n,
  exists j, find_from FileNameMaxLen dirs_only table i (Some n) = Ok j.
Proof.
  induction table as [|e rest IH]; intros i n; simpl; [eauto|].
  destruct (inUse e && (negb dirs_only || isdir e)); [|auto].
  destruct (same_name FileNameMaxLen (name e) n); eauto.
Qed.

Lemma Remove_entry_total FileNameMaxLen table n :
  exists r, Remove_entry FileNameMaxLen table (Some n) = Ok r.
Proof.
  unfold Remove_entry, FindIndex.
  destruct (find_from_total FileNameMaxLen false table 0 n) as [j Hj].
  rewrite Hj. simpl.
  destruct (Z.eqb_spec j (-1)); [eauto|].
  destruct (find_from_range _ _ _ _ _ _ Hj) as [?|Hr]; [contradiction|].
  unfold index, index_set.
  destruct (Z.ltb_spec j 0); [lia|].
  destruct (nth_error_some_lt table (Z.to_nat j)) as [e He]; [lia|].
  rewrite He. simpl.
  destruct (list_set_some table (Z.to_nat j)
              (mkDirEnt false false (name e) (sector e))) as [t' Ht]; [lia|].
  rewrite Ht. simpl. eauto.
Qed.

(** *** One buffer, two calls *)

(** After a call the buffer holds the first token of before, and no
    other. *)
Lemma strtok_cut_tokens s : forall piece,
  strtok_from (strtok_cut s (match piece with
                             | String.EmptyString => false
                             | _ => true
                             end)) piece
  = firstn 1 (strtok_from s piece).
Proof.
  induction s as [|c rest IH]; intros piece.
  - simpl. destruct piece; reflexivity.
  - cbn [strtok_cut strtok_from]. destruct (Ascii.eqb c slash) eqn:Ec.
    + destruct piece as [|a piece].
      * cbn [strtok_from]. rewrite Ec. exact (IH String.EmptyString).
      * reflexivity.
    + cbn [strtok_from]. rewrite Ec.
      specialize (IH (String.append piece (String.String c String.EmptyString))).
      destruct piece; exact IH.
Qed.

Lemma strtok_buffer_tokens name :
  strtok (strtok_buffer name) = firstn 1 (strtok name).
Proof. exact (strtok_cut_tokens name String.EmptyString). Qed.

(** A further call leaves the buffer as the first one left it. *)
Lemma strtok_cut_twice s : forall b, strtok_cut (strtok_cut s b) b = strtok_cut s b.
Proof.
  induction s as [|c rest IH]; intros b; [reflexivity|].
  cbn [strtok_cut]. destruct (Ascii.eqb c slash) eqn:Ec.
  - destruct b; [reflexivity|]. cbn [strtok_cut]. now rewrite Ec, IH.
  - cbn [strtok_cut]. now rewrite Ec, IH.
Qed.

Lemma strtok_buffer_twice name :
  strtok_buffer (strtok_buffer name) = strtok_buffer name.
Proof. exact (strtok_cut_twice name false). Qed.

(** *** Removing a directory that is not there *)

(** C10, the failing input.  On the formatted disk no entry is named
    [nosuch]: [FindDir] answers [-1] and the loop of [RemoveDir] ends
    with [sector = -1].  [Remove] tests for this after the same loop and
    returns [FALSE], leaving the file system as it was.  [RemoveDir] has
    no such test: it goes on to [FetchFrom(-1)], where the run ends at
    the disk's check of the sector number.  It returns neither [TRUE]
    nor [FALSE], and writes nothing back. *)
Lemma RemoveDir_missing_directory_stops :
  strtok Paths.nosuch <> []
  /\ (forall token, hd_error (strtok Paths.nosuch) = Some token ->
        FindDir 9 (dirData formatted DirectorySector) (Some token) = Ok (-1))
  /\ RemoveDir 128 30 9 4 formatted Paths.nosuch 0 None = Stop OutOfBounds
  /\ (forall b fs',
        RemoveDir 128 30 9 4 formatted Paths.nosuch 0 None <> Ok (b, fs'))
  /\ Remove 128 30 9 4 formatted Paths.nosuch = Ok (false, formatted).
Proof.
  split; [vm_compute; discriminate|].
  split; [intros token H; vm_compute in H; injection H as <-; vm_compute; reflexivity|].
  split; [vm_compute; reflexivity|].
  split; [intros b fs'; vm_compute; discriminate|].
  vm_compute. reflexivity.
Qed.

(** *** Arrays indexed by an [int] *)

Lemma index_nonneg {A} (l : list A) i a : index l i = Ok a -> 0 <= i.
Proof. unfold index. destruct (Z.ltb_spec i 0); [discriminate | lia]. Qed.

Lemma index_some {A} (l : list A) i a :
  index l i = Ok a <-> 0 <= i /\ nth_error l (Z.to_nat i) = Some a.
Proof.
  unfold index. destruct (Z.ltb_spec i 0).
  - split; [discriminate | lia].
  - destruct (nth_error l (Z.to_nat i)); split; intros H';
      try discriminate; try (destruct H'; discriminate).
    + inversion H'; auto.
    + destruct H' as [_ H']. now inversion H'.
Qed.

Lemma index_bound {A} (l : list A) i a :
  index l i = Ok a -> 0 <= i < Z.of_nat (length l).
Proof.
  intros H. apply index_some in H. destruct H as [H0 H].
  assert (Z.to_nat i < length l)%nat by (apply nth_error_Some; congruence). lia.
Qed.

Lemma index_in_range {A} (l : list A) i :
  0 <= i < Z.of_nat (length l) -> exists a, index l i = Ok a.
Proof.
  intros H. destruct (nth_error_some_lt l (Z.to_nat i)) as [a Ha]; [lia|].
  exists a. apply index_some. split; [lia | exact Ha].
Qed.

Lemma index_set_inv {A} (l l' : list A) i a :
  index_set l i a = Ok l' <-> 0 <= i /\ list_set l (Z.to_nat i) a = Some l'.
Proof.
  unfold index_set. destruct (Z.ltb_spec i 0).
  - split; [discriminate | lia].
  - destruct (list_set l (Z.to_nat i) a); split; intros H';
      try discriminate; try (destruct H'; discriminate).
    + inversion H'; auto.
    + destruct H' as [_ H']. now inversion H'.
Qed.

Lemma index_set_length {A} (l l' : list A) i a :
  index_set l i a = Ok l' -> length l' = length l.
Proof. intros H. apply index_set_inv in H. eapply list_set_length. apply H. Qed.

Lemma index_set_same {A} (l l' : list A) i a :
  index_set l i a = Ok l' -> index l' i = Ok a.
Proof.
  intros H. apply index_set_inv in H. destruct H as [H0 H].
  apply index_some. split; [exact H0|]. eapply list_set_nth_eq; eauto.
Qed.

Lemma index_set_other {A} (l l' : list A) i j a :
  index_set l i a = Ok l' -> j <> i -> index l' j = index l j.
Proof.
  intros H Hne. apply index_set_inv in H. destruct H as [H0 H].
  unfold index. destruct (Z.ltb_spec j 0); [reflexivity|].
  erewrite list_set_nth_ne; eauto. lia.
Qed.

Lemma index_set_in_range {A} (l : list A) i a :
  0 <= i < Z.of_nat (length l) -> exists l', index_set l i a = Ok l'.
Proof.
  intros H. destruct (list_set_some l (Z.to_nat i) a) as [l' Hl]; [lia|].
  exists l'. apply index_set_inv. split; [lia | exact Hl].
Qed.

Lemma index_ext {A} (l l' : list A) :
  (forall i, index l i = index l' i) -> l = l'.
Proof.
  intros H. apply nth_error_ext. intros n.
  specialize (H (Z.of_nat n)). unfold index in H.
  destruct (Z.ltb_spec (Z.of_nat n) 0); [lia|].
  rewrite Nat2Z.id in H.
  destruct (nth_error l n), (nth_error l' n); congruence.
Qed.

(** *** The bitmap *)

Lemma NumClear_nonneg m : 0 <= NumClear m.
Proof. induction m as [|b r IH]; simpl; [lia|]. destruct b; lia. Qed.

Lemma NumClear_list_set m : forall n b b' m',
  nth_error m n = Some b -> list_set m n b' = Some m' ->
  NumClear m' = NumClear m - (if b then 0 else 1) + (if b' then 0 else 1).
Proof.
  induction m as [|x r IH]; intros [|n] b b' m' Hn Hs; simpl in *; try discriminate.
  - inversion Hn; inversion Hs; subst. simpl. destruct b, b'; lia.
  - destruct (list_set r n b') as [r'|] eqn:E; [|discriminate].
    inversion Hs; subst. simpl. rewrite (IH n b b' r' Hn E). lia.
Qed.

Lemma NumClear_index_set m i b b' m' :
  index m i = Ok b -> index_set m i b' = Ok m' ->
  NumClear m' = NumClear m - (if b then 0 else 1) + (if b' then 0 else 1).
Proof.
  intros Hi Hs. apply index_some in Hi. apply index_set_inv in Hs.
  eapply NumClear_list_set; [apply Hi | apply Hs].
Qed.

Lemma find_clear_spec m : forall i s m',
  find_clear m i = (s, m') ->
  (s = -1 /\ m' = m /\ NumClear m = 0)
  \/ (exists n, s = i + Z.of_nat n /\ nth_error m n = Some false
                /\ list_set m n true = Some m'
                /\ forall j, (j < n)%nat -> nth_error m j = Some true).
Proof.
  induction m as [|b r IH]; intros i s m' H; simpl in H.
  - inversion H; subst. left. auto.
  - destruct b.
    + destruct (find_clear r (i + 1)) as [j r'] eqn:E. inversion H; subst.
      destruct (IH _ _ _ E) as [(-> & -> & Hz)|(n & -> & Hn & Hs & Hb)].
      * left. simpl. auto.
      * right. exists (S n). simpl. rewrite Hs. repeat split; auto; try lia.
        intros [|j] Hj; simpl; [reflexivity|]. apply Hb. lia.
    + inversion H; subst. right. exists 0%nat. simpl. repeat split; auto; try lia.
Qed.

Lemma FindAndSet_spec m s m' :
  FindAndSet m = (s, m') ->
  (s = -1 /\ m' = m /\ NumClear m = 0)
  \/ (0 <= s /\ Test m s = Ok false /\ Mark m s = Ok m'
      /\ NumClear m' = NumClear m - 1
      /\ forall z, 0 <= z < s -> Test m z = Ok true).
Proof.
  intros H. apply find_clear_spec in H.
  destruct H as [H|(n & -> & Hn & Hs & Hb)]; [now left|].
  right. simpl.
  assert (Ht : Test m (Z.of_nat n) = Ok false).
  { apply index_some. rewrite Nat2Z.id. split; [lia | exact Hn]. }
  assert (Hm : Mark m (Z.of_nat n) = Ok m').
  { apply index_set_inv. rewrite Nat2Z.id. split; [lia | exact Hs]. }
  split; [lia|]. split; [exact Ht|]. split; [exact Hm|]. split.
  - rewrite (NumClear_index_set m _ false true m' Ht Hm). lia.
  - intros z Hz. apply index_some. split; [lia|]. apply Hb. lia.
Qed.

(** *** Rounding *)

Lemma divRoundUp_nonpos n s : 0 < s -> n <= 0 -> divRoundUp n s <= 0.
Proof.
  intros Hs Hn. unfold divRoundUp.
  replace n with (- (- n)) by lia.
  rewrite Z.quot_opp_l, Z.rem_opp_l by lia.
  rewrite Z.quot_div_nonneg, Z.rem_mod_nonneg by lia.
  pose proof (Z.div_pos (- n) s ltac:(lia) Hs).
  pose proof (Z.mod_pos_bound (- n) s Hs).
  destruct (Z.gtb_spec (- ((- n) mod s)) 0); lia.
Qed.

Lemma divRoundUp_pos n s : 0 < s -> 0 < n -> 0 < divRoundUp n s.
Proof.
  intros Hs Hn. unfold divRoundUp.
  rewrite Z.quot_div_nonneg, Z.rem_mod_nonneg by lia.
  pose proof (Z.div_pos n s ltac:(lia) Hs).
  pose proof (Z.mod_pos_bound n s Hs).
  destruct (Z.gtb_spec (n mod s) 0); [lia|].
  assert (n mod s = 0) by lia.
  assert (n = s * (n / s)) by (rewrite (Z.div_mod n s) at 1; lia).
  assert (n / s <> 0) by (intros E; rewrite E in *; lia). lia.
Qed.

Lemma divRoundUp_step n s : 0 < s -> 0 < n ->
  divRoundUp (n - s) s = divRoundUp n s - 1.
Proof.
  intros Hs Hn. unfold divRoundUp at 2.
  rewrite Z.quot_div_nonneg, Z.rem_mod_nonneg by lia.
  destruct (Z.le_gt_cases s n) as [Hge|Hlt].
  - unfold divRoundUp.
    rewrite Z.quot_div_nonneg, Z.rem_mod_nonneg by lia.
    replace (n - s) with (n + (-1) * s) by lia.
    rewrite Z.div_add, Z.mod_add by lia. lia.
  - rewrite Z.div_small, Z.mod_small by lia.
    destruct (Z.gtb_spec n 0); [|lia].
    pose proof (divRoundUp_nonpos (n - s) s Hs ltac:(lia)).
    unfold divRoundUp in *.
    replace (n - s) with (- (s - n)) in * by lia.
    rewrite Z.quot_opp_l, Z.rem_opp_l in * by lia.
    rewrite Z.quot_small, Z.rem_small in * by lia.
    destruct (Z.gtb_spec (- (s - n)) 0); lia.
Qed.

Lemma divRoundUp_le n s k : 0 < s -> 0 <= k -> n <= k * s -> divRoundUp n s <= k.
Proof.
  intros Hs Hk Hn.
  destruct (Z.le_gt_cases n 0) as [Hn0|Hn0].
  - pose proof (divRoundUp_nonpos n s Hs Hn0). lia.
  - unfold divRoundUp. rewrite Z.quot_div_nonneg, Z.rem_mod_nonneg by lia.
    pose proof (Z.mod_pos_bound n s Hs).
    pose proof (Z.div_mod n s ltac:(lia)).
    destruct (Z.gtb_spec (n mod s) 0).
    + assert (n / s < k); [|lia].
      apply Z.div_lt_upper_bound; [lia|].
      destruct (Z.eq_dec n (k * s)); [|lia]. subst n.
      rewrite Z.mod_mul in *; lia.
    + assert (n / s <= k); [|lia].
      apply Z.div_le_upper_bound; lia.
Qed.

Section Leaf.

Variables SectorSize NumDirect : Z.
Variable blank : FileHeader.
Hypothesis SectorSize_pos : 0 < SectorSize.
Hypothesis NumDirect_pos : 1 <= NumDirect.

Local Abbreviation L1 := (bytes_in_level1 SectorSize NumDirect).
Local Abbreviation L2 := (bytes_in_level2 SectorSize NumDirect).
Local Abbreviation L3 := (bytes_in_level3 SectorSize NumDirect).

(** The leaf loop of [Allocate] takes [n] sectors [ss], all of them clear
    before and distinct, and stores them in [dataSectors] from [i] on. *)
Lemma allocate_leaf_spec n : forall i h fm,
  0 <= i -> Z.of_nat n <= NumClear fm ->
  i + Z.of_nat n <= Z.of_nat (length (dataSectors h)) ->
  exists ss h' fm',
    allocate_leaf n i h fm = Ok (h', fm')
    /\ numBytes h' = numBytes h /\ numSectors h' = numSectors h
    /\ length (dataSectors h') = length (dataSectors h)
    /\ length ss = n
    /\ (forall j s, nth_error ss j = Some s ->
          index (dataSectors h') (i + Z.of_nat j) = Ok s)
    /\ (forall z, z < i -> index (dataSectors h') z = index (dataSectors h) z)
    /\ NoDup ss
    /\ (forall s, In s ss -> Test fm s = Ok false /\ Test fm' s = Ok true)
    /\ (forall z, ~ In z ss -> Test fm' z = Test fm z)
    /\ NumClear fm' = NumClear fm - Z.of_nat n.
Proof.
  induction n as [|n IH]; intros i h fm Hi Hfree Hroom.
  - exists [], h, fm. simpl.
    split; [reflexivity|]. split; [reflexivity|]. split; [reflexivity|].
    split; [reflexivity|]. split; [reflexivity|].
    split; [intros [|j] s H; discriminate|].
    split; [reflexivity|]. split; [constructor|].
    split; [intros s []|]. split; [reflexivity | lia].
  - simpl allocate_leaf.
    destruct (FindAndSet fm) as [s fm1] eqn:Efs.
    destruct (FindAndSet_spec fm s fm1 Efs) as [(_ & _ & Hz)|(Hs0 & Hts & Hmk & Hnc & _)];
      [lia|].
    destruct (index_set_in_range (dataSectors h) i s) as [d Hd]; [lia|].
    rewrite Hd. simpl bind.
    destruct (Z.geb_spec s 0); [|lia]. simpl bind.
    destruct (IH (i + 1) (set_dataSectors h d) fm1) as
      (ss & h' & fm' & Hrun & Hnb & Hns & Hlen & HlS & Hidx & Hlow & Hnd & Hbits & Hout & Hcnt).
    { lia. } { lia. }
    { simpl. rewrite (index_set_length _ _ _ _ Hd). lia. }
    assert (HsS : ~ In s ss).
    { intros Hin. destruct (Hbits s Hin) as [Hf _].
      pose proof (index_set_same _ _ _ _ Hmk) as Ht. unfold Test in Hf. congruence. }
    exists (s :: ss), h', fm'.
    split; [exact Hrun|]. split; [exact Hnb|]. split; [exact Hns|].
    split; [rewrite Hlen; simpl; eapply index_set_length; eauto|].
    split; [simpl; lia|].
    split.
    { intros [|j] s' Hj; simpl in Hj.
      - inversion Hj; subst. rewrite Z.add_0_r, Hlow by lia. simpl.
        eapply index_set_same; eauto.
      - replace (i + Z.of_nat (S j)) with (i + 1 + Z.of_nat j) by lia. now apply Hidx. }
    split.
    { intros z Hz. rewrite Hlow by lia. simpl. eapply index_set_other; eauto. lia. }
    split; [constructor; assumption|].
    split.
    { intros s' [<-|Hin].
      - split; [exact Hts|]. rewrite Hout by exact HsS.
        eapply index_set_same; eauto.
      - destruct (Hbits s' Hin) as [Hf Ht]. split; [|exact Ht].
        unfold Test in *. rewrite <- Hf. symmetry.
        apply (index_set_other _ _ _ s' _ Hmk). intros ->. contradiction. }
    split.
    { intros z Hz. simpl in Hz. rewrite Hout by tauto.
      unfold Test. apply (index_set_other _ _ _ z _ Hmk). intros ->. tauto. }
    lia.
Qed.

(** The leaf loop of [Deallocate] clears the sectors [ss] it finds in
    [dataSectors] from [idx] on, when they are distinct and marked. *)
Lemma deallocate_leaf_spec ss : forall slots idx remain h g,
  0 <= idx ->
  Z.of_nat (length ss) = Z.max 0 (divRoundUp remain SectorSize) ->
  (length ss <= slots)%nat ->
  (forall j s, nth_error ss j = Some s ->
     index (dataSectors h) (idx + Z.of_nat j) = Ok s) ->
  NoDup ss ->
  (forall s, In s ss -> Test g s = Ok true) ->
  exists g',
    deallocate_leaf SectorSize slots idx remain h g = Ok g'
    /\ (forall z, In z ss -> Test g' z = Ok false)
    /\ (forall z, ~ In z ss -> Test g' z = Test g z).
Proof.
  induction ss as [|s ss IH]; intros slots idx remain h g Hidx Hn Hslots Hds Hnd Hmarked.
  - exists g. simpl in Hn.
    assert (remain <= 0).
    { destruct (Z.le_gt_cases remain 0); [assumption|].
      pose proof (divRoundUp_pos remain SectorSize SectorSize_pos ltac:(lia)). lia. }
    split.
    + destruct slots; simpl; destruct (Z.gtb_spec remain 0); auto; lia.
    + split; [intros z []|auto].
  - simpl length in Hn, Hslots.
    assert (Hpos : 0 < remain).
    { destruct (Z.le_gt_cases remain 0); [|lia].
      pose proof (divRoundUp_nonpos remain SectorSize SectorSize_pos ltac:(lia)). lia. }
    destruct slots as [|slots]; [lia|]. simpl deallocate_leaf.
    destruct (Z.gtb_spec remain 0); [|lia].
    pose proof (Hds 0%nat s eq_refl) as H0. rewrite Z.add_0_r in H0.
    rewrite H0. simpl bind.
    rewrite (Hmarked s (or_introl eq_refl)). simpl bind.
    destruct (index_set_in_range g s false) as [g1 Hg1].
    { apply (index_bound g s true). apply Hmarked. now left. }
    unfold Clear. rewrite Hg1. simpl bind.
    inversion Hnd as [|? ? HsS HndS]; subst.
    destruct (IH slots (idx + 1) (remain - SectorSize) h g1) as (g' & Hrun & Hin & Hout).
    { lia. }
    { rewrite divRoundUp_step by lia. lia. }
    { lia. }
    { intros j s' Hj. replace (idx + 1 + Z.of_nat j) with (idx + Z.of_nat (S j)) by lia.
      now apply Hds. }
    { exact HndS. }
    { intros s' Hs'. unfold Test. rewrite (index_set_other _ _ _ s' _ Hg1).
      - apply Hmarked. now right.
      - intros ->. contradiction. }
    exists g'. split; [exact Hrun|]. split.
    + intros z [<-|Hz]; [|now apply Hin].
      rewrite Hout by exact HsS. unfold Test. eapply index_set_same; eauto.
    + intros z Hz. simpl in Hz. rewrite Hout by tauto.
      unfold Test. apply (index_set_other _ _ _ z _ Hg1). intros ->. tauto.
Qed.

(** The leaf loop of [Deallocate] only clears bits. *)
Lemma deallocate_leaf_clears slots : forall idx remain h g g' z,
  deallocate_leaf SectorSize slots idx remain h g = Ok g' ->
  Test g z = Ok false -> Test g' z = Ok false.
Proof.
  induction slots as [|slots IH]; intros idx remain h g g' z Hrun Hz; simpl in Hrun.
  - destruct (remain >? 0); [discriminate|]. now inversion Hrun; subst.
  - destruct (remain >? 0); [|now inversion Hrun; subst].
    destruct (index (dataSectors h) idx) as [s|]; simpl in Hrun; [|discriminate].
    destruct (Test g s) as [b|] eqn:Et; simpl in Hrun; [|discriminate].
    destruct b; simpl in Hrun; [|discriminate].
    destruct (Clear g s) as [g1|] eqn:Ec; simpl in Hrun; [|discriminate].
    apply (IH _ _ _ _ _ z Hrun).
    destruct (Z.eq_dec z s) as [->|Hne].
    + unfold Test. eapply index_set_same; eauto.
    + unfold Test. rewrite (index_set_other _ _ _ z _ Ec Hne). exact Hz.
Qed.

Lemma leaf_sectors_fit fileSize :
  fileSize <= L1 -> divRoundUp fileSize SectorSize <= NumDirect.
Proof.
  intros H. apply divRoundUp_le; [assumption | lia |].
  unfold bytes_in_level1 in H. lia.
Qed.

(** [Allocate] at a size that fits a leaf header, with enough clear
    bits for its data sectors. *)
Lemma Allocate_leaf_run h fm disk fileSize :
  fileSize <= L1 ->
  Z.of_nat (length (dataSectors h)) = NumDirect ->
  divRoundUp fileSize SectorSize <= NumClear fm ->
  exists ss h' fm',
    Allocate SectorSize NumDirect blank h fm disk fileSize = Ok (true, h', fm', disk)
    /\ numBytes h' = fileSize
    /\ numSectors h' = divRoundUp fileSize SectorSize
    /\ length (dataSectors h') = length (dataSectors h)
    /\ Z.of_nat (length ss) = Z.max 0 (divRoundUp fileSize SectorSize)
    /\ (forall j s, nth_error ss j = Some s ->
          index (dataSectors h') (Z.of_nat j) = Ok s)
    /\ NoDup ss
    /\ (forall s, In s ss -> Test fm s = Ok false /\ Test fm' s = Ok true)
    /\ (forall z, ~ In z ss -> Test fm' z = Test fm z)
    /\ NumClear fm' = NumClear fm - Z.max 0 (divRoundUp fileSize SectorSize).
Proof.
  pose proof (levels_ordered SectorSize NumDirect SectorSize_pos NumDirect_pos)
    as (H1 & H12 & H23).
  intros Hleaf Hlen Hfree.
  pose proof (leaf_sectors_fit fileSize Hleaf) as Hfit.
  pose proof (NumClear_nonneg fm) as Hnn.
  set (ns := divRoundUp fileSize SectorSize) in *.
  destruct (allocate_leaf_spec (Z.to_nat ns) 0 (set_size h fileSize ns) fm)
    as (ss & h' & fm' & Hrun & Hnb & Hns & Hl & HlS & Hidx & _ & Hnd & Hbits & Hout & Hcnt).
  { lia. } { lia. } { simpl. lia. }
  exists ss, h', fm'.
  unfold Allocate. simpl Allocate_rec. fold ns.
  destruct (Z.ltb_spec (NumClear fm) ns); [lia|].
  destruct (Z.gtb_spec fileSize L3); [lia|].
  destruct (Z.gtb_spec fileSize L2); [lia|].
  destruct (Z.gtb_spec fileSize L1); [lia|].
  rewrite Hrun. simpl bind.
  split; [reflexivity|]. split; [exact Hnb|]. split; [exact Hns|].
  split; [exact Hl|]. split; [lia|].
  split; [intros j s Hj; apply (Hidx j s Hj)|].
  split; [exact Hnd|]. split; [exact Hbits|]. split; [exact Hout|]. lia.
Qed.

(** [Deallocate] after [Allocate], at a size that fits a leaf header. *)
Lemma leaf_round_trip h fm disk fileSize :
  fileSize <= L1 ->
  Z.of_nat (length (dataSectors h)) = NumDirect ->
  divRoundUp fileSize SectorSize <= NumClear fm ->
  exists h' fm',
    Allocate SectorSize NumDirect blank h fm disk fileSize = Ok (true, h', fm', disk)
    /\ forall fuel disk',
         Deallocate SectorSize NumDirect (S fuel) disk' h' fm' = Ok fm.
Proof.
  pose proof (levels_ordered SectorSize NumDirect SectorSize_pos NumDirect_pos)
    as (H1 & H12 & H23).
  intros Hleaf Hlen Hfree.
  pose proof (leaf_sectors_fit fileSize Hleaf) as Hfit.
  destruct (Allocate_leaf_run h fm disk fileSize Hleaf Hlen Hfree)
    as (ss & h' & fm' & Hrun & Hnb & Hns & Hl & HlS & Hidx & Hnd & Hbits & Hout & Hcnt).
  exists h', fm'. split; [exact Hrun|]. intros fuel disk'.
  simpl Deallocate. rewrite Hnb.
  destruct (Z.gtb_spec fileSize L3); [lia|].
  destruct (Z.gtb_spec fileSize L2); [lia|].
  destruct (Z.gtb_spec fileSize L1); [lia|].
  destruct (deallocate_leaf_spec ss (length (dataSectors h')) 0 fileSize h' fm')
    as (g' & Hde & Hin & Hout').
  { lia. } { exact HlS. } { lia. }
  { intros j s Hj. simpl. now apply Hidx. }
  { exact Hnd. } { intros s Hs. now apply Hbits. }
  rewrite Hde. f_equal. apply index_ext. intros z.
  destruct (in_dec Z.eq_dec z ss) as [Hz|Hz].
  - fold (Test g' z) (Test fm z). rewrite (Hin z Hz).
    destruct (Hbits z Hz) as [Hf _]. now rewrite Hf.
  - fold (Test g' z) (Test fm z). rewrite (Hout' z Hz). now apply Hout.
Qed.

End Leaf.

Lemma sector_of_offset_fits n s o :
  0 < s -> 0 <= o < n -> 0 <= o / s < divRoundUp n s.
Proof.
  intros Hs Ho. split; [apply Z.div_pos; lia|].
  unfold divRoundUp. rewrite Z.quot_div_nonneg, Z.rem_mod_nonneg by lia.
  pose proof (Z.mod_pos_bound n s Hs).
  pose proof (Z.div_mod n s ltac:(lia)).
  destruct (Z.gtb_spec (n mod s) 0).
  - assert (o / s <= n / s) by (apply Z.div_le_mono; lia). lia.
  - apply Z.div_lt_upper_bound; [lia|]. nia.
Qed.

Section LeafFiles.

Variables SectorSize NumDirect : Z.
Variable blank : FileHeader.
Hypothesis SectorSize_pos : 0 < SectorSize.
Hypothesis NumDirect_pos : 1 <= NumDirect.

Local Abbreviation L1 := (bytes_in_level1 SectorSize NumDirect).

(** [FileHeader::Allocate] at a size that fits a leaf header
    ([fileSize <= bytes_in_level1]), on a free map with at least
    [divRoundUp(fileSize, SectorSize)] clear bits: the call returns [TRUE],
    sets [numBytes] and [numSectors], leaves the disk alone and stores in
    [dataSectors[0 .. numSectors - 1]] that many distinct sectors, each
    clear before the call and set after it; no other bit of the map
    changes, and [NumClear] goes down by exactly [numSectors].  A size of
    zero or less takes no sector. *)
Theorem Allocate_leaf_accounting (h : FileHeader) (freeMap : Bitmap)
    (disk : list FileHeader) (fileSize : Z) :
  fileSize <= L1 ->
  Z.of_nat (length (dataSectors h)) = NumDirect ->
  divRoundUp fileSize SectorSize <= NumClear freeMap ->
  exists ss h' freeMap',
    Allocate SectorSize NumDirect blank h freeMap disk fileSize
    = Ok (true, h', freeMap', disk)
    /\ numBytes h' = fileSize
    /\ numSectors h' = divRoundUp fileSize SectorSize
    /\ Z.of_nat (length ss) = Z.max 0 (divRoundUp fileSize SectorSize)
    /\ (forall j s, nth_error ss j = Some s ->
          index (dataSectors h') (Z.of_nat j) = Ok s)
    /\ NoDup ss
    /\ (forall s, In s ss -> Test freeMap s = Ok false /\ Test freeMap' s = Ok true)
    /\ (forall z, ~ In z ss -> Test freeMap' z = Test freeMap z)
    /\ NumClear freeMap' = NumClear freeMap - Z.max 0 (divRoundUp fileSize SectorSize).
Proof.
  intros Hleaf Hlen Hfree.
  destruct (Allocate_leaf_run SectorSize NumDirect blank SectorSize_pos NumDirect_pos
              h freeMap disk fileSize Hleaf Hlen Hfree)
    as (ss & h' & fm' & Hrun & Hnb & Hns & _ & HlS & Hidx & Hnd & Hbits & Hout & Hcnt).
  exists ss, h', fm'. repeat (split; [assumption|]). assumption.
Qed.

(** [Deallocate] gives back what [Allocate] took.  For a size that fits
    a leaf header, [Deallocate] on the header that [Allocate] has filled
    returns the free map to what it was before the allocation, bit for
    bit, whatever the disk then holds. *)
Theorem Deallocate_after_Allocate_leaf (fuel : nat) (h : FileHeader)
    (freeMap : Bitmap) (disk disk' : list FileHeader) (fileSize : Z) :
  fileSize <= L1 ->
  Z.of_nat (length (dataSectors h)) = NumDirect ->
  divRoundUp fileSize SectorSize <= NumClear freeMap ->
  exists h' freeMap',
    Allocate SectorSize NumDirect blank h freeMap disk fileSize
    = Ok (true, h', freeMap', disk)
    /\ Deallocate SectorSize NumDirect (S fuel) disk' h' freeMap' = Ok freeMap.
Proof.
  intros Hleaf Hlen Hfree.
  destruct (leaf_round_trip SectorSize NumDirect blank SectorSize_pos NumDirect_pos
              h freeMap disk fileSize Hleaf Hlen Hfree) as (h' & fm' & Hrun & Hback).
  exists h', fm'. split; [exact Hrun | apply Hback].
Qed.

(** A second [Deallocate] of the same header is caught.  For a leaf
    header of a non-empty file, once [Deallocate] has returned, a second
    [Deallocate] of that header on the resulting map stops at
    [ASSERT(freeMap->Test(dataSectors[0]))]: the first sector is no longer
    marked. *)
Theorem Deallocate_twice_stops (fuel fuel' : nat) (disk disk' : list FileHeader)
    (h : FileHeader) (freeMap freeMap' : Bitmap) :
  0 < numBytes h <= L1 ->
  Deallocate SectorSize NumDirect (S fuel) disk h freeMap = Ok freeMap' ->
  Deallocate SectorSize NumDirect (S fuel') disk' h freeMap' = Stop AssertionFailed.
Proof.
  pose proof (levels_ordered SectorSize NumDirect SectorSize_pos NumDirect_pos)
    as (H1 & H12 & H23).
  intros Hb Hrun. simpl Deallocate in *.
  destruct (Z.gtb_spec (numBytes h) (bytes_in_level3 SectorSize NumDirect)); [lia|].
  destruct (Z.gtb_spec (numBytes h) (bytes_in_level2 SectorSize NumDirect)); [lia|].
  destruct (Z.gtb_spec (numBytes h) L1); [lia|].
  destruct (length (dataSectors h)) as [|slots]; simpl deallocate_leaf in *;
    destruct (Z.gtb_spec (numBytes h) 0); try lia; try discriminate.
  destruct (index (dataSectors h) 0) as [s|]; simpl bind in *; [|discriminate].
  destruct (Test freeMap s) as [b|] eqn:Et; simpl bind in Hrun; [|discriminate].
  destruct b; simpl bind in Hrun; [|discriminate].
  destruct (Clear freeMap s) as [g1|] eqn:Ec; simpl bind in Hrun; [|discriminate].
  assert (Hs : Test freeMap' s = Ok false).
  { apply (deallocate_leaf_clears SectorSize _ _ _ _ _ _ s Hrun).
    unfold Test. eapply index_set_same. exact Ec. }
  rewrite Hs. reflexivity.
Qed.

(** The leaf branch of [ByteToSector]. *)
Lemma leaf_sector_of_byte fuel disk h offset s :
  numBytes h <= bytes_in_level1 SectorSize NumDirect ->
  0 <= offset ->
  nth_error (dataSectors h) (Z.to_nat (offset / SectorSize)) = Some s ->
  ByteToSector SectorSize NumDirect (S fuel) disk h offset = Ok (Some s).
Proof.
  pose proof (levels_ordered SectorSize NumDirect SectorSize_pos NumDirect_pos)
    as (H1 & H12 & H23).
  intros Hleaf Ho Hn. simpl.
  destruct (Z.gtb_spec (numBytes h) (bytes_in_level3 SectorSize NumDirect)); [lia|].
  destruct (Z.gtb_spec (numBytes h) (bytes_in_level2 SectorSize NumDirect)); [lia|].
  destruct (Z.gtb_spec (numBytes h) (bytes_in_level1 SectorSize NumDirect)); [lia|].
  rewrite Z.quot_div_nonneg by lia. unfold index.
  destruct (Z.ltb_spec (offset / SectorSize) 0) as [Hneg|_].
  - pose proof (Z.div_pos offset SectorSize Ho SectorSize_pos). lia.
  - rewrite Hn. reflexivity.
Qed.

(** The bytes of a freshly allocated leaf file lie in sectors of their
    own.  After [Allocate] at a size that fits a leaf header,
    [ByteToSector(offset)] returns, for every offset inside the file, a
    sector that the allocation took from the free map; two offsets get
    the same sector only when they lie in the same [SectorSize]-byte
    block of the file. *)
Theorem ByteToSector_after_Allocate_leaf (h : FileHeader) (freeMap : Bitmap)
    (disk : list FileHeader) (fileSize : Z) :
  fileSize <= L1 ->
  Z.of_nat (length (dataSectors h)) = NumDirect ->
  divRoundUp fileSize SectorSize <= NumClear freeMap ->
  exists h' freeMap',
    Allocate SectorSize NumDirect blank h freeMap disk fileSize
    = Ok (true, h', freeMap', disk)
    /\ (forall fuel disk' offset, 0 <= offset < fileSize ->
          exists s,
            ByteToSector SectorSize NumDirect (S fuel) disk' h' offset = Ok (Some s)
            /\ Test freeMap s = Ok false /\ Test freeMap' s = Ok true)
    /\ (forall fuel disk' o1 o2 s,
          0 <= o1 < fileSize -> 0 <= o2 < fileSize ->
          ByteToSector SectorSize NumDirect (S fuel) disk' h' o1 = Ok (Some s) ->
          ByteToSector SectorSize NumDirect (S fuel) disk' h' o2 = Ok (Some s) ->
          o1 / SectorSize = o2 / SectorSize).
Proof.
  pose proof (levels_ordered SectorSize NumDirect SectorSize_pos NumDirect_pos)
    as (H1 & H12 & H23).
  intros Hleaf Hlen Hfree.
  destruct (Allocate_leaf_run SectorSize NumDirect blank SectorSize_pos NumDirect_pos
              h freeMap disk fileSize Hleaf Hlen Hfree)
    as (ss & h' & fm' & Hrun & Hnb & Hns & Hl & HlS & Hidx & Hnd & Hbits & Hout & Hcnt).
  exists h', fm'. split; [exact Hrun|].
  assert (Hget : forall fuel disk' offset, 0 <= offset < fileSize ->
    exists s, nth_error ss (Z.to_nat (offset / SectorSize)) = Some s
      /\ ByteToSector SectorSize NumDirect (S fuel) disk' h' offset = Ok (Some s)).
  { intros fuel disk' offset Ho.
    pose proof (sector_of_offset_fits fileSize SectorSize offset SectorSize_pos Ho) as Hq.
    destruct (nth_error_some_lt ss (Z.to_nat (offset / SectorSize))) as [s Hs]; [lia|].
    exists s. split; [exact Hs|].
    apply leaf_sector_of_byte; [lia | lia |].
    pose proof (Hidx _ _ Hs) as Hi. rewrite Z2Nat.id in Hi by lia.
    apply index_some in Hi. apply Hi. }
  split.
  - intros fuel disk' offset Ho.
    destruct (Hget fuel disk' offset Ho) as (s & Hs & Hb).
    exists s. split; [exact Hb|]. apply Hbits. eapply nth_error_In; eauto.
  - intros fuel disk' o1 o2 s Ho1 Ho2 Hb1 Hb2.
    destruct (Hget fuel disk' o1 Ho1) as (s1 & Hs1 & Hb1').
    destruct (Hget fuel disk' o2 Ho2) as (s2 & Hs2 & Hb2').
    assert (s1 = s) by congruence. assert (s2 = s) by congruence. subst s1 s2.
    pose proof (sector_of_offset_fits fileSize SectorSize o1 SectorSize_pos Ho1) as Hq1.
    pose proof (sector_of_offset_fits fileSize SectorSize o2 SectorSize_pos Ho2) as Hq2.
    rewrite NoDup_nth_error in Hnd.
    assert (Z.to_nat (o1 / SectorSize) = Z.to_nat (o2 / SectorSize)).
    { apply Hnd; [lia | congruence]. }
    lia.
Qed.

End LeafFiles.

(** The four theorems at a header of 30 entries, a free map of 16 bits
    of which bits 0, 1 and 4 are set, and a file of 300 bytes in sectors
    of 128 bytes. *)

Lemma Allocate_leaf_accounting_witness :
  (0 < 128 /\ 1 <= 30 /\ 300 <= bytes_in_level1 128 30
   /\ Z.of_nat (length (dataSectors blank_header)) = 30
   /\ divRoundUp 300 128 <= NumClear map16)
  /\ exists h' freeMap',
       Allocate 128 30 blank_header blank_header map16 [] 300
       = Ok (true, h', freeMap', [])
       /\ numSectors h' = 3
       /\ NumClear freeMap' = NumClear map16 - 3.
Proof.
  assert (H0 : 0 < 128) by lia.
  assert (H1 : 1 <= 30) by lia.
  assert (H2 : 300 <= bytes_in_level1 128 30) by (vm_compute; discriminate).
  assert (H3 : Z.of_nat (length (dataSectors blank_header)) = 30) by reflexivity.
  assert (H4 : divRoundUp 300 128 <= NumClear map16) by (vm_compute; discriminate).
  split; [tauto|].
  destruct (Allocate_leaf_accounting 128 30 blank_header H0 H1 blank_header map16 [] 300
              H2 H3 H4)
    as (ss & h' & fm' & Hrun & _ & Hns & _ & _ & _ & _ & _ & Hcnt).
  exists h', fm'. split; [exact Hrun|]. split; [exact Hns | exact Hcnt].
Defined.

Lemma Deallocate_after_Allocate_leaf_witness :
  (0 < 128 /\ 1 <= 30 /\ 300 <= bytes_in_level1 128 30
   /\ Z.of_nat (length (dataSectors blank_header)) = 30
   /\ divRoundUp 300 128 <= NumClear map16)
  /\ exists h' freeMap',
       Allocate 128 30 blank_header blank_header map16 [] 300
       = Ok (true, h', freeMap', [])
       /\ Deallocate 128 30 1 [] h' freeMap' = Ok map16.
Proof.
  assert (H0 : 0 < 128) by lia.
  assert (H1 : 1 <= 30) by lia.
  assert (H2 : 300 <= bytes_in_level1 128 30) by (vm_compute; discriminate).
  assert (H3 : Z.of_nat (length (dataSectors blank_header)) = 30) by reflexivity.
  assert (H4 : divRoundUp 300 128 <= NumClear map16) by (vm_compute; discriminate).
  split; [tauto|].
  exact (Deallocate_after_Allocate_leaf 128 30 blank_header H0 H1 0 blank_header map16
           [] [] 300 H2 H3 H4).
Defined.

Lemma Deallocate_twice_stops_witness :
  let h := mkHdr 300 3 [2; 3; 5] in
  let used := [true; true; true; true; true; true; false; false] in
  let freed := [true; true; false; false; true; false; false; false] in
  (0 < 128 /\ 1 <= 30 /\ 0 < numBytes h <= bytes_in_level1 128 30
   /\ Deallocate 128 30 1 [] h used = Ok freed)
  /\ Deallocate 128 30 1 [] h freed = Stop AssertionFailed.
Proof.
  intros h used freed.
  assert (H0 : 0 < 128) by lia.
  assert (H1 : 1 <= 30) by lia.
  assert (H2 : 0 < numBytes h <= bytes_in_level1 128 30)
    by (split; vm_compute; [reflexivity | discriminate]).
  assert (H3 : Deallocate 128 30 1 [] h used = Ok freed) by reflexivity.
  split; [tauto|].
  exact (Deallocate_twice_stops 128 30 H0 H1 0 0 [] [] h used freed H2 H3).
Defined.

Lemma ByteToSector_after_Allocate_leaf_witness :
  (0 < 128 /\ 1 <= 30 /\ 300 <= bytes_in_level1 128 30
   /\ Z.of_nat (length (dataSectors blank_header)) = 30
   /\ divRoundUp 300 128 <= NumClear map16)
  /\ exists h' freeMap',
       Allocate 128 30 blank_header blank_header map16 [] 300
       = Ok (true, h', freeMap', [])
       /\ exists s,
            ByteToSector 128 30 1 [] h' 299 = Ok (Some s)
            /\ Test map16 s = Ok false /\ Test freeMap' s = Ok true.
Proof.
  assert (H0 : 0 < 128) by lia.
  assert (H1 : 1 <= 30) by lia.
  assert (H2 : 300 <= bytes_in_level1 128 30) by (vm_compute; discriminate).
  assert (H3 : Z.of_nat (length (dataSectors blank_header)) = 30) by reflexivity.
  assert (H4 : divRoundUp 300 128 <= NumClear map16) by (vm_compute; discriminate).
  split; [tauto|].
  destruct (ByteToSector_after_Allocate_leaf 128 30 blank_header H0 H1 blank_header map16
              [] 300 H2 H3 H4) as (h' & fm' & Hrun & Hin & _).
  exists h', fm'. split; [exact Hrun|].
  apply (Hin 0%nat [] 299). lia.
Defined.

(** *** Directories *)

Lemma substring_idem n : forall s,
  String.substring 0 n (String.substring 0 n s) = String.substring 0 n s.
Proof.
  induction n as [|n IH]; intros [|c s]; simpl; try reflexivity.
  now rewrite IH.
Qed.

Section Directory.

Variable FileNameMaxLen : nat.

Local Abbreviation same := (same_name FileNameMaxLen).
Local Abbreviation trunc := (String.substring 0 FileNameMaxLen).
Local Abbreviation matches := (entry_matches FileNameMaxLen).
Local Abbreviation FindIndex := (FindIndex FileNameMaxLen).
Local Abbreviation Find := (Find FileNameMaxLen).
Local Abbreviation FindDir := (FindDir FileNameMaxLen).
Local Abbreviation Add := (Add FileNameMaxLen).
Local Abbreviation AddDir := (AddDir FileNameMaxLen).
Local Abbreviation add_entry := (add_entry FileNameMaxLen).
Local Abbreviation Remove_entry := (Remove_entry FileNameMaxLen).
Local Abbreviation unique := (names_unique FileNameMaxLen).

Lemma same_name_iff a b : same a b = true <-> trunc a = trunc b.
Proof. unfold same_name. apply String.eqb_eq. Qed.

Lemma same_name_refl a : same a a = true.
Proof. now apply same_name_iff. Qed.

Lemma same_name_sym a b : same a b = same b a.
Proof. unfold same_name. apply String.eqb_sym. Qed.

Lemma same_name_trunc_l a b : same (trunc a) b = same a b.
Proof. unfold same_name. now rewrite substring_idem. Qed.

Lemma same_name_trans a b c : same a b = true -> same b c = true -> same a c = true.
Proof. rewrite !same_name_iff. congruence. Qed.

Lemma same_name_false_l a b c : same a b = true -> same a c = same b c.
Proof.
  intros H. apply same_name_iff in H. unfold same_name. now rewrite H.
Qed.

(** The index loops, read as a search of the list. *)
Lemma find_from_find d n table : forall i,
  0 <= i ->
  (find (matches d n) table = None ->
     find_from FileNameMaxLen d table i (Some n) = Ok (-1))
  /\ (forall e, find (matches d n) table = Some e ->
        exists pre post,
          table = pre ++ e :: post
          /\ find (matches d n) pre = None
          /\ find_from FileNameMaxLen d table i (Some n)
             = Ok (i + Z.of_nat (length pre))).
Proof.
  induction table as [|x rest IH]; intros i Hi; simpl.
  - split; [reflexivity | discriminate].
  - unfold entry_matches at 1 3.
    destruct (inUse x && (negb d || isdir x)) eqn:Eu; simpl.
    + destruct (same (name x) n) eqn:Es.
      * split; [discriminate|]. intros e He. inversion He; subst.
        exists [], rest. simpl. rewrite Z.add_0_r. auto.
      * destruct (IH (i + 1) ltac:(lia)) as [Hnone Hsome].
        split; [exact Hnone|]. intros e He.
        destruct (Hsome e He) as (pre & post & -> & Hpre & Hrun).
        exists (x :: pre), post. simpl. unfold entry_matches at 1.
        rewrite Eu, Es. simpl. repeat split; auto.
        rewrite Hrun. f_equal. lia.
    + destruct (IH (i + 1) ltac:(lia)) as [Hnone Hsome].
      split; [exact Hnone|]. intros e He.
      destruct (Hsome e He) as (pre & post & -> & Hpre & Hrun).
      exists (x :: pre), post. simpl. unfold entry_matches at 1.
      rewrite Eu. simpl. repeat split; auto.
      rewrite Hrun. f_equal. lia.
Qed.

Lemma index_app_mid {A} (pre post : list A) (a : A) :
  index (pre ++ a :: post) (Z.of_nat (length pre)) = Ok a.
Proof.
  apply index_some. rewrite Nat2Z.id. split; [lia | apply nth_error_app_mid].
Qed.

Lemma index_set_app_mid {A} (pre post : list A) (a b : A) :
  index_set (pre ++ a :: post) (Z.of_nat (length pre)) b = Ok (pre ++ b :: post).
Proof.
  apply index_set_inv. rewrite Nat2Z.id. split; [lia | apply list_set_app_mid].
Qed.

(** [Find] and [FindDir] return the sector of the first entry that
    passes the test, [-1] when there is none. *)
Lemma lookup_first d n table :
  (do i <- find_from FileNameMaxLen d table 0 (Some n);
   if negb (i =? -1) then do e <- index table i; Ok (sector e) else Ok (-1))
  = Ok (match find (matches d n) table with
        | Some e => sector e
        | None => -1
        end).
Proof.
  destruct (find_from_find d n table 0 ltac:(lia)) as [Hnone Hsome].
  destruct (find (matches d n) table) as [e|] eqn:E.
  - destruct (Hsome e eq_refl) as (pre & post & -> & _ & Hrun).
    rewrite Hrun. simpl bind.
    destruct (Z.eqb_spec (Z.of_nat (length pre)) (-1)); [lia|]. simpl.
    now rewrite index_app_mid.
  - rewrite (Hnone eq_refl). reflexivity.
Qed.

Lemma Find_first n table :
  Find table (Some n)
  = Ok (match find (matches false n) table with Some e => sector e | None => -1 end).
Proof. apply lookup_first. Qed.

Lemma FindDir_first n table :
  FindDir table (Some n)
  = Ok (match find (matches true n) table with Some e => sector e | None => -1 end).
Proof. apply lookup_first. Qed.

Lemma FindIndex_first n table :
  (find (matches false n) table = None -> FindIndex table (Some n) = Ok (-1))
  /\ (forall e, find (matches false n) table = Some e ->
        exists pre post,
          table = pre ++ e :: post
          /\ find (matches false n) pre = None
          /\ FindIndex table (Some n) = Ok (Z.of_nat (length pre))).
Proof. apply (find_from_find false n table 0). lia. Qed.

Lemma find_app_none {A} (f : A -> bool) l1 l2 :
  find f l1 = None -> find f (l1 ++ l2) = find f l2.
Proof.
  induction l1 as [|x r IH]; simpl; [reflexivity|].
  destruct (f x); [discriminate | exact IH].
Qed.

Lemma find_none_app {A} (f : A -> bool) l1 l2 :
  find f (l1 ++ l2) = None -> find f l1 = None /\ find f l2 = None.
Proof.
  induction l1 as [|x r IH]; simpl; [auto|].
  destruct (f x); [discriminate | exact IH].
Qed.

(** Replacing an entry that fails the test by another that fails it
    changes no search. *)
Lemma find_replace_skipped {A} (f : A -> bool) pre a b post :
  f a = false -> f b = false ->
  find f (pre ++ b :: post) = find f (pre ++ a :: post).
Proof.
  intros Ha Hb. induction pre as [|x r IH]; simpl.
  - now rewrite Ha, Hb.
  - destruct (f x); [reflexivity | exact IH].
Qed.

(** The loop of [Add] and [AddDir]. *)
Lemma add_first_free_spec dir n s table :
  (Forall (fun e => inUse e = true) table
   /\ add_first_free FileNameMaxLen dir table (Some n) s = Ok None)
  \/ (exists pre e post,
        table = pre ++ e :: post
        /\ Forall (fun e => inUse e = true) pre
        /\ inUse e = false
        /\ add_first_free FileNameMaxLen dir table (Some n) s
           = Ok (Some (pre ++ mkDirEnt true dir (trunc n) s :: post))).
Proof.
  induction table as [|x rest IH]; simpl.
  - left. auto.
  - destruct (inUse x) eqn:Eu; simpl.
    + destruct IH as [[Hall Hrun]|(pre & e & post & -> & Hpre & He & Hrun)].
      * left. rewrite Hrun. simpl. split; [constructor; assumption | reflexivity].
      * right. exists (x :: pre), e, post. rewrite Hrun. simpl.
        repeat split; auto.
    + right. exists [], x, rest. simpl. repeat split; auto.
Qed.

Lemma matches_in_use d n e : matches d n e = true -> inUse e = true.
Proof. unfold entry_matches. destruct (inUse e); [auto | discriminate]. Qed.

Lemma matches_free d n e : inUse e = false -> matches d n e = false.
Proof. unfold entry_matches. now intros ->. Qed.

Lemma matches_new dir d n m s :
  matches d m (mkDirEnt true dir (trunc n) s) = (negb d || dir) && same n m.
Proof. unfold entry_matches. simpl. now rewrite same_name_trunc_l. Qed.

(** What a call of [Add] or [AddDir] that uses a name does: it returns
    [FALSE] and leaves the table as it is when an entry in use has the
    name or every entry is in use; otherwise the first entry not in use
    takes the name and the sector, and the call returns [TRUE]. *)
Lemma add_entry_spec dir n s table :
  ((find (matches false n) table <> None \/ Forall (fun e => inUse e = true) table)
   /\ add_entry dir table (Some n) s = Ok (false, table))
  \/ (exists pre e post,
        table = pre ++ e :: post
        /\ find (matches false n) table = None
        /\ Forall (fun e => inUse e = true) pre
        /\ inUse e = false
        /\ add_entry dir table (Some n) s
           = Ok (true, pre ++ mkDirEnt true dir (trunc n) s :: post)).
Proof.
  unfold FileSys.add_entry.
  destruct (FindIndex_first n table) as [Hnone Hsome].
  destruct (find (matches false n) table) as [e|] eqn:E.
  - left. split; [left; discriminate|].
    destruct (Hsome e eq_refl) as (pre & post & _ & _ & Hrun).
    rewrite Hrun. simpl bind.
    destruct (Z.eqb_spec (Z.of_nat (length pre)) (-1)); [lia | reflexivity].
  - specialize (Hnone eq_refl). rewrite Hnone. simpl bind.
    destruct (add_first_free_spec dir n s table)
      as [[Hall Hrun]|(pre & e & post & Ht & Hpre & He & Hrun)].
    + left. rewrite Hrun. simpl. auto.
    + right. exists pre, e, post. rewrite Hrun. simpl. repeat split; auto.
Qed.

Lemma Remove_entry_spec n table :
  (find (matches false n) table = None
   /\ Remove_entry table (Some n) = Ok (false, table))
  \/ (exists pre e post,
        table = pre ++ e :: post
        /\ find (matches false n) pre = None
        /\ matches false n e = true
        /\ Remove_entry table (Some n)
           = Ok (true, pre ++ mkDirEnt false false (name e) (sector e) :: post)).
Proof.
  unfold FileSys.Remove_entry.
  destruct (FindIndex_first n table) as [Hnone Hsome].
  destruct (find (matches false n) table) as [e|] eqn:E.
  - right. destruct (Hsome e eq_refl) as (pre & post & -> & Hpre & Hrun).
    exists pre, e, post.
    rewrite Hrun. simpl bind.
    destruct (Z.eqb_spec (Z.of_nat (length pre)) (-1)); [lia|].
    rewrite index_app_mid. simpl bind. rewrite index_set_app_mid. simpl bind.
    repeat split; auto.
    apply find_some in E. apply E.
  - left. specialize (Hnone eq_refl). rewrite Hnone. simpl. auto.
Qed.

End Directory.

Lemma nth_error_replace {A} (pre post : list A) (a b : A) i :
  nth_error (pre ++ b :: post) i
  = if Nat.eqb i (length pre) then Some b else nth_error (pre ++ a :: post) i.
Proof.
  destruct (Nat.eqb_spec i (length pre)) as [->|Hne].
  - apply nth_error_app_mid.
  - destruct (Nat.lt_ge_cases i (length pre)).
    + now rewrite !nth_error_app1 by assumption.
    + rewrite !nth_error_app2 by assumption.
      destruct (i - length pre)%nat as [|k] eqn:E; [lia | reflexivity].
Qed.

Lemma app_mid_inj {A} (l1 : list A) : forall l2 a b r1 r2,
  length l1 = length l2 -> l1 ++ a :: r1 = l2 ++ b :: r2 ->
  l1 = l2 /\ a = b /\ r1 = r2.
Proof.
  induction l1 as [|x l1 IH]; intros [|y l2] a b r1 r2 Hl H; simpl in *;
    try discriminate.
  - now inversion H.
  - inversion H; subst. destruct (IH l2 a b r1 r2) as (-> & -> & ->); auto.
Qed.

Section DirectoryOps.

Variable FileNameMaxLen : nat.

Local Abbreviation same := (same_name FileNameMaxLen).
Local Abbreviation trunc := (String.substring 0 FileNameMaxLen).
Local Abbreviation matches := (entry_matches FileNameMaxLen).
Local Abbreviation FindIndex := (FindIndex FileNameMaxLen).
Local Abbreviation Find := (Find FileNameMaxLen).
Local Abbreviation FindDir := (FindDir FileNameMaxLen).
Local Abbreviation Add := (Add FileNameMaxLen).
Local Abbreviation AddDir := (AddDir FileNameMaxLen).
Local Abbreviation add_entry := (add_entry FileNameMaxLen).
Local Abbreviation Remove_entry := (Remove_entry FileNameMaxLen).
Local Abbreviation unique := (names_unique FileNameMaxLen).

Lemma matches_dir_any n e : matches true n e = true -> matches false n e = true.
Proof.
  unfold entry_matches. destruct (inUse e), (isdir e), (same (name e) n); auto.
Qed.

Lemma find_dir_none n table :
  find (matches false n) table = None -> find (matches true n) table = None.
Proof.
  intros H. destruct (find (matches true n) table) as [e|] eqn:E; [|reflexivity].
  apply find_some in E. destruct E as [Hin Hm].
  apply matches_dir_any in Hm.
  pose proof (find_none _ _ H e Hin). congruence.
Qed.

Lemma find_from_replace_skipped d n pre a b post : forall i,
  matches d n a = false -> matches d n b = false ->
  find_from FileNameMaxLen d (pre ++ b :: post) i (Some n)
  = find_from FileNameMaxLen d (pre ++ a :: post) i (Some n).
Proof.
  unfold entry_matches.
  induction pre as [|x r IH]; intros i Ha Hb; simpl.
  - destruct (inUse a && (negb d || isdir a)), (inUse b && (negb d || isdir b));
      simpl in *; try rewrite Ha; try rewrite Hb; reflexivity.
  - rewrite IH by assumption. reflexivity.
Qed.

(** What a successful [Add] or [AddDir] leaves in the table. *)
Lemma add_entry_then_lookup dir table table' n s :
  add_entry dir table (Some n) s = Ok (true, table') ->
  length table' = length table
  /\ Find table' (Some n) = Ok s
  /\ FindDir table' (Some n) = Ok (if dir then s else -1)
  /\ (forall m, same m n = false ->
        Find table' (Some m) = Find table (Some m)
        /\ FindDir table' (Some m) = FindDir table (Some m)).
Proof.
  intros H.
  destruct (add_entry_spec FileNameMaxLen dir n s table)
    as [[_ Hrun]|(pre & e & post & -> & Hnone & Hpre & He & Hrun)];
    [congruence|].
  rewrite Hrun in H. inversion H; subst table'. clear H.
  destruct (find_none_app _ _ _ Hnone) as [Hn1 Hn2]. simpl in Hn2.
  rewrite (matches_free FileNameMaxLen false n e He) in Hn2.
  split; [rewrite !length_app; reflexivity|].
  split; [|split].
  - rewrite Find_first, find_app_none by exact Hn1. simpl.
    rewrite matches_new, same_name_refl. reflexivity.
  - rewrite FindDir_first, find_app_none by (now apply find_dir_none). simpl.
    rewrite matches_new, same_name_refl. destruct dir; simpl; [reflexivity|].
    now rewrite (find_dir_none n post Hn2).
  - intros m Hm.
    assert (Hnew : forall d, matches d m (mkDirEnt true dir (trunc n) s) = false).
    { intros d. rewrite matches_new, same_name_sym, Hm. apply andb_false_r. }
    rewrite !Find_first, !FindDir_first.
    rewrite (find_replace_skipped (matches false m) pre e _ post
               (matches_free FileNameMaxLen false m e He) (Hnew false)).
    rewrite (find_replace_skipped (matches true m) pre e _ post
               (matches_free FileNameMaxLen true m e He) (Hnew true)).
    auto.
Qed.

(** An added name is found.  When [Add(name, newSector)] returns [TRUE],
    [Find(name)] returns [newSector] and [FindDir(name)] returns [-1];
    when [AddDir(name, newSector)] returns [TRUE], both return
    [newSector].  In either case the table keeps its size, and [Find] and
    [FindDir] answer as before for every name that differs from [name]
    within the first [FileNameMaxLen] characters. *)
Theorem Add_then_Find (table table' : Directory) (n : string) (s : Z) :
  (Add table (Some n) s = Ok (true, table') ->
     length table' = length table
     /\ Find table' (Some n) = Ok s
     /\ FindDir table' (Some n) = Ok (-1)
     /\ (forall m, same m n = false ->
           Find table' (Some m) = Find table (Some m)
           /\ FindDir table' (Some m) = FindDir table (Some m)))
  /\
  (AddDir table (Some n) s = Ok (true, table') ->
     length table' = length table
     /\ Find table' (Some n) = Ok s
     /\ FindDir table' (Some n) = Ok s
     /\ (forall m, same m n = false ->
           Find table' (Some m) = Find table (Some m)
           /\ FindDir table' (Some m) = FindDir table (Some m))).
Proof.
  split; intros H.
  - exact (add_entry_then_lookup false table table' n s H).
  - exact (add_entry_then_lookup true table table' n s H).
Qed.

(** When [Add] and [AddDir] refuse.  A call with a name always returns;
    it returns [FALSE] exactly when an entry in use has the same first
    [FileNameMaxLen] characters or every entry of the table is in use,
    and then the table is left as it was. *)
Theorem Add_refuses (dir : bool) (table : Directory) (n : string) (s : Z) :
  exists b table',
    (if dir then AddDir table (Some n) s else Add table (Some n) s) = Ok (b, table')
    /\ (b = false -> table' = table)
    /\ (b = false <->
        (exists e, In e table /\ inUse e = true /\ same (name e) n = true)
        \/ Forall (fun e => inUse e = true) table).
Proof.
  assert (Hgen : exists b table',
    add_entry dir table (Some n) s = Ok (b, table')
    /\ (b = false -> table' = table)
    /\ (b = false <->
        (exists e, In e table /\ inUse e = true /\ same (name e) n = true)
        \/ Forall (fun e => inUse e = true) table)).
  { destruct (add_entry_spec FileNameMaxLen dir n s table)
      as [[Hwhy Hrun]|(pre & e & post & Ht & Hnone & Hpre & He & Hrun)].
    - exists false, table. split; [exact Hrun|]. split; [auto|].
      split; [|auto]. intros _.
      destruct Hwhy as [Hfound|Hfull]; [left | now right].
      destruct (find (matches false n) table) as [e|] eqn:E; [|congruence].
      apply find_some in E. destruct E as [Hin Hm]. exists e.
      unfold entry_matches in Hm. simpl in Hm.
      destruct (inUse e), (same (name e) n); simpl in Hm; try discriminate. auto.
    - eexists true, _. split; [exact Hrun|]. split; [discriminate|].
      split; [discriminate|]. intros [(x & Hin & Hu & Hs)|Hfull]; exfalso.
      + pose proof (find_none _ _ Hnone x Hin) as Hx.
        unfold entry_matches in Hx. simpl in Hx. rewrite Hu, Hs in Hx. discriminate.
      + rewrite Forall_forall in Hfull.
        assert (inUse e = true) by (apply Hfull; subst table; apply in_elt).
        congruence. }
  destruct dir; exact Hgen.
Qed.

(** [Directory::Remove] of a name just added. *)
(** The table after an entry has been added and the table after the
    same name has then been removed. *)
Lemma add_then_remove_shape (dir : bool) (table table1 : Directory) (n : string) (s : Z) :
  add_entry dir table (Some n) s = Ok (true, table1) ->
  exists pre e post,
    table = pre ++ e :: post
    /\ inUse e = false
    /\ find (matches false n) pre = None
    /\ table1 = pre ++ mkDirEnt true dir (trunc n) s :: post
    /\ Remove_entry table1 (Some n)
       = Ok (true, pre ++ mkDirEnt false false (trunc n) s :: post).
Proof.
  intros H'.
  destruct (add_entry_spec FileNameMaxLen dir n s table)
    as [[_ Hrun]|(pre & e & post & -> & Hnone & Hpre & He & Hrun)];
    [congruence|].
  rewrite Hrun in H'. inversion H'; subst table1. clear H'.
  destruct (find_none_app _ _ _ Hnone) as [Hn1 Hn2].
  set (E := mkDirEnt true dir (trunc n) s).
  destruct (Remove_entry_spec FileNameMaxLen n (pre ++ E :: post))
    as [[Hmiss _]|(pre' & e' & post' & Ht & Hpre' & Hm & Hrun')].
  { rewrite find_app_none in Hmiss by exact Hn1. simpl in Hmiss.
    unfold E in Hmiss. rewrite matches_new, same_name_refl in Hmiss. discriminate. }
  assert (Hsame : pre' = pre /\ e' = E /\ post' = post).
  { assert (Hlen : length pre' = length pre).
    { destruct (Nat.lt_trichotomy (length pre') (length pre)) as [Hlt|[Heq|Hgt]];
        [exfalso | exact Heq | exfalso].
      - assert (Hin : nth_error pre (length pre') = Some e').
        { rewrite <- (nth_error_app1 pre (E :: post)) by exact Hlt.
          rewrite Ht. apply nth_error_app_mid. }
        apply nth_error_In in Hin.
        pose proof (find_none _ _ Hn1 e' Hin). congruence.
      - assert (Hin : nth_error pre' (length pre) = Some E).
        { rewrite <- (nth_error_app1 pre' (e' :: post')) by exact Hgt.
          rewrite <- Ht. apply nth_error_app_mid. }
        apply nth_error_In in Hin.
        pose proof (find_none _ _ Hpre' E Hin) as HE.
        unfold E in HE. rewrite matches_new, same_name_refl in HE. discriminate. }
    symmetry in Ht. now apply app_mid_inj in Ht. }
  destruct Hsame as (-> & -> & ->).
  exists pre, e, post. repeat split; auto.
Qed.

Lemma Remove_entry_after_add (dir : bool) (table table1 : Directory) (n : string) (s : Z) :
  add_entry dir table (Some n) s = Ok (true, table1) ->
  exists table2,
    Remove_entry table1 (Some n) = Ok (true, table2)
    /\ length table2 = length table
    /\ forall m,
         FindIndex table2 (Some m) = FindIndex table (Some m)
         /\ Find table2 (Some m) = Find table (Some m)
         /\ FindDir table2 (Some m) = FindDir table (Some m).
Proof.
  intros H'.
  destruct (add_then_remove_shape dir table table1 n s H')
    as (pre & e & post & -> & He & _ & -> & Hrun').
  eexists. split; [exact Hrun'|].
  split; [rewrite !length_app; reflexivity|].
  intros m.
  assert (Hold : forall d, matches d m e = false)
    by (intros d; now apply matches_free).
  assert (Hnew : forall d, matches d m (mkDirEnt false false (trunc n) s) = false)
    by (intros d; now apply matches_free).
  split; [|split].
  - apply find_from_replace_skipped; auto.
  - rewrite !Find_first. f_equal.
    now rewrite (find_replace_skipped (matches false m) pre e _ post).
  - rewrite !FindDir_first. f_equal.
    now rewrite (find_replace_skipped (matches true m) pre e _ post).
Qed.

(** [Remove] undoes [Add].  After a successful [Add] or [AddDir] of a
    name, [Directory::Remove] of that name returns [TRUE], and the table
    then answers every [FindIndex], [Find] and [FindDir] as it did before
    the name was added. *)
Theorem Remove_after_Add (dir : bool) (table table1 : Directory) (n : string) (s : Z) :
  (if dir then AddDir table (Some n) s else Add table (Some n) s) = Ok (true, table1) ->
  exists table2,
    Remove_entry table1 (Some n) = Ok (true, table2)
    /\ length table2 = length table
    /\ forall m,
         FindIndex table2 (Some m) = FindIndex table (Some m)
         /\ Find table2 (Some m) = Find table (Some m)
         /\ FindDir table2 (Some m) = FindDir table (Some m).
Proof.
  intros H. apply (Remove_entry_after_add dir table table1 n s). destruct dir; exact H.
Qed.

(** A directory built by the constructor, [Add], [AddDir] and [Remove]
    never holds a name twice, and so a removed name is gone: the empty
    directory has no two entries in use with the same name; [Add],
    [AddDir] and [Remove] keep it so; and in such a directory, after
    [Remove(name)], [Find(name)] and [FindDir(name)] return [-1]. *)
Theorem directory_names_unique :
  (forall size, unique (empty_directory size))
  /\ (forall (dir : bool) table n s b table',
        unique table ->
        (if dir then AddDir table (Some n) s else Add table (Some n) s)
        = Ok (b, table') ->
        unique table')
  /\ (forall table n b table',
        unique table ->
        Remove_entry table (Some n) = Ok (b, table') ->
        unique table'
        /\ Find table' (Some n) = Ok (-1)
        /\ FindDir table' (Some n) = Ok (-1)).
Proof.
  split; [|split].
  - intros size i j e1 e2 H1 _ Hu _ _. exfalso.
    unfold empty_directory in H1. apply nth_error_In in H1.
    apply repeat_spec in H1. subst e1. discriminate.
  - intros dir table n s b table' Hu H.
    assert (H' : add_entry dir table (Some n) s = Ok (b, table'))
      by (destruct dir; exact H).
    clear H.
    destruct (add_entry_spec FileNameMaxLen dir n s table)
      as [[_ Hrun]|(pre & e & post & -> & Hnone & Hpre & He & Hrun)];
      rewrite Hrun in H'; inversion H'; subst; [exact Hu|]. clear H'.
    set (E := mkDirEnt true dir (trunc n) s).
    assert (Hclash : forall j x, nth_error (pre ++ e :: post) j = Some x ->
              inUse x = true -> same (name x) n = false).
    { intros j x Hx Hin. apply nth_error_In in Hx.
      pose proof (find_none _ _ Hnone x Hx) as Hm.
      unfold entry_matches in Hm. rewrite Hin in Hm. simpl in Hm. exact Hm. }
    intros i j e1 e2 H1 H2 Hu1 Hu2 Hs.
    rewrite (nth_error_replace pre post e E) in H1, H2.
    destruct (Nat.eqb_spec i (length pre)) as [->|Hi],
             (Nat.eqb_spec j (length pre)) as [->|Hj]; try reflexivity.
    + exfalso. inversion H1; subst e1. simpl in Hs.
      rewrite same_name_trunc_l, same_name_sym in Hs.
      rewrite (Hclash j e2 H2 Hu2) in Hs. discriminate.
    + exfalso. inversion H2; subst e2. simpl in Hs.
      rewrite same_name_sym, same_name_trunc_l, same_name_sym in Hs.
      rewrite (Hclash i e1 H1 Hu1) in Hs. discriminate.
    + exact (Hu i j e1 e2 H1 H2 Hu1 Hu2 Hs).
  - intros table n b table' Hu H.
    destruct (Remove_entry_spec FileNameMaxLen n table)
      as [[Hmiss Hrun]|(pre & e & post & -> & Hpre & Hm & Hrun)];
      rewrite Hrun in H; inversion H; subst; clear H.
    + split; [exact Hu|].
      rewrite Find_first, FindDir_first, Hmiss, (find_dir_none n _ Hmiss). auto.
    + set (E := mkDirEnt false false (name e) (sector e)).
      assert (Hpost : find (matches false n) post = None).
      { destruct (find (matches false n) post) as [x|] eqn:Ex; [|reflexivity].
        exfalso. apply find_some in Ex. destruct Ex as [Hin Hx].
        apply In_nth_error in Hin. destruct Hin as [k Hk].
        assert (H1 : nth_error (pre ++ e :: post) (length pre) = Some e)
          by apply nth_error_app_mid.
        assert (H2 : nth_error (pre ++ e :: post) (length pre + S k) = Some x).
        { rewrite nth_error_app2 by lia.
          replace (length pre + S k - length pre)%nat with (S k) by lia. exact Hk. }
        assert (length pre = (length pre + S k)%nat); [|lia].
        apply (Hu _ _ e x H1 H2).
        - eapply matches_in_use; eauto.
        - eapply matches_in_use; eauto.
        - unfold entry_matches in Hm, Hx.
          destruct (inUse e), (inUse x); simpl in Hm, Hx; try discriminate.
          apply (same_name_trans FileNameMaxLen _ n); [exact Hm|].
          now rewrite same_name_sym. }
      assert (Hgone : find (matches false n) (pre ++ E :: post) = None).
      { rewrite find_app_none by exact Hpre. cbn [find].
        now rewrite (matches_free FileNameMaxLen false n E eq_refl). }
      split; [|rewrite Find_first, FindDir_first, Hgone, (find_dir_none n _ Hgone); auto].
      intros i j e1 e2 H1 H2 Hu1 Hu2 Hs.
      rewrite (nth_error_replace pre post e E) in H1, H2.
      destruct (Nat.eqb_spec i (length pre)) as [->|Hi];
        [inversion H1; subst e1; discriminate|].
      destruct (Nat.eqb_spec j (length pre)) as [->|Hj];
        [inversion H2; subst e2; discriminate|].
      exact (Hu i j e1 e2 H1 H2 Hu1 Hu2 Hs).
Qed.

End DirectoryOps.

(** *** What [Allocate] keeps *)

Section Keeps.

Variables SectorSize NumDirect : Z.
Variable blank : FileHeader.

Lemma allocate_children_keeps f level slots : forall idx fileSize h fm disk h' fm' disk',
  (forall h0 fm0 disk0 size b h1 fm1 disk1,
     f h0 fm0 disk0 size = Ok (b, h1, fm1, disk1) -> length disk1 = length disk0) ->
  allocate_children blank f level slots idx fileSize h fm disk = Ok (h', fm', disk') ->
  length disk' = length disk
  /\ numBytes h' = numBytes h /\ numSectors h' = numSectors h
  /\ length (dataSectors h') = length (dataSectors h).
Proof.
  induction slots as [|slots IH]; intros idx fileSize h fm disk h' fm' disk' Hf H;
    simpl in H.
  - destruct (fileSize >? 0); [discriminate|]. inversion H; subst. auto.
  - destruct (fileSize >? 0); [|inversion H; subst; auto].
    destruct (FindAndSet fm) as [s fm1].
    destruct (index_set (dataSectors h) idx s) as [d|] eqn:Ed; simpl in H; [|discriminate].
    destruct (assert (s >=? 0)); simpl in H; [|discriminate].
    destruct (f blank fm1 disk _) as [[[[b next_level] fm2] disk2]|] eqn:Ef;
      simpl in H; [|discriminate].
    destruct (WriteBack disk2 s next_level) as [disk3|] eqn:Ew; simpl in H; [|discriminate].
    apply IH in H; [|exact Hf]. simpl in H.
    destruct H as (Hl & Hb & Hs & Hd).
    apply Hf in Ef. apply index_set_length in Ew. apply index_set_length in Ed.
    repeat split; congruence.
Qed.

Lemma allocate_leaf_keeps n : forall i h fm h' fm',
  allocate_leaf n i h fm = Ok (h', fm') ->
  numBytes h' = numBytes h /\ numSectors h' = numSectors h
  /\ length (dataSectors h') = length (dataSectors h).
Proof.
  induction n as [|n IH]; intros i h fm h' fm' H; simpl in H.
  - inversion H; subst. auto.
  - destruct (FindAndSet fm) as [s fm1].
    destruct (index_set (dataSectors h) i s) as [d|] eqn:Ed; simpl in H; [|discriminate].
    destruct (assert (s >=? 0)); simpl in H; [|discriminate].
    apply IH in H. simpl in H. apply index_set_length in Ed.
    destruct H as (Hb & Hs & Hd). repeat split; congruence.
Qed.

(** [Allocate] keeps the number of sectors of the disk and the size of
    [dataSectors]; it records [fileSize] in [numBytes]; and when it
    returns [FALSE] it has changed neither the free map nor the disk. *)
Lemma Allocate_rec_keeps d : forall h fm disk fileSize b h' fm' disk',
  Allocate_rec SectorSize NumDirect blank d h fm disk fileSize = Ok (b, h', fm', disk') ->
  length disk' = length disk
  /\ numBytes h' = fileSize
  /\ length (dataSectors h') = length (dataSectors h)
  /\ (b = false -> fm' = fm /\ disk' = disk).
Proof.
  induction d as [|d IH]; intros h fm disk fileSize b h' fm' disk' H; simpl in H;
    [discriminate|].
  destruct (NumClear fm <? divRoundUp fileSize SectorSize).
  { inversion H; subst. simpl. auto. }
  assert (Hch : forall level,
    (do r <- allocate_children blank (Allocate_rec SectorSize NumDirect blank d) level
               (length (dataSectors (set_size h fileSize (divRoundUp fileSize SectorSize))))
               0 fileSize (set_size h fileSize (divRoundUp fileSize SectorSize)) fm disk;
     (let '(h1, freeMap1, disk1) := r in Ok (true, h1, freeMap1, disk1)))
    = Ok (b, h', fm', disk') ->
    length disk' = length disk /\ numBytes h' = fileSize
    /\ length (dataSectors h') = length (dataSectors h)
    /\ (b = false -> fm' = fm /\ disk' = disk)).
  { clear H. intros level Hc.
    destruct (allocate_children _ _ _ _ _ _ _ _ _) as [[[h1 fm1] disk1]|] eqn:E;
      simpl in Hc; [|discriminate].
    inversion Hc; subst.
    apply allocate_children_keeps in E.
    - simpl in E. destruct E as (? & ? & ? & ?). repeat split; auto; discriminate.
    - intros h0 fm0 disk0 size b0 h2 fm2 disk2 Hr. now apply IH in Hr. }
  destruct (fileSize >? bytes_in_level3 SectorSize NumDirect); [exact (Hch _ H)|].
  destruct (fileSize >? bytes_in_level2 SectorSize NumDirect); [exact (Hch _ H)|].
  destruct (fileSize >? bytes_in_level1 SectorSize NumDirect); [exact (Hch _ H)|].
  destruct (allocate_leaf _ _ _ _) as [[h1 fm1]|] eqn:E; simpl in H; [|discriminate].
  inversion H; subst. apply allocate_leaf_keeps in E. simpl in E.
  destruct E as (? & ? & ?). repeat split; auto; discriminate.
Qed.

End Keeps.

(** *** Paths *)

Section PathsAndFiles.

Variables SectorSize NumDirect : Z.
Variable blank : FileHeader.
Variable FileNameMaxLen : nat.

Local Abbreviation resolve := (resolve FileNameMaxLen).
Local Abbreviation Find := (Find FileNameMaxLen).
Local Abbreviation FindDir := (FindDir FileNameMaxLen).
Local Abbreviation Add := (Add FileNameMaxLen).
Local Abbreviation Create := (Create SectorSize NumDirect blank FileNameMaxLen).
Local Abbreviation Remove := (Remove SectorSize NumDirect FileNameMaxLen).
Local Abbreviation Open := (Open FileNameMaxLen).
Local Abbreviation Allocate := (Allocate SectorSize NumDirect blank).

(** The path loop keeps [directory] the table of the file
    [prevDirOpenFile]. *)
Lemma resolve_table fs toks : forall p directory prev rest,
  resolve fs toks (dirData fs p) p = Ok (directory, prev, rest) ->
  directory = dirData fs prev.
Proof.
  induction toks as [|token toks IH]; intros p directory prev rest H; simpl in H.
  - now inversion H.
  - destruct (FileSys.FindDir FileNameMaxLen (dirData fs p) (Some token)) as [s|];
      simpl in H; [|discriminate].
    destruct (s <? 0); [now inversion H|].
    unfold OpenFile in H.
    destruct (FetchFrom (sectors fs) s); simpl in H; [|discriminate].
    now apply IH in H.
Qed.

(** File systems that agree on the directories of every file, as far as
    [FindDir] sees them, and on the number of sectors, resolve every path
    alike. *)
Lemma resolve_agree fs fs' toks : forall p directory prev rest,
  length (sectors fs') = length (sectors fs) ->
  (forall f n, FindDir (dirData fs' f) (Some n) = FindDir (dirData fs f) (Some n)) ->
  resolve fs toks (dirData fs p) p = Ok (directory, prev, rest) ->
  resolve fs' toks (dirData fs' p) p = Ok (dirData fs' prev, prev, rest).
Proof.
  induction toks as [|token toks IH]; intros p directory prev rest Hlen Hdir H;
    simpl in *.
  - now inversion H.
  - rewrite Hdir.
    destruct (FileSys.FindDir FileNameMaxLen (dirData fs p) (Some token)) as [s|];
      simpl in *; [|discriminate].
    destruct (s <? 0); [now inversion H|].
    unfold OpenFile, FetchFrom, index in *.
    destruct (s <? 0); simpl in *; [discriminate|].
    destruct (nth_error (sectors fs) (Z.to_nat s)) eqn:E; simpl in H; [|discriminate].
    destruct (nth_error_some_lt (sectors fs') (Z.to_nat s)) as [x Hx].
    { rewrite Hlen. apply nth_error_Some. congruence. }
    rewrite Hx. simpl. eapply IH; eauto.
Qed.

Lemma add_entry_null dir table s t' :
  add_entry FileNameMaxLen dir table None s <> Ok (true, t').
Proof.
  unfold add_entry, FindIndex.
  destruct (find_from FileNameMaxLen false table 0 None) as [i|]; simpl; [|discriminate].
  destruct (negb (i =? -1)); [discriminate|].
  assert (H : forall r, add_first_free FileNameMaxLen dir table None s = Ok r -> r = None).
  { induction table as [|e rest IH]; simpl; intros r Hr.
    - now inversion Hr.
    - destruct (negb (inUse e)); [discriminate|].
      destruct (add_first_free FileNameMaxLen dir rest None s) as [r0|]; simpl in Hr;
        [|discriminate].
      rewrite (IH r0 eq_refl) in Hr. now inversion Hr. }
  destruct (add_first_free FileNameMaxLen dir table None s) as [r|] eqn:E; simpl;
    [|discriminate].
  rewrite (H r eq_refl). discriminate.
Qed.

(** The steps of a [Create] that returns [TRUE]. *)
Lemma Create_true fs name initialSize fs' :
  Create fs name initialSize = Ok (true, fs') ->
  exists prev toks token new_sector fm0 directory1 hdr fm1 disk1 disk2,
    resolve fs (strtok name) (dirData fs DirectorySector) DirectorySector
    = Ok (dirData fs prev, prev, token :: toks)
    /\ FindAndSet (freeMapData fs) = (new_sector, fm0)
    /\ new_sector <> -1
    /\ Add (dirData fs prev) (Some token) new_sector = Ok (true, directory1)
    /\ Allocate blank fm0 (sectors fs) initialSize = Ok (true, hdr, fm1, disk1)
    /\ WriteBack disk1 new_sector hdr = Ok disk2
    /\ fs' = mkFS disk2 (write_dir (dirData fs) prev directory1) fm1.
Proof.
  unfold FileSys.Create. intros H.
  destruct (FileSys.resolve FileNameMaxLen fs (strtok name) _ _)
    as [[[directory prev] toks]|] eqn:Er; simpl in H; [|discriminate].
  pose proof (resolve_table _ _ _ _ _ _ Er) as ->.
  destruct (FileSys.Find FileNameMaxLen (dirData fs prev) (hd_error toks)) as [s0|];
    simpl in H; [|discriminate].
  destruct (s0 >=? 0); [discriminate|].
  destruct (FindAndSet (freeMapData fs)) as [new_sector fm0] eqn:Ef.
  destruct (Z.eqb_spec new_sector (-1)); [discriminate|].
  destruct (FileSys.Add FileNameMaxLen (dirData fs prev) (hd_error toks) new_sector)
    as [[added directory1]|] eqn:Ea; simpl in H; [|discriminate].
  destruct added; simpl in H; [|discriminate].
  destruct toks as [|token toks]; simpl in Ea.
  { exfalso. exact (add_entry_null _ _ _ _ Ea). }
  destruct (FileSys.Allocate SectorSize NumDirect blank blank fm0 (sectors fs) initialSize)
    as [[[[allocated hdr] fm1] disk1]|] eqn:Eal; simpl in H; [|discriminate].
  destruct allocated; simpl in H; [|discriminate].
  destruct (WriteBack disk1 new_sector hdr) as [disk2|] eqn:Ew; simpl in H; [|discriminate].
  inversion H; subst fs'.
  exists prev, toks, token, new_sector, fm0, directory1, hdr, fm1, disk1, disk2.
  repeat split; auto.
Qed.

End PathsAndFiles.

(** *** A second call on the same buffer *)

Lemma strtok_buffer_first name t rest :
  strtok name = t :: rest -> strtok (strtok_buffer name) = [t].
Proof. intros H. now rewrite strtok_buffer_tokens, H. Qed.

Lemma strtok_buffer_single name t :
  strtok name = [t] -> strtok (strtok_buffer name) = strtok name.
Proof. intros H. now rewrite strtok_buffer_tokens, H. Qed.

Lemma Clear_Test m s m' : Clear m s = Ok m' -> Test m' s = Ok false.
Proof. unfold Clear, Test. apply index_set_same. Qed.

Section SameBuffer.

Variables SectorSize NumDirect : Z.
Variable blank : FileHeader.
Variable FileNameMaxLen : nat.
Variable DirectoryFileSize : Z.

Local Abbreviation resolve := (resolve FileNameMaxLen).
Local Abbreviation resolve_dir := (resolve_dir FileNameMaxLen).
Local Abbreviation Find := (Find FileNameMaxLen).
Local Abbreviation FindDir := (FindDir FileNameMaxLen).
Local Abbreviation matches := (entry_matches FileNameMaxLen).
Local Abbreviation Create := (Create SectorSize NumDirect blank FileNameMaxLen).
Local Abbreviation CreateSubDir :=
  (CreateSubDir SectorSize NumDirect blank FileNameMaxLen DirectoryFileSize).
Local Abbreviation Remove := (Remove SectorSize NumDirect FileNameMaxLen).
Local Abbreviation RemoveDir := (RemoveDir SectorSize NumDirect FileNameMaxLen).
Local Abbreviation Open := (Open FileNameMaxLen).
Local Abbreviation SysOpen := (SysOpen FileNameMaxLen).
Local Abbreviation opens_directory := (opens_directory FileNameMaxLen).

(** [Find(NULL)] on a directory that has an entry in use: [strncmp]
    reads through the [NULL] pointer at the first such entry. *)
Lemma find_from_null table : forall i,
  (exists e, In e table /\ inUse e = true) ->
  find_from FileNameMaxLen false table i None = Stop NullPointer.
Proof.
  induction table as [|e0 rest IH]; intros i (e & Hin & Hu); [contradiction|].
  cbn [find_from]. destruct (inUse e0) eqn:E0; [reflexivity|].
  cbn [andb]. apply IH. destruct Hin as [->|Hin]; [congruence | eauto].
Qed.

Lemma Find_null table :
  (exists e, In e table /\ inUse e = true) -> Find table None = Stop NullPointer.
Proof.
  intros H. unfold FileSys.Find, FindIndex. now rewrite find_from_null.
Qed.

(** A directory that [FindDir] finds a name in has an entry in use, and
    so has one to which a name has been added. *)
Lemma FindDir_in_use table n s :
  FindDir table (Some n) = Ok s -> 0 <= s ->
  exists e, In e table /\ inUse e = true.
Proof.
  rewrite FindDir_first. intros H Hs.
  destruct (find (matches true n) table) as [e|] eqn:E.
  - apply find_some in E. destruct E as [Hin Hm]. exists e. split; [exact Hin|].
    unfold entry_matches in Hm.
    apply andb_prop in Hm. destruct Hm as [Hm _].
    apply andb_prop in Hm. now destruct Hm.
  - inversion H. lia.
Qed.

Lemma added_in_use (dir : bool) table table1 n s :
  add_entry FileNameMaxLen dir table (Some n) s = Ok (true, table1) ->
  exists e, In e table1 /\ inUse e = true.
Proof.
  intros H.
  destruct (add_then_remove_shape FileNameMaxLen dir table table1 n s H)
    as (pre & e & post & _ & _ & _ & -> & _).
  eexists. split; [apply in_or_app; right; left; reflexivity | reflexivity].
Qed.

(** A path loop that stops in another directory than the one it
    started in has found a subdirectory there. *)
Lemma resolve_moves fs toks p d prev rest :
  resolve fs toks (dirData fs p) p = Ok (d, prev, rest) ->
  rest <> [] -> prev <> p ->
  exists e, In e (dirData fs p) /\ inUse e = true.
Proof.
  intros H Hrest Hprev. destruct toks as [|a toks]; simpl in H.
  - inversion H; subst. contradiction.
  - destruct (FileSys.FindDir FileNameMaxLen (dirData fs p) (Some a)) as [s|] eqn:Ef;
      simpl in H; [|discriminate].
    destruct (Z.ltb_spec s 0); [inversion H; subst; contradiction|].
    eapply FindDir_in_use; eauto.
Qed.

(** The first step of the path loop, when the first token names a
    subdirectory of the root. *)
Lemma opens_directory_true fs name :
  opens_directory fs name = true ->
  exists t rest s,
    strtok name = t :: rest
    /\ FindDir (dirData fs DirectorySector) (Some t) = Ok s
    /\ 0 <= s.
Proof.
  unfold FileSys.opens_directory. intros H.
  destruct (strtok name) as [|t rest]; [discriminate|].
  destruct (FileSys.FindDir _ _ _) as [s|] eqn:Ef; [|discriminate].
  exists t, rest, s. split; [reflexivity|]. split; [exact Ef|].
  now apply Z.leb_le.
Qed.

Lemma opens_directory_agree fs fs' name :
  (forall m, FindDir (dirData fs' DirectorySector) (Some m)
             = FindDir (dirData fs DirectorySector) (Some m)) ->
  opens_directory fs' name = opens_directory fs name.
Proof.
  intros H. unfold FileSys.opens_directory.
  destruct (strtok name) as [|t rest]; [reflexivity|]. now rewrite H.
Qed.

(** When the path loop opens no directory, a second call on the same
    buffer is a call on a fresh copy of the name: the buffer has lost
    only what the loop does not look at. *)
Lemma second_call_outside fs name :
  opens_directory fs name = false ->
  (forall size, Create fs (strtok_buffer name) size = Create fs name size)
  /\ CreateSubDir fs (strtok_buffer name) = CreateSubDir fs name
  /\ Open fs (strtok_buffer name) = Open fs name
  /\ SysOpen fs (strtok_buffer name) = SysOpen fs name
  /\ (forall fuel, Remove fuel fs (strtok_buffer name) = Remove fuel fs name)
  /\ (forall fuel sector pre_token,
        RemoveDir fuel fs (strtok_buffer name) sector pre_token
        = RemoveDir fuel fs name sector pre_token).
Proof.
  unfold FileSys.opens_directory. intros H.
  assert (Hres : resolve fs (strtok (strtok_buffer name))
                   (dirData fs DirectorySector) DirectorySector
                 = Ok (dirData fs DirectorySector, DirectorySector,
                       strtok (strtok_buffer name))
                 /\ resolve fs (strtok name) (dirData fs DirectorySector) DirectorySector
                    = Ok (dirData fs DirectorySector, DirectorySector, strtok name)
                 /\ hd_error (strtok (strtok_buffer name)) = hd_error (strtok name)
                 /\ forall sector pre_token,
                      resolve_dir fs (strtok (strtok_buffer name))
                        (dirData fs DirectorySector) None DirectorySector sector pre_token
                      = resolve_dir fs (strtok name)
                          (dirData fs DirectorySector) None DirectorySector sector
                          pre_token).
  { rewrite strtok_buffer_tokens.
    destruct (strtok name) as [|t rest]; [repeat split|].
    rewrite FindDir_first in H. apply Z.leb_gt in H.
    cbn [firstn FileSys.resolve FileSys.resolve_dir hd_error].
    rewrite FindDir_first. cbn [bind].
    destruct (Z.ltb_spec (match find (matches true t) (dirData fs DirectorySector) with
                          | Some e => sector e
                          | None => -1
                          end) 0); [|lia].
    repeat split. }
  destruct Hres as (Hb & Hn & Hhd & Hd).
  assert (Hopen : Open fs (strtok_buffer name) = Open fs name)
    by (unfold FileSys.Open; rewrite Hb, Hn; cbn [bind]; now rewrite Hhd).
  split; [intros size; unfold FileSys.Create; rewrite Hb, Hn; cbn [bind]; now rewrite Hhd|].
  split; [unfold FileSys.CreateSubDir; rewrite Hb, Hn; cbn [bind]; now rewrite Hhd|].
  split; [exact Hopen|].
  split; [unfold FileSys.SysOpen; fold (FileSys.Open FileNameMaxLen); now rewrite Hopen|].
  split; [intros fuel; unfold FileSys.Remove; rewrite Hb, Hn; cbn [bind]; now rewrite Hhd|].
  intros fuel sector pre_token. unfold FileSys.RemoveDir. now rewrite Hd.
Qed.

(** When the first token names a subdirectory of the root that has an
    entry in use, a second call on the same buffer goes into that
    directory with no token left: [Create], [Open] and [Remove] hand
    [NULL] to [Find], and [CreateSubDir] returns [FALSE]. *)
Lemma second_call_inside fs name t rest s h :
  strtok name = t :: rest ->
  FindDir (dirData fs DirectorySector) (Some t) = Ok s ->
  0 <= s ->
  FetchFrom (sectors fs) s = Ok h ->
  (exists e, In e (dirData fs s) /\ inUse e = true) ->
  Open fs (strtok_buffer name) = Stop NullPointer
  /\ SysOpen fs (strtok_buffer name) = Stop NullPointer
  /\ (forall size, Create fs (strtok_buffer name) size = Stop NullPointer)
  /\ (forall fuel, Remove fuel fs (strtok_buffer name) = Stop NullPointer)
  /\ CreateSubDir fs (strtok_buffer name) = Ok (false, fs).
Proof.
  intros Hn Hf Hs Hh Hu.
  assert (Hres : resolve fs (strtok (strtok_buffer name))
                   (dirData fs DirectorySector) DirectorySector
                 = Ok (dirData fs s, s, [])).
  { rewrite (strtok_buffer_first name t rest Hn). cbn [FileSys.resolve].
    rewrite Hf. cbn [bind]. destruct (Z.ltb_spec s 0); [lia|].
    unfold OpenFile. rewrite Hh. reflexivity. }
  pose proof (Find_null _ Hu) as Hnull.
  assert (Hopen : Open fs (strtok_buffer name) = Stop NullPointer)
    by (unfold FileSys.Open; rewrite Hres; cbn [bind hd_error]; now rewrite Hnull).
  split; [exact Hopen|].
  split; [unfold FileSys.SysOpen; fold (FileSys.Open FileNameMaxLen); now rewrite Hopen|].
  split; [intros size; unfold FileSys.Create; rewrite Hres; cbn [bind hd_error];
          now rewrite Hnull|].
  split; [intros fuel; unfold FileSys.Remove; rewrite Hres; cbn [bind hd_error];
          now rewrite Hnull|].
  unfold FileSys.CreateSubDir. rewrite Hres. reflexivity.
Qed.

(** In the same case [RemoveDir] works on that directory: what it
    clears last in the free map is the sector of its header. *)
Lemma second_RemoveDir_inside fs name t rest s h fuel sector pre_token :
  strtok name = t :: rest ->
  FindDir (dirData fs DirectorySector) (Some t) = Ok s ->
  0 <= s ->
  FetchFrom (sectors fs) s = Ok h ->
  forall b fs',
    RemoveDir fuel fs (strtok_buffer name) sector pre_token = Ok (b, fs') ->
    b = true /\ Test (freeMapData fs') s = Ok false.
Proof.
  intros Hn Hf Hs Hh b fs' H. unfold FileSys.RemoveDir in H.
  rewrite (strtok_buffer_first name t rest Hn) in H. cbn [FileSys.resolve_dir] in H.
  rewrite Hf in H. cbn [bind] in H. destruct (Z.ltb_spec s 0); [lia|].
  unfold OpenFile in H. rewrite Hh in H. cbn [bind] in H. rewrite Hh in H. cbn [bind] in H.
  destruct (Deallocate _ _ _ _ _ _) as [fm1|]; cbn [bind] in H; [|discriminate].
  destruct (Clear fm1 s) as [fm2|] eqn:Ec; cbn [bind] in H; [|discriminate].
  destruct (Remove_entry _ _ _) as [d|]; cbn [bind] in H; [|discriminate].
  inversion H; subst. split; [reflexivity|]. simpl. exact (Clear_Test _ _ _ Ec).
Qed.

End SameBuffer.

Lemma FindAndSet_marks m s m' z :
  FindAndSet m = (s, m') -> Test m z = Ok true -> Test m' z = Ok true.
Proof.
  intros H Hz.
  destruct (FindAndSet_spec m s m' H) as [(_ & -> & _)|(_ & Hs & Hm & _)]; [exact Hz|].
  destruct (Z.eq_dec z s) as [->|Hne]; [congruence|].
  unfold Test. now rewrite (index_set_other _ _ _ z _ Hm Hne).
Qed.

Lemma Clear_Mark m s m' :
  Test m s = Ok false -> Mark m s = Ok m' -> Clear m' s = Ok m.
Proof.
  intros Ht Hm.
  destruct (index_set_in_range m' s false) as [m2 Hm2].
  { rewrite (index_set_length _ _ _ _ Hm). eapply index_bound; eauto. }
  unfold Clear. rewrite Hm2. assert (Heq : m2 = m); [|now rewrite Heq].
  apply index_ext. intros z.
  destruct (Z.eq_dec z s) as [->|Hne].
  - rewrite (index_set_same _ _ _ _ Hm2). symmetry. exact Ht.
  - rewrite (index_set_other _ _ _ z _ Hm2 Hne). apply (index_set_other _ _ _ z _ Hm Hne).
Qed.

Section Marks.

Variables SectorSize NumDirect : Z.
Variable blank : FileHeader.

Lemma allocate_children_marks f level slots : forall idx fileSize h fm disk h' fm' disk' z,
  (forall h0 fm0 disk0 size b h1 fm1 disk1,
     f h0 fm0 disk0 size = Ok (b, h1, fm1, disk1) ->
     Test fm0 z = Ok true -> Test fm1 z = Ok true) ->
  allocate_children blank f level slots idx fileSize h fm disk = Ok (h', fm', disk') ->
  Test fm z = Ok true -> Test fm' z = Ok true.
Proof.
  induction slots as [|slots IH]; intros idx fileSize h fm disk h' fm' disk' z Hf H Hz;
    simpl in H.
  - destruct (fileSize >? 0); [discriminate|]. now inversion H; subst.
  - destruct (fileSize >? 0); [|now inversion H; subst].
    destruct (FindAndSet fm) as [s fm1] eqn:Efs.
    destruct (index_set (dataSectors h) idx s) as [d|]; simpl in H; [|discriminate].
    destruct (assert (s >=? 0)); simpl in H; [|discriminate].
    destruct (f blank fm1 disk _) as [[[[b next_level] fm2] disk2]|] eqn:Ef;
      simpl in H; [|discriminate].
    destruct (WriteBack disk2 s next_level) as [disk3|]; simpl in H; [|discriminate].
    eapply IH; [exact Hf | exact H |].
    eapply Hf; [exact Ef|]. eapply FindAndSet_marks; eauto.
Qed.

Lemma allocate_leaf_marks n : forall i h fm h' fm' z,
  allocate_leaf n i h fm = Ok (h', fm') ->
  Test fm z = Ok true -> Test fm' z = Ok true.
Proof.
  induction n as [|n IH]; intros i h fm h' fm' z H Hz; simpl in H.
  - now inversion H; subst.
  - destruct (FindAndSet fm) as [s fm1] eqn:Efs.
    destruct (index_set (dataSectors h) i s) as [d|]; simpl in H; [|discriminate].
    destruct (assert (s >=? 0)); simpl in H; [|discriminate].
    eapply IH; [exact H|]. eapply FindAndSet_marks; eauto.
Qed.

(** [Allocate] clears no bit. *)
Lemma Allocate_rec_marks z d : forall h fm disk fileSize b h' fm' disk',
  Allocate_rec SectorSize NumDirect blank d h fm disk fileSize = Ok (b, h', fm', disk') ->
  Test fm z = Ok true -> Test fm' z = Ok true.
Proof.
  induction d as [|d IH]; intros h fm disk fileSize b h' fm' disk' H Hz; simpl in H;
    [discriminate|].
  destruct (NumClear fm <? divRoundUp fileSize SectorSize).
  { now inversion H; subst. }
  assert (Hch : forall level,
    (do r <- allocate_children blank (Allocate_rec SectorSize NumDirect blank d) level
               (length (dataSectors (set_size h fileSize (divRoundUp fileSize SectorSize))))
               0 fileSize (set_size h fileSize (divRoundUp fileSize SectorSize)) fm disk;
     (let '(h1, freeMap1, disk1) := r in Ok (true, h1, freeMap1, disk1)))
    = Ok (b, h', fm', disk') ->
    Test fm' z = Ok true).
  { clear H. intros level Hc.
    destruct (allocate_children _ _ _ _ _ _ _ _ _) as [[[h1 fm1] disk1]|] eqn:E;
      simpl in Hc; [|discriminate].
    inversion Hc; subst.
    eapply allocate_children_marks; [|exact E | exact Hz].
    intros h0 fm0 disk0 size b0 h2 fm2 disk2 Hr. exact (IH _ _ _ _ _ _ _ _ Hr). }
  destruct (fileSize >? bytes_in_level3 SectorSize NumDirect); [exact (Hch _ H)|].
  destruct (fileSize >? bytes_in_level2 SectorSize NumDirect); [exact (Hch _ H)|].
  destruct (fileSize >? bytes_in_level1 SectorSize NumDirect); [exact (Hch _ H)|].
  destruct (allocate_leaf _ _ _ _) as [[h1 fm1]|] eqn:E; simpl in H; [|discriminate].
  inversion H; subst. eapply allocate_leaf_marks; eauto.
Qed.

Lemma Allocate_true_enough h fm disk fileSize h' fm' disk' :
  Allocate SectorSize NumDirect blank h fm disk fileSize = Ok (true, h', fm', disk') ->
  divRoundUp fileSize SectorSize <= NumClear fm.
Proof.
  unfold Allocate. simpl. intros H.
  destruct (Z.ltb_spec (NumClear fm) (divRoundUp fileSize SectorSize)); [discriminate | lia].
Qed.

End Marks.

Section CreateOpenRemove.

Variables SectorSize NumDirect : Z.
Variable blank : FileHeader.
Variable FileNameMaxLen : nat.

Local Abbreviation L1 := (bytes_in_level1 SectorSize NumDirect).
Local Abbreviation resolve := (resolve FileNameMaxLen).
Local Abbreviation Find := (Find FileNameMaxLen).
Local Abbreviation FindDir := (FindDir FileNameMaxLen).
Local Abbreviation Add := (Add FileNameMaxLen).
Local Abbreviation matches := (entry_matches FileNameMaxLen).
Local Abbreviation Create := (Create SectorSize NumDirect blank FileNameMaxLen).
Local Abbreviation Remove := (Remove SectorSize NumDirect FileNameMaxLen).
Local Abbreviation Open := (Open FileNameMaxLen).
Local Abbreviation SysOpen := (SysOpen FileNameMaxLen).
Local Abbreviation opens_directory := (opens_directory FileNameMaxLen).
Local Abbreviation Allocate := (Allocate SectorSize NumDirect blank).

(** [Add] (of a file) changes no answer of [FindDir]. *)
Lemma Add_keeps_FindDir table n s b table' :
  Add table (Some n) s = Ok (b, table') ->
  forall m, FindDir table' (Some m) = FindDir table (Some m).
Proof.
  intros H m.
  destruct (add_entry_spec FileNameMaxLen false n s table)
    as [[_ Hrun]|(pre & e & post & -> & Hnone & Hpre & He & Hrun)];
    unfold FileSys.Add in H; rewrite Hrun in H; inversion H; subst; [reflexivity|].
  rewrite !FindDir_first.
  rewrite (find_replace_skipped (matches true m) pre e _ post);
    [reflexivity | now apply matches_free | reflexivity].
Qed.

(** A file system after a [Create] that returned [TRUE], seen from the
    one before. *)
Lemma Create_true_after fs name initialSize fs' :
  Create fs name initialSize = Ok (true, fs') ->
  exists prev toks token new_sector fm0 directory1 hdr,
    resolve fs (strtok name) (dirData fs DirectorySector) DirectorySector
    = Ok (dirData fs prev, prev, token :: toks)
    /\ resolve fs' (strtok name) (dirData fs' DirectorySector) DirectorySector
       = Ok (directory1, prev, token :: toks)
    /\ dirData fs' = write_dir (dirData fs) prev directory1
    /\ Add (dirData fs prev) (Some token) new_sector = Ok (true, directory1)
    /\ Find directory1 (Some token) = Ok new_sector
    /\ 0 <= new_sector
    /\ Test (freeMapData fs) new_sector = Ok false
    /\ Mark (freeMapData fs) new_sector = Ok fm0
    /\ (forall z, 0 <= z < new_sector -> Test (freeMapData fs) z = Ok true)
    /\ (exists disk1, Allocate blank fm0 (sectors fs) initialSize
                      = Ok (true, hdr, freeMapData fs', disk1)
                      /\ WriteBack disk1 new_sector hdr = Ok (sectors fs'))
    /\ FetchFrom (sectors fs') new_sector = Ok hdr
    /\ length (sectors fs') = length (sectors fs).
Proof.
  intros H.
  destruct (Create_true SectorSize NumDirect blank FileNameMaxLen fs name initialSize fs' H)
    as (prev & toks & token & new_sector & fm0 & directory1 & hdr & fm1 & disk1 & disk2
        & Hres & Hfs & Hne & Hadd & Hal & Hwb & ->).
  destruct (FindAndSet_spec _ _ _ Hfs) as [(? & _)|(Hs0 & Hts & Hmk & _ & Hfirst)];
    [contradiction|].
  destruct (Allocate_rec_keeps SectorSize NumDirect blank _ _ _ _ _ _ _ _ _ Hal)
    as (Hlen & _).
  pose proof (index_set_length _ _ _ _ Hwb) as Hlen2.
  assert (Hd1 : write_dir (dirData fs) prev directory1 prev = directory1)
    by (unfold write_dir; now rewrite Z.eqb_refl).
  exists prev, toks, token, new_sector, fm0, directory1, hdr. simpl.
  split; [exact Hres|]. split.
  { assert (Hr : resolve (mkFS disk2 (write_dir (dirData fs) prev directory1) fm1)
                   (strtok name)
                   (write_dir (dirData fs) prev directory1 DirectorySector) DirectorySector
                 = Ok (write_dir (dirData fs) prev directory1 prev, prev, token :: toks)).
    { apply (resolve_agree FileNameMaxLen fs
               (mkFS disk2 (write_dir (dirData fs) prev directory1) fm1)
               (strtok name) DirectorySector (dirData fs prev) prev (token :: toks)).
      - simpl. congruence.
      - intros f n. simpl. unfold write_dir. destruct (Z.eqb_spec f prev) as [->|_];
          [|reflexivity].
        eapply Add_keeps_FindDir; eauto.
      - exact Hres. }
    rewrite Hd1 in Hr. exact Hr. }
  split; [reflexivity|]. split; [exact Hadd|]. split.
  { apply (add_entry_then_lookup FileNameMaxLen false _ _ _ _ Hadd). }
  split; [exact Hs0|]. split; [exact Hts|]. split; [exact Hmk|]. split; [exact Hfirst|].
  split; [eauto|]. split; [eapply index_set_same; eauto | congruence].
Qed.

Lemma Create_false_same (fs fs' : FileSystem) (name : string) (initialSize : Z) :
  Create fs name initialSize = Ok (false, fs') -> fs' = fs.
Proof.
  intros H. unfold FileSys.Create in H.
  destruct (FileSys.resolve _ _ _ _ _) as [[[directory prev] toks]|]; simpl in H;
    [|discriminate].
  destruct (FileSys.Find _ _ _) as [s0|]; simpl in H; [|discriminate].
  destruct (s0 >=? 0); [now inversion H|].
  destruct (FindAndSet (freeMapData fs)) as [new_sector fm0].
  destruct (new_sector =? -1); [now inversion H|].
  destruct (FileSys.Add _ _ _ _) as [[added directory1]|]; simpl in H; [|discriminate].
  destruct added; simpl in H; [|now inversion H].
  destruct (FileSys.Allocate _ _ _ _ _ _ _) as [[[[allocated hdr] fm1] disk1]|] eqn:Eal;
    simpl in H; [|discriminate].
  destruct allocated; simpl in H.
  - destruct (WriteBack _ _ _); simpl in H; discriminate.
  - inversion H; subst.
    destruct (Allocate_rec_keeps _ _ _ _ _ _ _ _ _ _ _ _ Eal) as (_ & _ & _ & Hsame).
    destruct (Hsame eq_refl) as [_ ->]. now destruct fs.
Qed.

Lemma CreateSubDir_false_same (fs fs' : FileSystem) (name : string)
    (DirectoryFileSize : Z) :
  CreateSubDir SectorSize NumDirect blank FileNameMaxLen DirectoryFileSize fs name
  = Ok (false, fs') -> fs' = fs.
Proof.
  intros H. unfold FileSys.CreateSubDir in H.
  destruct (FileSys.resolve _ _ _ _ _) as [[[directory prev] toks]|]; simpl in H;
    [|discriminate].
  destruct (hd_error toks) as [token|]; [|now inversion H].
  destruct (FindAndSet (freeMapData fs)) as [new_sector fm0].
  destruct (new_sector =? -1); [now inversion H|].
  destruct (FileSys.AddDir _ _ _ _) as [[added directory1]|]; simpl in H; [|discriminate].
  destruct added; simpl in H; [|now inversion H].
  destruct (FileSys.Allocate _ _ _ _ _ _ _) as [[[[allocated hdr] fm1] disk1]|] eqn:Eal;
    simpl in H; [|discriminate].
  destruct allocated; simpl in H.
  - destruct (WriteBack _ _ _); simpl in H; [|discriminate].
    destruct (OpenFile _ _); simpl in H; discriminate.
  - inversion H; subst.
    destruct (Allocate_rec_keeps _ _ _ _ _ _ _ _ _ _ _ _ Eal) as (_ & _ & _ & Hsame).
    destruct (Hsame eq_refl) as [_ ->]. now destruct fs.
Qed.

(** A [Create] or [CreateSubDir] that returns [FALSE] has changed
    nothing: the sectors of the disk, the directories and the free map
    are those of before. *)
Theorem failed_Create_changes_nothing (fs fs' : FileSystem) (name : string)
    (initialSize DirectoryFileSize : Z) :
  (Create fs name initialSize = Ok (false, fs') -> fs' = fs)
  /\ (CreateSubDir SectorSize NumDirect blank FileNameMaxLen DirectoryFileSize fs name
      = Ok (false, fs') -> fs' = fs).
Proof.
  split; intros H.
  - exact (Create_false_same fs fs' name initialSize H).
  - exact (CreateSubDir_false_same fs fs' name DirectoryFileSize H).
Qed.

(** After a [Create] that went into a subdirectory of the root, the
    first token of the name still names that subdirectory, and the
    directory has an entry in use. *)
Lemma Create_true_inside fs name initialSize fs' :
  Create fs name initialSize = Ok (true, fs') ->
  opens_directory fs name = true ->
  exists t rest s h,
    strtok name = t :: rest
    /\ FindDir (dirData fs' DirectorySector) (Some t) = Ok s
    /\ 0 <= s
    /\ FetchFrom (sectors fs') s = Ok h
    /\ exists e, In e (dirData fs' s) /\ inUse e = true.
Proof.
  intros H Hin.
  destruct (Create_true_after fs name initialSize fs' H)
    as (prev & toks & token & new_sector & fm0 & directory1 & hdr
        & Hres & _ & Hdir & Hadd & _ & _ & _ & _ & _ & _ & _ & Hlen).
  destruct (opens_directory_true FileNameMaxLen fs name Hin) as (t & rest & s & Hn & Hf & Hs).
  rewrite Hn in Hres. cbn [FileSys.resolve] in Hres. rewrite Hf in Hres.
  cbn [bind] in Hres. destruct (Z.ltb_spec s 0); [lia|].
  unfold OpenFile in Hres.
  destruct (FetchFrom (sectors fs) s) as [h0|] eqn:Eh; cbn [bind] in Hres; [|discriminate].
  destruct (index_in_range (sectors fs') s) as [h Hh].
  { rewrite Hlen. exact (index_bound _ _ _ Eh). }
  exists t, rest, s, h. split; [exact Hn|]. split.
  { rewrite Hdir. unfold write_dir.
    destruct (Z.eqb_spec DirectorySector prev) as [E|_]; [|exact Hf].
    rewrite (Add_keeps_FindDir _ _ _ _ _ Hadd), <- E. exact Hf. }
  split; [exact Hs|]. split; [exact Hh|].
  rewrite Hdir. unfold write_dir.
  destruct (Z.eqb_spec s prev) as [E|Hne].
  - exact (added_in_use FileNameMaxLen false _ _ _ _ Hadd).
  - apply (resolve_moves FileNameMaxLen fs rest s _ prev (token :: toks) Hres);
      [discriminate | congruence].
Qed.

(** After a [Create] that returned [TRUE] the root answers [FindDir] as
    before. *)
Lemma Create_true_root fs name initialSize fs' :
  Create fs name initialSize = Ok (true, fs') ->
  forall f m, FindDir (dirData fs' f) (Some m) = FindDir (dirData fs f) (Some m).
Proof.
  intros H f m.
  destruct (Create_true_after fs name initialSize fs' H)
    as (prev & toks & token & new_sector & fm0 & directory1 & hdr
        & _ & _ & Hdir & Hadd & _).
  rewrite Hdir. unfold write_dir. destruct (Z.eqb_spec f prev) as [->|_]; [|reflexivity].
  exact (Add_keeps_FindDir _ _ _ _ _ Hadd m).
Qed.

(** A created file is there.  After [Create(name, initialSize)] has
    returned [TRUE], [Open] of a fresh copy of the name returns the file
    whose header is in a sector that was free before and is marked now;
    that header records [initialSize] as the file length; [SysOpen] of a
    fresh copy returns that sector as the file id; and a second [Create]
    of a fresh copy, of whatever size, returns [FALSE] and changes
    nothing.  On the buffer that [Create] was called with, which
    [strtok] has cut behind the first token, the three calls do the same
    when the path loop of the [Create] opened no directory; when it
    went into a subdirectory of the root, the buffer names that
    subdirectory only, and [Open], [SysOpen] and [Create] hand a [NULL]
    name to [Find] there, which does not return. *)
Theorem Create_then_Open (fs fs' : FileSystem) (name : string) (initialSize : Z) :
  Create fs name initialSize = Ok (true, fs') ->
  exists sector hdr,
    Open fs' name = Ok (Some sector)
    /\ FetchFrom (sectors fs') sector = Ok hdr
    /\ FileLength hdr = initialSize
    /\ Test (freeMapData fs) sector = Ok false
    /\ Test (freeMapData fs') sector = Ok true
    /\ SysOpen fs' name = Ok sector
    /\ (forall size, Create fs' name size = Ok (false, fs'))
    /\ (opens_directory fs name = false ->
          Open fs' (strtok_buffer name) = Ok (Some sector)
          /\ SysOpen fs' (strtok_buffer name) = Ok sector
          /\ forall size, Create fs' (strtok_buffer name) size = Ok (false, fs'))
    /\ (opens_directory fs name = true ->
          Open fs' (strtok_buffer name) = Stop NullPointer
          /\ SysOpen fs' (strtok_buffer name) = Stop NullPointer
          /\ forall size, Create fs' (strtok_buffer name) size = Stop NullPointer).
Proof.
  intros H.
  destruct (Create_true_after fs name initialSize fs' H)
    as (prev & toks & token & new_sector & fm0 & directory1 & hdr
        & Hres & Hres' & Hdir & Hadd & Hfind & Hs0 & Hts & Hmk & _
        & (disk1 & Hal & Hwb) & Hfetch & Hlen).
  exists new_sector, hdr.
  assert (Hopen : Open fs' name = Ok (Some new_sector)).
  { unfold FileSys.Open. rewrite Hres'. simpl. rewrite Hfind. simpl.
    destruct (Z.geb_spec new_sector 0); [|lia].
    unfold OpenFile. rewrite Hfetch. reflexivity. }
  assert (Hsys : SysOpen fs' name = Ok new_sector).
  { unfold FileSys.SysOpen. fold (FileSys.Open FileNameMaxLen). rewrite Hopen. simpl.
    destruct (Z.gtb_spec new_sector 0); [reflexivity | f_equal; lia]. }
  assert (Hagain : forall size, Create fs' name size = Ok (false, fs')).
  { intros size. unfold FileSys.Create. rewrite Hres'. simpl. rewrite Hfind. simpl.
    destruct (Z.geb_spec new_sector 0); [reflexivity | lia]. }
  split; [exact Hopen|]. split; [exact Hfetch|]. split.
  { unfold FileLength.
    now destruct (Allocate_rec_keeps _ _ _ _ _ _ _ _ _ _ _ _ Hal) as (_ & -> & _). }
  split; [exact Hts|]. split.
  { eapply Allocate_rec_marks; [exact Hal|].
    unfold Test. eapply index_set_same; eauto. }
  split; [exact Hsys|]. split; [exact Hagain|]. split.
  - intros Hout.
    rewrite <- (opens_directory_agree FileNameMaxLen fs fs' name
                  (Create_true_root fs name initialSize fs' H DirectorySector)) in Hout.
    destruct (second_call_outside SectorSize NumDirect blank FileNameMaxLen 0 fs' name Hout)
      as (Hc & _ & Ho & Hy & _).
    rewrite Ho, Hy. split; [exact Hopen|]. split; [exact Hsys|].
    intros size. rewrite Hc. apply Hagain.
  - intros Hin.
    destruct (Create_true_inside fs name initialSize fs' H Hin)
      as (t & rest & s & h & Hn & Hf & Hs & Hh & Hu).
    destruct (second_call_inside SectorSize NumDirect blank FileNameMaxLen 0 fs' name
                t rest s h Hn Hf Hs Hh Hu) as (Ho & Hy & Hc & _).
    split; [exact Ho|]. split; [exact Hy | exact Hc].
Qed.

Hypothesis SectorSize_pos : 0 < SectorSize.
Hypothesis NumDirect_pos : 1 <= NumDirect.

(** [Remove] undoes [Create], for a file that fits a leaf header.  After
    [Create(name, initialSize)] has returned [TRUE] with
    [initialSize <= bytes_in_level1], [Remove] of a fresh copy of the
    name returns [TRUE]; it leaves the free map exactly as it was before
    the [Create]; every directory answers [Find] and [FindDir] as before
    the [Create]; [Open] of a fresh copy then returns [NULL], and
    [SysOpen], which reads [id] through that pointer, does not return.
    On the buffer that [Create] was called with, [Remove] and the [Open]
    after it do the same when the path loop of the [Create] opened no
    directory; when it went into a subdirectory of the root, [Remove]
    hands a [NULL] name to [Find] there and does not return: the file
    stays. *)
Theorem Remove_after_Create_leaf (fuel : nat) (fs fs1 : FileSystem) (name : string)
    (initialSize : Z) :
  initialSize <= L1 ->
  Z.of_nat (length (dataSectors blank)) = NumDirect ->
  Create fs name initialSize = Ok (true, fs1) ->
  exists fs2,
    Remove (S fuel) fs1 name = Ok (true, fs2)
    /\ freeMapData fs2 = freeMapData fs
    /\ sectors fs2 = sectors fs1
    /\ (forall f m,
          Find (dirData fs2 f) (Some m) = Find (dirData fs f) (Some m)
          /\ FindDir (dirData fs2 f) (Some m) = FindDir (dirData fs f) (Some m))
    /\ Open fs2 name = Ok None
    /\ SysOpen fs2 name = Stop NullPointer
    /\ (opens_directory fs name = false ->
          Remove (S fuel) fs1 (strtok_buffer name) = Ok (true, fs2)
          /\ Open fs2 (strtok_buffer name) = Ok None)
    /\ (opens_directory fs name = true ->
          Remove (S fuel) fs1 (strtok_buffer name) = Stop NullPointer).
Proof.
  intros Hleaf Hblank H.
  destruct (Create_true_after fs name initialSize fs1 H)
    as (prev & toks & token & new_sector & fm0 & directory1 & hdr
        & Hres & Hres1 & Hdir & Hadd & Hfind & Hs0 & Hts & Hmk & _
        & (disk1 & Hal & Hwb) & Hfetch & Hlen).
  pose proof (Allocate_true_enough _ _ _ _ _ _ _ _ _ _ Hal) as Henough.
  destruct (leaf_round_trip SectorSize NumDirect blank SectorSize_pos NumDirect_pos
              blank fm0 (sectors fs) initialSize Hleaf Hblank Henough)
    as (h' & fm' & Hrun & Hback).
  rewrite Hrun in Hal. inversion Hal; subst h' fm' disk1. clear Hal.
  destruct (Remove_entry_after_add FileNameMaxLen false _ _ _ _ Hadd)
    as (table2 & Hrem & _ & Hsame).
  pose proof (Clear_Mark _ _ _ Hts Hmk) as Hclear.
  assert (Hrun2 : Remove (S fuel) fs1 name
                  = Ok (true, mkFS (sectors fs1) (write_dir (dirData fs1) prev table2)
                                (freeMapData fs))).
  { unfold FileSys.Remove. rewrite Hres1. cbn [bind]. cbv iota beta. cbn [hd_error].
    rewrite Hfind. cbn [bind].
    destruct (Z.eqb_spec new_sector (-1)); [lia|].
    rewrite Hfetch. cbn [bind]. rewrite Hback. cbn [bind].
    rewrite Hclear. cbn [bind]. rewrite Hrem. reflexivity. }
  eexists. split; [exact Hrun2|]. cbn [freeMapData sectors dirData].
  split; [reflexivity|]. split; [reflexivity|].
  assert (Hlook : forall f m,
    FileSys.FindIndex FileNameMaxLen (write_dir (dirData fs1) prev table2 f) (Some m)
      = FileSys.FindIndex FileNameMaxLen (dirData fs f) (Some m)
    /\ Find (write_dir (dirData fs1) prev table2 f) (Some m) = Find (dirData fs f) (Some m)
    /\ FindDir (write_dir (dirData fs1) prev table2 f) (Some m)
       = FindDir (dirData fs f) (Some m)).
  { intros f m. unfold write_dir. rewrite Hdir. unfold write_dir.
    destruct (Z.eqb_spec f prev) as [->|_]; [apply Hsame | auto]. }
  split; [intros f m; apply Hlook|].
  assert (Hres2 : resolve (mkFS (sectors fs1) (write_dir (dirData fs1) prev table2)
                             (freeMapData fs))
                    (strtok name)
                    (write_dir (dirData fs1) prev table2 DirectorySector) DirectorySector
                  = Ok (write_dir (dirData fs1) prev table2 prev, prev, token :: toks)).
  { apply (resolve_agree FileNameMaxLen fs
             (mkFS (sectors fs1) (write_dir (dirData fs1) prev table2) (freeMapData fs))
             (strtok name) DirectorySector (dirData fs prev) prev (token :: toks)).
    - simpl. exact Hlen.
    - intros f n. simpl. apply Hlook.
    - exact Hres. }
  assert (Hgone : Find (write_dir (dirData fs1) prev table2 prev) (Some token) = Ok (-1)).
  { destruct (Hlook prev token) as (_ & -> & _).
    destruct (add_entry_spec FileNameMaxLen false token new_sector (dirData fs prev))
      as [[_ Hr]|(pre & e & post & _ & Hnone & _ & _ & _)].
    - unfold FileSys.Add in Hadd. congruence.
    - rewrite Find_first, Hnone. reflexivity. }
  assert (Hopen : Open (mkFS (sectors fs1) (write_dir (dirData fs1) prev table2)
                          (freeMapData fs)) name = Ok None).
  { unfold FileSys.Open. cbn [dirData]. rewrite Hres2. cbn [bind]. cbv iota beta.
    cbn [hd_error]. rewrite Hgone. reflexivity. }
  split; [exact Hopen|].
  split; [unfold FileSys.SysOpen; fold (FileSys.Open FileNameMaxLen); rewrite Hopen; reflexivity|].
  split.
  - intros Hout.
    assert (Hout1 : opens_directory fs1 name = false).
    { rewrite (opens_directory_agree FileNameMaxLen fs fs1 name
                 (Create_true_root fs name initialSize fs1 H DirectorySector)).
      exact Hout. }
    assert (Hout2 : opens_directory
                      (mkFS (sectors fs1) (write_dir (dirData fs1) prev table2)
                         (freeMapData fs)) name = false).
    { rewrite (opens_directory_agree FileNameMaxLen fs _ name); [exact Hout|].
      intros m. apply Hlook. }
    destruct (second_call_outside SectorSize NumDirect blank FileNameMaxLen 0 fs1 name Hout1)
      as (_ & _ & _ & _ & Hr & _).
    destruct (second_call_outside SectorSize NumDirect blank FileNameMaxLen 0 _ name Hout2)
      as (_ & _ & Ho & _).
    rewrite Hr, Ho. split; [exact Hrun2 | exact Hopen].
  - intros Hin.
    destruct (Create_true_inside fs name initialSize fs1 H Hin)
      as (t & rest & s & h & Hn & Hf & Hs & Hh & Hu).
    destruct (second_call_inside SectorSize NumDirect blank FileNameMaxLen 0 fs1 name
                t rest s h Hn Hf Hs Hh Hu) as (_ & _ & _ & Hr & _).
    apply Hr.
Qed.

End CreateOpenRemove.

Lemma NumClear_repeat_false n : NumClear (repeat false n) = Z.of_nat n.
Proof.
  induction n as [|n IH]; [reflexivity|].
  cbn [repeat NumClear]. rewrite IH. lia.
Qed.

Lemma find_from_unused FileNameMaxLen d table : forall i n,
  Forall (fun e => inUse e = false) table ->
  find_from FileNameMaxLen d table i n = Ok (-1).
Proof.
  induction table as [|e rest IH]; intros i n H; simpl; [reflexivity|].
  inversion H as [|? ? He Hrest]; subst. rewrite He. simpl. now apply IH.
Qed.

Lemma empty_directory_unused size :
  Forall (fun e => inUse e = false) (empty_directory size).
Proof. apply Forall_forall. intros e He. apply repeat_spec in He. now subst. Qed.

Lemma lookup_unused FileNameMaxLen table n :
  Forall (fun e => inUse e = false) table ->
  Find FileNameMaxLen table n = Ok (-1) /\ FindDir FileNameMaxLen table n = Ok (-1).
Proof.
  intros H. unfold Find, FindDir, FindIndex, FindDirIndex.
  rewrite !find_from_unused by exact H. split; reflexivity.
Qed.

Section Formatting.

Variables SectorSize NumDirect : Z.
Variable blank : FileHeader.
Variable FileNameMaxLen : nat.
Variables NumSectors DirectoryFileSize : Z.
Hypothesis SectorSize_pos : 0 < SectorSize.
Hypothesis NumDirect_pos : 1 <= NumDirect.

Local Abbreviation L1 := (bytes_in_level1 SectorSize NumDirect).
Local Abbreviation Format :=
  (Format SectorSize NumDirect blank NumSectors DirectoryFileSize).

(** The file system that formatting leaves.  When the free-map file and
    the directory file fit leaf headers and the disk has room for the two
    headers and their data sectors, [FileSystem(format = TRUE)] succeeds:
    sectors 0 and 1 hold the headers of the free-map file and of the
    directory file, which record [FreeMapFileSize] and
    [DirectoryFileSize]; both sectors are marked; the number of clear
    bits is [NumSectors] minus 2 minus the data sectors of the two files;
    and the root directory is empty, so that [Open] returns [NULL] for
    every name. *)
Theorem Format_leaves_empty_root (disk : list FileHeader) (data : Z -> Directory) :
  FreeMapFileSize NumSectors <= L1 ->
  DirectoryFileSize <= L1 ->
  Z.of_nat (length (dataSectors blank)) = NumDirect ->
  Z.of_nat (length disk) = NumSectors ->
  2 + Z.max 0 (divRoundUp (FreeMapFileSize NumSectors) SectorSize)
    + Z.max 0 (divRoundUp DirectoryFileSize SectorSize) <= NumSectors ->
  exists fs mapHdr dirHdr,
    Format disk data = Ok fs
    /\ length (sectors fs) = length disk
    /\ FetchFrom (sectors fs) FreeMapSector = Ok mapHdr
    /\ FileLength mapHdr = FreeMapFileSize NumSectors
    /\ FetchFrom (sectors fs) DirectorySector = Ok dirHdr
    /\ FileLength dirHdr = DirectoryFileSize
    /\ Test (freeMapData fs) FreeMapSector = Ok true
    /\ Test (freeMapData fs) DirectorySector = Ok true
    /\ NumClear (freeMapData fs)
       = NumSectors - 2 - Z.max 0 (divRoundUp (FreeMapFileSize NumSectors) SectorSize)
         - Z.max 0 (divRoundUp DirectoryFileSize SectorSize)
    /\ (forall n, Find FileNameMaxLen (dirData fs DirectorySector) (Some n) = Ok (-1))
    /\ (forall name, Open FileNameMaxLen fs name = Ok None).
Proof.
  intros Hmap Hdir Hblank Hdisk Hroom.
  set (ns1 := divRoundUp (FreeMapFileSize NumSectors) SectorSize) in *.
  set (ns2 := divRoundUp DirectoryFileSize SectorSize) in *.
  unfold FileSys.Format.
  set (fm := repeat false (Z.to_nat NumSectors)).
  assert (Hfmlen : Z.of_nat (length fm) = NumSectors)
    by (unfold fm; rewrite repeat_length; lia).
  assert (Hfmc : NumClear fm = NumSectors)
    by (unfold fm; rewrite NumClear_repeat_false; lia).
  assert (Hbit : forall z, 0 <= z < NumSectors -> Test fm z = Ok false).
  { intros z Hz. apply index_some. split; [lia|]. unfold fm.
    apply nth_error_repeat. lia. }
  destruct (index_set_in_range fm FreeMapSector true) as [fm1 Hfm1];
    [unfold FreeMapSector; lia|].
  unfold Mark at 1. rewrite Hfm1. cbn [bind].
  pose proof (index_set_length _ _ _ _ Hfm1) as Hl1.
  destruct (index_set_in_range fm1 DirectorySector true) as [fm2 Hfm2];
    [unfold DirectorySector; lia|].
  unfold Mark at 1. rewrite Hfm2. cbn [bind].
  assert (Hc1 : NumClear fm1 = NumSectors - 1).
  { rewrite (NumClear_index_set fm FreeMapSector false true fm1); [lia | | exact Hfm1].
    apply Hbit. unfold FreeMapSector. lia. }
  assert (Hc2 : NumClear fm2 = NumSectors - 2).
  { rewrite (NumClear_index_set fm1 DirectorySector false true fm2); [lia | | exact Hfm2].
    unfold Test in Hbit. rewrite (index_set_other _ _ _ DirectorySector _ Hfm1).
    - apply Hbit. unfold DirectorySector. lia.
    - discriminate. }
  assert (Hb0 : Test fm2 FreeMapSector = Ok true).
  { unfold Test. rewrite (index_set_other _ _ _ FreeMapSector _ Hfm2) by discriminate.
    eapply index_set_same; eauto. }
  assert (Hb1 : Test fm2 DirectorySector = Ok true).
  { unfold Test. eapply index_set_same; eauto. }
  destruct (Allocate_leaf_run SectorSize NumDirect blank SectorSize_pos NumDirect_pos
              blank fm2 disk (FreeMapFileSize NumSectors) Hmap Hblank ltac:(fold ns1; lia))
    as (ss1 & mapHdr & fm3 & Hrun1 & Hnb1 & _ & _ & _ & _ & _ & Hbits1 & Hout1 & Hcnt1).
  rewrite Hrun1. cbn [bind assert]. cbv iota beta.
  fold ns1 in Hcnt1.
  destruct (Allocate_leaf_run SectorSize NumDirect blank SectorSize_pos NumDirect_pos
              blank fm3 disk DirectoryFileSize Hdir Hblank ltac:(fold ns2; lia))
    as (ss2 & dirHdr & fm4 & Hrun2 & Hnb2 & _ & _ & _ & _ & _ & Hbits2 & Hout2 & Hcnt2).
  rewrite Hrun2. cbn [bind assert]. cbv iota beta.
  fold ns2 in Hcnt2.
  destruct (index_set_in_range disk FreeMapSector mapHdr) as [disk3 Hd3];
    [unfold FreeMapSector; lia|].
  unfold WriteBack at 1. rewrite Hd3. cbn [bind].
  pose proof (index_set_length _ _ _ _ Hd3) as Hl3.
  destruct (index_set_in_range disk3 DirectorySector dirHdr) as [disk4 Hd4];
    [unfold DirectorySector; lia|].
  unfold WriteBack at 1. rewrite Hd4. cbn [bind].
  pose proof (index_set_length _ _ _ _ Hd4) as Hl4.
  assert (Hstay : forall z fmA fmB ss,
            (forall s, In s ss -> Test fmA s = Ok false /\ Test fmB s = Ok true) ->
            (forall z, ~ In z ss -> Test fmB z = Test fmA z) ->
            Test fmA z = Ok true -> Test fmB z = Ok true).
  { intros z fmA fmB ss Hin Hout Hz.
    destruct (in_dec Z.eq_dec z ss) as [Hi|Hi]; [now apply Hin | now rewrite Hout]. }
  assert (Hroot : forall n,
            Find FileNameMaxLen
              (write_dir data DirectorySector (empty_directory NumDirEntries)
                 DirectorySector) n = Ok (-1)
            /\ FindDir FileNameMaxLen
                 (write_dir data DirectorySector (empty_directory NumDirEntries)
                    DirectorySector) n = Ok (-1)).
  { intros n. unfold write_dir. rewrite Z.eqb_refl.
    apply lookup_unused, empty_directory_unused. }
  exists (mkFS disk4 (write_dir data DirectorySector (empty_directory NumDirEntries)) fm4),
    mapHdr, dirHdr.
  cbn [sectors freeMapData dirData].
  split; [reflexivity|]. split; [congruence|].
  split.
  { unfold FetchFrom. rewrite (index_set_other _ _ _ FreeMapSector _ Hd4) by discriminate.
    eapply index_set_same; eauto. }
  split; [exact Hnb1|].
  split; [unfold FetchFrom; eapply index_set_same; eauto|].
  split; [exact Hnb2|].
  split; [eapply Hstay; eauto|]. split; [eapply Hstay; eauto|].
  split; [lia|].
  split; [intros n; apply Hroot|].
  intros name. unfold FileSys.Open. cbn [dirData].
  destruct (strtok name) as [|token toks]; cbn [FileSys.resolve bind].
  - cbv iota beta. cbn [hd_error].
    destruct (Hroot None) as [-> _]. reflexivity.
  - destruct (Hroot (Some token)) as [HF ->]. cbn [bind].
    change (-1 <? 0) with true. cbv iota. cbn [bind]. cbv iota beta.
    cbn [hd_error]. rewrite HF. reflexivity.
Qed.

End Formatting.

Lemma with_small_ok :
  Create 128 30 blank_header 9 formatted Paths.big 3840 = Ok (true, with_small).
Proof. vm_compute. reflexivity. Qed.

Lemma with_todo_ok :
  Create 128 30 blank_header 9 with_dir Entries.d_todo 100 = Ok (true, with_todo).
Proof. vm_compute. reflexivity. Qed.

(** [Add_then_Find] at the directory that holds [notes]: [todo] is added
    in sector 9. *)
Lemma Add_then_Find_witness :
  exists table',
    Add 9 small_directory (Some Entries.todo) 9 = Ok (true, table')
    /\ Find 9 table' (Some Entries.todo) = Ok 9
    /\ FindDir 9 table' (Some Entries.todo) = Ok (-1)
    /\ Find 9 table' (Some Entries.notes) = Ok 7.
Proof.
  eexists. split; [vm_compute; reflexivity|].
  match goal with
  | |- Find 9 ?t _ = _ /\ _ =>
      destruct (Add_then_Find 9 small_directory t Entries.todo 9) as [H _]
  end.
  destruct (H ltac:(vm_compute; reflexivity)) as (_ & Hf & Hd & Hother).
  split; [exact Hf|]. split; [exact Hd|].
  destruct (Hother Entries.notes ltac:(vm_compute; reflexivity)) as [-> _].
  vm_compute. reflexivity.
Defined.

(** [Remove_after_Add] at the same directory. *)
Lemma Remove_after_Add_witness :
  exists table1 table2,
    Add 9 small_directory (Some Entries.todo) 9 = Ok (true, table1)
    /\ Remove_entry 9 table1 (Some Entries.todo) = Ok (true, table2)
    /\ Find 9 table2 (Some Entries.todo) = Find 9 small_directory (Some Entries.todo).
Proof.
  eexists.
  match goal with
  | |- exists t2, Add 9 _ _ _ = Ok (true, ?t1) /\ _ =>
      assert (Hadd : Add 9 small_directory (Some Entries.todo) 9 = Ok (true, t1))
  end.
  { vm_compute. reflexivity. }
  destruct (Remove_after_Add 9 false small_directory _ Entries.todo 9 Hadd)
    as (table2 & Hrem & _ & Hsame).
  exists table2. split; [exact Hadd|]. split; [exact Hrem|]. apply Hsame.
Defined.

(** [directory_names_unique] at the same directory: after [todo] has been
    added and [notes] removed, [notes] is not found. *)
Lemma directory_names_unique_witness :
  exists table1 table2,
    names_unique 9 (empty_directory 4)
    /\ Add 9 (empty_directory 4) (Some Entries.notes) 7 = Ok (true, table1)
    /\ names_unique 9 table1
    /\ Remove_entry 9 table1 (Some Entries.notes) = Ok (true, table2)
    /\ names_unique 9 table2
    /\ Find 9 table2 (Some Entries.notes) = Ok (-1).
Proof.
  destruct (directory_names_unique 9) as (Hempty & Hadd & Hrem).
  eexists. eexists.
  split; [apply Hempty|].
  split; [vm_compute; reflexivity|].
  match goal with
  | |- names_unique 9 ?t1 /\ _ =>
      assert (Hu1 : names_unique 9 t1)
  end.
  { apply (Hadd false (empty_directory 4) Entries.notes 7 true _ (Hempty 4%nat)).
    vm_compute. reflexivity. }
  split; [exact Hu1|].
  split; [vm_compute; reflexivity|].
  match goal with
  | |- names_unique 9 ?t2 /\ _ =>
      destruct (Hrem _ Entries.notes true t2 Hu1) as (Hu2 & Hf & _)
  end.
  { vm_compute. reflexivity. }
  split; [exact Hu2 | exact Hf].
Defined.

(** [failed_Create_changes_nothing] at a second [Create] of [/big]. *)
Lemma failed_Create_changes_nothing_witness :
  exists fs',
    Create 128 30 blank_header 9 with_small Paths.big 10 = Ok (false, fs')
    /\ fs' = with_small.
Proof.
  eexists.
  match goal with
  | |- ?c = Ok (false, ?f) /\ _ => assert (H : c = Ok (false, f))
  end.
  { vm_compute. reflexivity. }
  split; [exact H|].
  exact (proj1 (failed_Create_changes_nothing 128 30 blank_header 9 _ _ _ _ 0) H).
Defined.

(** [Create_then_Open] at the file [/big] of 3840 bytes on the formatted
    disk, where the buffer is left as it was and [Open] on it returns
    the file, and at the file [/d/todo] on the disk that holds the
    directory [/d], where the buffer reads [/d] afterwards and [Open] on
    it does not return. *)
Lemma Create_then_Open_witness :
  (Create 128 30 blank_header 9 formatted Paths.big 3840 = Ok (true, with_small)
   /\ Create 128 30 blank_header 9 with_dir Entries.d_todo 100 = Ok (true, with_todo))
  /\ (exists sector hdr,
        Open 9 with_small Paths.big = Ok (Some sector)
        /\ FetchFrom (sectors with_small) sector = Ok hdr
        /\ FileLength hdr = 3840
        /\ SysOpen 9 with_small Paths.big = Ok sector
        /\ strtok_buffer Paths.big = Paths.big
        /\ Open 9 with_small (strtok_buffer Paths.big) = Ok (Some sector))
  /\ (exists sector,
        Open 9 with_todo Entries.d_todo = Ok (Some sector)
        /\ strtok_buffer Entries.d_todo = Paths.dir
        /\ Open 9 with_todo (strtok_buffer Entries.d_todo) = Stop NullPointer
        /\ SysOpen 9 with_todo (strtok_buffer Entries.d_todo) = Stop NullPointer
        /\ Create 128 30 blank_header 9 with_todo (strtok_buffer Entries.d_todo) 100
           = Stop NullPointer).
Proof.
  split; [split; [exact with_small_ok | exact with_todo_ok]|]. split.
  - destruct (Create_then_Open 128 30 blank_header 9 formatted with_small Paths.big 3840
                with_small_ok)
      as (sector & hdr & Ho & Hf & Hl & _ & _ & Hs & _ & Hout & _).
    destruct (Hout ltac:(vm_compute; reflexivity)) as (Hb & _).
    exists sector, hdr. split; [exact Ho|]. split; [exact Hf|]. split; [exact Hl|].
    split; [exact Hs|]. split; [reflexivity | exact Hb].
  - destruct (Create_then_Open 128 30 blank_header 9 with_dir with_todo Entries.d_todo 100
                with_todo_ok)
      as (sector & hdr & Ho & _ & _ & _ & _ & _ & _ & _ & Hin).
    destruct (Hin ltac:(vm_compute; reflexivity)) as (Hb & Hy & Hc).
    exists sector. split; [exact Ho|]. split; [reflexivity|]. split; [exact Hb|].
    split; [exact Hy | exact (Hc 100)].
Defined.

(** [Remove_after_Create_leaf] at the same two files: [/big] is removed
    through the buffer it was created with; [/d/todo] is not, the
    buffer reading [/d] by then. *)
Lemma Remove_after_Create_leaf_witness :
  (0 < 128 /\ 1 <= 30 /\ 3840 <= bytes_in_level1 128 30
   /\ 100 <= bytes_in_level1 128 30
   /\ Z.of_nat (length (dataSectors blank_header)) = 30
   /\ Create 128 30 blank_header 9 formatted Paths.big 3840 = Ok (true, with_small)
   /\ Create 128 30 blank_header 9 with_dir Entries.d_todo 100 = Ok (true, with_todo))
  /\ (exists fs2,
        Remove 128 30 9 1 with_small Paths.big = Ok (true, fs2)
        /\ freeMapData fs2 = freeMapData formatted
        /\ Open 9 fs2 Paths.big = Ok None
        /\ Remove 128 30 9 1 with_small (strtok_buffer Paths.big) = Ok (true, fs2))
  /\ (exists fs2,
        Remove 128 30 9 1 with_todo Entries.d_todo = Ok (true, fs2)
        /\ freeMapData fs2 = freeMapData with_dir
        /\ Remove 128 30 9 1 with_todo (strtok_buffer Entries.d_todo)
           = Stop NullPointer).
Proof.
  assert (H0 : 0 < 128) by lia.
  assert (H1 : 1 <= 30) by lia.
  assert (H2 : 3840 <= bytes_in_level1 128 30) by (vm_compute; discriminate).
  assert (H2' : 100 <= bytes_in_level1 128 30) by (vm_compute; discriminate).
  assert (H3 : Z.of_nat (length (dataSectors blank_header)) = 30) by reflexivity.
  split.
  { split; [exact H0|]. split; [exact H1|]. split; [exact H2|]. split; [exact H2'|].
    split; [exact H3|]. split; [exact with_small_ok | exact with_todo_ok]. }
  split.
  - destruct (Remove_after_Create_leaf 128 30 blank_header 9 H0 H1 0 formatted with_small
                Paths.big 3840 H2 H3 with_small_ok)
      as (fs2 & Hr & Hm & _ & _ & Ho & _ & Hout & _).
    destruct (Hout ltac:(vm_compute; reflexivity)) as (Hb & _).
    exists fs2. split; [exact Hr|]. split; [exact Hm|]. split; [exact Ho | exact Hb].
  - destruct (Remove_after_Create_leaf 128 30 blank_header 9 H0 H1 0 with_dir with_todo
                Entries.d_todo 100 H2' H3 with_todo_ok)
      as (fs2 & Hr & Hm & _ & _ & _ & _ & _ & Hin).
    exists fs2. split; [exact Hr|]. split; [exact Hm|].
    exact (Hin ltac:(vm_compute; reflexivity)).
Defined.

(** [Format_leaves_empty_root] at the disk of the simulator: 1024 sectors
    of 128 bytes; the free-map file has 128 bytes, the directory file
    1280. *)
Lemma Format_leaves_empty_root_witness :
  (0 < 128 /\ 1 <= 30 /\ FreeMapFileSize 1024 <= bytes_in_level1 128 30
   /\ 1280 <= bytes_in_level1 128 30
   /\ Z.of_nat (length (dataSectors blank_header)) = 30
   /\ Z.of_nat (length raw_disk) = 1024
   /\ 2 + Z.max 0 (divRoundUp (FreeMapFileSize 1024) 128)
        + Z.max 0 (divRoundUp 1280 128) <= 1024)
  /\ exists fs,
       Format 128 30 blank_header 1024 1280 raw_disk no_directories = Ok fs
       /\ NumClear (freeMapData fs) = 1011
       /\ Open 9 fs Paths.big = Ok None.
Proof.
  assert (H0 : 0 < 128) by lia.
  assert (H1 : 1 <= 30) by lia.
  assert (H2 : FreeMapFileSize 1024 <= bytes_in_level1 128 30) by (vm_compute; discriminate).
  assert (H3 : 1280 <= bytes_in_level1 128 30) by (vm_compute; discriminate).
  assert (H4 : Z.of_nat (length (dataSectors blank_header)) = 30) by reflexivity.
  assert (H5 : Z.of_nat (length raw_disk) = 1024) by reflexivity.
  assert (H6 : 2 + Z.max 0 (divRoundUp (FreeMapFileSize 1024) 128)
                 + Z.max 0 (divRoundUp 1280 128) <= 1024) by (vm_compute; discriminate).
  split; [tauto|].
  destruct (Format_leaves_empty_root 128 30 blank_header 9 1024 1280 H0 H1
              raw_disk no_directories H2 H3 H4 H5 H6)
    as (fs & mapHdr & dirHdr & Hrun & _ & _ & _ & _ & _ & _ & _ & Hc & _ & Ho).
  exists fs. split; [exact Hrun|]. split; [exact Hc | apply Ho].
Defined.

(** *** Subdirectories *)

Lemma find_pointwise {A} (f g : A -> bool) l :
  (forall a, f a = g a) -> find f l = find g l.
Proof.
  intros H. induction l as [|a l IH]; simpl; [reflexivity|].
  rewrite H, IH. reflexivity.
Qed.

Section Subdirectories.

Variables SectorSize NumDirect : Z.
Variable blank : FileHeader.
Variable FileNameMaxLen : nat.
Variable DirectoryFileSize : Z.

Local Abbreviation L1 := (bytes_in_level1 SectorSize NumDirect).
Local Abbreviation same := (same_name FileNameMaxLen).
Local Abbreviation resolve := (resolve FileNameMaxLen).
Local Abbreviation resolve_dir := (resolve_dir FileNameMaxLen).
Local Abbreviation Find := (Find FileNameMaxLen).
Local Abbreviation FindDir := (FindDir FileNameMaxLen).
Local Abbreviation Add := (Add FileNameMaxLen).
Local Abbreviation AddDir := (AddDir FileNameMaxLen).
Local Abbreviation matches := (entry_matches FileNameMaxLen).
Local Abbreviation Create := (Create SectorSize NumDirect blank FileNameMaxLen).
Local Abbreviation CreateSubDir :=
  (CreateSubDir SectorSize NumDirect blank FileNameMaxLen DirectoryFileSize).
Local Abbreviation Remove := (Remove SectorSize NumDirect FileNameMaxLen).
Local Abbreviation RemoveDir := (RemoveDir SectorSize NumDirect FileNameMaxLen).
Local Abbreviation Open := (Open FileNameMaxLen).
Local Abbreviation opens_directory := (opens_directory FileNameMaxLen).
Local Abbreviation Allocate := (Allocate SectorSize NumDirect blank).

(** Names that [strncmp] does not tell apart are looked up alike. *)
Lemma same_name_lookup a b table :
  same a b = true ->
  Find table (Some a) = Find table (Some b)
  /\ FindDir table (Some a) = FindDir table (Some b).
Proof.
  intros H.
  assert (Hm : forall d e, matches d a e = matches d b e).
  { intros d e. unfold entry_matches. f_equal.
    rewrite (same_name_sym FileNameMaxLen (name e) a),
            (same_name_sym FileNameMaxLen (name e) b).
    now apply same_name_false_l. }
  rewrite !Find_first, !FindDir_first.
  rewrite (find_pointwise _ _ table (Hm false)), (find_pointwise _ _ table (Hm true)).
  split; reflexivity.
Qed.

(** A subdirectory that [FindDir] finds stands in an entry in use. *)
Lemma FindDir_entry table n s :
  FindDir table (Some n) = Ok s -> 0 <= s ->
  exists e, In e table /\ inUse e = true /\ isdir e = true /\ sector e = s.
Proof.
  rewrite FindDir_first. intros H Hs.
  destruct (find (matches true n) table) as [e|] eqn:E.
  - apply find_some in E. destruct E as [Hin Hm]. exists e.
    unfold entry_matches in Hm. simpl in Hm.
    apply andb_prop in Hm. destruct Hm as [Hm _].
    apply andb_prop in Hm. destruct Hm as [Hu Hd].
    inversion H. auto.
  - inversion H. lia.
Qed.

(** The path loop goes through marked sectors only. *)
Lemma resolve_marked fs toks : forall p d prev rest,
  dirs_marked fs ->
  resolve fs toks (dirData fs p) p = Ok (d, prev, rest) ->
  Test (freeMapData fs) p = Ok true ->
  Test (freeMapData fs) prev = Ok true.
Proof.
  induction toks as [|a toks IH]; intros p d prev rest Hm H Hp; simpl in H.
  - now inversion H; subst.
  - destruct (FileSys.FindDir FileNameMaxLen (dirData fs p) (Some a)) as [s|] eqn:Ef;
      simpl in H; [|discriminate].
    destruct (Z.ltb_spec s 0); [now inversion H; subst|].
    unfold OpenFile in H.
    destruct (FetchFrom (sectors fs) s); simpl in H; [|discriminate].
    apply (IH s d prev rest Hm H).
    destruct (FindDir_entry _ _ _ Ef ltac:(lia)) as (e & Hin & Hu & Hd & <-).
    destruct Hm as [_ Hm]. exact (Hm p e Hin Hu Hd).
Qed.

(** The path loop looks at nothing behind the component it stops at. *)
Lemma resolve_cut fs t rest pre : forall p d prev,
  resolve fs (pre ++ [t]) (dirData fs p) p = Ok (d, prev, [t]) ->
  resolve fs (pre ++ t :: rest) (dirData fs p) p = Ok (d, prev, t :: rest).
Proof.
  induction pre as [|a pre IH]; intros p d prev H; simpl in *.
  - destruct (FileSys.FindDir FileNameMaxLen (dirData fs p) (Some t)) as [s|];
      simpl in *; [|discriminate].
    destruct (s <? 0); [now inversion H|].
    destruct (OpenFile fs s); simpl in *; discriminate.
  - destruct (FileSys.FindDir FileNameMaxLen (dirData fs p) (Some a)) as [s|];
      simpl in *; [|discriminate].
    destruct (s <? 0).
    + inversion H. destruct pre; discriminate.
    + destruct (OpenFile fs s) as [f|] eqn:Eo; simpl in *; [|discriminate].
      assert (f = s).
      { unfold OpenFile in Eo. destruct (FetchFrom (sectors fs) s); simpl in Eo;
          [now inversion Eo | discriminate]. }
      subst f. now apply IH.
Qed.

(** The steps of a [CreateSubDir] that returns [TRUE]. *)
Lemma CreateSubDir_true fs name fs' :
  CreateSubDir fs name = Ok (true, fs') ->
  exists prev toks token new_sector fm0 directory1 dirhdr fm1 disk1 disk2,
    resolve fs (strtok name) (dirData fs DirectorySector) DirectorySector
    = Ok (dirData fs prev, prev, token :: toks)
    /\ FindAndSet (freeMapData fs) = (new_sector, fm0)
    /\ new_sector <> -1
    /\ AddDir (dirData fs prev) (Some token) new_sector = Ok (true, directory1)
    /\ Allocate blank fm0 (sectors fs) DirectoryFileSize = Ok (true, dirhdr, fm1, disk1)
    /\ WriteBack disk1 new_sector dirhdr = Ok disk2
    /\ fs' = mkFS disk2
               (write_dir (write_dir (dirData fs) new_sector (empty_directory NumDirEntries))
                  prev directory1)
               fm1.
Proof.
  unfold FileSys.CreateSubDir. intros H.
  destruct (FileSys.resolve FileNameMaxLen fs (strtok name) _ _)
    as [[[directory prev] toks]|] eqn:Er; simpl in H; [|discriminate].
  pose proof (resolve_table _ _ _ _ _ _ _ Er) as ->.
  destruct toks as [|token toks]; simpl in H; [discriminate|].
  destruct (FindAndSet (freeMapData fs)) as [new_sector fm0] eqn:Ef.
  destruct (Z.eqb_spec new_sector (-1)); [discriminate|].
  destruct (FileSys.AddDir FileNameMaxLen (dirData fs prev) (Some token) new_sector)
    as [[added directory1]|] eqn:Ea; simpl in H; [|discriminate].
  destruct added; simpl in H; [|discriminate].
  destruct (FileSys.Allocate SectorSize NumDirect blank blank fm0 (sectors fs)
              DirectoryFileSize)
    as [[[[allocated hdr] fm1] disk1]|] eqn:Eal; simpl in H; [|discriminate].
  destruct allocated; simpl in H; [|discriminate].
  destruct (WriteBack disk1 new_sector hdr) as [disk2|] eqn:Ew; simpl in H; [|discriminate].
  unfold OpenFile in H. simpl in H.
  destruct (FetchFrom disk2 new_sector); simpl in H; [|discriminate].
  inversion H; subst fs'.
  exists prev, toks, token, new_sector, fm0, directory1, hdr, fm1, disk1, disk2.
  repeat split; auto.
Qed.

(** What a [CreateSubDir] that returns [TRUE] leaves. *)
Lemma CreateSubDir_true_after fs name fs' :
  CreateSubDir fs name = Ok (true, fs') ->
  exists prev toks token new_sector fm0 directory1 dirhdr,
    resolve fs (strtok name) (dirData fs DirectorySector) DirectorySector
    = Ok (dirData fs prev, prev, token :: toks)
    /\ dirData fs'
       = write_dir (write_dir (dirData fs) new_sector (empty_directory NumDirEntries))
           prev directory1
    /\ AddDir (dirData fs prev) (Some token) new_sector = Ok (true, directory1)
    /\ 0 <= new_sector
    /\ Test (freeMapData fs) new_sector = Ok false
    /\ Mark (freeMapData fs) new_sector = Ok fm0
    /\ (exists disk1, Allocate blank fm0 (sectors fs) DirectoryFileSize
                      = Ok (true, dirhdr, freeMapData fs', disk1)
                      /\ WriteBack disk1 new_sector dirhdr = Ok (sectors fs'))
    /\ FetchFrom (sectors fs') new_sector = Ok dirhdr
    /\ length (sectors fs') = length (sectors fs)
    /\ (forall z, Test (freeMapData fs) z = Ok true -> Test (freeMapData fs') z = Ok true)
    /\ Test (freeMapData fs') new_sector = Ok true.
Proof.
  intros H.
  destruct (CreateSubDir_true fs name fs' H)
    as (prev & toks & token & new_sector & fm0 & directory1 & hdr & fm1 & disk1 & disk2
        & Hres & Hfas & Hns & Hadd & Hal & Hwb & ->).
  destruct (FindAndSet_spec _ _ _ Hfas) as [[Hs _]|(Hs0 & Hts & Hmk & _ & _)]; [congruence|].
  exists prev, toks, token, new_sector, fm0, directory1, hdr. simpl.
  assert (Hmarks : forall z, Test (freeMapData fs) z = Ok true -> Test fm1 z = Ok true).
  { intros z Hz. eapply Allocate_rec_marks; [exact Hal|].
    eapply FindAndSet_marks; eauto. }
  split; [exact Hres|]. split; [reflexivity|]. split; [exact Hadd|].
  split; [exact Hs0|]. split; [exact Hts|]. split; [exact Hmk|].
  split; [eauto|]. split; [eapply index_set_same; eauto|].
  split.
  - destruct (Allocate_rec_keeps _ _ _ _ _ _ _ _ _ _ _ _ Hal) as (Hl & _).
    apply index_set_length in Hwb. congruence.
  - split; [exact Hmarks|].
    eapply Allocate_rec_marks; [exact Hal|].
    unfold Test. eapply index_set_same; eauto.
Qed.

Lemma Mark_keeps_marks m s m' z :
  Mark m s = Ok m' -> Test m z = Ok true -> Test m' z = Ok true.
Proof.
  unfold Mark, Test. intros Hm Hz.
  destruct (Z.eq_dec z s) as [->|Hne].
  - eapply index_set_same; eauto.
  - rewrite (index_set_other _ _ _ z _ Hm Hne). exact Hz.
Qed.

(** The entries of a table to which one entry has been added. *)
Lemma add_entry_entries (dir : bool) table table1 n s e :
  add_entry FileNameMaxLen dir table (Some n) s = Ok (true, table1) ->
  In e table1 ->
  In e table \/ e = mkDirEnt true dir (String.substring 0 FileNameMaxLen n) s.
Proof.
  intros Hadd Hin.
  destruct (add_then_remove_shape FileNameMaxLen dir table table1 n s Hadd)
    as (pre & e0 & post & -> & _ & _ & -> & _).
  apply in_app_or in Hin. destruct Hin as [Hin|[<-|Hin]].
  - left. apply in_or_app. now left.
  - now right.
  - left. apply in_or_app. right. now right.
Qed.

(** The entries in use of a table from which the name just added has
    been removed again. *)
Lemma add_remove_entries (dir : bool) table table1 table2 n s e :
  add_entry FileNameMaxLen dir table (Some n) s = Ok (true, table1) ->
  Remove_entry FileNameMaxLen table1 (Some n) = Ok (true, table2) ->
  In e table2 -> inUse e = true -> In e table.
Proof.
  intros Hadd Hrem Hin Hu.
  destruct (add_then_remove_shape FileNameMaxLen dir table table1 n s Hadd)
    as (pre & e0 & post & -> & _ & _ & -> & Hrun).
  rewrite Hrun in Hrem. inversion Hrem; subst table2.
  apply in_app_or in Hin. destruct Hin as [Hin|[<-|Hin]].
  - apply in_or_app. now left.
  - discriminate.
  - apply in_or_app. right. now right.
Qed.

(** A name that has just been added was not there. *)
Lemma added_was_missing (dir : bool) table table1 n s :
  add_entry FileNameMaxLen dir table (Some n) s = Ok (true, table1) ->
  Find table (Some n) = Ok (-1) /\ FindDir table (Some n) = Ok (-1).
Proof.
  intros Hadd.
  destruct (add_entry_spec FileNameMaxLen dir n s table)
    as [[_ Hrun]|(pre & e & post & _ & Hnone & _ & _ & _)]; [congruence|].
  rewrite Find_first, FindDir_first, Hnone, (find_dir_none _ _ _ Hnone).
  split; reflexivity.
Qed.

(** *** The path loop after a directory has been created *)

Section PathWalk.

Variables fs fs1 : FileSystem.
Variables prev new_sector : Z.
Variable token : string.
Variable directory1 : Directory.

Hypothesis Hmarked : dirs_marked fs.
Hypothesis Hclear : Test (freeMapData fs) new_sector = Ok false.
Hypothesis Hprev : Test (freeMapData fs) prev = Ok true.
Hypothesis Hlen : length (sectors fs1) = length (sectors fs).
Hypothesis Hdata :
  dirData fs1
  = write_dir (write_dir (dirData fs) new_sector (empty_directory NumDirEntries))
      prev directory1.
Hypothesis Hadd : AddDir (dirData fs prev) (Some token) new_sector = Ok (true, directory1).
Hypothesis Hnonneg : 0 <= new_sector.
Hypothesis Hin : OpenFile fs1 new_sector = Ok new_sector.

Lemma new_table_prev : dirData fs1 prev = directory1.
Proof. rewrite Hdata. unfold write_dir. now rewrite Z.eqb_refl. Qed.

Lemma new_table_new : dirData fs1 new_sector = empty_directory NumDirEntries.
Proof.
  rewrite Hdata. unfold write_dir.
  destruct (Z.eqb_spec new_sector prev) as [E|_]; [congruence|].
  now rewrite Z.eqb_refl.
Qed.

Lemma new_table_other p :
  Test (freeMapData fs) p = Ok true -> p <> prev -> dirData fs1 p = dirData fs p.
Proof.
  intros Hp Hne. rewrite Hdata. unfold write_dir.
  destruct (Z.eqb_spec p prev); [contradiction|].
  destruct (Z.eqb_spec p new_sector); [congruence | reflexivity].
Qed.

Lemma new_entry_found : FindDir (dirData fs1 prev) (Some token) = Ok new_sector.
Proof.
  rewrite new_table_prev.
  now destruct (add_entry_then_lookup FileNameMaxLen true _ _ _ _ Hadd) as (_ & _ & H & _).
Qed.

Lemma walk_step a rest p d :
  resolve fs (a :: rest) (dirData fs p) p = Ok (d, prev, [token]) ->
  Test (freeMapData fs) p = Ok true ->
  (a = token /\ rest = [] /\ p = prev)
  \/ (exists s, FindDir (dirData fs1 p) (Some a) = Ok s /\ 0 <= s
        /\ OpenFile fs1 s = Ok s
        /\ Test (freeMapData fs) s = Ok true
        /\ resolve fs rest (dirData fs s) s = Ok (d, prev, [token])).
Proof.
  intros H Hp. simpl in H.
  destruct (FileSys.FindDir FileNameMaxLen (dirData fs p) (Some a)) as [s|] eqn:Ef;
    simpl in H; [|discriminate].
  destruct (Z.ltb_spec s 0) as [Hneg|Hs].
  { left. inversion H; subst. auto. }
  right. exists s.
  unfold OpenFile in H.
  destruct (FetchFrom (sectors fs) s) as [h|] eqn:Efetch; simpl in H; [|discriminate].
  split; [|split; [lia|split; [|split; [|exact H]]]].
  - destruct (Z.eq_dec p prev) as [->|Hne].
    + rewrite new_table_prev.
      destruct (same a token) eqn:Esame.
      * exfalso.
        destruct (same_name_lookup a token (dirData fs prev) Esame) as [_ E].
        destruct (added_was_missing true _ _ _ _ Hadd) as [_ Hmiss].
        rewrite E, Hmiss in Ef. inversion Ef. lia.
      * destruct (add_entry_then_lookup FileNameMaxLen true _ _ _ _ Hadd)
          as (_ & _ & _ & Hother).
        destruct (Hother a Esame) as [_ ->]. exact Ef.
    + rewrite (new_table_other p Hp Hne). exact Ef.
  - unfold OpenFile.
    apply index_bound in Efetch.
    destruct (index_in_range (sectors fs1) s) as [h1 Hh1]; [rewrite Hlen; lia|].
    unfold FetchFrom. rewrite Hh1. reflexivity.
  - destruct (FindDir_entry _ _ _ Ef Hs) as (e & Hine & Hu & Hd & <-).
    destruct Hmarked as [_ Hm]. exact (Hm p e Hine Hu Hd).
Qed.

(** In the new file system the path loop of [Create], [CreateSubDir],
    [Open] and [Remove] enters the new directory. *)
Lemma resolve_into_new toks : forall p d,
  resolve fs toks (dirData fs p) p = Ok (d, prev, [token]) ->
  Test (freeMapData fs) p = Ok true ->
  resolve fs1 toks (dirData fs1 p) p
  = Ok (empty_directory NumDirEntries, new_sector, []).
Proof.
  induction toks as [|a rest IH]; intros p d H Hp.
  - simpl in H. inversion H.
  - destruct (walk_step a rest p d H Hp) as [(-> & -> & ->)|(s & Hf & Hs & Ho & Hms & Hr)].
    + simpl. rewrite new_entry_found. simpl.
      destruct (Z.ltb_spec new_sector 0); [lia|].
      rewrite Hin. simpl. now rewrite new_table_new.
    + simpl. rewrite Hf. simpl.
      destruct (Z.ltb_spec s 0); [lia|].
      rewrite Ho. simpl. exact (IH s d Hr Hms).
Qed.

(** So does the path loop of [RemoveDir]. *)
Lemma resolve_dir_into_new toks : forall p d temp pOF sec pt,
  resolve fs toks (dirData fs p) p = Ok (d, prev, [token]) ->
  Test (freeMapData fs) p = Ok true ->
  match temp with None => DirectorySector | Some f => f end = p ->
  resolve_dir fs1 toks (dirData fs1 p) temp pOF sec pt
  = Ok (prev, new_sector, Some token).
Proof.
  induction toks as [|a rest IH]; intros p d temp pOF sec pt H Hp Ht.
  - simpl in H. inversion H.
  - destruct (walk_step a rest p d H Hp) as [(-> & -> & ->)|(s & Hf & Hs & Ho & Hms & Hr)].
    + simpl. rewrite new_entry_found. simpl.
      destruct (Z.ltb_spec new_sector 0); [lia|].
      rewrite Hin. simpl. now rewrite Ht.
    + simpl. rewrite Hf. simpl.
      destruct (Z.ltb_spec s 0); [lia|].
      rewrite Ho. simpl. exact (IH s d (Some s) _ _ _ Hr Hms eq_refl).
Qed.

(** The first step of the loop when the name has more than one
    component: the first names a directory that has an entry in use
    after the call. *)
Lemma first_step_inside name d :
  resolve fs (strtok name) (dirData fs DirectorySector) DirectorySector
  = Ok (d, prev, [token]) ->
  (strtok name = [token] /\ prev = DirectorySector)
  \/ (strtok name <> [token]
      /\ exists t rest s h,
           strtok name = t :: rest
           /\ FindDir (dirData fs1 DirectorySector) (Some t) = Ok s
           /\ 0 <= s
           /\ FetchFrom (sectors fs1) s = Ok h
           /\ Test (freeMapData fs) s = Ok true
           /\ exists e, In e (dirData fs1 s) /\ inUse e = true).
Proof.
  intros H.
  assert (Hroot : Test (freeMapData fs) DirectorySector = Ok true) by apply Hmarked.
  destruct (strtok name) as [|a rest] eqn:Hn; [simpl in H; inversion H|].
  destruct (walk_step a rest DirectorySector d H Hroot)
    as [(-> & -> & <-)|(s & Hf & Hs & Ho & Hms & Hr)]; [left; auto|].
  right. split.
  { intros E. inversion E; subst. simpl in Hr. inversion Hr. }
  unfold OpenFile in Ho.
  destruct (FetchFrom (sectors fs1) s) as [h|] eqn:Eh; [|discriminate].
  exists a, rest, s, h.
  split; [reflexivity|]. split; [exact Hf|]. split; [exact Hs|]. split; [exact Eh|].
  split; [exact Hms|].
  destruct (Z.eq_dec s prev) as [->|Hne].
  - rewrite new_table_prev. exact (added_in_use FileNameMaxLen true _ _ _ _ Hadd).
  - rewrite (new_table_other s Hms Hne).
    apply (resolve_moves FileNameMaxLen fs rest s d prev [token] Hr);
      [discriminate | congruence].
Qed.

End PathWalk.

(** *** Creating and removing a directory *)

Lemma Create_true_marked (fs fs' : FileSystem) (name : string) (initialSize : Z) :
  dirs_marked fs -> Create fs name initialSize = Ok (true, fs') -> dirs_marked fs'.
Proof.
  intros Hm H.
  destruct (Create_true_after _ _ _ _ _ _ _ _ H)
    as (prev & toks & token & new_sector & fm0 & directory1 & hdr
        & _ & _ & Hdir & Hadd & _ & _ & _ & Hmk & _ & (disk1 & Hal & _) & _).
  assert (Hmarks : forall z, Test (freeMapData fs) z = Ok true ->
                             Test (freeMapData fs') z = Ok true).
  { intros z Hz. eapply Allocate_rec_marks; [exact Hal|].
    eapply Mark_keeps_marks; eauto. }
  destruct Hm as [Hroot Hm]. split; [now apply Hmarks|].
  intros f e Hin Hu Hd. rewrite Hdir in Hin. unfold write_dir in Hin.
  destruct (f =? prev).
  + destruct (add_entry_entries false _ _ _ _ _ Hadd Hin) as [Hold| ->].
    * apply Hmarks. exact (Hm prev e Hold Hu Hd).
    * discriminate.
  + apply Hmarks. exact (Hm f e Hin Hu Hd).
Qed.

Lemma CreateSubDir_true_marked (fs fs' : FileSystem) (name : string) :
  dirs_marked fs -> CreateSubDir fs name = Ok (true, fs') -> dirs_marked fs'.
Proof.
  intros Hm H.
  destruct (CreateSubDir_true_after _ _ _ H)
    as (prev & toks & token & new_sector & fm0 & directory1 & hdr
        & _ & Hdir & Hadd & _ & _ & _ & _ & _ & _ & Hmarks & Hnew).
  destruct Hm as [Hroot Hm]. split; [now apply Hmarks|].
  intros f e Hin Hu Hd. rewrite Hdir in Hin. unfold write_dir in Hin.
  destruct (f =? prev).
  + destruct (add_entry_entries true _ _ _ _ _ Hadd Hin) as [Hold| ->].
    * apply Hmarks. exact (Hm prev e Hold Hu Hd).
    * exact Hnew.
  + destruct (f =? new_sector).
    * pose proof (empty_directory_unused NumDirEntries) as Hempty.
      rewrite Forall_forall in Hempty. rewrite (Hempty e Hin) in Hu. discriminate.
    * apply Hmarks. exact (Hm f e Hin Hu Hd).
Qed.

(** [Create] and [CreateSubDir] keep the subdirectories in marked
    sectors.  When the sector of the root directory is marked and every
    entry in use that names a subdirectory points to a marked sector,
    the same holds after [Create] and after [CreateSubDir], whatever
    they return. *)
Theorem Create_keeps_dirs_marked (fs fs' : FileSystem) (name : string)
    (initialSize : Z) (b : bool) :
  dirs_marked fs ->
  (Create fs name initialSize = Ok (b, fs') -> dirs_marked fs')
  /\ (CreateSubDir fs name = Ok (b, fs') -> dirs_marked fs').
Proof.
  intros Hm. split; intros H; destruct b.
  - exact (Create_true_marked fs fs' name initialSize Hm H).
  - now rewrite (Create_false_same _ _ _ _ _ _ _ _ H).
  - exact (CreateSubDir_true_marked fs fs' name Hm H).
  - now rewrite (CreateSubDir_false_same _ _ _ _ _ _ _ _ H).
Qed.

(** A created directory is there, and empty.  On a file system whose
    subdirectories are in marked sectors, let the path loop over [name]
    stop at the last component.  After [CreateSubDir(name)] has returned
    [TRUE], the header of the new directory is in a sector that was free
    before and is marked now, and records [DirectoryFileSize] as the
    length; the directory the path leads to has the last component as a
    subdirectory in that sector; a second [CreateSubDir], of a fresh
    copy of the name or of the buffer the first was called with,
    returns [FALSE] and changes nothing; and [Open] of a fresh copy
    returns [NULL].  On the buffer that [CreateSubDir] was called with,
    which [strtok] has cut behind the first component, [Open] returns
    [NULL] as well when the name has that one component; when it has
    more, the buffer names the first directory only, and [Open] hands a
    [NULL] name to [Find] there, which does not return. *)
Theorem CreateSubDir_then_there (fs fs' : FileSystem) (name : string)
    (directory : Directory) (prev : Z) (token : string) :
  dirs_marked fs ->
  resolve fs (strtok name) (dirData fs DirectorySector) DirectorySector
  = Ok (directory, prev, [token]) ->
  CreateSubDir fs name = Ok (true, fs') ->
  exists new_sector hdr,
    Test (freeMapData fs) new_sector = Ok false
    /\ Test (freeMapData fs') new_sector = Ok true
    /\ FetchFrom (sectors fs') new_sector = Ok hdr
    /\ FileLength hdr = DirectoryFileSize
    /\ FindDir (dirData fs' prev) (Some token) = Ok new_sector
    /\ dirData fs' new_sector = empty_directory NumDirEntries
    /\ CreateSubDir fs' name = Ok (false, fs')
    /\ Open fs' name = Ok None
    /\ CreateSubDir fs' (strtok_buffer name) = Ok (false, fs')
    /\ (strtok name = [token] -> Open fs' (strtok_buffer name) = Ok None)
    /\ (strtok name <> [token] -> Open fs' (strtok_buffer name) = Stop NullPointer).
Proof.
  intros Hm Hlast H.
  destruct (CreateSubDir_true_after _ _ _ H)
    as (prev0 & toks & token0 & new_sector & fm0 & directory1 & hdr
        & Hres & Hdir & Hadd & Hs0 & Hts & Hmk & (disk1 & Hal & Hwb) & Hfetch & Hlen
        & Hmarks & Hnew).
  rewrite Hlast in Hres. inversion Hres; subst directory prev0 token0 toks. clear Hres.
  assert (Hroot : Test (freeMapData fs) DirectorySector = Ok true) by apply Hm.
  pose proof (resolve_marked fs _ _ _ _ _ Hm Hlast Hroot) as Hprev.
  assert (Hopen : OpenFile fs' new_sector = Ok new_sector)
    by (unfold OpenFile; rewrite Hfetch; reflexivity).
  pose proof (resolve_into_new fs fs' prev new_sector token directory1 Hm Hts Hprev Hlen
                Hdir Hadd Hs0 Hopen (strtok name) DirectorySector _ Hlast Hroot) as Hwalk.
  assert (Hagain : CreateSubDir fs' name = Ok (false, fs'))
    by (unfold FileSys.CreateSubDir; rewrite Hwalk; reflexivity).
  assert (Hnone : Open fs' name = Ok None).
  { unfold FileSys.Open. rewrite Hwalk. cbn [bind hd_error]. cbv iota beta. cbn [hd_error].
    destruct (lookup_unused FileNameMaxLen (empty_directory NumDirEntries) None
                (empty_directory_unused NumDirEntries)) as [-> _].
    reflexivity. }
  pose proof (first_step_inside fs fs' prev new_sector token directory1 Hm Hts Hprev Hlen
                Hdir Hadd name _ Hlast) as Hfirst.
  exists new_sector, hdr.
  split; [exact Hts|]. split; [exact Hnew|]. split; [exact Hfetch|].
  split.
  { unfold FileLength.
    now destruct (Allocate_rec_keeps _ _ _ _ _ _ _ _ _ _ _ _ Hal) as (_ & -> & _). }
  split; [exact (new_entry_found fs fs' prev new_sector token directory1 Hdir Hadd)|].
  split; [exact (new_table_new fs fs' prev new_sector directory1 Hts Hprev Hdir)|].
  split; [exact Hagain|]. split; [exact Hnone|].
  split; [|split].
  - destruct Hfirst as [[Hone _]|(_ & t & rest & s & h & Hn & Hf & Hs & Hh & _ & Hu)].
    + unfold FileSys.CreateSubDir. rewrite (strtok_buffer_single name token Hone).
      exact Hagain.
    + now destruct (second_call_inside SectorSize NumDirect blank FileNameMaxLen
                      DirectoryFileSize fs' name t rest s h Hn Hf Hs Hh Hu)
        as (_ & _ & _ & _ & Hc).
  - intros Hone. unfold FileSys.Open. rewrite (strtok_buffer_single name token Hone).
    exact Hnone.
  - intros Hmore.
    destruct Hfirst as [[Hone _]|(_ & t & rest & s & h & Hn & Hf & Hs & Hh & _ & Hu)];
      [contradiction|].
    now destruct (second_call_inside SectorSize NumDirect blank FileNameMaxLen
                    DirectoryFileSize fs' name t rest s h Hn Hf Hs Hh Hu) as (Ho & _).
Qed.

Hypothesis SectorSize_pos : 0 < SectorSize.
Hypothesis NumDirect_pos : 1 <= NumDirect.

(** [RemoveDir] undoes [CreateSubDir].  On a file system whose
    subdirectories are in marked sectors, for directory files that fit a
    leaf header, let the path loop over [name] stop at the last
    component.  After [CreateSubDir(name)] has returned [TRUE],
    [RemoveDir] of a fresh copy of the name returns [TRUE], whatever its
    locals held on entry; the free map is exactly as it was before the
    [CreateSubDir]; every directory in a sector that was marked then
    answers [Find] and [FindDir] as it did then; and the subdirectories
    are in marked sectors still.  On the buffer that [CreateSubDir] was
    called with, [RemoveDir] does the same when the name has one
    component.  When it has more, the buffer names the first directory
    of the path only, and [RemoveDir] works on that one: if it returns,
    the sector of that directory's header, marked before the
    [CreateSubDir], is clear in the free map, which is therefore not the
    one of before. *)
Theorem RemoveDir_after_CreateSubDir (fuel : nat) (fs fs1 : FileSystem) (name : string)
    (directory : Directory) (prev : Z) (token : string)
    (sector : Z) (pre_token : option string) :
  DirectoryFileSize <= L1 ->
  Z.of_nat (length (dataSectors blank)) = NumDirect ->
  dirs_marked fs ->
  resolve fs (strtok name) (dirData fs DirectorySector) DirectorySector
  = Ok (directory, prev, [token]) ->
  CreateSubDir fs name = Ok (true, fs1) ->
  exists fs2,
    RemoveDir (S fuel) fs1 name sector pre_token = Ok (true, fs2)
    /\ freeMapData fs2 = freeMapData fs
    /\ sectors fs2 = sectors fs1
    /\ (forall f m, Test (freeMapData fs) f = Ok true ->
          Find (dirData fs2 f) (Some m) = Find (dirData fs f) (Some m)
          /\ FindDir (dirData fs2 f) (Some m) = FindDir (dirData fs f) (Some m))
    /\ dirs_marked fs2
    /\ (strtok name = [token] ->
          RemoveDir (S fuel) fs1 (strtok_buffer name) sector pre_token = Ok (true, fs2))
    /\ (strtok name <> [token] ->
          exists t s,
            hd_error (strtok name) = Some t
            /\ FindDir (dirData fs1 DirectorySector) (Some t) = Ok s
            /\ Test (freeMapData fs) s = Ok true
            /\ forall b fs3,
                 RemoveDir (S fuel) fs1 (strtok_buffer name) sector pre_token
                 = Ok (b, fs3) ->
                 b = true /\ Test (freeMapData fs3) s = Ok false).
Proof.
  intros Hleaf Hblank Hm Hlast H.
  destruct (CreateSubDir_true_after _ _ _ H)
    as (prev0 & toks & token0 & new_sector & fm0 & directory1 & hdr
        & Hres & Hdir & Hadd & Hs0 & Hts & Hmk & (disk1 & Hal & Hwb) & Hfetch & Hlen
        & Hmarks & Hnew).
  rewrite Hlast in Hres. inversion Hres; subst directory prev0 token0 toks. clear Hres.
  assert (Hroot : Test (freeMapData fs) DirectorySector = Ok true) by apply Hm.
  pose proof (resolve_marked fs _ _ _ _ _ Hm Hlast Hroot) as Hprev.
  assert (Hopen : OpenFile fs1 new_sector = Ok new_sector)
    by (unfold OpenFile; rewrite Hfetch; reflexivity).
  pose proof (resolve_dir_into_new fs fs1 prev new_sector token directory1 Hm Hts Hprev
                Hlen Hdir Hadd Hs0 Hopen (strtok name) DirectorySector _ None
                DirectorySector sector pre_token Hlast Hroot eq_refl) as Hwalk.
  pose proof (Allocate_true_enough _ _ _ _ _ _ _ _ _ _ Hal) as Henough.
  destruct (leaf_round_trip SectorSize NumDirect blank SectorSize_pos NumDirect_pos
              blank fm0 (sectors fs) DirectoryFileSize Hleaf Hblank Henough)
    as (h' & fm' & Hrun & Hback).
  rewrite Hrun in Hal. inversion Hal; subst h' disk1. clear Hal.
  destruct (Remove_entry_after_add FileNameMaxLen true _ _ _ _ Hadd)
    as (table2 & Hrem & _ & Hsame).
  pose proof (new_table_prev fs fs1 prev new_sector directory1 Hdir) as Hat.
  pose proof (first_step_inside fs fs1 prev new_sector token directory1 Hm Hts Hprev Hlen
                Hdir Hadd name _ Hlast) as Hfirst.
  assert (Hdone : RemoveDir (S fuel) fs1 name sector pre_token
                 = Ok (true, mkFS (sectors fs1) (write_dir (dirData fs1) prev table2)
                               (freeMapData fs))).
  { unfold FileSys.RemoveDir. rewrite Hwalk. cbn [bind]. cbv iota beta.
    rewrite Hfetch. cbn [bind]. rewrite <- H2, (Hback fuel (sectors fs1)). cbn [bind].
    rewrite (Clear_Mark _ _ _ Hts Hmk). cbn [bind].
    rewrite Hat, Hrem. cbn [bind snd]. reflexivity. }
  eexists. split; [exact Hdone|].
  cbn [freeMapData sectors dirData].
  split; [reflexivity|]. split; [reflexivity|].
  assert (Hbuffer :
    (strtok name = [token] ->
       RemoveDir (S fuel) fs1 (strtok_buffer name) sector pre_token
       = Ok (true, mkFS (sectors fs1) (write_dir (dirData fs1) prev table2)
                     (freeMapData fs)))
    /\ (strtok name <> [token] ->
          exists t s,
            hd_error (strtok name) = Some t
            /\ FindDir (dirData fs1 DirectorySector) (Some t) = Ok s
            /\ Test (freeMapData fs) s = Ok true
            /\ forall b fs3,
                 RemoveDir (S fuel) fs1 (strtok_buffer name) sector pre_token
                 = Ok (b, fs3) ->
                 b = true /\ Test (freeMapData fs3) s = Ok false)).
  { split.
    - intros Hone. unfold FileSys.RemoveDir.
      rewrite (strtok_buffer_single name token Hone). exact Hdone.
    - intros Hmore.
      destruct Hfirst as [[Hone _]|(_ & t & rest & s & h & Hn & Hf & Hs & Hh & Hms & _)];
        [contradiction|].
      exists t, s. split; [now rewrite Hn|]. split; [exact Hf|]. split; [exact Hms|].
      intros b fs3.
      exact (second_RemoveDir_inside SectorSize NumDirect FileNameMaxLen fs1 name t rest
               s h (S fuel) sector pre_token Hn Hf Hs Hh b fs3). }
  refine (proj1 (and_assoc _ _ _) (conj _ Hbuffer)). split.
  - intros f m Hf. unfold write_dir.
    destruct (Z.eqb_spec f prev) as [->|Hne].
    + destruct (Hsame m) as (_ & Hfind & Hfd). now rewrite Hfind, Hfd.
    + rewrite (new_table_other fs fs1 prev new_sector directory1 Hts Hprev Hdir f Hf Hne).
      split; reflexivity.
  - destruct Hm as [_ Hall]. split; [exact Hroot|]. simpl.
    intros f e Hin Hu Hd. unfold write_dir in Hin.
    destruct (Z.eqb_spec f prev) as [->|Hne].
    + exact (Hall prev e (add_remove_entries true _ _ _ _ _ _ Hadd Hrem Hin Hu) Hu Hd).
    + rewrite Hdir in Hin. unfold write_dir in Hin.
      destruct (Z.eqb_spec f prev); [contradiction|].
      destruct (f =? new_sector).
      * pose proof (empty_directory_unused NumDirEntries) as Hempty.
        rewrite Forall_forall in Hempty. rewrite (Hempty e Hin) in Hu. discriminate.
      * exact (Hall f e Hin Hu Hd).
Qed.

(** What follows a missing directory in a path is ignored.  When the
    path loop over [name] stops at a component [t] that is not a
    subdirectory of the directory reached, [Create], [CreateSubDir],
    [Open] and [Remove] behave as for any other path that is the same
    up to [t]: they act on the name [t] in the directory reached.  A
    [Create] that returns [TRUE] has made a file [t] there, which [Open]
    of any such path returns.  On the buffer that [Create] was called
    with, [Open] returns that file when [t] is the first component;
    when the loop went through directories, the buffer names the first
    of them only and [Open] hands a [NULL] name to [Find] there, which
    does not return. *)
Theorem path_cut_at_missing_directory (fuel : nat) (fs : FileSystem)
    (name name' : string) (pre rest rest' : list string) (t : string)
    (directory : Directory) (prev : Z) (initialSize : Z) :
  strtok name = pre ++ t :: rest ->
  strtok name' = pre ++ t :: rest' ->
  resolve fs (pre ++ [t]) (dirData fs DirectorySector) DirectorySector
  = Ok (directory, prev, [t]) ->
  Create fs name initialSize = Create fs name' initialSize
  /\ CreateSubDir fs name = CreateSubDir fs name'
  /\ Open fs name = Open fs name'
  /\ Remove fuel fs name = Remove fuel fs name'
  /\ (forall fs', Create fs name initialSize = Ok (true, fs') ->
        exists s, 0 <= s
                  /\ Find (dirData fs' prev) (Some t) = Ok s
                  /\ Open fs' name' = Ok (Some s)
                  /\ (pre = [] -> Open fs' (strtok_buffer name) = Ok (Some s))
                  /\ (pre <> [] -> Open fs' (strtok_buffer name) = Stop NullPointer)).
Proof.
  intros Hn Hn' Hstop.
  pose proof (resolve_cut fs t rest pre _ _ _ Hstop) as Hr.
  pose proof (resolve_cut fs t rest' pre _ _ _ Hstop) as Hr'.
  rewrite <- Hn in Hr. rewrite <- Hn' in Hr'.
  split; [unfold FileSys.Create; rewrite Hr, Hr'; reflexivity|].
  split; [unfold FileSys.CreateSubDir; rewrite Hr, Hr'; reflexivity|].
  split; [unfold FileSys.Open; rewrite Hr, Hr'; reflexivity|].
  split; [unfold FileSys.Remove; rewrite Hr, Hr'; reflexivity|].
  intros fs' H.
  destruct (Create_true_after _ _ _ _ _ _ _ _ H)
    as (prev0 & toks & token & new_sector & fm0 & directory1 & hdr
        & Hres & Hres' & Hdir & _ & Hfind & Hs0 & _ & _ & _ & _ & Hfetch & Hlen).
  rewrite Hr in Hres. inversion Hres; subst prev0 token toks.
  assert (Hat : dirData fs' prev = directory1)
    by (rewrite Hdir; unfold write_dir; now rewrite Z.eqb_refl).
  assert (Hstop' : resolve fs' (pre ++ [t]) (dirData fs' DirectorySector) DirectorySector
                   = Ok (dirData fs' prev, prev, [t])).
  { apply (resolve_agree FileNameMaxLen fs fs' (pre ++ [t]) DirectorySector directory
             prev [t] Hlen); [|exact Hstop].
    intros f m. exact (Create_true_root _ _ _ _ fs name initialSize fs' H f m). }
  assert (Hgen : forall n rest0, strtok n = pre ++ t :: rest0 ->
                                 Open fs' n = Ok (Some new_sector)).
  { intros n rest0 Hn0. unfold FileSys.Open.
    rewrite Hn0, (resolve_cut fs' t rest0 pre _ _ _ Hstop'). cbn [bind hd_error].
    rewrite Hat, Hfind. cbn [bind].
    destruct (Z.geb_spec new_sector 0); [|lia].
    unfold OpenFile. rewrite Hfetch. reflexivity. }
  exists new_sector. split; [exact Hs0|]. split; [now rewrite Hat|].
  split; [exact (Hgen name' rest' Hn')|]. split.
  - intros ->. apply (Hgen _ []). simpl in Hn.
    exact (strtok_buffer_first name t rest Hn).
  - intros Hpre.
    assert (Hin : opens_directory fs name = true).
    { unfold FileSys.opens_directory. rewrite Hn.
      destruct pre as [|a pre']; [contradiction|].
      cbn [app]. cbn [app FileSys.resolve] in Hstop.
      destruct (FileSys.FindDir FileNameMaxLen (dirData fs DirectorySector) (Some a))
        as [s|]; cbn [bind] in Hstop; [|discriminate].
      destruct (Z.ltb_spec s 0); [|now apply Z.leb_le].
      inversion Hstop. destruct pre'; discriminate. }
    destruct (Create_true_inside _ _ _ _ fs name initialSize fs' H Hin)
      as (a & rest1 & s & h & Ha & Hf & Hs & Hh & Hu).
    now destruct (second_call_inside SectorSize NumDirect blank FileNameMaxLen
                    DirectoryFileSize fs' name a rest1 s h Ha Hf Hs Hh Hu) as (Ho & _).
Qed.

End Subdirectories.

(** *** The formatted disk *)

Lemma formatted_marked : dirs_marked formatted.
Proof.
  split; [vm_compute; reflexivity|].
  assert (Hd : dirData formatted
               = write_dir no_directories DirectorySector (empty_directory NumDirEntries))
    by (vm_compute; reflexivity).
  intros f e Hin Hu _. exfalso.
  rewrite Hd in Hin. unfold write_dir, no_directories in Hin.
  pose proof (empty_directory_unused NumDirEntries) as Hempty.
  rewrite Forall_forall in Hempty.
  destruct (f =? DirectorySector); rewrite (Hempty e Hin) in Hu; discriminate.
Qed.

Lemma formatted_root_walk (t : string) :
  FindDir 9 (dirData formatted DirectorySector) (Some t) = Ok (-1).
Proof.
  assert (Hd : dirData formatted DirectorySector = empty_directory NumDirEntries)
    by (vm_compute; reflexivity).
  rewrite Hd.
  now destruct (lookup_unused 9 (empty_directory NumDirEntries) (Some t)
                  (empty_directory_unused NumDirEntries)).
Qed.

(** [Create_keeps_dirs_marked] at the file [/big] and the directory [/d]
    on the formatted disk. *)
Lemma Create_keeps_dirs_marked_witness :
  dirs_marked formatted
  /\ Create 128 30 blank_header 9 formatted Paths.big 3840 = Ok (true, with_small)
  /\ dirs_marked with_small
  /\ CreateSubDir 128 30 blank_header 9 1280 formatted Paths.dir = Ok (true, with_dir)
  /\ dirs_marked with_dir.
Proof.
  split; [exact formatted_marked|].
  split; [exact with_small_ok|].
  split.
  - destruct (Create_keeps_dirs_marked 128 30 blank_header 9 1280 formatted with_small
                Paths.big 3840 true formatted_marked) as [H _].
    exact (H with_small_ok).
  - split; [exact with_dir_ok|].
    destruct (Create_keeps_dirs_marked 128 30 blank_header 9 1280 formatted with_dir
                Paths.dir 0 true formatted_marked) as [_ H].
    exact (H with_dir_ok).
Defined.

Lemma dir_walk :
  resolve 9 formatted (strtok Paths.dir) (dirData formatted DirectorySector)
    DirectorySector
  = Ok (dirData formatted DirectorySector, DirectorySector, [Entries.d]).
Proof.
  change (strtok Paths.dir) with [Entries.d].
  cbn [resolve]. rewrite formatted_root_walk. reflexivity.
Qed.

(** *** The disk that holds the directory [/d] *)

Lemma with_dir_marked : dirs_marked with_dir.
Proof.
  exact (CreateSubDir_true_marked 128 30 blank_header 9 1280 formatted with_dir Paths.dir
           formatted_marked with_dir_ok).
Qed.

Lemma with_sub_ok :
  CreateSubDir 128 30 blank_header 9 1280 with_dir Entries.d_sub = Ok (true, with_sub).
Proof. vm_compute. reflexivity. Qed.

Lemma with_deep_ok :
  Create 128 30 blank_header 9 with_dir Entries.d_nosuch_deep 100 = Ok (true, with_deep).
Proof. vm_compute. reflexivity. Qed.

(** The directory [/d] has its header in sector 13. *)
Lemma sub_walk :
  resolve 9 with_dir (strtok Entries.d_sub) (dirData with_dir DirectorySector)
    DirectorySector
  = Ok (dirData with_dir 13, 13, [Entries.sub]).
Proof. vm_compute. reflexivity. Qed.

Lemma nosuch_walk :
  resolve 9 with_dir ([Entries.d] ++ [Entries.missing])
    (dirData with_dir DirectorySector) DirectorySector
  = Ok (dirData with_dir 13, 13, [Entries.missing]).
Proof. vm_compute. reflexivity. Qed.

(** [CreateSubDir_then_there] at the directory [/d] on the formatted
    disk, where the buffer is left as it was, and at the directory
    [/d/sub], where the buffer reads [/d] afterwards and [Open] on it
    does not return. *)
Lemma CreateSubDir_then_there_witness :
  (dirs_marked formatted
   /\ resolve 9 formatted (strtok Paths.dir) (dirData formatted DirectorySector)
        DirectorySector
      = Ok (dirData formatted DirectorySector, DirectorySector, [Entries.d])
   /\ CreateSubDir 128 30 blank_header 9 1280 formatted Paths.dir = Ok (true, with_dir)
   /\ dirs_marked with_dir
   /\ resolve 9 with_dir (strtok Entries.d_sub) (dirData with_dir DirectorySector)
        DirectorySector
      = Ok (dirData with_dir 13, 13, [Entries.sub])
   /\ CreateSubDir 128 30 blank_header 9 1280 with_dir Entries.d_sub = Ok (true, with_sub))
  /\ (exists new_sector hdr,
        FetchFrom (sectors with_dir) new_sector = Ok hdr
        /\ FileLength hdr = 1280
        /\ FindDir 9 (dirData with_dir DirectorySector) (Some Entries.d) = Ok new_sector
        /\ CreateSubDir 128 30 blank_header 9 1280 with_dir Paths.dir = Ok (false, with_dir)
        /\ Open 9 with_dir Paths.dir = Ok None
        /\ strtok_buffer Paths.dir = Paths.dir
        /\ Open 9 with_dir (strtok_buffer Paths.dir) = Ok None)
  /\ (exists new_sector,
        FindDir 9 (dirData with_sub 13) (Some Entries.sub) = Ok new_sector
        /\ Open 9 with_sub Entries.d_sub = Ok None
        /\ strtok_buffer Entries.d_sub = Paths.dir
        /\ CreateSubDir 128 30 blank_header 9 1280 with_sub (strtok_buffer Entries.d_sub)
           = Ok (false, with_sub)
        /\ Open 9 with_sub (strtok_buffer Entries.d_sub) = Stop NullPointer).
Proof.
  split.
  { split; [exact formatted_marked|]. split; [exact dir_walk|].
    split; [exact with_dir_ok|]. split; [exact with_dir_marked|].
    split; [exact sub_walk | exact with_sub_ok]. }
  split.
  - destruct (CreateSubDir_then_there 128 30 blank_header 9 1280 formatted with_dir
                Paths.dir _ _ _ formatted_marked dir_walk with_dir_ok)
      as (new_sector & hdr & _ & _ & Hf & Hl & Hd & _ & Hc & Ho & _ & Hone & _).
    exists new_sector, hdr.
    split; [exact Hf|]. split; [exact Hl|]. split; [exact Hd|]. split; [exact Hc|].
    split; [exact Ho|]. split; [reflexivity|]. exact (Hone eq_refl).
  - destruct (CreateSubDir_then_there 128 30 blank_header 9 1280 with_dir with_sub
                Entries.d_sub _ _ _ with_dir_marked sub_walk with_sub_ok)
      as (new_sector & hdr & _ & _ & _ & _ & Hd & _ & _ & Ho & Hb & _ & Hmore).
    exists new_sector.
    split; [exact Hd|]. split; [exact Ho|]. split; [reflexivity|]. split; [exact Hb|].
    apply Hmore. vm_compute. discriminate.
Defined.

(** [RemoveDir_after_CreateSubDir] at the same two directories.  On the
    buffer that [/d/sub] was created with, [RemoveDir] removes [/d]: it
    clears sector 13, and the root has no directory [d] afterwards. *)
Lemma RemoveDir_after_CreateSubDir_witness :
  (0 < 128 /\ 1 <= 30 /\ 1280 <= bytes_in_level1 128 30
   /\ Z.of_nat (length (dataSectors blank_header)) = 30
   /\ dirs_marked formatted
   /\ resolve 9 formatted (strtok Paths.dir) (dirData formatted DirectorySector)
        DirectorySector
      = Ok (dirData formatted DirectorySector, DirectorySector, [Entries.d])
   /\ CreateSubDir 128 30 blank_header 9 1280 formatted Paths.dir = Ok (true, with_dir)
   /\ dirs_marked with_dir
   /\ resolve 9 with_dir (strtok Entries.d_sub) (dirData with_dir DirectorySector)
        DirectorySector
      = Ok (dirData with_dir 13, 13, [Entries.sub])
   /\ CreateSubDir 128 30 blank_header 9 1280 with_dir Entries.d_sub = Ok (true, with_sub))
  /\ (exists fs2,
        RemoveDir 128 30 9 1 with_dir Paths.dir 0 None = Ok (true, fs2)
        /\ freeMapData fs2 = freeMapData formatted
        /\ dirs_marked fs2
        /\ RemoveDir 128 30 9 1 with_dir (strtok_buffer Paths.dir) 0 None = Ok (true, fs2))
  /\ (exists fs2 fs3,
        RemoveDir 128 30 9 1 with_sub Entries.d_sub 0 None = Ok (true, fs2)
        /\ freeMapData fs2 = freeMapData with_dir
        /\ RemoveDir 128 30 9 1 with_sub (strtok_buffer Entries.d_sub) 0 None
           = Ok (true, fs3)
        /\ Test (freeMapData with_dir) 13 = Ok true
        /\ Test (freeMapData fs3) 13 = Ok false
        /\ FindDir 9 (dirData fs3 DirectorySector) (Some Entries.d) = Ok (-1)).
Proof.
  assert (H0 : 0 < 128) by lia.
  assert (H1 : 1 <= 30) by lia.
  assert (H2 : 1280 <= bytes_in_level1 128 30) by (vm_compute; discriminate).
  assert (H3 : Z.of_nat (length (dataSectors blank_header)) = 30) by reflexivity.
  split.
  { split; [exact H0|]. split; [exact H1|]. split; [exact H2|]. split; [exact H3|].
    split; [exact formatted_marked|]. split; [exact dir_walk|].
    split; [exact with_dir_ok|]. split; [exact with_dir_marked|].
    split; [exact sub_walk | exact with_sub_ok]. }
  split.
  - destruct (RemoveDir_after_CreateSubDir 128 30 blank_header 9 1280 H0 H1 0 formatted
                with_dir Paths.dir _ _ _ 0 None H2 H3 formatted_marked dir_walk with_dir_ok)
      as (fs2 & Hr & Hm & _ & _ & Hk & Hone & _).
    exists fs2. split; [exact Hr|]. split; [exact Hm|]. split; [exact Hk|].
    exact (Hone eq_refl).
  - destruct (RemoveDir_after_CreateSubDir 128 30 blank_header 9 1280 H0 H1 0 with_dir
                with_sub Entries.d_sub _ _ _ 0 None H2 H3 with_dir_marked sub_walk
                with_sub_ok)
      as (fs2 & Hr & Hm & _ & _ & _ & _ & Hmore).
    destruct (Hmore ltac:(vm_compute; discriminate)) as (t & s & Ht & Hs & Hmark & Hany).
    vm_compute in Ht. injection Ht as <-.
    assert (Es : s = 13) by (vm_compute in Hs; now injection Hs).
    subst s.
    destruct (RemoveDir 128 30 9 1 with_sub (strtok_buffer Entries.d_sub) 0 None)
      as [[b fs3]|] eqn:Erun; [|vm_compute in Erun; discriminate].
    destruct (Hany b fs3 eq_refl) as [-> Hclear].
    exists fs2, fs3. split; [exact Hr|]. split; [exact Hm|]. split; [reflexivity|].
    split; [exact Hmark|]. split; [exact Hclear|].
    vm_compute in Erun. injection Erun as <-. vm_compute. reflexivity.
Defined.

(** [path_cut_at_missing_directory] on the disk that holds the
    directory [/d], which has no directory [nosuch]: [Create] of
    [/d/nosuch/deep] is [Create] of [/d/nosuch]; it makes the file
    [nosuch] in [/d], which [Open] of [/d/nosuch] returns; on the buffer
    of the [Create], which reads [/d] by then, [Open] does not return. *)
Lemma path_cut_at_missing_directory_witness :
  (strtok Entries.d_nosuch_deep = [Entries.d] ++ Entries.missing :: [Entries.deep_1]
   /\ strtok Entries.d_nosuch = [Entries.d] ++ Entries.missing :: []
   /\ resolve 9 with_dir ([Entries.d] ++ [Entries.missing])
        (dirData with_dir DirectorySector) DirectorySector
      = Ok (dirData with_dir 13, 13, [Entries.missing])
   /\ Create 128 30 blank_header 9 with_dir Entries.d_nosuch_deep 100
      = Ok (true, with_deep))
  /\ Create 128 30 blank_header 9 with_dir Entries.d_nosuch_deep 100
     = Create 128 30 blank_header 9 with_dir Entries.d_nosuch 100
  /\ Open 9 with_dir Entries.d_nosuch_deep = Open 9 with_dir Entries.d_nosuch
  /\ exists s,
       0 <= s
       /\ Find 9 (dirData with_deep 13) (Some Entries.missing) = Ok s
       /\ Open 9 with_deep Entries.d_nosuch = Ok (Some s)
       /\ strtok_buffer Entries.d_nosuch_deep = Paths.dir
       /\ Open 9 with_deep (strtok_buffer Entries.d_nosuch_deep) = Stop NullPointer.
Proof.
  assert (Hn : strtok Entries.d_nosuch_deep
               = [Entries.d] ++ Entries.missing :: [Entries.deep_1])
    by reflexivity.
  assert (Hn' : strtok Entries.d_nosuch = [Entries.d] ++ Entries.missing :: [])
    by reflexivity.
  split; [split; [exact Hn | split; [exact Hn' | split; [exact nosuch_walk
                                                         | exact with_deep_ok]]]|].
  destruct (path_cut_at_missing_directory 128 30 blank_header 9 1280 0 with_dir
              Entries.d_nosuch_deep Entries.d_nosuch [Entries.d] _ _ Entries.missing _ _
              100 Hn Hn' nosuch_walk)
    as (Hc & _ & Ho & _ & Hmade).
  split; [exact Hc|]. split; [exact Ho|].
  destruct (Hmade with_deep with_deep_ok) as (s & Hs & Hf & Hop & _ & Hb).
  exists s. split; [exact Hs|]. split; [exact Hf|]. split; [exact Hop|].
  split; [reflexivity|]. apply Hb. discriminate.
Defined.

End FSFacts.
